(** * BUSY v2 document parser and import resolver

    A shallow embedding of [packages/busy-python/src/parser.py] (with the
    record types of [models.py] and the exception classes of
    [exceptions.py]) and the properties of the parser and of the import
    resolver that the specification states.

    Conventions of the embedding.
    - Text is a list of 8-bit characters, and the embedding is of the
      parser on ASCII text.  The character classes of the regular
      expressions ([\s], [\d], [\w]), the letters that [(?i)] equates and
      [str.strip], [str.lower] are those of Python on the ASCII range.
      Python's classes reach beyond it (a digit of another script is a
      [\d], a letter with an accent a [\w], the long s matches [s] under
      [(?i)]): a character above 127 is kept here as a character that is
      in none of the classes and that [str.lower] leaves alone, so what is
      stated of a text holds of the parser when the text is ASCII.
    - The regular expressions of the source are kept as regular expressions:
      an abstract syntax and a backtracking matcher that lists the ways a
      pattern matches in the order in which Python's [re] tries them, so the
      first element is the match [re] reports.
    - An exception is a value; a function that can raise returns [result].
    - [yaml.safe_load], the text of a pydantic validation error and the file
      system are collaborators outside the repository: they are parameters,
      with the exceptions that they raise. *)

From Stdlib Require Import Ascii String List ZArith Lia Bool DecimalString.
From stdpp Require Import base list strings gmap.
Import ListNotations.

Local Open Scope nat_scope.
Set Warnings "-register-all,-comment-terminator-in-string,-clear-no-such-hyp".

(** ** Text *)

Abbreviation str := (list ascii).

(** A literal of the source. *)
Definition L (s : string) : str := list_ascii_of_string s.

Module Py.

Definition code (c : ascii) : nat := nat_of_ascii c.

(** [str.isspace] on the ASCII range: TAB, LF, VT, FF, CR, FS, GS, RS, US
    and the space. *)
Definition isspace (c : ascii) : bool :=
  let n := code c in
  ((9 <=? n) && (n <=? 13)) || ((28 <=? n) && (n <=? 32)).

(** [\d] and [str.isdigit] on the ASCII range: the digits 0 to 9. *)
Definition isdigit (c : ascii) : bool :=
  let n := code c in (48 <=? n) && (n <=? 57).

Definition isupper (c : ascii) : bool :=
  let n := code c in (65 <=? n) && (n <=? 90).

Definition islower (c : ascii) : bool :=
  let n := code c in (97 <=? n) && (n <=? 122).

(** A word character, [\w], on the ASCII range: a letter, a digit or the
    underscore. *)
Definition isword (c : ascii) : bool :=
  isupper c || islower c || isdigit c || (code c =? 95).

Definition lower_char (c : ascii) : ascii :=
  if isupper c then ascii_of_nat (code c + 32) else c.

(** [s.lower()] *)
Definition lower (s : str) : str := map lower_char s.

Definition ascii_eqb (a b : ascii) : bool := Ascii.eqb a b.

Fixpoint str_eqb (a b : str) : bool :=
  match a, b with
  | [], [] => true
  | x :: a', y :: b' => ascii_eqb x y && str_eqb a' b'
  | _, _ => false
  end.

(** [len(s) == 0], the truth value of a string negated. *)
Definition is_empty (s : str) : bool :=
  match s with [] => true | _ => false end.

Fixpoint drop_while (p : ascii -> bool) (s : str) : str :=
  match s with
  | c :: s' => if p c then drop_while p s' else s
  | [] => []
  end.

Fixpoint take_while (p : ascii -> bool) (s : str) : str :=
  match s with
  | c :: s' => if p c then c :: take_while p s' else []
  | [] => []
  end.

(** [s.lstrip()], [s.rstrip()], [s.strip()] *)
Definition lstrip (s : str) : str := drop_while isspace s.
Definition rstrip (s : str) : str := rev (drop_while isspace (rev s)).
Definition strip (s : str) : str := rstrip (lstrip s).

Definition mem_char (c : ascii) (set : str) : bool :=
  existsb (ascii_eqb c) set.

(** [s.lstrip(chars)] *)
Definition lstrip_chars (set : str) (s : str) : str :=
  drop_while (fun c => mem_char c set) s.

(** [s.startswith(p)] *)
Fixpoint startswith (p s : str) : bool :=
  match p, s with
  | [], _ => true
  | x :: p', y :: s' => ascii_eqb x y && startswith p' s'
  | _ :: _, [] => false
  end.

(** [p in s] *)
Fixpoint contains (p s : str) : bool :=
  startswith p s ||
  match s with
  | [] => false
  | _ :: s' => contains p s'
  end.

(** [s.split(sep)] for a separator of one character. *)
Fixpoint split (sep : ascii) (s : str) : list str :=
  match s with
  | [] => [[]]
  | c :: s' =>
      if ascii_eqb c sep then [] :: split sep s'
      else match split sep s' with
           | cur :: more => (c :: cur) :: more
           | [] => [[c]]
           end
  end.

(** [s.replace(a, b)] for single characters. *)
Definition replace_char (a b : ascii) (s : str) : str :=
  map (fun c => if ascii_eqb c a then b else c) s.

(** [s[a:b]] for [0 <= a], [0 <= b]. *)
Definition slice (s : str) (a b : nat) : str := take (b - a) (drop a s).

(** [int(s)] on a string of decimal digits. *)
Definition digit_val (c : ascii) : nat := code c - 48.
Definition int_of_digits (s : str) : nat :=
  fold_left (fun acc c => 10 * acc + digit_val c) s 0.

(** [str(n)] for an integer. *)
Definition str_of_nat (n : nat) : str :=
  L (NilZero.string_of_uint (Nat.to_uint n)).
Definition str_of_Z (z : Z) : str :=
  L (NilZero.string_of_int (Z.to_int z)).

End Py.

(** ** Regular expressions, as Python's [re] matches them *)

Module Re.

Record flags := Flags { ignorecase : bool; multiline : bool; dotall : bool }.

Definition no_flags := Flags false false false.
Definition DOTALL := Flags false false true.
Definition MULTILINE := Flags false true false.
Definition DOTALL_MULTILINE := Flags false true true.
Definition IGNORECASE := Flags true false false.

(** One-character matchers: a literal, [.], [\s], [\d], [\w]; alone, in
    a set [[...]] or in a complemented set [[^...]]. *)
Inductive catom :=
| AChar (c : ascii)
| AAny
| ASpace
| ADigit
| AWord.

Inductive cset :=
| One (a : catom)
| OneOf (items : list catom)
| NoneOf (items : list catom).

Definition nl : ascii := ascii_of_nat 10.

(** One character against one atom.  Under [IGNORECASE] a literal matches
    the characters that differ from it by case only, which on the ASCII
    range are its upper and its lower case. *)
Definition amatch (fl : flags) (a : catom) (c : ascii) : bool :=
  match a with
  | AChar x =>
      if ignorecase fl
      then Py.ascii_eqb (Py.lower_char x) (Py.lower_char c)
      else Py.ascii_eqb x c
  | AAny => dotall fl || negb (Py.ascii_eqb c nl)
  | ASpace => Py.isspace c
  | ADigit => Py.isdigit c
  | AWord => Py.isword c
  end.

Definition cmatch (fl : flags) (cs : cset) (c : ascii) : bool :=
  match cs with
  | One a => amatch fl a c
  | OneOf items => existsb (fun a => amatch fl a c) items
  | NoneOf items => negb (existsb (fun a => amatch fl a c) items)
  end.

Inductive regex :=
| Eps
| Chr (cs : cset)
| Seq (r1 r2 : regex)
| Alt (r1 r2 : regex)
| Star (greedy : bool) (r : regex)
| Group (n : nat) (r : regex)
| Bol                                  (* ^ *)
| Eol                                  (* $ *)
| EndZ                                 (* \Z *)
| Look (positive : bool) (r : regex).  (* (?=r) and (?!r) *)

(** Derived forms. *)
Definition Plus (greedy : bool) (r : regex) : regex := Seq r (Star greedy r).
Definition Opt (r : regex) : regex := Alt r Eps.
Definition Str (s : string) : regex :=
  fold_right (fun c r => Seq (Chr (One (AChar c))) r) Eps (L s).
Fixpoint Seqs (rs : list regex) : regex :=
  match rs with
  | [] => Eps
  | [r] => r
  | r :: rs' => Seq r (Seqs rs')
  end.

(** A position of the matcher in the subject: the character before it, its
    offset, the text from it on, and the groups captured so far (the most
    recent first), each with the offset where it starts and its text. *)
Record mstate := MState {
  m_prev : option ascii;
  m_pos : nat;
  m_rest : str;
  m_caps : list (nat * (nat * str))
}.

Definition advance (c : ascii) (rest : str) (st : mstate) : mstate :=
  MState (Some c) (S (m_pos st)) rest (m_caps st).

(** Group [n] opened at [st0] and closed at [st]: its text is what the
    matcher went over in between. *)
Definition set_cap (n : nat) (st0 st : mstate) : mstate :=
  MState (m_prev st) (m_pos st) (m_rest st)
         ((n, (m_pos st0, take (m_pos st - m_pos st0) (m_rest st0))) :: m_caps st).

Definition with_caps (caps : list (nat * (nat * str))) (st : mstate) : mstate :=
  MState (m_prev st) (m_pos st) (m_rest st) caps.

(** [^]: the start of the subject, and under MULTILINE also after a newline. *)
Definition at_bol (fl : flags) (st : mstate) : bool :=
  match m_prev st with
  | None => true
  | Some c => multiline fl && Py.ascii_eqb c nl
  end.

(** [$]: the end of the subject or just before a newline that ends it, and
    under MULTILINE before any newline. *)
Definition at_eol (fl : flags) (st : mstate) : bool :=
  match m_rest st with
  | [] => true
  | c :: rest =>
      Py.ascii_eqb c nl && (multiline fl || Py.is_empty rest)
  end.

Definition progress (st st' : mstate) : bool := m_pos st <? m_pos st'.

(** All the ways [r] matches from [st], in the order of Python's
    backtracking: the first is the one [re] takes.  An iteration of a
    star that consumes nothing is not repeated. *)
Fixpoint rmatch (fl : flags) (r : regex) (st : mstate) : list mstate :=
  match r with
  | Eps => [st]
  | Chr cs =>
      match m_rest st with
      | c :: rest => if cmatch fl cs c then [advance c rest st] else []
      | [] => []
      end
  | Seq r1 r2 => flat_map (rmatch fl r2) (rmatch fl r1 st)
  | Alt r1 r2 => rmatch fl r1 st ++ rmatch fl r2 st
  | Star greedy r1 =>
      (fix loop (n : nat) (st : mstate) : list mstate :=
         match n with
         | 0 => [st]
         | S n' =>
             let more :=
               flat_map (loop n') (List.filter (progress st) (rmatch fl r1 st)) in
             if greedy then more ++ [st] else st :: more
         end) (length (m_rest st)) st
  | Group n r1 => map (set_cap n st) (rmatch fl r1 st)
  | Bol => if at_bol fl st then [st] else []
  | Eol => if at_eol fl st then [st] else []
  | EndZ => if Py.is_empty (m_rest st) then [st] else []
  | Look true r1 =>
      match rmatch fl r1 st with
      | st' :: _ => [with_caps (m_caps st') st]
      | [] => []
      end
  | Look false r1 =>
      match rmatch fl r1 st with
      | _ :: _ => []
      | [] => [st]
      end
  end.

(** The loop of the star, on its own: [rmatch fl (Star g r) st] is
    [star_loop fl g r (length (m_rest st)) st]. *)
Definition star_loop (fl : flags) (greedy : bool) (r1 : regex)
  : nat -> mstate -> list mstate :=
  fix loop (n : nat) (st : mstate) : list mstate :=
    match n with
    | 0 => [st]
    | S n' =>
        let more :=
          flat_map (loop n') (List.filter (progress st) (rmatch fl r1 st)) in
        if greedy then more ++ [st] else st :: more
    end.

(** The groups a pattern can set. *)
Fixpoint groups_of (r : regex) : list nat :=
  match r with
  | Eps | Chr _ | Bol | Eol | EndZ => []
  | Seq r1 r2 | Alt r1 r2 => groups_of r1 ++ groups_of r2
  | Star _ r1 | Look _ r1 => groups_of r1
  | Group n r1 => n :: groups_of r1
  end.

(** A match object: where it starts and the matcher's position at its end. *)
Record rematch := ReMatch { mt_start : nat; mt_final : mstate }.

Definition mt_end (m : rematch) : nat := m_pos (mt_final m).

Definition match_at (fl : flags) (r : regex) (st : mstate) : option rematch :=
  match rmatch fl r st with
  | st' :: _ => Some (ReMatch (m_pos st) st')
  | [] => None
  end.

(** The leftmost match at or after [st]. *)
Fixpoint search_from (fl : flags) (r : regex)
         (prev : option ascii) (pos : nat) (rest : str) : option rematch :=
  match match_at fl r (MState prev pos rest []) with
  | Some m => Some m
  | None =>
      match rest with
      | [] => None
      | c :: rest' => search_from fl r (Some c) (S pos) rest'
      end
  end.

(** [re.match(r, s, fl)] and [re.search(r, s, fl)] *)
Definition re_match (fl : flags) (r : regex) (s : str) : option rematch :=
  match_at fl r (MState None 0 s []).
Definition re_search (fl : flags) (r : regex) (s : str) : option rematch :=
  search_from fl r None 0 s.

(** [re.finditer(r, s, fl)]: the next search starts where the last match
    ended, one character further after an empty match. *)
Fixpoint finditer_from (fuel : nat) (fl : flags) (r : regex)
         (prev : option ascii) (pos : nat) (rest : str) : list rematch :=
  match fuel with
  | 0 => []
  | S fuel' =>
      match search_from fl r prev pos rest with
      | None => []
      | Some m =>
          let fin := mt_final m in
          if mt_start m <? m_pos fin
          then m :: finditer_from fuel' fl r (m_prev fin) (m_pos fin) (m_rest fin)
          else match m_rest fin with
               | c :: rest' =>
                   m :: finditer_from fuel' fl r (Some c) (S (m_pos fin)) rest'
               | [] => [m]
               end
      end
  end.

Definition finditer (fl : flags) (r : regex) (s : str) : list rematch :=
  finditer_from (S (length s)) fl r None 0 s.

Fixpoint cap_lookup (n : nat) (caps : list (nat * (nat * str))) : option (nat * str) :=
  match caps with
  | [] => None
  | (k, sp) :: caps' => if k =? n then Some sp else cap_lookup n caps'
  end.

(** [m.start()] is [mt_start m] and [m.end()] is [mt_end m];
    [m.span(n)] and [m.group(n)] for a group [n >= 1], [None] for a group
    that took no part in the match. *)
Definition span (m : rematch) (n : nat) : option (nat * nat) :=
  match cap_lookup n (m_caps (mt_final m)) with
  | Some (a, g) => Some (a, a + length g)
  | None => None
  end.

Definition group (m : rematch) (n : nat) : option str :=
  match cap_lookup n (m_caps (mt_final m)) with
  | Some (_, g) => Some g
  | None => None
  end.

(** [m.group(n)] where the source takes the group for a string. *)
Definition group_str (m : rematch) (n : nat) : str :=
  match group m n with Some g => g | None => [] end.

(** [re.sub(r, repl, s, count)]: [count = 0] replaces every match. *)
Fixpoint sub_matches (s : str) (pos : nat) (repl : rematch -> str)
         (ms : list rematch) : str :=
  match ms with
  | [] => drop pos s
  | m :: ms' =>
      Py.slice s pos (mt_start m) ++ repl m ++ sub_matches s (mt_end m) repl ms'
  end.

Definition re_sub (fl : flags) (r : regex) (repl : rematch -> str)
           (s : str) (count : nat) : str :=
  let ms := finditer fl r s in
  sub_matches s 0 repl (match count with 0 => ms | _ => take count ms end).

End Re.

(** ** Exceptions ([exceptions.py]) and results *)

(** The exception classes the parser meets: the three of [exceptions.py],
    Python's [ValueError] and [OSError], and pydantic's [ValidationError].
    Each carries its message, [str(e)]. *)
Inductive exn :=
| BusyParseError (msg : str)
| BusyImportError (msg : str)
| BusyValidationError (msg : str)
| ValueError (msg : str)
| ValidationError (msg : str)
| OSError (msg : str).

Definition exn_str (e : exn) : str :=
  match e with
  | BusyParseError m | BusyImportError m | BusyValidationError m
  | ValueError m | ValidationError m | OSError m => m
  end.

Inductive result (A : Type) :=
| Ok (a : A)
| Raise (e : exn).
Arguments Ok {A} a.
Arguments Raise {A} e.

Definition bind {A B} (x : result A) (f : A -> result B) : result B :=
  match x with
  | Ok a => f a
  | Raise e => Raise e
  end.

Notation "'let*' x := c1 'in' c2" := (bind c1 (fun x => c2))
  (at level 10, x pattern, c1 at level 100, c2 at level 200).

(** A loop that raises at the first failing element. *)
Fixpoint mapM {A B} (f : A -> result B) (l : list A) : result (list B) :=
  match l with
  | [] => Ok []
  | a :: l' => let* b := f a in let* bs := mapM f l' in Ok (b :: bs)
  end.

(** ** Python values, as [yaml.safe_load] returns them *)

(** The JSON-like core of YAML: null, booleans, integers, strings,
    sequences, and mappings with string keys (in insertion order). *)
Inductive value :=
| VNone
| VBool (b : bool)
| VInt (z : Z)
| VStr (s : str)
| VList (l : list value)
| VDict (d : list (str * value)).

(** The truth value of a Python value. *)
Definition truthy (v : value) : bool :=
  match v with
  | VNone => false
  | VBool b => b
  | VInt z => negb (z =? 0)%Z
  | VStr s => negb (Py.is_empty s)
  | VList l => match l with [] => false | _ => true end
  | VDict d => match d with [] => false | _ => true end
  end.

(** [type(v)] as an f-string prints it. *)
Definition type_repr (v : value) : str :=
  match v with
  | VNone => L "<class 'NoneType'>"
  | VBool _ => L "<class 'bool'>"
  | VInt _ => L "<class 'int'>"
  | VStr _ => L "<class 'str'>"
  | VList _ => L "<class 'list'>"
  | VDict _ => L "<class 'dict'>"
  end.

(** Dictionaries keep insertion order; assigning to a key that is present
    replaces its value in place. *)
Fixpoint dict_get {V} (k : str) (d : list (str * V)) : option V :=
  match d with
  | [] => None
  | (k', v) :: d' => if Py.str_eqb k' k then Some v else dict_get k d'
  end.

Fixpoint dict_set {V} (k : str) (v : V) (d : list (str * V)) : list (str * V) :=
  match d with
  | [] => [(k, v)]
  | (k', v') :: d' =>
      if Py.str_eqb k' k then (k, v) :: d' else (k', v') :: dict_set k v d'
  end.

(** [d.update(e)] *)
Definition dict_update {V} (d e : list (str * V)) : list (str * V) :=
  fold_left (fun acc kv => dict_set (fst kv) (snd kv) acc) e d.

(** ** What the parser takes from libraries outside the repository *)

(** What [yaml.safe_load] does: a value, a [YAMLError] with its message,
    or an exception of another class (a [ValueError] for a date that does
    not exist, say), which the parser does not catch.  The parser never
    looks at the class of such an exception: it is kept with its message
    as a [ValueError]. *)
Inductive yaml_outcome :=
| YamlValue (v : value)
| YamlError (msg : str)
| YamlRaises (msg : str).

(** - [yaml_safe_load]: [yaml.safe_load];
    - [repr_value]: [str(v)] of a sequence or mapping (an f-string of one);
    - [pydantic_text]: the text of the [ValidationError] that a model named
      by the first argument raises for the failed fields, each with the
      kind of its failure. *)
Record Library := {
  yaml_safe_load : str -> yaml_outcome;
  repr_value : value -> str;
  pydantic_text : str -> list (str * str) -> str
}.

(** ** The record types ([models.py]) *)

Record Metadata := {
  md_name : str;
  md_type : str;
  md_description : str;
  md_provider : option str
}.

Record Import := {
  concept_name : str;
  path : str;
  anchor : option str
}.

Record LocalDefinition := {
  ld_name : str;
  ld_content : str
}.

Record Step := {
  step_number : nat;
  instruction : str;
  operation_references : option (list str)
}.

Record Checklist := { items : list str }.

Record Trigger := {
  raw_text : str;
  trigger_type : str;
  schedule : option str;
  event_type : option str;
  filter : option (list (str * str));
  operation : str;
  queue_when_paused : bool
}.

Record Operation := {
  op_name : str;
  op_inputs : list str;
  op_outputs : list str;
  op_steps : list Step;
  op_checklist : option Checklist
}.

(** An entry of [Tool.providers]: [{"action": ..., "parameters": ...}]. *)
Record ProviderEntry := {
  pr_action : option str;
  pr_parameters : option (list (str * str))
}.

Record Tool := {
  tool_name : str;
  tool_description : str;
  tool_inputs : list str;
  tool_outputs : list str;
  tool_examples : option (list str);
  tool_providers : option (list (str * ProviderEntry))
}.

Record BusyDocument := {
  metadata : Metadata;
  imports : list Import;
  definitions : list LocalDefinition;
  setup : option str;
  operations : list Operation;
  triggers : list Trigger
}.

(** [ToolDocument] extends [BusyDocument] with the field [tools]: a parsed
    document is a plain [BusyDocument] or a [ToolDocument]. *)
Inductive Document :=
| Plain (d : BusyDocument)
| ToolDocument (d : BusyDocument) (tools : list Tool).

Definition doc_fields (d : Document) : BusyDocument :=
  match d with
  | Plain b => b
  | ToolDocument b _ => b
  end.

Definition doc_tools (d : Document) : list Tool :=
  match d with
  | Plain _ => []
  | ToolDocument _ ts => ts
  end.

Definition is_tool_document (d : Document) : bool :=
  match d with
  | Plain _ => false
  | ToolDocument _ _ => true
  end.

(** ** The patterns of [parser.py]

    Each definition is the abstract syntax of the pattern quoted above it. *)

Module Pat.
Import Re.

Definition ch (c : ascii) : regex := Chr (One (AChar c)).
Definition sp : regex := Chr (One ASpace).        (* \s *)
Definition digit : regex := Chr (One ADigit).     (* \d *)
Definition word : regex := Chr (One AWord).       (* \w *)
Definition dot : regex := Chr (One AAny).         (* . *)
Definition not_nl : regex := Chr (NoneOf [AChar nl]).   (* [^\n] *)
Definition newline : regex := ch nl.                    (* \n *)
Definition sp_star : regex := Star true sp.       (* \s* *)
Definition sp_plus : regex := Plus true sp.       (* \s+ *)

(** "(?:\[name\]|name)": a heading label, bare or in square brackets. *)
Definition label (name : regex) : regex :=
  Alt (Seqs [ch "["; name; ch "]"]) name.

(** "Words?": a word with an optional final s. *)
Definition plural (stem : string) : regex := Seq (Str stem) (Opt (ch "s")).

(** "^---\s*\n(.*?)\n---\s*\n(.*)$", DOTALL *)
Definition frontmatter : regex :=
  Seqs [Bol; Str "---"; sp_star; newline; Group 1 (Star false dot);
        newline; Str "---"; sp_star; newline; Group 2 (Star true dot); Eol].

(** "\[([^\]]+)\]:\s*([^\s#]+)(?:#([^\s]+))?" *)
Definition import_link : regex :=
  Seqs [ch "["; Group 1 (Plus true (Chr (NoneOf [AChar "]"])));
        ch "]"; ch ":"; sp_star;
        Group 2 (Plus true (Chr (NoneOf [ASpace; AChar "#"])));
        Opt (Seq (ch "#") (Group 3 (Plus true (Chr (NoneOf [ASpace])))))].

(** "#\s+(?:\[Local Definitions\]|Local Definitions)\s*\n(.*?)(?=\n#\s+|\Z)",
    DOTALL *)
Definition local_definitions : regex :=
  Seqs [ch "#"; sp_plus; label (Str "Local Definitions"); sp_star; newline;
        Group 1 (Star false dot);
        Look true (Alt (Seqs [newline; ch "#"; sp_plus]) EndZ)].

(** "##\s+([^\n]+)\n(.*?)(?=\n##\s+|\Z)", DOTALL *)
Definition definition_heading : regex :=
  Seqs [Str "##"; sp_plus; Group 1 (Plus true not_nl); newline;
        Group 2 (Star false dot);
        Look true (Alt (Seqs [newline; Str "##"; sp_plus]) EndZ)].

(** "^\[(.+)\]$" *)
Definition bracketed : regex :=
  Seqs [Bol; ch "["; Group 1 (Plus true dot); ch "]"; Eol].

(** "#\s+(?:\[Setup\]|Setup)\s*\n(.*?)(?=\n#\s+|\Z)", DOTALL *)
Definition setup_section : regex :=
  Seqs [ch "#"; sp_plus; label (Str "Setup"); sp_star; newline;
        Group 1 (Star false dot);
        Look true (Alt (Seqs [newline; ch "#"; sp_plus]) EndZ)].

(** "^```[^\n]*\n(.*?)^```", DOTALL | MULTILINE *)
Definition fence : regex :=
  Seqs [Bol; Str "```"; Star true not_nl; newline;
        Group 1 (Star false dot); Bol; Str "```"].

(** "#\s+(?:\[Operations?\]|Operations?)\s*\n(.*)$", DOTALL: the pattern
    of [_parse_tools_section]. *)
Definition tools_section : regex :=
  Seqs [ch "#"; sp_plus; label (plural "Operation"); sp_star; newline;
        Group 1 (Star true dot); Eol].

(** "#\s+(?:\[Operations\]|Operations)\s*\n(.*)$", DOTALL: the pattern of
    [_parse_operations]. *)
Definition operations_section : regex :=
  Seqs [ch "#"; sp_plus; label (Str "Operations"); sp_star; newline;
        Group 1 (Star true dot); Eol].

(** "^##\s+([^\n]+)", MULTILINE *)
Definition item_heading : regex :=
  Seqs [Bol; Str "##"; sp_plus; Group 1 (Plus true not_nl)].

(** "^##\s+[^\n]+\n" *)
Definition item_heading_line : regex :=
  Seqs [Bol; Str "##"; sp_plus; Plus true not_nl; newline].

(** "^(.*?)(?=\n###\s+|\Z)", DOTALL *)
Definition tool_description_pat : regex :=
  Seqs [Bol; Group 1 (Star false dot);
        Look true (Alt (Seqs [newline; Str "###"; sp_plus]) EndZ)].

(** "###\s+(?:\[name\]|name)\s*\n(.*?)(?=\n###\s+|\Z)", DOTALL: the
    sub-sections Inputs, Outputs, Examples and Steps. *)
Definition subsection (name : regex) : regex :=
  Seqs [Str "###"; sp_plus; label name; sp_star; newline;
        Group 1 (Star false dot);
        Look true (Alt (Seqs [newline; Str "###"; sp_plus]) EndZ)].

(** "###\s+(?:\[Providers?\]|Providers?)\s*\n(.*?)(?=\n##\s+|\Z)", DOTALL *)
Definition providers_section : regex :=
  Seqs [Str "###"; sp_plus; label (plural "Provider"); sp_star; newline;
        Group 1 (Star false dot);
        Look true (Alt (Seqs [newline; Str "##"; sp_plus]) EndZ)].

(** "####\s+([^\n]+)\n(.*?)(?=\n####\s+|\Z)", DOTALL *)
Definition provider_heading : regex :=
  Seqs [Str "####"; sp_plus; Group 1 (Plus true not_nl); newline;
        Group 2 (Star false dot);
        Look true (Alt (Seqs [newline; Str "####"; sp_plus]) EndZ)].

(** "Action:\s*([^\n]+)" *)
Definition action_line : regex :=
  Seqs [Str "Action:"; sp_star; Group 1 (Plus true not_nl)].

(** "Parameters:\s*\n(.*?)(?=\n(?:Action|####)|\Z)", DOTALL *)
Definition parameters_block : regex :=
  Seqs [Str "Parameters:"; sp_star; newline; Group 1 (Star false dot);
        Look true (Alt (Seq newline (Alt (Str "Action") (Str "####"))) EndZ)].

(** "(\d+)\.\s+([^\n]+(?:\n(?!\d+\.)[^\n]+)*)" *)
Definition step_pat : regex :=
  Seqs [Group 1 (Plus true digit); ch "."; sp_plus;
        Group 2 (Seq (Plus true not_nl)
                     (Star true (Seqs [newline;
                                       Look false (Seq (Plus true digit) (ch "."));
                                       Plus true not_nl])))].

(** "\[([^\]]+)\]" *)
Definition bracket_ref : regex :=
  Seqs [ch "["; Group 1 (Plus true (Chr (NoneOf [AChar "]"]))); ch "]"].

(** "###\s+(?:\[Checklist\]|Checklist)\s*\n(.*?)(?=\n###\s+|\n##\s+|\Z)",
    DOTALL *)
Definition checklist_section : regex :=
  Seqs [Str "###"; sp_plus; label (Str "Checklist"); sp_star; newline;
        Group 1 (Star false dot);
        Look true (Alt (Seqs [newline; Str "###"; sp_plus])
                       (Alt (Seqs [newline; Str "##"; sp_plus]) EndZ))].

(** "#\s+(?:\[Triggers?\]|Triggers?)\s*\n(.*)(?=\n#\s+[^\n]+\n|\Z)", DOTALL *)
Definition triggers_section : regex :=
  Seqs [ch "#"; sp_plus; label (plural "Trigger"); sp_star; newline;
        Group 1 (Star true dot);
        Look true (Alt (Seqs [newline; ch "#"; sp_plus; Plus true not_nl; newline])
                       EndZ)].

(** "(?i)set\s+alarm\s+for\s+(.+?)\s+to\s+run\s+(\w+)" *)
Definition alarm : regex :=
  Seqs [Str "set"; sp_plus; Str "alarm"; sp_plus; Str "for"; sp_plus;
        Group 1 (Plus false dot); sp_plus; Str "to"; sp_plus; Str "run";
        sp_plus; Group 2 (Plus true word)].

(** "(?i)when\s+([\w.]+)(?:\s+from\s+(.+?))?,\s*run\s+(\w+)" *)
Definition event : regex :=
  Seqs [Str "when"; sp_plus;
        Group 1 (Plus true (Chr (OneOf [AWord; AChar "."])));
        Opt (Seqs [sp_plus; Str "from"; sp_plus; Group 2 (Plus false dot)]);
        ch ","; sp_star; Str "run"; sp_plus; Group 3 (Plus true word)].

(** "(\d{1,2})(?::(\d{2}))?\s*(am|pm)?" *)
Definition hour : regex :=
  Seqs [Group 1 (Seq digit (Opt digit));
        Opt (Seq (ch ":") (Group 2 (Seq digit digit)));
        sp_star;
        Opt (Group 3 (Alt (Str "am") (Str "pm")))].

End Pat.

(** ** The parser ([parser.py]) *)

Section Parser.

Variable lib : Library.

(** *** Construction of the records, with pydantic's field validation *)

(** A failure is the field and the kind of the failure. *)
Definition failure : Type := str * str.

Definition validated {A} (model : string) (errs : list failure) (a : A) : result A :=
  match errs with
  | [] => Ok a
  | _ :: _ => Raise (ValidationError (pydantic_text lib (L model) errs))
  end.

(** [Field(..., min_length=1)] on a string. *)
Definition min_length_1 (field : string) (s : str) : list failure :=
  if Py.is_empty s then [(L field, L "string_too_short")] else [].

(** A field of type [str]. *)
Definition str_field (field : string) (min1 : bool) (v : value) : str * list failure :=
  match v with
  | VStr s => (s, if min1 then min_length_1 field s else [])
  | _ => ([], [(L field, L "string_type")])
  end.

(** A field of type [Optional[str]]. *)
Definition opt_str_field (field : string) (v : value) : option str * list failure :=
  match v with
  | VNone => (None, [])
  | VStr s => (Some s, [])
  | _ => (None, [(L field, L "string_type")])
  end.

(** A field of type [Optional[dict[str, str]]]. *)
Definition opt_str_dict_field (field : string) (v : value)
  : option (list (str * str)) * list failure :=
  match v with
  | VNone => (None, [])
  | VDict d =>
      let bad := List.filter (fun kv => match snd kv with VStr _ => false | _ => true end) d in
      (Some (map (fun kv => (fst kv, match snd kv with VStr s => s | _ => [] end)) d),
       map (fun kv => (L field ++ L "." ++ fst kv, L "string_type")) bad)
  | _ => (None, [(L field, L "dict_type")])
  end.

(** A field of type [bool]: pydantic also takes the integers 0 and 1 and
    the usual spellings of the two truth values. *)
Definition bool_field (field : string) (v : value) : bool * list failure :=
  let bad := (false, [(L field, L "bool_parsing")]) in
  match v with
  | VBool b => (b, [])
  | VInt z => if (z =? 0)%Z then (false, []) else if (z =? 1)%Z then (true, []) else bad
  | VStr s =>
      let t := Py.lower s in
      if existsb (Py.str_eqb t) (map L ["1"; "on"; "t"; "true"; "y"; "yes"]%string)
      then (true, [])
      else if existsb (Py.str_eqb t) (map L ["0"; "off"; "f"; "false"; "n"; "no"]%string)
      then (false, [])
      else bad
  | _ => bad
  end.

Definition new_Metadata (name type description provider : value) : result Metadata :=
  let '(n, e1) := str_field "name" true name in
  let '(t, e2) := str_field "type" false type in
  let '(d, e3) := str_field "description" true description in
  let '(p, e4) := opt_str_field "provider" provider in
  validated "Metadata" (e1 ++ e2 ++ e3 ++ e4)
    {| md_name := n; md_type := t; md_description := d; md_provider := p |}.

Definition new_Import (concept_name path : str) (anchor : option str) : result Import :=
  validated "Import"
    (min_length_1 "concept_name" concept_name ++ min_length_1 "path" path)
    {| concept_name := concept_name; path := path; anchor := anchor |}.

Definition new_LocalDefinition (name content : str) : result LocalDefinition :=
  validated "LocalDefinition" (min_length_1 "name" name)
    {| ld_name := name; ld_content := content |}.

Definition new_Step (step_number : nat) (instruction : str)
           (operation_references : option (list str)) : result Step :=
  validated "Step"
    ((if 1 <=? step_number then [] else [(L "step_number", L "greater_than_equal")])
       ++ min_length_1 "instruction" instruction)
    {| step_number := step_number; instruction := instruction;
       operation_references := operation_references |}.

Definition new_Operation (name : str) (inputs outputs : list str)
           (steps : list Step) (checklist : option Checklist) : result Operation :=
  validated "Operation" (min_length_1 "name" name)
    {| op_name := name; op_inputs := inputs; op_outputs := outputs;
       op_steps := steps; op_checklist := checklist |}.

Definition new_Tool (name description : str) (inputs outputs : list str)
           (examples : option (list str))
           (providers : option (list (str * ProviderEntry))) : result Tool :=
  validated "Tool"
    (min_length_1 "name" name ++ min_length_1 "description" description)
    {| tool_name := name; tool_description := description;
       tool_inputs := inputs; tool_outputs := outputs;
       tool_examples := examples; tool_providers := providers |}.

Definition new_Trigger (raw_text trigger_type : str)
           (schedule event_type filter : value) (operation : value)
           (queue_when_paused : value) : result Trigger :=
  let '(s, e1) := opt_str_field "schedule" schedule in
  let '(ev, e2) := opt_str_field "event_type" event_type in
  let '(f, e3) := opt_str_dict_field "filter" filter in
  let '(o, e4) := str_field "operation" true operation in
  let '(q, e5) := bool_field "queue_when_paused" queue_when_paused in
  validated "Trigger" (min_length_1 "raw_text" raw_text ++ e1 ++ e2 ++ e3 ++ e4 ++ e5)
    {| raw_text := raw_text; trigger_type := trigger_type; schedule := s;
       event_type := ev; filter := f; operation := o; queue_when_paused := q |}.

(** *** [_extract_metadata] *)

(** [str(v)], as an f-string prints a value. *)
Definition value_str (v : value) : str :=
  match v with
  | VNone => L "None"
  | VBool true => L "True"
  | VBool false => L "False"
  | VInt z => Py.str_of_Z z
  | VStr s => s
  | VList _ | VDict _ => repr_value lib v
  end.

(** [d.get(k)]: [None] for a key that is absent. *)
Definition get_or_none (k : string) (d : list (str * value)) : value :=
  match dict_get (L k) d with
  | Some v => v
  | None => VNone
  end.

Definition missing_field (d : list (str * value)) (field : string) : result unit :=
  match dict_get (L field) d with
  | Some _ => Ok tt
  | None =>
      Raise (BusyValidationError
               (L "Missing required field '" ++ L field ++ L "' in document metadata"))
  end.

Definition _extract_metadata (content : str)
  : result (Metadata * str * list (str * value)) :=
  match Re.re_match Re.DOTALL Pat.frontmatter content with
  | None =>
      Raise (BusyValidationError
               (L "Document missing metadata section (YAML frontmatter with --- fences)"))
  | Some m =>
      let yaml_content := Re.group_str m 1 in
      let remaining_content := Re.group_str m 2 in
      match yaml_safe_load lib yaml_content with
      | YamlError e =>
          Raise (BusyValidationError (L "Invalid YAML in frontmatter: " ++ e))
      | YamlRaises e => Raise (ValueError e)
      | YamlValue (VDict data) =>
          let* _ := missing_field data "Name" in
          let* _ := missing_field data "Type" in
          let* _ := missing_field data "Description" in
          let type_value :=
            match get_or_none "Type" data with
            | VList [] => VStr (L "[]")
            | VList (first :: _) => VStr (L "[" ++ value_str first ++ L "]")
            | v => v
            end in
          let provider := get_or_none "Provider" data in
          match new_Metadata (get_or_none "Name" data) type_value
                             (get_or_none "Description" data) provider with
          | Raise e =>
              Raise (BusyValidationError (L "Invalid metadata data: " ++ exn_str e))
          | Ok metadata => Ok (metadata, remaining_content, data)
          end
      | YamlValue _ =>
          Raise (BusyValidationError (L "Document metadata must be a YAML dictionary"))
      end
  end.

(** *** [_parse_imports] *)

Definition import_of_match (m : Re.rematch) : result Import :=
  new_Import (Re.group_str m 1) (Re.group_str m 2)
             (match Re.group m 3 with
              | Some a => if Py.is_empty a then None else Some a
              | None => None
              end).

(** The record [Import(...)] builds from a match when its validation
    passes. *)
Definition import_entry (m : Re.rematch) : Import :=
  {| concept_name := Re.group_str m 1;
     path := Re.group_str m 2;
     anchor := match Re.group m 3 with
               | Some a => if Py.is_empty a then None else Some a
               | None => None
               end |}.

Definition _parse_imports (content : str) : result (list Import) :=
  mapM import_of_match (Re.finditer Re.no_flags Pat.import_link content).

(** *** [_parse_local_definitions] and [_parse_setup] *)

(** [re.sub(r"^\[(.+)\]$", r"\1", name)] *)
Definition unbracket (name : str) : str :=
  Re.re_sub Re.no_flags Pat.bracketed (fun m => Re.group_str m 1) name 0.

Definition _parse_local_definitions (content : str) : result (list LocalDefinition) :=
  match Re.re_search Re.DOTALL Pat.local_definitions content with
  | None => Ok []
  | Some m =>
      let section_content := Re.group_str m 1 in
      mapM (fun hm =>
              let name := unbracket (Py.strip (Re.group_str hm 1)) in
              let definition_content := Py.strip (Re.group_str hm 2) in
              new_LocalDefinition name definition_content)
           (Re.finditer Re.DOTALL Pat.definition_heading section_content)
  end.

Definition _parse_setup (content : str) : option str :=
  match Re.re_search Re.DOTALL Pat.setup_section content with
  | None => None
  | Some m => Some (Py.strip (Re.group_str m 1))
  end.

(** *** [_find_code_fence_regions] and [_is_position_in_code_fence] *)

Definition _find_code_fence_regions (content : str) : list (nat * nat) :=
  map (fun m => (Re.mt_start m, Re.mt_end m))
      (Re.finditer Re.DOTALL_MULTILINE Pat.fence content).

Definition _is_position_in_code_fence (pos : nat) (fence_regions : list (nat * nat)) : bool :=
  existsb (fun r => (fst r <=? pos) && (pos <? snd r)) fence_regions.

(** *** What [_parse_operations] and [_parse_tools_section] share

    The source writes these steps out twice, once in each function. *)

(** The [##] headings outside the code fences: offset and name. *)
Definition item_boundaries (section_content : str) : list (nat * str) :=
  let fence_regions := _find_code_fence_regions section_content in
  flat_map
    (fun hm =>
       if negb (_is_position_in_code_fence (Re.mt_start hm) fence_regions)
       then [(Re.mt_start hm, unbracket (Py.strip (Re.group_str hm 1)))]
       else [])
    (Re.finditer Re.MULTILINE Pat.item_heading section_content).

(** The end of the item that starts at a boundary: the start of the next
    boundary, or the end of the section. *)
Fixpoint item_spans (section_len : nat) (bs : list (nat * str)) : list (nat * nat * str) :=
  match bs with
  | [] => []
  | (start_pos, name) :: rest =>
      let end_pos := match rest with
                     | (next, _) :: _ => next
                     | [] => section_len
                     end in
      (start_pos, end_pos, name) :: item_spans section_len rest
  end.

(** [section_content[start_pos:end_pos]], as cut out of the section. *)
Definition item_slice (section_content : str) (start_pos end_pos : nat) : str :=
  Py.slice section_content start_pos end_pos.

(** The slice without its heading line, stripped. *)
Definition item_content (raw : str) : str :=
  Py.strip (Re.re_sub Re.no_flags Pat.item_heading_line (fun _ => []) raw 1).

(** The list items of a sub-section: the lines that start with [-] or
    [*], without the marker. *)
Definition is_bullet (line : str) : bool :=
  Py.startswith (L "-") line || Py.startswith (L "*") line.

Definition bullet_items (text : str) : list str :=
  flat_map (fun line =>
              let line := Py.strip line in
              if is_bullet line
              then [Py.strip (Py.lstrip_chars (L "-*") line)]
              else [])
           (Py.split Re.nl text).

Definition subsection_items (name : Re.regex) (content : str) : list str :=
  match Re.re_search Re.DOTALL (Pat.subsection name) content with
  | Some m => bullet_items (Re.group_str m 1)
  | None => []
  end.

(** *** [_parse_tools_section] *)

(** [line.split(":", 1)] on a line that holds a colon. *)
Fixpoint split_colon (line : str) : str * str :=
  match line with
  | [] => ([], [])
  | c :: rest =>
      if Py.ascii_eqb c ":" then ([], rest)
      else let '(k, v) := split_colon rest in (c :: k, v)
  end.

Definition parse_parameters (provider_content : str) : list (str * str) :=
  match Re.re_search Re.DOTALL Pat.parameters_block provider_content with
  | None => []
  | Some m =>
      fold_left
        (fun parameters line =>
           let line := Py.strip line in
           if Py.contains (L ":") line
           then let '(key, value) := split_colon line in
                dict_set (Py.strip key) (Py.strip value) parameters
           else parameters)
        (Py.split Re.nl (Re.group_str m 1)) []
  end.

Definition parse_providers (tool_content : str) : list (str * ProviderEntry) :=
  match Re.re_search Re.DOTALL Pat.providers_section tool_content with
  | None => []
  | Some m =>
      let providers_text := Re.group_str m 1 in
      fold_left
        (fun providers pm =>
           let provider_name := Py.strip (Re.group_str pm 1) in
           let provider_content := Py.strip (Re.group_str pm 2) in
           let action :=
             match Re.re_search Re.no_flags Pat.action_line provider_content with
             | Some am => Some (Py.strip (Re.group_str am 1))
             | None => None
             end in
           let parameters := parse_parameters provider_content in
           dict_set provider_name
             {| pr_action := action;
                pr_parameters := match parameters with [] => None | _ => Some parameters end |}
             providers)
        (Re.finditer Re.DOTALL Pat.provider_heading providers_text) []
  end.

Definition parse_tool (section_content : str) (item : nat * nat * str) : result Tool :=
  let '(start_pos, end_pos, name) := item in
  let tool_content := item_content (item_slice section_content start_pos end_pos) in
  let description :=
    match Re.re_search Re.DOTALL Pat.tool_description_pat tool_content with
    | Some dm => Py.strip (Re.group_str dm 1)
    | None => []
    end in
  if Py.is_empty description
  then Raise (BusyValidationError (L "Tool '" ++ name ++ L "' missing description"))
  else
    let inputs := subsection_items (Pat.plural "Input") tool_content in
    let outputs := subsection_items (Pat.plural "Output") tool_content in
    let examples := subsection_items (Pat.plural "Example") tool_content in
    let providers := parse_providers tool_content in
    new_Tool name description inputs outputs
      (match examples with [] => None | _ => Some examples end)
      (match providers with [] => None | _ => Some providers end).

Definition _parse_tools_section (content : str) : result (list Tool) :=
  match Re.re_search Re.DOTALL Pat.tools_section content with
  | None => Ok []
  | Some m =>
      let section_content := Re.group_str m 1 in
      let tool_boundaries := item_boundaries section_content in
      mapM (parse_tool section_content)
           (item_spans (length section_content) tool_boundaries)
  end.

(** *** [_parse_operations] *)

Definition parse_step (steps_text : str) (sm : Re.rematch) : result Step :=
  let step_number := Py.int_of_digits (Re.group_str sm 1) in
  let instruction := Py.strip (Re.group_str sm 2) in
  let op_refs :=
    map (fun rm => Re.group_str rm 1)
        (Re.finditer Re.no_flags Pat.bracket_ref instruction) in
  new_Step step_number instruction
           (match op_refs with [] => None | _ => Some op_refs end).

Definition parse_steps (op_content : str) : result (list Step) :=
  match Re.re_search Re.DOTALL (Pat.subsection (Pat.plural "Step")) op_content with
  | None => Ok []
  | Some m =>
      let steps_text := Re.group_str m 1 in
      mapM (parse_step steps_text) (Re.finditer Re.no_flags Pat.step_pat steps_text)
  end.

Definition parse_checklist (op_content : str) : option Checklist :=
  match Re.re_search Re.DOTALL Pat.checklist_section op_content with
  | None => None
  | Some m =>
      match bullet_items (Re.group_str m 1) with
      | [] => None
      | items => Some {| items := items |}
      end
  end.

Definition parse_operation (section_content : str) (item : nat * nat * str)
  : result Operation :=
  let '(start_pos, end_pos, name) := item in
  let op_content := item_content (item_slice section_content start_pos end_pos) in
  let inputs := subsection_items (Pat.plural "Input") op_content in
  let outputs := subsection_items (Pat.plural "Output") op_content in
  let* steps := parse_steps op_content in
  let checklist := parse_checklist op_content in
  new_Operation name inputs outputs steps checklist.

Definition _parse_operations (content : str) : result (list Operation) :=
  match Re.re_search Re.DOTALL Pat.operations_section content with
  | None => Ok []
  | Some m =>
      let section_content := Re.group_str m 1 in
      let operation_boundaries := item_boundaries section_content in
      mapM (parse_operation section_content)
           (item_spans (length section_content) operation_boundaries)
  end.

(** *** The trigger parsers *)

Definition weekdays : list (string * string) :=
  [("monday", "1"); ("tuesday", "2"); ("wednesday", "3"); ("thursday", "4");
   ("friday", "5"); ("saturday", "6"); ("sunday", "0")]%string.

(** The chain of [if]/[elif] over the weekday names. *)
Fixpoint first_weekday (days : list (string * string)) (time_spec_lower : str) : str :=
  match days with
  | [] => L "*"
  | (name, digit) :: days' =>
      if Py.contains (L name) time_spec_lower then L digit
      else first_weekday days' time_spec_lower
  end.

Definition _parse_time_spec (time_spec : str) : result str :=
  let time_spec_lower := Py.lower time_spec in
  match Re.re_search Re.no_flags Pat.hour time_spec_lower with
  | None => Raise (ValueError (L "Cannot parse time from '" ++ time_spec ++ L "'"))
  | Some hm =>
      let hour := Py.int_of_digits (Re.group_str hm 1) in
      let minute :=
        match Re.group hm 2 with
        | Some g => if Py.is_empty g then 0 else Py.int_of_digits g
        | None => 0
        end in
      let am_pm := Re.group hm 3 in
      let am_pm_is x :=
        match am_pm with Some g => Py.str_eqb g (L x) | None => false end in
      let hour :=
        if am_pm_is "pm" && negb (hour =? 12) then hour + 12
        else if am_pm_is "am" && (hour =? 12) then 0
        else hour in
      let day_of_week := first_weekday weekdays time_spec_lower in
      Ok (Py.str_of_nat minute ++ L " " ++ Py.str_of_nat hour ++ L " * * " ++ day_of_week)
  end.

Definition _parse_filter_spec (filter_spec : str) : list (str * value) :=
  [(L "from", VStr filter_spec)].

Definition unrecognized_trigger : str :=
  L "Unrecognized trigger format. Expected 'Set alarm for <time> to run <Operation>' or 'When <event> [from <filter>], run <Operation>'".

Definition _parse_trigger_declaration (text : str) : result Trigger :=
  match Re.re_match Re.IGNORECASE Pat.alarm text with
  | Some am =>
      let time_spec := Py.strip (Re.group_str am 1) in
      let operation := Py.strip (Re.group_str am 2) in
      let* schedule := _parse_time_spec time_spec in
      new_Trigger text (L "alarm") (VStr schedule) VNone VNone
                  (VStr operation) (VBool true)
  | None =>
      match Re.re_match Re.IGNORECASE Pat.event text with
      | Some em =>
          let event_type := Py.strip (Re.group_str em 1) in
          let filter_spec :=
            match Re.group em 2 with
            | Some g => if Py.is_empty g then None else Some (Py.strip g)
            | None => None
            end in
          let operation := Py.strip (Re.group_str em 3) in
          let filter_dict :=
            match filter_spec with
            | Some f => if Py.is_empty f then VNone else VDict (_parse_filter_spec f)
            | None => VNone
            end in
          new_Trigger text (L "event") VNone (VStr event_type) filter_dict
                      (VStr operation) (VBool true)
      | None => Raise (ValueError unrecognized_trigger)
      end
  end.

(** One line of the Triggers section: nothing for a line that is not a
    list item, else the trigger or the validation error. *)
Definition parse_trigger_line (line : str) : result (list Trigger) :=
  let line := Py.strip line in
  if Py.is_empty line || negb (is_bullet line) then Ok []
  else
    let trigger_text := Py.strip (Py.lstrip_chars (L "-*") line) in
    if Py.is_empty trigger_text then Ok []
    else
      match _parse_trigger_declaration trigger_text with
      | Ok trigger => Ok [trigger]
      | Raise e =>
          Raise (BusyValidationError
                   (L "Invalid trigger declaration '" ++ trigger_text ++ L "': "
                      ++ exn_str e))
      end.

Definition _parse_triggers (content : str) : result (list Trigger) :=
  match Re.re_search Re.DOTALL Pat.triggers_section content with
  | None => Ok []
  | Some m =>
      let section_content := Re.group_str m 1 in
      let* per_line := mapM parse_trigger_line (Py.split Re.nl section_content) in
      Ok (concat per_line)
  end.

Definition frontmatter_trigger (metadata : Metadata) (trigger_dict : value)
  : result Trigger :=
  match trigger_dict with
  | VDict d =>
      let event_type := get_or_none "event_type" d in
      if negb (truthy event_type)
      then Raise (BusyValidationError
                    (L "Frontmatter trigger missing required field: event_type"))
      else
        let filters := get_or_none "filters" d in
        if truthy filters && negb (match filters with VDict _ => true | _ => false end)
        then Raise (BusyValidationError
                      (L "Trigger filters must be a dictionary, got: " ++ type_repr filters))
        else
          let queue_when_paused :=
            match dict_get (L "queue_when_paused") d with
            | Some v => v
            | None => VBool true
            end in
          new_Trigger (L "Frontmatter trigger: " ++ value_str event_type) (L "event")
                      VNone event_type filters (VStr (md_name metadata))
                      queue_when_paused
  | _ =>
      Raise (BusyValidationError
               (L "Each trigger in frontmatter must be a dictionary, got: "
                  ++ type_repr trigger_dict))
  end.

Definition _parse_frontmatter_triggers (frontmatter_data : list (str * value))
           (metadata : Metadata) : result (list Trigger) :=
  let frontmatter_triggers := get_or_none "Triggers" frontmatter_data in
  if negb (truthy frontmatter_triggers) then Ok []
  else
    match frontmatter_triggers with
    | VList l => mapM (frontmatter_trigger metadata) l
    | _ =>
        Raise (BusyValidationError
                 (L "Frontmatter Triggers field must be a list of trigger declarations"))
    end.

(** *** [parse_document] *)

Definition tool_tag : str := L "[Tool]".

(** The body of the [try] statement. *)
Definition parse_document_body (content : str) : result Document :=
  let* (metadata, remaining_content, frontmatter_data) := _extract_metadata content in
  let* imports := _parse_imports remaining_content in
  let* definitions := _parse_local_definitions remaining_content in
  let setup := _parse_setup remaining_content in
  let* operations := _parse_operations remaining_content in
  if Py.str_eqb (md_type metadata) tool_tag then
    let* tools := _parse_tools_section remaining_content in
    match tools with
    | [] =>
        Raise (BusyValidationError
                 (L "Tool document must contain at least one tool definition in Tools section"))
    | _ :: _ =>
        Ok (ToolDocument
              {| metadata := metadata; imports := imports; definitions := definitions;
                 setup := setup; operations := operations; triggers := [] |}
              tools)
    end
  else
    let* frontmatter_triggers := _parse_frontmatter_triggers frontmatter_data metadata in
    let* markdown_triggers := _parse_triggers remaining_content in
    let triggers := frontmatter_triggers ++ markdown_triggers in
    Ok (Plain
          {| metadata := metadata; imports := imports; definitions := definitions;
             setup := setup; operations := operations; triggers := triggers |}).

(** The two [except] clauses: a validation or import error is raised
    again as it is, any other exception becomes a parse error. *)
Definition parse_document (content : str) : result Document :=
  match parse_document_body content with
  | Ok d => Ok d
  | Raise (BusyValidationError m) => Raise (BusyValidationError m)
  | Raise (BusyImportError m) => Raise (BusyImportError m)
  | Raise e => Raise (BusyParseError (L "Failed to parse BUSY document: " ++ exn_str e))
  end.

End Parser.

(** ** The import resolver ([resolve_imports]) *)

(** The file system, as [pathlib.Path] shows it: [base / p], [p.exists()],
    [str(p.resolve())], [p.read_text()] and [p.parent].  A path is its
    text.  The three calls that ask the operating system can raise (an
    [OSError] for a name that is too long or a directory that may not be
    searched, say). *)
Record FileSystem := {
  path_join : str -> str -> str;
  path_exists : str -> result bool;
  path_resolve : str -> result str;
  read_text : str -> result str;
  path_parent : str -> str
}.

(** What a call of [resolve_imports] changes: the set [_visited], shared
    by the whole recursion, and the files read so far, oldest first. *)
Record rstate := RState {
  visited : gset str;
  reads : list str
}.

Definition mark (key : str) (st : rstate) : rstate :=
  RState ({[key]} ∪ visited st) (reads st).

Definition unmark (key : str) (st : rstate) : rstate :=
  RState (visited st ∖ {[key]}) (reads st).

Definition log_read (p : str) (st : rstate) : rstate :=
  RState (visited st) (reads st ++ [p]).

Section Resolver.

Variable lib : Library.
Variable fs : FileSystem.

(** [name.lower().replace(" ", "-")] *)
Definition anchor_of_name (name : str) : str :=
  Py.replace_char " " "-" (Py.lower name).

Definition anchor_found (imported_doc : Document) (anchor : str) : bool :=
  existsb (fun op => Py.str_eqb (anchor_of_name (op_name op)) (Py.lower anchor))
          (operations (doc_fields imported_doc))
  || existsb (fun defn => Py.str_eqb (anchor_of_name (ld_name defn)) (Py.lower anchor))
             (definitions (doc_fields imported_doc)).

Definition not_found_msg (import_ref : Import) (import_path : str) : str :=
  L "Import path '" ++ path import_ref ++ L "' not found (resolved to "
    ++ import_path ++ L ")".

Definition circular_msg (import_ref : Import) (import_path : str) : str :=
  L "Circular import detected: '" ++ path import_ref ++ L "' (resolved to "
    ++ import_path ++ L ")".

Definition anchor_msg (import_ref : Import) (anchor : str) : str :=
  L "Anchor '#" ++ anchor ++ L "' not found in '" ++ path import_ref ++ L "'".

(** The [except (BusyParseError, BusyValidationError)] clause. *)
Definition rewrap {A} (import_ref : Import) (r : result A) : result A :=
  match r with
  | Raise (BusyParseError m) | Raise (BusyValidationError m) =>
      Raise (BusyImportError
               (L "Failed to parse imported document '" ++ path import_ref
                  ++ L "': " ++ m))
  | _ => r
  end.

Definition has_anchor (import_ref : Import) : option str :=
  match anchor import_ref with
  | Some a => if Py.is_empty a then None else Some a
  | None => None
  end.

(** What [resolve_imports] returns and the state it leaves; [None] for a
    run that needed a deeper recursion than it was given. *)
Definition resolution : Type := option (result (list (str * Document)) * rstate).

(** The body of the [try] statement for one import: read and parse the
    file, check the anchor, store the document, resolve its own imports
    with [recur] and merge them. *)
Definition resolve_one (recur : Document -> str -> rstate -> resolution)
           (import_ref : Import) (import_path : str)
           (resolved : list (str * Document)) (st : rstate) : resolution :=
  let st := log_read import_path st in
  match read_text fs import_path with
  | Raise e => Some (Raise e, st)
  | Ok imported_content =>
      match parse_document lib imported_content with
      | Raise e => Some (Raise e, st)
      | Ok imported_doc =>
          let missing :=
            match has_anchor import_ref with
            | Some a => if anchor_found imported_doc a then None else Some a
            | None => None
            end in
          match missing with
          | Some a => Some (Raise (BusyImportError (anchor_msg import_ref a)), st)
          | None =>
              let resolved := dict_set (concept_name import_ref) imported_doc resolved in
              match recur imported_doc (path_parent fs import_path) st with
              | None => None
              | Some (Raise e, st) => Some (Raise e, st)
              | Some (Ok nested_resolved, st) =>
                  Some (Ok (dict_update resolved nested_resolved), st)
              end
          end
      end
  end.

(** The loop over [document.imports]. *)
Fixpoint resolve_each (recur : Document -> str -> rstate -> resolution)
         (base_path : str) (todo : list Import)
         (resolved : list (str * Document)) (st : rstate) : resolution :=
  match todo with
  | [] => Some (Ok resolved, st)
  | import_ref :: todo' =>
      let import_path := path_join fs base_path (path import_ref) in
      match path_exists fs import_path with
      | Raise e => Some (Raise e, st)
      | Ok false =>
          Some (Raise (BusyImportError (not_found_msg import_ref import_path)), st)
      | Ok true =>
          match path_resolve fs import_path with
          | Raise e => Some (Raise e, st)
          | Ok import_key =>
              if bool_decide (import_key ∈ visited st)
              then Some (Raise (BusyImportError (circular_msg import_ref import_path)), st)
              else
                let st := mark import_key st in
                (* try: *)
                match resolve_one recur import_ref import_path resolved st with
                | None => None
                | Some (r, st) =>
                    (* except: *)
                    let r := rewrap import_ref r in
                    (* finally: *)
                    let st := unmark import_key st in
                    match r with
                    | Ok resolved => resolve_each recur base_path todo' resolved st
                    | Raise e => Some (Raise e, st)
                    end
                end
          end
      end
  end.

(** [resolve_imports(document, base_path, _visited)].  The recursion of
    the source is bounded here by [fuel], the depth of nested imports that
    may be followed. *)
Fixpoint resolve_imports (fuel : nat) (document : Document) (base_path : str)
         (st : rstate) {struct fuel} : resolution :=
  match fuel with
  | 0 => None
  | S fuel' =>
      resolve_each (resolve_imports fuel') base_path
                   (imports (doc_fields document)) [] st
  end.

(** A call from outside: [_visited] is [None], so a fresh set. *)
Definition resolve (fuel : nat) (document : Document) (base_path : str)
  : resolution :=
  resolve_imports fuel document base_path (RState ∅ []).

End Resolver.

(** ** Documents and collaborators used in the examples *)

(** A text given line by line, each line ended by a newline. *)
Definition lines (ls : list string) : str :=
  concat (map (fun l => L l ++ [Re.nl]) ls).

(** The same without the newline after the last line. *)
Definition lines_open (ls : list string) : str :=
  removelast (lines ls).

Module Fixture.

Definition s (x : string) : value := VStr (L x).

(** The frontmatter blocks of the example documents, each with the value
    [yaml.safe_load] gives for it. *)
Definition yaml_table : list (str * value) :=
  [ (lines_open ["Name: Notes"; "Type: [Document]"; "Description: Notes"],
     VDict [(L "Name", s "Notes"); (L "Type", VList [s "Document"]);
            (L "Description", s "Notes")]);
    (lines_open ["Name: Mail"; "Type: [Tool]"; "Description: Mail tools"],
     VDict [(L "Name", s "Mail"); (L "Type", VList [s "Tool"]);
            (L "Description", s "Mail tools")]);
    (lines_open ["Name: Mail"; "Type: [Tool]"; "Description: Mail tools";
                 "Triggers:"; "  - event_type: mail.received"],
     VDict [(L "Name", s "Mail"); (L "Type", VList [s "Tool"]);
            (L "Description", s "Mail tools");
            (L "Triggers", VList [VDict [(L "event_type", s "mail.received")]])]);
    (lines_open ["Name: Notes"; "Type: [Document]"; "Description: Notes";
                 "Triggers:"; "  - event_type: note.created"],
     VDict [(L "Name", s "Notes"); (L "Type", VList [s "Document"]);
            (L "Description", s "Notes");
            (L "Triggers", VList [VDict [(L "event_type", s "note.created")]])]);
    (lines_open ["Name: Review"; "Type: [Operation]"; "Description: Daily review"],
     VDict [(L "Name", s "Review"); (L "Type", VList [s "Operation"]);
            (L "Description", s "Daily review")])
  ].

Definition lib : Library :=
  {| yaml_safe_load := fun text =>
       match dict_get text yaml_table with
       | Some v => YamlValue v
       | None => YamlError (L "could not load the frontmatter")
       end;
     repr_value := fun _ => L "...";
     pydantic_text := fun model errs =>
       Py.str_of_nat (length errs) ++ L " validation error for " ++ model |}.

(** A document whose only reference link stands inside a code fence. *)
Definition fenced_link_doc : str :=
  lines ["---"; "Name: Notes"; "Type: [Document]"; "Description: Notes"; "---";
         "# Setup";
         "```";
         "[Ref]: ./ref.md";
         "```"].

(** An Operation document with a step numbered 0, which [Step] refuses. *)
Definition step_zero_doc : str :=
  lines ["---"; "Name: Review"; "Type: [Operation]"; "Description: Daily review"; "---";
         "# Operations";
         "## Review";
         "### Steps";
         "0. Open the inbox"].

(** A Tool document with one tool, a Triggers key in its frontmatter and
    a Triggers section in its body. *)
Definition tool_doc_with_triggers : str :=
  lines ["---"; "Name: Mail"; "Type: [Tool]"; "Description: Mail tools";
         "Triggers:"; "  - event_type: mail.received"; "---";
         "# Triggers";
         "- Set alarm for 6am each morning to run DailyReview";
         "# Operations";
         "## send_email";
         "Send an email.";
         "### Inputs";
         "- to: recipient"].

(** A Tool document without any tool. *)
Definition tool_doc_without_tools : str :=
  lines ["---"; "Name: Mail"; "Type: [Tool]"; "Description: Mail tools"; "---";
         "# Setup";
         "Nothing to declare."].

(** A document of type [[Document]] that declares a trigger in its
    frontmatter and has no Triggers section. *)
Definition document_with_frontmatter_trigger : str :=
  lines ["---"; "Name: Notes"; "Type: [Document]"; "Description: Notes";
         "Triggers:"; "  - event_type: note.created"; "---";
         "# Setup";
         "Keep notes."].

(** A directory of documents: [/ws/a.md] and [/ws/b.md] import each
    other; [/ws/top.md] imports [left.md] and [right.md], each of which
    imports [base.md], which imports nothing. *)
Definition frontmatter_notes : list string :=
  ["---"; "Name: Notes"; "Type: [Document]"; "Description: Notes"; "---"].

Definition a_md : str := lines (frontmatter_notes ++ ["[B]: b.md"])%list.
Definition b_md : str := lines (frontmatter_notes ++ ["[A]: a.md"])%list.
Definition top_md : str :=
  lines (frontmatter_notes ++ ["[Left]: left.md"; "[Right]: right.md"])%list.
Definition left_md : str := lines (frontmatter_notes ++ ["[Base]: base.md"])%list.
Definition right_md : str := lines (frontmatter_notes ++ ["[Base]: base.md"])%list.
Definition base_md : str := lines (frontmatter_notes ++ ["# Setup"; "Nothing."])%list.

Definition files : list (str * str) :=
  [(L "/ws/a.md", a_md); (L "/ws/b.md", b_md); (L "/ws/top.md", top_md);
   (L "/ws/left.md", left_md); (L "/ws/right.md", right_md);
   (L "/ws/base.md", base_md)].

(** The directory of a path: the text before its last slash. *)
Fixpoint dirname (p : str) : str :=
  match p with
  | [] => []
  | c :: p' =>
      if Py.contains (L "/") p' then c :: dirname p' else []
  end.

Definition fs : FileSystem :=
  {| path_join := fun base p => base ++ L "/" ++ p;
     path_exists := fun p =>
       Ok (match dict_get p files with Some _ => true | None => false end);
     path_resolve := fun p => Ok p;
     read_text := fun p =>
       match dict_get p files with
       | Some text => Ok text
       | None => Raise (OSError (L "No such file or directory: " ++ p))
       end;
     path_parent := dirname |}.

(** The content of an Operations section whose first heading has no name
    and is followed at once by a code fence. *)
Definition nameless_heading_section : str :=
  lines ["##"; "```"; "## x"; "```"].

(** The content of an Operations section with two operations; the steps
    of the first hold a code fence with a [##] line in it. *)
Definition fenced_section : str :=
  lines ["## Deploy";
         "### Steps";
         "1. Run the script";
         "```";
         "## not a heading";
         "```";
         "## Verify";
         "### Steps";
         "1. Check the logs"].

(** A Tool document that declares its tool under a [# Tools] heading. *)
Definition tool_doc_tools_heading : str :=
  lines ["---"; "Name: Mail"; "Type: [Tool]"; "Description: Mail tools"; "---";
         "# Tools";
         "## send_email";
         "Send an email.";
         "### Inputs";
         "- to: recipient"].

(** The same document with the tool under a [# Operations] heading. *)
Definition tool_doc_operations_heading : str :=
  lines ["---"; "Name: Mail"; "Type: [Tool]"; "Description: Mail tools"; "---";
         "# Operations";
         "## send_email";
         "Send an email.";
         "### Inputs";
         "- to: recipient"].

(** An Operation document whose operation stands under the singular
    heading [# Operation]. *)
Definition operation_doc_singular_heading : str :=
  lines ["---"; "Name: Review"; "Type: [Operation]"; "Description: Daily review"; "---";
         "# Operation";
         "## Review";
         "### Steps";
         "1. Open the inbox"].

End Fixture.

(** ** Notions used in the statements *)

(** The exceptions that the sub-parsers of [parse_document] raise: their
    own validation errors, pydantic's, and what [yaml.safe_load] raised
    that is no [YAMLError]. *)
Definition raised_inside (e : exn) : Prop :=
  match e with
  | BusyValidationError _ | ValidationError _ | ValueError _ => True
  | _ => False
  end.

(** A text of ASCII characters: the characters on which the classes of
    the embedding ([\s], [\d], [\w], the letters that differ by case) are
    those of Python. *)
Definition ascii_text (s : str) : Prop := Forall (fun c => Py.code c < 128) s.

(** A [Provider] entry of the frontmatter that [Metadata] accepts. *)
Definition provider_ok (data : list (str * value)) : Prop :=
  match dict_get (L "Provider") data with
  | None | Some VNone | Some (VStr _) => True
  | Some _ => False
  end.


(** An import that loads: its path exists under the base directory and
    resolves, the file reads and parses to [doc], and its anchor, if it
    has one, names an operation or a definition of [doc]. *)
Definition loads (lib : Library) (fs : FileSystem) (base : str) (i : Import)
           (doc : Document) : Prop :=
  let p := path_join fs base (path i) in
  path_exists fs p = Ok true
  /\ (exists key, path_resolve fs p = Ok key)
  /\ (exists text, read_text fs p = Ok text /\ parse_document lib text = Ok doc)
  /\ match has_anchor i with
     | Some a => anchor_found doc a = true
     | None => True
     end.

(** The file an import names, its key in [_visited] (what resolving the
    path gives), and the directory in which the imports of that file are
    resolved. *)
Definition file_of (fs : FileSystem) (base : str) (i : Import) : str :=
  path_join fs base (path i).
Definition key_of (fs : FileSystem) (base : str) (i : Import) : result str :=
  path_resolve fs (file_of fs base i).
Definition dir_of (fs : FileSystem) (base : str) (i : Import) : str :=
  path_parent fs (file_of fs base i).


(** ** The translation of a time phrase, in the words of the specification

    Written from the specification, to be compared with
    [_parse_time_spec]: the hour is the first number of one or two digits
    of the phrase in lower case; the minute is the [:mm] that follows it,
    else 0; [pm] adds 12 to an hour that is not 12 and [am] turns 12 into
    0; the day of the week is the digit of the first weekday name found
    when trying Monday to Sunday in this order, else [*]; a phrase with no
    digit has no translation. *)

Inductive marker := AM | PM.

Definition spec_hour_digits (from_digit : str) : str * str :=
  match from_digit with
  | d1 :: d2 :: rest =>
      if Py.isdigit d2 then ([d1; d2], rest) else ([d1], d2 :: rest)
  | _ => (from_digit, [])
  end.

Definition spec_minute (after_hour : str) : option str * str :=
  match after_hour with
  | c :: m1 :: m2 :: rest =>
      if Py.ascii_eqb ":" c && Py.isdigit m1 && Py.isdigit m2
      then (Some [m1; m2], rest)
      else (None, after_hour)
  | _ => (None, after_hour)
  end.

Definition spec_marker (after_minute : str) : option marker :=
  let t := Py.drop_while Py.isspace after_minute in
  if Py.startswith (L "am") t then Some AM
  else if Py.startswith (L "pm") t then Some PM
  else None.

Definition spec_hour24 (hour : nat) (mk : option marker) : nat :=
  match mk with
  | Some PM => if hour =? 12 then 12 else hour + 12
  | Some AM => if hour =? 12 then 0 else hour
  | None => hour
  end.

Definition spec_day_of_week (phrase : str) : str :=
  if Py.contains (L "monday") phrase then L "1"
  else if Py.contains (L "tuesday") phrase then L "2"
  else if Py.contains (L "wednesday") phrase then L "3"
  else if Py.contains (L "thursday") phrase then L "4"
  else if Py.contains (L "friday") phrase then L "5"
  else if Py.contains (L "saturday") phrase then L "6"
  else if Py.contains (L "sunday") phrase then L "0"
  else L "*".

Definition spec_cron (phrase : str) : option str :=
  let s := Py.lower phrase in
  match Py.drop_while (fun c => negb (Py.isdigit c)) s with
  | [] => None
  | from_digit =>
      let '(hour_digits, after_hour) := spec_hour_digits from_digit in
      let '(minute, after_minute) := spec_minute after_hour in
      let hour := spec_hour24 (Py.int_of_digits hour_digits) (spec_marker after_minute) in
      let minute := match minute with Some m => Py.int_of_digits m | None => 0 end in
      Some (Py.str_of_nat minute ++ L " " ++ Py.str_of_nat hour ++ L " * * "
              ++ spec_day_of_week s)
  end.

(** An optional string and a filter of one entry as the values that
    [Trigger(...)] is given. *)
Definition opt_value (o : option str) : value :=
  match o with
  | Some s => VStr s
  | None => VNone
  end.

Definition filter_value (o : option (str * str)) : value :=
  match o with
  | Some (k, v) => VDict [(k, VStr v)]
  | None => VNone
  end.

(** ** Notions used in the proofs about the matcher and the resolver *)

Module ReNotions.
Import Re.

(** [st'] is [st] moved forward over the text [w]. *)
Definition extends (st st' : mstate) : Prop :=
  exists w, m_rest st = w ++ m_rest st' /\ m_pos st' = m_pos st + length w.

(** A star or a plus of one-character matchers goes over characters of
    the class and touches nothing else. *)
Definition over (fl : flags) (cs : cset) (st st' : mstate) (w : str) : Prop :=
  m_rest st = w ++ m_rest st' /\ m_pos st' = m_pos st + length w /\
  Forall (fun c => cmatch fl cs c = true) w /\ m_caps st' = m_caps st.

(** What [re.match], [re.search] and [re.finditer] return is a way the
    pattern matches from a position of the subject, with no group set
    before. *)
Definition found (fl : flags) (r : regex) (m : rematch) : Prop :=
  exists st0, m_caps st0 = [] /\ m_pos st0 = mt_start m /\
              In (mt_final m) (rmatch fl r st0).

(** The matcher stands in the subject [s] at its offset: the text before
    it has the length of the offset. *)
Definition at_offset (s : str) (st : mstate) : Prop :=
  exists pre, s = pre ++ m_rest st /\ length pre = m_pos st.

(** A match found in the subject [s]. *)
Definition found_in (fl : flags) (r : regex) (s : str) (m : rematch) : Prop :=
  exists st0, at_offset s st0 /\ m_caps st0 = [] /\ m_pos st0 = mt_start m /\
              In (mt_final m) (rmatch fl r st0).

(** The pattern can match from [st] up to the text [rest]. *)
Definition reaches (fl : flags) (r : regex) (st : mstate) (rest : str) : Prop :=
  exists x, In x (rmatch fl r st) /\ m_rest x = rest.

(** The first way a pattern matches: the one [re] takes. *)
Definition first_match (fl : flags) (r : regex) (st : mstate) : option mstate :=
  head (rmatch fl r st).

(** The parts of the hour pattern. *)
Definition hour_group : regex := Group 1 (Seq Pat.digit (Opt Pat.digit)).
Definition minute_opt : regex :=
  Opt (Seq (Pat.ch ":") (Group 2 (Seq Pat.digit Pat.digit))).
Definition marker_opt : regex := Opt (Group 3 (Alt (Str "am") (Str "pm"))).

(** The marker that follows the white space: [am], [pm] or none. *)
Definition marker_text (t : str) : option str :=
  if Py.startswith (L "am") t then Some (L "am")
  else if Py.startswith (L "pm") t then Some (L "pm")
  else None.

(** The text of group [k] in a state of the matcher. *)
Definition cap_text (k : nat) (st : mstate) : option str :=
  option_map snd (cap_lookup k (m_caps st)).

End ReNotions.

(** A function of the resolver's type that leaves [_visited] as it found
    it. *)
Definition keeps_visited (recur : Document -> str -> rstate -> resolution) : Prop :=
  forall d b st r st', recur d b st = Some (r, st') -> visited st' = visited st.

From Stdlib Require DecimalNat.

(** * The writer and the personality parser

    A shallow embedding of [packages/busy-python/src/writer.py] and of
    [packages/busy-python/src/personality.py], with the notions used to
    state their properties and further properties of the parser. *)

(** ** More of Python's text functions *)

Module Text.

(** [sep.join(parts)] *)
Fixpoint join (sep : str) (parts : list str) : str :=
  match parts with
  | [] => []
  | [p] => p
  | p :: rest => p ++ sep ++ join sep rest
  end.

(** [a < b] on strings: the order of the code points, a proper prefix
    first. *)
Fixpoint str_ltb (a b : str) : bool :=
  match a, b with
  | [], [] => false
  | [], _ :: _ => true
  | _ :: _, [] => false
  | x :: a', y :: b' =>
      (Py.code x <? Py.code y) || ((Py.code x =? Py.code y) && str_ltb a' b')
  end.

Fixpoint insert_sorted (x : str) (l : list str) : list str :=
  match l with
  | [] => [x]
  | y :: l' => if str_ltb y x then y :: insert_sorted x l' else x :: l
  end.

(** [sorted(parts)] *)
Definition sorted (parts : list str) : list str :=
  fold_right insert_sorted [] parts.

End Text.

(** ** The writer ([writer.py]) *)

(** What the writer takes from outside the repository: [yaml.safe_dump]
    (called with [default_flow_style=False, sort_keys=False]) and the
    workspace that [get_current_workspace()] returns, if there is one. *)
Record Workspace := { backend_path : str }.

Record Host := {
  yaml_safe_dump : list (str * value) -> str;
  get_current_workspace : option Workspace
}.

Module Writer.

Definition _serialize_metadata (host : Host) (metadata : Metadata) : str :=
  let data := [(L "Name", VStr (md_name metadata));
               (L "Type", VStr (md_type metadata));
               (L "Description", VStr (md_description metadata))] in
  let yaml_content := yaml_safe_dump host data in
  L "---" ++ [Re.nl] ++ yaml_content ++ L "---" ++ [Re.nl].

(** One reference-style link. *)
Definition import_line (import_ref : Import) : str :=
  match has_anchor import_ref with
  | Some a =>
      L "[" ++ concept_name import_ref ++ L "]: " ++ path import_ref ++ L "#" ++ a
  | None => L "[" ++ concept_name import_ref ++ L "]: " ++ path import_ref
  end.

Definition _serialize_imports (imports : list Import) : str :=
  match imports with
  | [] => []
  | _ :: _ => Text.join [Re.nl] (map import_line imports) ++ [Re.nl]
  end.

Definition _serialize_local_definitions (definitions : list LocalDefinition) : str :=
  match definitions with
  | [] => []
  | _ :: _ =>
      Text.join [Re.nl]
        ((L "# Local Definitions" ++ [Re.nl])
           :: flat_map (fun defn => [L "## " ++ ld_name defn ++ [Re.nl];
                                     ld_content defn ++ [Re.nl]])
                       definitions)
  end.

Definition _serialize_setup (setup : option str) : str :=
  match setup with
  | None => []
  | Some text =>
      if Py.is_empty text then []
      else L "# Setup" ++ [Re.nl; Re.nl] ++ text ++ [Re.nl]
  end.

Definition step_line (step : Step) : str :=
  Py.str_of_nat (step_number step) ++ L ". " ++ instruction step.

Definition _serialize_steps (steps : list Step) : str :=
  match steps with
  | [] => []
  | _ :: _ =>
      Text.join [Re.nl] ((L "### Steps" ++ [Re.nl]) :: map step_line steps) ++ [Re.nl]
  end.

Definition _serialize_checklist (checklist : option Checklist) : str :=
  match checklist with
  | None => []
  | Some c =>
      match items c with
      | [] => []
      | _ :: _ =>
          Text.join [Re.nl]
            ((L "### Checklist" ++ [Re.nl]) :: map (fun item => L "- " ++ item) (items c))
            ++ [Re.nl]
      end
  end.

(** The lines of a list sub-section: the heading, the items, an empty
    line. *)
Definition list_lines (heading : string) (entries : list str) : list str :=
  match entries with
  | [] => []
  | _ :: _ => (L heading ++ [Re.nl]) :: map (fun item => L "- " ++ item) entries ++ [[]]
  end.

(** A checklist object is true whatever its items. *)
Definition _serialize_operation (operation : Operation) : str :=
  let lines := [L "## " ++ op_name operation ++ [Re.nl]] in
  let lines := lines ++ list_lines "### Inputs" (op_inputs operation) in
  let lines := lines ++ list_lines "### Outputs" (op_outputs operation) in
  let lines :=
    match op_steps operation with
    | [] => lines
    | steps => lines ++ [_serialize_steps steps]
    end in
  let lines :=
    match op_checklist operation with
    | None => lines
    | Some c => lines ++ [_serialize_checklist (Some c)]
    end in
  Text.join [Re.nl] lines.

Definition _serialize_operations (operations : list Operation) : str :=
  match operations with
  | [] => []
  | _ :: _ =>
      Text.join [Re.nl]
        ((L "# Operations" ++ [Re.nl]) :: map _serialize_operation operations)
  end.

(** The sections of the document in the order in which they are written,
    those that are empty left out. *)
Definition document_sections (host : Host) (parsed_doc : BusyDocument) : list str :=
  [_serialize_metadata host (metadata parsed_doc)]
    ++ match imports parsed_doc with
       | [] => []
       | l => [_serialize_imports l]
       end
    ++ match definitions parsed_doc with
       | [] => []
       | l => [_serialize_local_definitions l]
       end
    ++ match setup parsed_doc with
       | None => []
       | Some text => if Py.is_empty text then [] else [_serialize_setup (Some text)]
       end
    ++ match operations parsed_doc with
       | [] => []
       | l => [_serialize_operations l]
       end.

(** [write_busy_document(parsed_doc, path, workspace)]: what it raises,
    or the path and the content that it hands to
    [workspace.backend.write].  The metadata of a document is an object,
    which is true, so the first check of the source never raises. *)
Definition write_busy_document (host : Host) (parsed_doc : Document) (path : str)
           (workspace : option Workspace) : result (str * str) :=
  let workspace :=
    match workspace with
    | Some w => Some w
    | None => get_current_workspace host
    end in
  match workspace with
  | None =>
      Raise (ValueError
               (L "No active workspace context. Call within workspace.execution_context()"))
  | Some workspace =>
      let doc := doc_fields parsed_doc in
      if Py.is_empty (md_name (metadata doc))
      then Raise (BusyValidationError (L "Document metadata missing Name field"))
      else if Py.is_empty (md_type (metadata doc))
      then Raise (BusyValidationError (L "Document metadata missing Type field"))
      else if Py.is_empty (md_description (metadata doc))
      then Raise (BusyValidationError (L "Document metadata missing Description field"))
      else
        let content := Text.join [Re.nl] (document_sections host doc) in
        let path_str := path in
        let path_str :=
          if Py.startswith (backend_path workspace) path_str
          then Py.lstrip_chars (L "/") (drop (length (backend_path workspace)) path_str)
          else path_str in
        Ok (path_str, content)
  end.

End Writer.

(** ** The personality parser ([personality.py]) *)

Module Personality.

Definition REQUIRED_SECTIONS : list str :=
  map L ["Identity"; "Tone & Voice"; "Domain Context"; "Boundaries"]%string.

Definition OPTIONAL_SECTIONS : list str := [L "Relationship Dynamics"].

Record PersonalityDocument := {
  name : str;
  document_type : str;
  description : str;
  sections : list (str * str)
}.

(** "^---\s*\n(.*?)\n---\s*\n", DOTALL *)
Definition frontmatter_pattern : Re.regex :=
  Re.Seqs [Re.Bol; Re.Str "---"; Pat.sp_star; Pat.newline;
           Re.Group 1 (Re.Star false Pat.dot);
           Pat.newline; Re.Str "---"; Pat.sp_star; Pat.newline].

(** "^#\s+(.+?)$", MULTILINE *)
Definition section_pattern : Re.regex :=
  Re.Seqs [Re.Bol; Pat.ch "#"; Pat.sp_plus; Re.Group 1 (Re.Plus false Pat.dot); Re.Eol].

(** The loop over the lines of the frontmatter: a line with a colon sets
    the key before the first colon to the text after it. *)
Definition frontmatter_entry (frontmatter : list (str * str)) (line : str)
  : list (str * str) :=
  if Py.contains (L ":") line
  then let '(key, value) := split_colon line in
       dict_set (Py.strip key) (Py.strip value) frontmatter
  else frontmatter.

Definition _parse_frontmatter (content : str) : result (list (str * str) * str) :=
  match Re.re_match Re.DOTALL frontmatter_pattern content with
  | None => Raise (ValueError (L "Missing or malformed frontmatter"))
  | Some m =>
      let frontmatter_text := Re.group_str m 1 in
      let remaining := drop (Re.mt_end m) content in
      let frontmatter :=
        fold_left frontmatter_entry (Py.split Re.nl (Py.strip frontmatter_text)) [] in
      Ok (frontmatter, remaining)
  end.

(** The loop over the headings: each section runs from the end of its
    heading to the start of the next heading, or to the end of the
    content. *)
Fixpoint sections_of (content : str) (matches : list Re.rematch)
         (sections : list (str * str)) : list (str * str) :=
  match matches with
  | [] => sections
  | m :: rest =>
      let section_name := Py.strip (Re.group_str m 1) in
      let start := Re.mt_end m in
      let end_ := match rest with
                  | next :: _ => Re.mt_start next
                  | [] => length content
                  end in
      let section_content := Py.strip (Py.slice content start end_) in
      sections_of content rest (dict_set section_name section_content sections)
  end.

Definition _parse_sections (content : str) : list (str * str) :=
  sections_of content (Re.finditer Re.MULTILINE section_pattern content) [].

(** [key in sections] *)
Definition has_section (sections : list (str * str)) (key : str) : bool :=
  match dict_get key sections with
  | Some _ => true
  | None => false
  end.

(** [REQUIRED_SECTIONS - set(sections.keys())] *)
Definition missing_sections (sections : list (str * str)) : list str :=
  List.filter (fun r => negb (has_section sections r)) REQUIRED_SECTIONS.

Definition _validate_required_sections (sections : list (str * str)) : result unit :=
  match missing_sections sections with
  | [] => Ok tt
  | missing =>
      let missing_list := Text.join (L ", ") (Text.sorted missing) in
      Raise (ValueError
               (L "Missing required sections: " ++ missing_list
                  ++ L ". Personality documents must include: "
                  ++ Text.join (L ", ") (Text.sorted REQUIRED_SECTIONS)))
  end.

(** [frontmatter.get(key, "")] *)
Definition get_or_empty (key : string) (frontmatter : list (str * str)) : str :=
  match dict_get (L key) frontmatter with
  | Some v => v
  | None => []
  end.

Definition new_PersonalityDocument (lib : Library) (name document_type description : str)
           (sections : list (str * str)) : result PersonalityDocument :=
  validated lib "PersonalityDocument" (min_length_1 "name" name)
    {| name := name; document_type := document_type; description := description;
       sections := sections |}.

Definition parse_personality_document (lib : Library) (content : str)
  : result PersonalityDocument :=
  let* (frontmatter, remaining) := _parse_frontmatter content in
  let name := get_or_empty "Name" frontmatter in
  if Py.is_empty name then Raise (ValueError (L "Missing 'Name' in frontmatter"))
  else
    let document_type := get_or_empty "Type" frontmatter in
    if Py.is_empty document_type
    then Raise (ValueError (L "Missing 'Type' in frontmatter"))
    else
      let description := get_or_empty "Description" frontmatter in
      let sections := _parse_sections remaining in
      let* _ := _validate_required_sections sections in
      new_PersonalityDocument lib name document_type description sections.

(** [get_default_maui_personality()]: the template of
    [maui-personality.busy.md]. *)
Definition get_default_maui_personality : str :=
  lines
    [
     "---";
     "Name: Maui";
     "Type: Personality";
     "Description: Chief of staff personality agent for orgata-runtime";
     "---";
     "";
     "# Identity";
     "";
     "You are Maui, a helpful chief of staff assistant. You serve as the primary communication interface between the user and the orgata-runtime system. Your role is to:";
     "";
     "- Receive and understand user requests across multiple channels";
     "- Delegate tasks to specialized agents (Architect, Builder, Operations)";
     "- Maintain context and memory across conversations";
     "- Provide timely updates on task progress and system status";
     "";
     "You are named after the Hawaiian demigod known for being resourceful, clever, and helpful.";
     "";
     "# Tone & Voice";
     "";
     "Your communication style is:";
     "";
     "- **Friendly and approachable**: Use warm, conversational language";
     "- **Professional and efficient**: Be concise and action-oriented";
     "- **Adaptive**: Match the formality level of the user";
     "- **Proactive**: Anticipate needs and offer helpful suggestions";
     "- **Transparent**: Clearly communicate what you're doing and why";
     "";
     "Avoid:";
     "- Overly formal or robotic language";
     "- Unnecessary jargon or technical terms";
     "- Being verbose when brevity serves better";
     "";
     "# Domain Context";
     "";
     "You operate within the orgata-runtime system, which includes:";
     "";
     "- **Workspaces**: User-defined work areas containing documents, tools, and operations";
     "- **Agents**: Specialized assistants (Architect, Builder, Operations) that handle specific tasks";
     "- **BUSY Documents**: Structured markdown documents that define operations and tools";
     "- **Memory System**: Persistent storage for conversations and important context";
     "";
     "Your primary responsibilities:";
     "1. Message handling across channels (Telegram, etc.)";
     "2. Task delegation to appropriate agents";
     "3. Status reporting and interrupt handling";
     "4. Memory management for long-term context";
     "";
     "# Boundaries";
     "";
     "You must always:";
     "- Confirm before taking destructive or irreversible actions";
     "- Respect workspace permissions and access controls";
     "- Protect sensitive information and credentials";
     "- Escalate to the user when uncertain about intent";
     "";
     "You must never:";
     "- Execute operations in workspaces you do not own without explicit permission";
     "- Share credentials, API keys, or other secrets";
     "- Make assumptions about user intent for high-stakes operations";
     "- Bypass HITL (human-in-the-loop) confirmation requirements";
     "";
     "# Relationship Dynamics";
     "";
     "Adapt your communication based on familiarity:";
     "";
     "**New users**:";
     "- Introduce yourself and explain your capabilities";
     "- Offer guidance on how to interact effectively";
     "- Be more explicit about confirmation requirements";
     "";
     "**Familiar users**:";
     "- Skip introductory context they already know";
     "- Use shorthand and references to past interactions";
     "- Anticipate common patterns and preferences";
     "";
     "**Returning after absence**:";
     "- Briefly summarize relevant context from previous sessions";
     "- Highlight any pending tasks or interrupts";
     "- Acknowledge time gap appropriately"
    ]%string.

End Personality.

(** ** Notions used in the statements of the further properties *)

(** The fields that [_extract_metadata] requires, in the order in which
    it looks for them, and the first of them that a mapping lacks. *)
Definition required_fields : list string := ["Name"; "Type"; "Description"]%string.

Definition first_missing (data : list (str * value)) : option string :=
  List.find (fun field => match dict_get (L field) data with
                          | None => true
                          | Some _ => false
                          end)
            required_fields.

(** What the models of [models.py] require of their fields:
    [min_length=1] of a string, [ge=1] of a step number. *)
Definition valid_Metadata (m : Metadata) : Prop :=
  md_name m <> [] /\ md_description m <> [].

Definition valid_Import (i : Import) : Prop :=
  concept_name i <> [] /\ path i <> [].

Definition valid_LocalDefinition (d : LocalDefinition) : Prop :=
  ld_name d <> [].

Definition valid_Step (s : Step) : Prop :=
  1 <= step_number s /\ instruction s <> [].

Definition valid_Operation (o : Operation) : Prop :=
  op_name o <> [] /\ Forall valid_Step (op_steps o).

Definition valid_Tool (t : Tool) : Prop :=
  tool_name t <> [] /\ tool_description t <> [].

Definition valid_Trigger (t : Trigger) : Prop :=
  raw_text t <> [] /\ operation t <> [].

Definition valid_Document (d : Document) : Prop :=
  valid_Metadata (metadata (doc_fields d))
  /\ Forall valid_Import (imports (doc_fields d))
  /\ Forall valid_LocalDefinition (definitions (doc_fields d))
  /\ Forall valid_Operation (operations (doc_fields d))
  /\ Forall valid_Trigger (triggers (doc_fields d))
  /\ Forall valid_Tool (doc_tools d).

(** ** Further notions about the matcher, used in the proofs *)

Module ReMore.
Import Re.

(** The character before the matcher once it has gone over [w]. *)
Definition prev_after (prev : option ascii) (w : str) : option ascii :=
  fold_left (fun _ c => Some c) w prev.

(** The state of the matcher once it has gone over [w], with [tail] left
    to read. *)
Definition gone_over (st : mstate) (w tail : str) : mstate :=
  MState (prev_after (m_prev st) w) (m_pos st + length w) tail (m_caps st).

(** [re.finditer] from a position of the subject on. *)
Definition finditer_at (fl : flags) (r : regex)
           (prev : option ascii) (pos : nat) (rest : str) : list rematch :=
  finditer_from (S (length rest)) fl r prev pos rest.

(** Matches in the order of the subject: each starts at or after [from],
    ends at or before [upto], and the next starts at or after its end, and
    after its start. *)
Fixpoint matches_ordered (from upto : nat) (ms : list rematch) : Prop :=
  match ms with
  | [] => True
  | m :: ms' =>
      from <= mt_start m /\ mt_start m <= mt_end m /\ mt_end m <= upto
      /\ matches_ordered (Nat.max (mt_end m) (S (mt_start m))) upto ms'
  end.

End ReMore.

(** Regions of a text in its order: each starts at or after [from], ends
    after its start and at or before [upto], and the next starts at or
    after its end. *)
Fixpoint regions_ordered (from upto : nat) (rs : list (nat * nat)) : Prop :=
  match rs with
  | [] => True
  | (a, b) :: rs' => from <= a /\ a < b /\ b <= upto /\ regions_ordered b upto rs'
  end.

(** Offsets that grow: each at or after [from] and before [upto], the
    next after it. *)
Fixpoint ascending (from upto : nat) (l : list nat) : Prop :=
  match l with
  | [] => True
  | a :: l' => from <= a /\ a < upto /\ ascending (S a) upto l'
  end.

(** What the file system raised: when a path was tested, resolved or
    read. *)
Definition fs_raised (fs : FileSystem) (e : exn) : Prop :=
  exists p, path_exists fs p = Raise e \/ path_resolve fs p = Raise e
            \/ read_text fs p = Raise e.

(** What leaves a resolution as an exception: an import error, or what
    the file system raised. *)
Definition leaves_resolver (fs : FileSystem) (e : exn) : Prop :=
  match e with
  | BusyImportError _ => True
  | _ => fs_raised fs e
  end.

(** An import that the writer can write and the parser read back: a
    concept name without a closing bracket, a path without white space
    and without a hash, an anchor without white space, none of them
    empty. *)
Definition writable_Import (i : Import) : Prop :=
  concept_name i <> [] /\ Forall (fun c => c <> "]"%char) (concept_name i)
  /\ path i <> []
  /\ Forall (fun c => Py.isspace c = false /\ c <> "#"%char) (path i)
  /\ match anchor i with
     | Some a => a <> [] /\ Forall (fun c => Py.isspace c = false) a
     | None => True
     end.

(** The character classes of the reference-link pattern, and what may
    follow a reference link for the link to be read to its end: nothing,
    or white space. *)
Definition name_class : Re.cset := Re.NoneOf [Re.AChar "]"].
Definition path_class : Re.cset := Re.NoneOf [Re.ASpace; Re.AChar "#"].
Definition anchor_class : Re.cset := Re.NoneOf [Re.ASpace].

Definition link_ends (T : str) : Prop :=
  match T with
  | [] => True
  | c :: _ => Py.isspace c = true
  end.

(** The look-ahead for the next heading, whose hashes [H] matches, or for
    the end of the text: "(?=\n#\s+|\Z)" for one hash. *)
Definition heading_ahead (H : Re.regex) : Re.regex :=
  Re.Look true (Re.Alt (Re.Seqs [Pat.newline; H; Pat.sp_plus]) Re.EndZ).

(** A text that does not start with a hash. *)
Definition no_hash_first (t : str) : Prop :=
  match t with
  | d :: _ => d <> "#"%char
  | [] => True
  end.

(** Hashes are not found where the text does not start with a hash. *)
Definition needs_hash (H : Re.regex) : Prop :=
  forall y, no_hash_first (Re.m_rest y) -> Re.rmatch Re.DOTALL H y = [].

(** A local definition that the writer can write and the parser read
    back: a name on one line, not empty, that neither starts nor ends with
    white space and does not start with a bracket; a content that neither
    starts nor ends with white space and holds no hash. *)
Definition writable_LocalDefinition (d : LocalDefinition) : Prop :=
  ld_name d <> [] /\ Py.strip (ld_name d) = ld_name d /\ ~ In Re.nl (ld_name d)
  /\ Py.startswith (L "[") (ld_name d) = false
  /\ Py.strip (ld_content d) = ld_content d
  /\ Forall (fun c => c <> "#"%char) (ld_content d).

(** The text starts with a newline, the hashes [hs] and white space: a
    heading of that level is next. *)
Definition heading_next (hs t : str) : bool :=
  match t with
  | c :: r =>
      Py.ascii_eqb Re.nl c && Py.startswith hs r
      && match drop (length hs) r with
         | d :: _ => Py.isspace d
         | [] => false
         end
  | [] => false
  end.

(** No heading with the hashes [hs] is next anywhere inside [w], which
    [tail] follows. *)
Fixpoint none_ahead (hs w tail : str) : Prop :=
  match w with
  | [] => True
  | _ :: r => heading_next hs (w ++ tail) = false /\ none_ahead hs r tail
  end.

(** The pattern [H] reads the hashes [hs] and nothing else. *)
Definition reads_hashes (H : Re.regex) (hs : str) : Prop :=
  forall y, Re.rmatch Re.DOTALL H y =
            if Py.startswith hs (Re.m_rest y)
            then [ReMore.gone_over y hs (drop (length hs) (Re.m_rest y))]
            else [].

(** What the writer writes for one local definition: its heading, an
    empty line, its content. *)
Definition definition_block (d : LocalDefinition) : str :=
  L "## " ++ ld_name d ++ [Re.nl; Re.nl] ++ ld_content d ++ [Re.nl].

(** ** What the parser leaves of the texts that it reads *)

(** A text that neither starts nor ends with white space. *)
Definition stripped (s : str) : Prop := Py.strip s = s.

Definition normal_Step (s : Step) : Prop :=
  stripped (instruction s) /\ operation_references s <> Some [].

Definition normal_Operation (o : Operation) : Prop :=
  Forall stripped (op_inputs o) /\ Forall stripped (op_outputs o)
  /\ Forall normal_Step (op_steps o)
  /\ match op_checklist o with
     | Some c => items c <> [] /\ Forall stripped (items c)
     | None => True
     end.

Definition normal_Tool (t : Tool) : Prop :=
  stripped (tool_description t)
  /\ Forall stripped (tool_inputs t) /\ Forall stripped (tool_outputs t)
  /\ match tool_examples t with
     | Some l => l <> [] /\ Forall stripped l
     | None => True
     end
  /\ tool_providers t <> Some [].

Definition normal_Document (d : Document) : Prop :=
  match setup (doc_fields d) with
  | Some s => stripped s
  | None => True
  end
  /\ Forall (fun defn => stripped (ld_content defn)) (definitions (doc_fields d))
  /\ Forall normal_Operation (operations (doc_fields d))
  /\ Forall normal_Tool (doc_tools d).

(** ** A host for the examples *)

Module FixtureHost.

(** A dump of a mapping of plain strings, one [key: value] to the line;
    a value that starts with a bracket is put between single quotes, as
    [yaml.safe_dump] does. *)
Definition dump (data : list (str * value)) : str :=
  flat_map (fun kv => match snd kv with
                      | VStr v =>
                          fst kv ++ L ": "
                            ++ (if Py.startswith (L "[") v then L "'" ++ v ++ L "'" else v)
                            ++ [Re.nl]
                      | _ => fst kv ++ L ":" ++ [Re.nl]
                      end)
           data.

Definition workspace : Workspace := {| backend_path := L "/srv/workspace" |}.

Definition host : Host :=
  {| yaml_safe_dump := dump; get_current_workspace := Some workspace |}.

Definition host_outside : Host :=
  {| yaml_safe_dump := dump; get_current_workspace := None |}.

End FixtureHost.

(** What a parsed personality document holds: a name and a type, the
    required sections, and texts without white space around them. *)
Definition complete_Personality (d : Personality.PersonalityDocument) : Prop :=
  Personality.name d <> [] /\ Personality.document_type d <> []
  /\ stripped (Personality.name d) /\ stripped (Personality.document_type d)
  /\ stripped (Personality.description d)
  /\ Forall (fun r => Personality.has_section (Personality.sections d) r = true)
            Personality.REQUIRED_SECTIONS
  /\ Forall (fun kv => stripped (fst kv) /\ stripped (snd kv)) (Personality.sections d).

(** ** The sections of a personality document *)

(** A section as it stands in a document: its heading on a line, then
    its body. *)
Definition section_block (sec : str * str) : str :=
  L "# " ++ fst sec ++ [Re.nl] ++ snd sec.

(** The matcher is at the start of a line: at the start of the text or
    after a newline. *)
Definition line_start (prev : option ascii) : bool :=
  match prev with
  | None => true
  | Some p => Py.ascii_eqb p Re.nl
  end.

(** No line of the text starts with a hash that white space follows, or
    that ends the text: no line of it is a heading of the first level.
    [prev] is the character before the text. *)
Fixpoint no_heading_line (prev : option ascii) (w : str) : bool :=
  match w with
  | [] => true
  | c :: r =>
      negb (line_start prev && Py.ascii_eqb "#" c
            && match r with
               | d :: _ => Py.isspace d
               | [] => true
               end)
      && no_heading_line (Some c) r
  end.

(** A text made of whole lines. *)
Definition whole_lines (w : str) : Prop := w = [] \/ exists b, w = b ++ [Re.nl].

(** A section that the personality parser reads as it stands: a name on
    one line, not empty, without white space around it; a body of whole
    lines, none of them a heading of the first level. *)
Definition readable_section (sec : str * str) : Prop :=
  fst sec <> [] /\ stripped (fst sec) /\ ~ In Re.nl (fst sec)
  /\ no_heading_line (Some Re.nl) (snd sec) = true /\ whole_lines (snd sec).

(** ** Operations that the writer can write and the parser read back *)

(** A text of a written operation: on one line, not empty, without white
    space around it, without a hash and without a backtick. *)
Definition plain_line (s : str) : Prop :=
  s <> [] /\ stripped s
  /\ Forall (fun c => c <> Re.nl /\ c <> "#"%char /\ c <> "`"%char) s.

(** The operation references that the parser reads in an instruction:
    [re.findall(r"\[([^\]]+)\]", instruction)], or [None] when there is
    none. *)
Definition step_references (instruction : str) : option (list str) :=
  match map (fun rm => Re.group_str rm 1)
            (Re.finditer Re.no_flags Pat.bracket_ref instruction) with
  | [] => None
  | refs => Some refs
  end.

Definition writable_Step (s : Step) : Prop :=
  1 <= step_number s /\ plain_line (instruction s)
  /\ operation_references s = step_references (instruction s).

Definition writable_Operation (o : Operation) : Prop :=
  plain_line (op_name o) /\ Py.startswith (L "[") (op_name o) = false
  /\ Forall plain_line (op_inputs o) /\ Forall plain_line (op_outputs o)
  /\ Forall writable_Step (op_steps o)
  /\ match op_checklist o with
     | Some c => items c <> [] /\ Forall plain_line (items c)
     | None => True
     end.

(** A sub-section as the writer writes it, without the newline that
    ends it: its heading, an empty line, its lines. *)
Definition sub_block (part : string * list str) : str :=
  L "### " ++ L (fst part) ++ [Re.nl; Re.nl] ++ Text.join [Re.nl] (snd part).

Definition bullet_line (item : str) : str := L "- " ++ item.

(** The sub-sections of a written operation, each with its lines. *)
Definition operation_parts (o : Operation) : list (string * list str) :=
  match op_inputs o with
  | [] => []
  | l => [("Inputs"%string, map bullet_line l)]
  end
  ++ match op_outputs o with
     | [] => []
     | l => [("Outputs"%string, map bullet_line l)]
     end
  ++ match op_steps o with
     | [] => []
     | l => [("Steps"%string, map Writer.step_line l)]
     end
  ++ match op_checklist o with
     | Some c => match items c with
                 | [] => []
                 | l => [("Checklist"%string, map bullet_line l)]
                 end
     | None => []
     end.

(** The content of a written operation: its sub-sections with an empty
    line between them. *)
Definition operation_content (o : Operation) : str :=
  Text.join [Re.nl; Re.nl] (map sub_block (operation_parts o)).

(** A written operation: its heading, and after the line of the heading
    its content between an empty line and a newline. *)
Definition operation_tail (o : Operation) : str :=
  [Re.nl] ++ match operation_parts o with
             | [] => []
             | _ :: _ => Re.nl :: operation_content o ++ [Re.nl]
             end.

Definition operation_text (o : Operation) : str :=
  L "## " ++ op_name o ++ operation_tail o.

(** Where the written operations start in their section, which starts at
    [pos], with their names. *)
Fixpoint op_starts (pos : nat) (ops : list Operation) : list (nat * str) :=
  match ops with
  | [] => []
  | o :: rest => (pos, op_name o) :: op_starts (pos + length (operation_text o) + 1) rest
  end.

(** The pattern matches nowhere inside [w], which [rest] follows and
    [prev] precedes. *)
Definition dead_run (fl : Re.flags) (r : Re.regex) (prev : option ascii)
           (w rest : str) : Prop :=
  forall j pos,
    j < length w ->
    Re.match_at fl r (Re.MState (ReMore.prev_after prev (take j w)) pos (drop j w ++ rest) [])
    = None.

(** The pattern matches only where the text starts with a character of
    the class [P]. *)
Definition needs_first (fl : Re.flags) (r : Re.regex) (P : ascii -> Prop) : Prop :=
  forall prev pos rest,
    match rest with
    | [] => True
    | c :: _ => ~ P c
    end ->
    Re.match_at fl r (Re.MState prev pos rest []) = None.

(** The characters that the texts of a written operation are made of:
    no hash and no backtick but in its headings. *)
Definition text_char (c : ascii) : Prop := c <> "#"%char /\ c <> "`"%char.

(** The parts of a writable operation: one of the four words, and lines
    that are plain and not empty. *)
Definition plain_part (p : string * list str) : Prop :=
  In (fst p) ["Inputs"; "Outputs"; "Steps"; "Checklist"]%string
  /\ snd p <> [] /\ Forall plain_line (snd p).

(** What can follow a step in the text of the steps: nothing, a last
    newline, or a newline and the number of the next step. *)
Definition after_step (T : str) : Prop :=
  T = [] \/ T = [Re.nl]
  \/ exists d ds t, T = Re.nl :: (d :: ds) ++ "."%char :: t
                    /\ Forall (fun c => Py.isdigit c = true) (d :: ds).

(** ** The items of a Tool document *)

(** Whether the word "Operation", wherever the text holds it, is followed
    by an s. *)
Fixpoint always_plural (s : str) : bool :=
  match s with
  | [] => true
  | _ :: t =>
      implb (Py.startswith (L "Operation") s) (Py.startswith (L "Operations") s)
      && always_plural t
  end.

(** A body whose Triggers section is followed by another section. *)
Definition triggers_before_notes : str :=
  lines ["# Triggers"; "- When mail.received, run Reply"; "# Notes"; "- see the manual"].

(** ** Documents that the writer can write and the parser read back *)

(** The sections of the body of a document as the writer writes them,
    those that are empty left out: what [document_sections] holds after
    the frontmatter. *)
Definition imports_part (doc : BusyDocument) : list str :=
  match imports doc with
  | [] => []
  | l => [Writer._serialize_imports l]
  end.

Definition definitions_part (doc : BusyDocument) : list str :=
  match definitions doc with
  | [] => []
  | l => [Writer._serialize_local_definitions l]
  end.

Definition setup_part (doc : BusyDocument) : list str :=
  match setup doc with
  | None => []
  | Some text => if Py.is_empty text then [] else [Writer._serialize_setup (Some text)]
  end.

Definition operations_part (doc : BusyDocument) : list str :=
  match operations doc with
  | [] => []
  | l => [Writer._serialize_operations l]
  end.

Definition body_sections (doc : BusyDocument) : list str :=
  imports_part doc ++ definitions_part doc ++ setup_part doc ++ operations_part doc.

(** A text without a hash. *)
Definition no_hash (s : str) : Prop := Forall (fun c => c <> "#"%char) s.

(** A text without a reference link: no closing bracket that a colon
    follows. *)
Fixpoint no_link (s : str) : bool :=
  match s with
  | [] => true
  | c :: t =>
      negb (Py.ascii_eqb c "]" && match t with
                                  | d :: _ => Py.ascii_eqb d ":"
                                  | [] => false
                                  end)
      && no_link t
  end.

(** The names under which the parser looks for the sections. *)
Definition section_words : list str :=
  [L "Local Definitions"; L "Setup"; L "Operations"; L "Triggers"; L "Trigger"].

(** The name of a heading: on one line, not empty, without white space
    around it, without a hash and not starting with a bracket. *)
Definition heading_name (n : str) : Prop :=
  n <> [] /\ stripped n /\ ~ In Re.nl n /\ no_hash n
  /\ Py.startswith (L "[") n = false.

(** A heading pattern: a hash, white space, a label that reads the name
    [N], bare or in brackets, the end of the line, and what follows. *)
Definition heading_pat (N K : Re.regex) : Re.regex :=
  Re.Seq (Pat.ch "#")
         (Re.Seq Pat.sp_plus
                 (Re.Seq (Pat.label N) (Re.Seq Pat.sp_star (Re.Seq Pat.newline K)))).

Definition plain_Import (i : Import) : Prop :=
  writable_Import i /\ no_hash (concept_name i)
  /\ match anchor i with
     | Some a => no_hash a
     | None => True
     end.

Definition plain_LocalDefinition (d : LocalDefinition) : Prop :=
  writable_LocalDefinition d /\ no_hash (ld_name d) /\ ~ In (ld_name d) section_words
  /\ no_link (ld_name d) = true /\ no_link (ld_content d) = true.

Definition plain_setup (s : option str) : Prop :=
  match s with
  | None => True
  | Some t => t <> [] /\ stripped t /\ no_hash t /\ no_link t = true
  end.

(** The texts of an operation. *)
Definition operation_texts (o : Operation) : list str :=
  op_name o :: op_inputs o ++ op_outputs o ++ map instruction (op_steps o)
    ++ match op_checklist o with
       | Some c => items c
       | None => []
       end.

Definition plain_Operation (o : Operation) : Prop :=
  writable_Operation o /\ ~ In (op_name o) section_words
  /\ Forall (fun t => no_link t = true) (operation_texts o).

(** A document of which the writer writes all and which the parser
    reads back: not a Tool document, without triggers, its imports,
    definitions, setup and operations plain. *)
Definition plain_document (doc : BusyDocument) : Prop :=
  md_type (metadata doc) <> tool_tag
  /\ Forall plain_Import (imports doc)
  /\ Forall plain_LocalDefinition (definitions doc)
  /\ plain_setup (setup doc)
  /\ Forall plain_Operation (operations doc)
  /\ triggers doc = [].

(** What [yaml.safe_dump] gives for the metadata is read as frontmatter
    when it ends with a newline, does not start with white space and has
    no line that starts with three dashes. *)
Definition plain_dump (y : str) : Prop :=
  exists c t, y = (c :: t) ++ [Re.nl] /\ Py.isspace c = false
              /\ Py.contains (Re.nl :: L "---") (c :: t) = false.

(** A document with an import, a definition, a setup and two operations,
    and the text that the writer writes for it. *)
Definition review_document : BusyDocument :=
  {| metadata := {| md_name := L "Review"; md_type := L "[Operation]";
                    md_description := L "Daily review"; md_provider := None |};
     imports := [{| concept_name := L "Guide"; path := L "./guide.busy.md";
                    anchor := Some (L "review") |}];
     definitions := [{| ld_name := L "Inbox";
                        ld_content := L "The mail that has not been read." |}];
     setup := Some (L "Read the guide first.");
     operations :=
       [{| op_name := L "DailyReview";
           op_inputs := [L "inbox"];
           op_outputs := [L "summary"];
           op_steps := [{| step_number := 1; instruction := L "Read the inbox";
                           operation_references := None |};
                        {| step_number := 2; instruction := L "Run [Summarize] on it";
                           operation_references := Some [L "Summarize"] |}];
           op_checklist := Some {| items := [L "Summary sent"] |} |};
        {| op_name := L "Summarize"; op_inputs := []; op_outputs := [];
           op_steps := []; op_checklist := None |}];
     triggers := [] |}.

Definition review_text : str :=
  lines_open ["---"; "Name: Review"; "Type: '[Operation]'"; "Description: Daily review";
              "---";
              "";
              "[Guide]: ./guide.busy.md#review";
              "";
              "# Local Definitions"; ""; "## Inbox"; ""; "The mail that has not been read.";
              "";
              "# Setup"; ""; "Read the guide first.";
              "";
              "# Operations"; ""; "## DailyReview"; ""; "### Inputs"; ""; "- inbox"; "";
              "### Outputs"; ""; "- summary"; "";
              "### Steps"; ""; "1. Read the inbox"; "2. Run [Summarize] on it"; "";
              "### Checklist"; ""; "- Summary sent"; ""; "## Summarize"; ""].

(** ** Fences and headings *)

(** A body whose Operations section is [nameless_heading_section]: an
    item heading without a name, then a fenced block. *)
Definition nameless_heading_body : str :=
  L "# Operations" ++ [Re.nl] ++ Fixture.nameless_heading_section.

(** The content of an Operations section in which the lines of three
    backticks are indented. *)
Definition indented_fence_section : str :=
  lines ["## Deploy"; "Ship it."; "  ```"; "## x"; "  ```"].

(** ** The list items of the Triggers section *)

(** The text of a list item: the line without the white space around it
    and without its markers. *)
Definition item_text (line : str) : str :=
  Py.strip (Py.lstrip_chars (L "-*") (Py.strip line)).

(** A line that is a list item with a text. *)
Definition is_item (line : str) : bool :=
  is_bullet (Py.strip line) && negb (Py.is_empty (item_text line)).

(** ** A loader that tells the types of scalars apart *)

(** A YAML loader as [yaml.safe_load] is: [Yes] is a truth value, a text
    between single quotes is a string, and a date that does not exist
    makes it raise a [ValueError], which is no [YAMLError]. *)
Module FixtureYaml.

Definition yaml_table : list (str * value) :=
  [ (lines_open ["Type: [Document]"; "Description: Notes"],
     VDict [(L "Type", VList [VStr (L "Document")]); (L "Description", VStr (L "Notes"))]);
    (lines_open ["Name: Switch"; "Type: [Yes]"; "Description: A switch"],
     VDict [(L "Name", VStr (L "Switch")); (L "Type", VList [VBool true]);
            (L "Description", VStr (L "A switch"))]);
    (lines_open ["Name: Review"; "Type: '[Operation]'"; "Description: Daily review"],
     VDict [(L "Name", VStr (L "Review")); (L "Type", VStr (L "[Operation]"));
            (L "Description", VStr (L "Daily review"))]) ].

Definition lib : Library :=
  {| yaml_safe_load := fun text =>
       if Py.contains (L "2024-02-30") text
       then YamlRaises (L "day is out of range for month")
       else match dict_get text yaml_table with
            | Some v => YamlValue v
            | None => yaml_safe_load Fixture.lib text
            end;
     repr_value := repr_value Fixture.lib;
     pydantic_text := pydantic_text Fixture.lib |}.

Definition dated_doc : str :=
  lines ["---"; "Name: Notes"; "Type: [Document]"; "Description: Notes";
         "Date: 2024-02-30"; "---"; "# Setup"; "Nothing."].

Definition nameless_doc : str :=
  lines ["---"; "Type: [Document]"; "Description: Notes"; "---"; "# Setup"; "Nothing."].

(** A document whose Type is written [[Yes]]. *)
Definition switch_doc : str :=
  lines ["---"; "Name: Switch"; "Type: [Yes]"; "Description: A switch"; "---";
         "# Setup"; "Nothing."].

End FixtureYaml.

(** ** A disk that raises *)

(** A file system in which a name of more than 255 characters cannot be
    tested (the operating system refuses it with an [OSError]), with a
    file that is no BUSY document. *)
Module FixtureDisk.

Definition broken_md : str := lines ["# Setup"; "Nothing."].

Definition fs : FileSystem :=
  {| path_join := path_join Fixture.fs;
     path_exists := fun p =>
       if 255 <? length p then Raise (OSError (L "File name too long"))
       else if Py.str_eqb p (L "/ws/broken.md") then Ok true
            else path_exists Fixture.fs p;
     path_resolve := path_resolve Fixture.fs;
     read_text := fun p =>
       if Py.str_eqb p (L "/ws/broken.md") then Ok broken_md
       else read_text Fixture.fs p;
     path_parent := path_parent Fixture.fs |}.

Definition importing (name path : string) : Document :=
  Plain {| metadata := {| md_name := L "Main"; md_type := L "[Document]";
                          md_description := L "Main"; md_provider := None |};
           imports := [{| concept_name := L name; path := L path; anchor := None |}];
           definitions := []; setup := None; operations := []; triggers := [] |}.

Definition long_name : string :=
  "aaaaaaaaaaaaaaaaaaaaaaaaaaaaaaaaaaaaaaaaaaaaaaaaaaaaaaaaaaaaaaaaaaaaaaaaaaaaaaaaaaaaaaaaaaaaaaaaaaaaaaaaaaaaaaaaaaaaaaaaaaaaaaaaaaaaaaaaaaaaaaaaaaaaaaaaaaaaaaaaaaaaaaaaaaaaaaaaaaaaaaaaaaaaaaaaaaaaaaaaaaaaaaaaaaaaaaaaaaaaaaaaaaaaaaaaaaaaaaaaaaaaaaaaaaaaaaaaaaaaaaaaaaaaaaaaaaaa.md".

End FixtureDisk.

(** * Properties *)

(** ** The matcher *)

Module ReFacts.
Import Re ReNotions.

Lemma rmatch_star fl g r st :
  rmatch fl (Star g r) st = star_loop fl g r (length (m_rest st)) st.
Proof. reflexivity. Qed.

Lemma rmatch_seq fl r1 r2 st :
  rmatch fl (Seq r1 r2) st = flat_map (rmatch fl r2) (rmatch fl r1 st).
Proof. reflexivity. Qed.

Lemma in_seq fl r1 r2 st st' :
  In st' (rmatch fl (Seq r1 r2) st) <->
  exists mid, In mid (rmatch fl r1 st) /\ In st' (rmatch fl r2 mid).
Proof. rewrite rmatch_seq. apply in_flat_map. Qed.

Lemma in_alt fl r1 r2 st st' :
  In st' (rmatch fl (Alt r1 r2) st) <->
  In st' (rmatch fl r1 st) \/ In st' (rmatch fl r2 st).
Proof. simpl. apply in_app_iff. Qed.

Lemma in_eps fl st st' : In st' (rmatch fl Eps st) <-> st' = st.
Proof. simpl. intuition. Qed.

Lemma in_opt fl r st st' :
  In st' (rmatch fl (Opt r) st) <-> In st' (rmatch fl r st) \/ st' = st.
Proof. unfold Opt. rewrite in_alt, in_eps. reflexivity. Qed.

Lemma in_chr fl cs st st' :
  In st' (rmatch fl (Chr cs) st) <->
  exists c rest, m_rest st = c :: rest /\ cmatch fl cs c = true /\
                 st' = advance c rest st.
Proof.
  simpl. destruct (m_rest st) as [|c rest].
  - split; [intros [] | intros (c & rest & H & _); discriminate].
  - destruct (cmatch fl cs c) eqn:E; split.
    + intros [<- | []]. eauto.
    + intros (c' & rest' & H & _ & ->). injection H as <- <-. now left.
    + intros [].
    + intros (c' & rest' & H & Hc & _). injection H as <- <-. congruence.
Qed.

Lemma in_group fl n r st st' :
  In st' (rmatch fl (Group n r) st) <->
  exists mid, In mid (rmatch fl r st) /\ st' = set_cap n st mid.
Proof.
  simpl. rewrite in_map_iff. split; intros (mid & H1 & H2); exists mid; auto.
Qed.

Lemma in_look_pos fl r st st' :
  In st' (rmatch fl (Look true r) st) ->
  exists w, In w (rmatch fl r st) /\ st' = with_caps (m_caps w) st.
Proof.
  simpl. destruct (rmatch fl r st) as [|w ws]; [intros [] |].
  intros [<- | []]. exists w. split; [now left | reflexivity].
Qed.

Lemma in_guard (b : bool) (st st' : mstate) :
  In st' (if b then [st] else []) <-> b = true /\ st' = st.
Proof. destruct b; simpl; intuition congruence. Qed.

Lemma in_bol fl st st' :
  In st' (rmatch fl Bol st) <-> at_bol fl st = true /\ st' = st.
Proof. apply in_guard. Qed.

Lemma in_eol fl st st' :
  In st' (rmatch fl Eol st) <-> at_eol fl st = true /\ st' = st.
Proof. apply in_guard. Qed.

Lemma in_endz fl st st' :
  In st' (rmatch fl EndZ st) <-> m_rest st = [] /\ st' = st.
Proof.
  simpl. rewrite in_guard. destruct (m_rest st); simpl; intuition congruence.
Qed.

Lemma in_look_neg fl r st st' :
  In st' (rmatch fl (Look false r) st) <-> rmatch fl r st = [] /\ st' = st.
Proof.
  simpl. destruct (rmatch fl r st); simpl; intuition congruence.
Qed.

(** Whatever holds of no iteration and is kept by one more iteration in
    front holds of every way the star matches. *)
Lemma star_loop_inv fl g r (R : mstate -> mstate -> Prop) :
  (forall st, R st st) ->
  (forall st mid st',
      In mid (rmatch fl r st) -> m_pos st < m_pos mid -> R mid st' -> R st st') ->
  forall n st st', In st' (star_loop fl g r n st) -> R st st'.
Proof.
  intros Hrefl Hstep. induction n as [|n IH]; intros st st' Hin.
  - destruct Hin as [<- | []]. apply Hrefl.
  - simpl in Hin.
    assert (Hcases : st' = st \/
                     In st' (flat_map (star_loop fl g r n)
                                      (List.filter (progress st) (rmatch fl r st)))).
    { destruct g.
      - apply in_app_iff in Hin. destruct Hin as [H | [<- | []]]; auto.
      - destruct Hin as [<- | H]; auto. }
    destruct Hcases as [-> | Hin']; [apply Hrefl |].
    apply in_flat_map in Hin' as (mid & Hmid & Hrest).
    apply filter_In in Hmid as [Hmid Hprog].
    apply (Hstep st mid st' Hmid); [| now apply IH].
    unfold progress in Hprog. now apply Nat.ltb_lt in Hprog.
Qed.

Lemma in_star_inv fl g r (R : mstate -> mstate -> Prop) :
  (forall st, R st st) ->
  (forall st mid st',
      In mid (rmatch fl r st) -> m_pos st < m_pos mid -> R mid st' -> R st st') ->
  forall st st', In st' (rmatch fl (Star g r) st) -> R st st'.
Proof. intros H1 H2 st st'. rewrite rmatch_star. now apply star_loop_inv. Qed.

Lemma extends_refl st : extends st st.
Proof. exists []. simpl. split; [reflexivity | lia]. Qed.

Lemma extends_trans a b c : extends a b -> extends b c -> extends a c.
Proof.
  intros (w1 & H1 & P1) (w2 & H2 & P2). exists (w1 ++ w2).
  rewrite H1, H2, <- app_assoc, length_app. split; [reflexivity | lia].
Qed.

Lemma extends_le a b : extends a b -> m_pos a <= m_pos b.
Proof. intros (w & _ & H). lia. Qed.

Lemma extends_same a b : extends a b -> m_pos a = m_pos b -> m_rest a = m_rest b.
Proof.
  intros (w & H & P) E. destruct w as [|c w]; [exact H |]. simpl in P. lia.
Qed.

Lemma rmatch_extends fl r : forall st st', In st' (rmatch fl r st) -> extends st st'.
Proof.
  induction r as [| cs | r1 IH1 r2 IH2 | r1 IH1 r2 IH2 | g r IH | n r IH | | | | [] r IH];
    intros st st' Hin.
  - apply in_eps in Hin as ->. apply extends_refl.
  - apply in_chr in Hin as (c & rest & Hr & _ & ->).
    exists [c]. simpl. split; [exact Hr | lia].
  - apply in_seq in Hin as (mid & H1 & H2). eapply extends_trans; eauto.
  - apply in_alt in Hin as [H | H]; eauto.
  - revert st st' Hin. apply in_star_inv.
    + apply extends_refl.
    + intros st mid st' Hmid _ Hrest. eapply extends_trans; eauto.
  - apply in_group in Hin as (mid & H & ->).
    destruct (IH _ _ H) as (w & Hw & Pw). exists w. simpl. auto.
  - apply in_bol in Hin as [_ ->]. apply extends_refl.
  - apply in_eol in Hin as [_ ->]. apply extends_refl.
  - apply in_endz in Hin as [_ ->]. apply extends_refl.
  - apply in_look_pos in Hin as (w & _ & ->). exists []. simpl. split; [reflexivity | lia].
  - apply in_look_neg in Hin as [_ ->]. apply extends_refl.
Qed.

(** The text of a group is the text the matcher went over. *)
Lemma set_cap_text n st mid w :
  m_rest st = w ++ m_rest mid -> m_pos mid = m_pos st + length w ->
  m_caps (set_cap n st mid) = (n, (m_pos st, w)) :: m_caps mid.
Proof.
  intros Hr Hp. unfold set_cap. simpl. rewrite Hr, Hp.
  replace (m_pos st + length w - m_pos st) with (length w) by lia.
  now rewrite take_app_length.
Qed.

(** A pattern sets the groups it holds and leaves the others alone. *)
Lemma rmatch_caps fl r : forall st st' k,
    In st' (rmatch fl r st) -> ~ In k (groups_of r) ->
    cap_lookup k (m_caps st') = cap_lookup k (m_caps st).
Proof.
  induction r as [| cs | r1 IH1 r2 IH2 | r1 IH1 r2 IH2 | g r IH | n r IH | | | | [] r IH];
    intros st st' k Hin Hk; simpl in Hk.
  - apply in_eps in Hin as ->. reflexivity.
  - apply in_chr in Hin as (c & rest & _ & _ & ->). reflexivity.
  - apply in_seq in Hin as (mid & H1 & H2). rewrite in_app_iff in Hk.
    rewrite (IH2 _ _ _ H2), (IH1 _ _ _ H1); tauto.
  - rewrite in_app_iff in Hk. apply in_alt in Hin as [H | H]; eauto.
  - revert st st' Hin.
    apply (in_star_inv fl g r
             (fun st st' => cap_lookup k (m_caps st') = cap_lookup k (m_caps st))).
    + reflexivity.
    + intros st mid st' Hmid _ Hrest. rewrite Hrest. eauto.
  - apply in_group in Hin as (mid & H & ->). simpl.
    destruct (Nat.eqb_spec n k) as [-> | Hne]; [tauto |]. apply IH; tauto.
  - apply in_bol in Hin as [_ ->]. reflexivity.
  - apply in_eol in Hin as [_ ->]. reflexivity.
  - apply in_endz in Hin as [_ ->]. reflexivity.
  - apply in_look_pos in Hin as (w & Hw & ->). simpl. eauto.
  - apply in_look_neg in Hin as [_ ->]. reflexivity.
Qed.

Lemma in_star_chr fl g cs st st' :
  In st' (rmatch fl (Star g (Chr cs)) st) -> exists w, over fl cs st st' w.
Proof.
  revert st st'. apply in_star_inv.
  - intros st. exists []. repeat split; simpl; auto.
  - intros st mid st' Hmid _ (w & Hr & Hp & Hall & Hc).
    apply in_chr in Hmid as (c & rest & Hst & Hcm & ->). simpl in *.
    exists (c :: w). repeat split; simpl.
    + now rewrite Hst, Hr.
    + lia.
    + now constructor.
    + exact Hc.
Qed.

Lemma in_plus_chr fl g cs st st' :
  In st' (rmatch fl (Plus g (Chr cs)) st) ->
  exists w, w <> [] /\ over fl cs st st' w.
Proof.
  unfold Plus. intros Hin. apply in_seq in Hin as (mid & H1 & H2).
  apply in_chr in H1 as (c & rest & Hst & Hcm & ->).
  apply in_star_chr in H2 as (w & Hr & Hp & Hall & Hc). simpl in *.
  exists (c :: w). split; [discriminate |]. repeat split; simpl.
  - now rewrite Hst, Hr.
  - lia.
  - now constructor.
  - exact Hc.
Qed.

Lemma in_group_text fl n r st st' :
  In st' (rmatch fl (Group n r) st) ->
  exists mid w, In mid (rmatch fl r st) /\
                m_rest st = w ++ m_rest mid /\ m_pos mid = m_pos st + length w /\
                m_caps st' = (n, (m_pos st, w)) :: m_caps mid /\
                m_rest st' = m_rest mid /\ m_pos st' = m_pos mid /\
                m_prev st' = m_prev mid.
Proof.
  intros Hin. apply in_group in Hin as (mid & Hmid & ->).
  destruct (rmatch_extends _ _ _ _ Hmid) as (w & Hr & Hp).
  exists mid, w. repeat split; auto. now apply set_cap_text.
Qed.

(** A group around a plus of one-character matchers holds a text that is
    not empty, made of characters of the class. *)
Lemma in_group_plus_chr fl n g cs st st' :
  In st' (rmatch fl (Group n (Plus g (Chr cs))) st) ->
  exists w, w <> [] /\ Forall (fun c => cmatch fl cs c = true) w /\
            cap_lookup n (m_caps st') = Some (m_pos st, w).
Proof.
  intros Hin. apply in_group_text in Hin as (mid & w & Hmid & Hr & Hp & Hc & _).
  apply in_plus_chr in Hmid as (w' & Hne & Hr' & Hp' & Hall & _).
  assert (w' = w) as ->.
  { assert (length w' = length w) by lia.
    rewrite Hr' in Hr. apply (f_equal (take (length w))) in Hr.
    rewrite take_app_length in Hr. rewrite <- H in Hr at 1.
    now rewrite take_app_length in Hr. }
  exists w. repeat split; auto. rewrite Hc. simpl. now rewrite Nat.eqb_refl.
Qed.

Lemma match_at_found fl r st m :
  match_at fl r st = Some m -> m_caps st = [] -> found fl r m.
Proof.
  unfold match_at. destruct (rmatch fl r st) as [|st' l] eqn:E; [discriminate |].
  intros [= <-] Hc. exists st. rewrite E. simpl. auto.
Qed.

Lemma search_from_found fl r rest : forall prev pos m,
    search_from fl r prev pos rest = Some m -> found fl r m.
Proof.
  induction rest as [|c rest IH]; intros prev pos m; simpl;
    destruct (match_at fl r _) eqn:E.
  - intros [= <-]. eapply match_at_found; eauto.
  - discriminate.
  - intros [= <-]. eapply match_at_found; eauto.
  - apply IH.
Qed.

Lemma re_match_found fl r s m : re_match fl r s = Some m -> found fl r m.
Proof. intros H. eapply match_at_found; eauto. Qed.

Lemma re_search_found fl r s m : re_search fl r s = Some m -> found fl r m.
Proof. apply search_from_found. Qed.

Lemma finditer_from_found fl r fuel : forall prev pos rest m,
    In m (finditer_from fuel fl r prev pos rest) -> found fl r m.
Proof.
  induction fuel as [|fuel IH]; intros prev pos rest m; simpl; [intros [] |].
  destruct (search_from fl r prev pos rest) as [m0|] eqn:E; [| intros []].
  apply search_from_found in E.
  destruct (mt_start m0 <? m_pos (mt_final m0)).
  - intros [<- | H]; eauto.
  - destruct (m_rest (mt_final m0)).
    + intros [<- | []]. exact E.
    + intros [<- | H]; eauto.
Qed.

Lemma finditer_found fl r s m : In m (finditer fl r s) -> found fl r m.
Proof. apply finditer_from_found. Qed.

(** *** Matches and the subject *)

Lemma at_offset_extends s st st' : at_offset s st -> extends st st' -> at_offset s st'.
Proof.
  intros (pre & Hs & Hl) (w & Hr & Hp). exists (pre ++ w).
  rewrite Hs, Hr, <- app_assoc, length_app. split; [reflexivity | lia].
Qed.

Lemma at_offset_le s st : at_offset s st -> m_pos st <= length s.
Proof. intros (pre & -> & <-). rewrite length_app. lia. Qed.

Lemma at_offset_start s : at_offset s (MState None 0 s []).
Proof. exists []. split; reflexivity. Qed.

Lemma at_offset_step s prev pos c rest caps caps' :
  at_offset s (MState prev pos (c :: rest) caps) ->
  at_offset s (MState (Some c) (S pos) rest caps').
Proof.
  intros (pre & Hs & Hl). simpl in *. exists (pre ++ [c]).
  rewrite <- app_assoc, length_app. simpl. split; [exact Hs | lia].
Qed.

Lemma search_from_found_in fl r s rest : forall prev pos m,
    at_offset s (MState prev pos rest []) ->
    search_from fl r prev pos rest = Some m -> found_in fl r s m.
Proof.
  induction rest as [|c rest IH]; intros prev pos m Hat; simpl;
    unfold match_at; destruct (rmatch fl r _) as [|st' l] eqn:E.
  - discriminate.
  - intros [= <-]. eexists. repeat split; [exact Hat | reflexivity | ..].
    + reflexivity.
    + simpl. rewrite E. now left.
  - apply IH. eapply at_offset_step; eauto.
  - intros [= <-]. eexists. repeat split; [exact Hat | reflexivity | ..].
    + reflexivity.
    + simpl. rewrite E. now left.
Qed.

Lemma found_in_final fl r s m : found_in fl r s m -> at_offset s (mt_final m).
Proof.
  intros (st0 & Hat & _ & _ & Hin).
  eapply at_offset_extends; [exact Hat | eapply rmatch_extends; eauto].
Qed.

Lemma re_search_found_in fl r s m : re_search fl r s = Some m -> found_in fl r s m.
Proof. apply search_from_found_in, at_offset_start. Qed.

Lemma finditer_from_found_in fl r s fuel : forall prev pos rest m,
    at_offset s (MState prev pos rest []) ->
    In m (finditer_from fuel fl r prev pos rest) -> found_in fl r s m.
Proof.
  induction fuel as [|fuel IH]; intros prev pos rest m Hat; simpl; [intros [] |].
  destruct (search_from fl r prev pos rest) as [m0|] eqn:E; [| intros []].
  apply (search_from_found_in _ _ s) in E; [| exact Hat].
  pose proof (found_in_final _ _ _ _ E) as Hfin.
  destruct (mt_start m0 <? m_pos (mt_final m0)).
  - intros [<- | H]; [exact E |]. eapply IH; [| exact H].
    destruct Hfin as (pre & Hs & Hl). exists pre. auto.
  - destruct (m_rest (mt_final m0)) as [|c rest'] eqn:Er.
    + intros [<- | []]. exact E.
    + intros [<- | H]; [exact E |]. eapply IH; [| exact H].
      destruct Hfin as (pre & Hs & Hl). rewrite Er in Hs.
      exists (pre ++ [c]). rewrite <- app_assoc, length_app. simpl.
      split; [exact Hs | lia].
Qed.

Lemma finditer_found_in fl r s m : In m (finditer fl r s) -> found_in fl r s m.
Proof. apply finditer_from_found_in, at_offset_start. Qed.

(** A match lies within the subject, and the text between its offsets is
    the text the matcher went over. *)
Lemma found_in_text fl r s m :
  found_in fl r s m ->
  exists st0 w,
    In (mt_final m) (rmatch fl r st0) /\ m_caps st0 = [] /\
    m_rest st0 = w ++ m_rest (mt_final m) /\
    mt_end m = mt_start m + length w /\ mt_end m <= length s /\
    Py.slice s (mt_start m) (mt_end m) = w.
Proof.
  intros (st0 & (pre & Hs & Hl) & Hc & Hp & Hin).
  destruct (rmatch_extends _ _ _ _ Hin) as (w & Hr & Hq).
  exists st0, w. unfold mt_end. rewrite <- Hp. repeat split; auto.
  - rewrite Hs, Hr, !length_app. lia.
  - unfold Py.slice. rewrite Hq, Hs, Hr, <- Hl.
    rewrite drop_app_length.
    replace (length pre + length w - length pre) with (length w) by lia.
    now rewrite take_app_length.
Qed.

End ReFacts.

(** ** Results and loops *)

Lemma mapM_ok {A B} (f : A -> result B) (g : A -> B) (l : list A) :
  (forall a, In a l -> f a = Ok (g a)) -> mapM f l = Ok (map g l).
Proof.
  induction l as [|a l IH]; intros H; simpl; [reflexivity |].
  rewrite (H a) by now left. simpl. rewrite IH; [reflexivity |].
  intros b Hb. apply H. now right.
Qed.

Lemma is_empty_false (w : str) : w <> [] -> Py.is_empty w = false.
Proof. destruct w; [congruence | reflexivity]. Qed.

(** ** Imports *)

Section Imports.
Import Re ReNotions ReFacts.

Ltac no_group := simpl; intuition discriminate.

(** In every match of the reference-link pattern the name and the path
    are not empty. *)
Lemma import_link_groups st0 st' :
  In st' (rmatch no_flags Pat.import_link st0) ->
  exists a g1 b g2,
    g1 <> [] /\ g2 <> [] /\
    cap_lookup 1 (m_caps st') = Some (a, g1) /\
    cap_lookup 2 (m_caps st') = Some (b, g2).
Proof.
  unfold Pat.import_link. cbn [Seqs]. intros H.
  apply in_seq in H as (s1 & H1 & H).
  apply in_seq in H as (s2 & H2 & H).
  apply in_seq in H as (s3 & H3 & H).
  apply in_seq in H as (s4 & H4 & H).
  apply in_seq in H as (s5 & H5 & H).
  apply in_seq in H as (s6 & H6 & H).
  destruct (in_group_plus_chr _ _ _ _ _ _ H2) as (g1 & Hne1 & _ & Hc1).
  destruct (in_group_plus_chr _ _ _ _ _ _ H6) as (g2 & Hne2 & _ & Hc2).
  exists (m_pos s1), g1, (m_pos s5), g2. repeat split; auto.
  - rewrite (rmatch_caps _ _ _ _ 1 H) by no_group.
    apply in_group in H6 as (mid & H6 & ->). simpl.
    rewrite (rmatch_caps _ _ _ _ 1 H6) by no_group.
    rewrite (rmatch_caps _ _ _ _ 1 H5) by no_group.
    rewrite (rmatch_caps _ _ _ _ 1 H4) by no_group.
    rewrite (rmatch_caps _ _ _ _ 1 H3) by no_group.
    exact Hc1.
  - rewrite (rmatch_caps _ _ _ _ 2 H) by no_group. exact Hc2.
Qed.

Lemma import_of_match_ok lib body m :
  In m (finditer no_flags Pat.import_link body) ->
  import_of_match lib m = Ok (import_entry m).
Proof.
  intros Hm. apply finditer_found in Hm as (st0 & _ & _ & Hin).
  apply import_link_groups in Hin as (a & g1 & b & g2 & Hne1 & Hne2 & Hc1 & Hc2).
  unfold import_of_match, import_entry, new_Import, group_str, group.
  rewrite Hc1, Hc2. unfold min_length_1.
  rewrite (is_empty_false g1), (is_empty_false g2) by assumption.
  reflexivity.
Qed.

Lemma parse_imports_total lib body :
  _parse_imports lib body =
  Ok (map import_entry (finditer no_flags Pat.import_link body)).
Proof.
  unfold _parse_imports. apply mapM_ok.
  intros m Hm. eapply import_of_match_ok; eauto.
Qed.

End Imports.


Lemma str_eqb_eq (a b : str) : Py.str_eqb a b = true <-> a = b.
Proof.
  revert b. induction a as [|x a IH]; intros [|y b]; simpl; try (split; congruence).
  rewrite andb_true_iff, IH. unfold Py.ascii_eqb. rewrite Ascii.eqb_eq.
  split; [intros [-> ->]; reflexivity | intros [= -> ->]; auto].
Qed.

Lemma str_eqb_refl (a : str) : Py.str_eqb a a = true.
Proof. now apply str_eqb_eq. Qed.

Lemma str_eqb_neq (a b : str) : a <> b -> Py.str_eqb a b = false.
Proof.
  intros H. destruct (Py.str_eqb a b) eqn:E; [| reflexivity].
  apply str_eqb_eq in E. contradiction.
Qed.

Lemma mapM_raise {A B} (f : A -> result B) (P : exn -> Prop) (l : list A) e :
  (forall a e', In a l -> f a = Raise e' -> P e') -> mapM f l = Raise e -> P e.
Proof.
  induction l as [|a l IH]; intros H; simpl; [discriminate |].
  destruct (f a) as [b | e'] eqn:E; simpl.
  - destruct (mapM f l) as [bs | e''] eqn:E'; simpl; [discriminate |].
    intros [= <-]. apply IH; [| reflexivity]. intros a' e' Ha. apply H. now right.
  - intros [= <-]. apply (H a); [now left | exact E].
Qed.

Lemma mapM_length {A B} (f : A -> result B) (l : list A) (bs : list B) :
  mapM f l = Ok bs -> length bs = length l.
Proof.
  revert bs. induction l as [|a l IH]; intros bs; simpl.
  - intros [= <-]. reflexivity.
  - destruct (f a) as [b | e]; simpl; [| discriminate].
    destruct (mapM f l) as [bs' | e]; simpl; [| discriminate].
    intros [= <-]. simpl. f_equal. now apply IH.
Qed.

Lemma mapM_forall {A B} (f : A -> result B) (P : B -> Prop) (l : list A) (bs : list B) :
  (forall a b, In a l -> f a = Ok b -> P b) -> mapM f l = Ok bs -> Forall P bs.
Proof.
  revert bs. induction l as [|a l IH]; intros bs H; simpl.
  - intros [= <-]. constructor.
  - destruct (f a) as [b | e] eqn:E; simpl; [| discriminate].
    destruct (mapM f l) as [bs' | e] eqn:E'; simpl; [| discriminate].
    intros [= <-]. constructor.
    + apply (H a); [now left | exact E].
    + apply IH; [| reflexivity]. intros a' b' Ha. apply H. now right.
Qed.

(** ** What the sub-parsers raise *)

Section Raised.

Variable lib : Library.

Lemma validated_raise {A} model errs (a : A) e :
  validated lib model errs a = Raise e -> raised_inside e.
Proof. destruct errs; simpl; [discriminate | intros [= <-]; exact I]. Qed.

Lemma new_Trigger_raise raw ty sch ev fil op q e :
  new_Trigger lib raw ty sch ev fil op q = Raise e -> raised_inside e.
Proof.
  unfold new_Trigger.
  destruct (opt_str_field _ sch), (opt_str_field _ ev), (opt_str_dict_field _ fil),
    (str_field _ _ op), (bool_field _ q).
  apply validated_raise.
Qed.

Lemma extract_metadata_raise content e :
  _extract_metadata lib content = Raise e ->
  (exists msg, e = BusyValidationError msg)
  \/ (exists m msg,
         Re.re_match Re.DOTALL Pat.frontmatter content = Some m
         /\ yaml_safe_load lib (Re.group_str m 1) = YamlRaises msg
         /\ e = ValueError msg).
Proof.
  unfold _extract_metadata.
  destruct (Re.re_match _ _ _) as [m|] eqn:Em; [| intros [= <-]; left; eauto].
  destruct (yaml_safe_load lib _) as [v | msg | msg] eqn:Ey.
  - intros H. left. revert H.
    destruct v as [| | | | | data]; try (intros [= <-]; eauto).
    unfold missing_field, bind.
    destruct (dict_get (L "Name") data); [| intros [= <-]; eauto].
    destruct (dict_get (L "Type") data); [| intros [= <-]; eauto].
    destruct (dict_get (L "Description") data); [| intros [= <-]; eauto].
    destruct (new_Metadata _ _ _ _ _); [discriminate | intros [= <-]; eauto].
  - intros [= <-]. left. eauto.
  - intros [= <-]. right. exists m, msg. auto.
Qed.

Lemma parse_local_definitions_raise content e :
  _parse_local_definitions lib content = Raise e -> raised_inside e.
Proof.
  unfold _parse_local_definitions. destruct (Re.re_search _ _ _); [| discriminate].
  apply mapM_raise. intros hm e' _. apply validated_raise.
Qed.

Lemma parse_steps_raise content e :
  parse_steps lib content = Raise e -> raised_inside e.
Proof.
  unfold parse_steps. destruct (Re.re_search _ _ _); [| discriminate].
  apply mapM_raise. intros sm e' _. apply validated_raise.
Qed.

Lemma parse_operations_raise content e :
  _parse_operations lib content = Raise e -> raised_inside e.
Proof.
  unfold _parse_operations. destruct (Re.re_search _ _ _); [| discriminate].
  apply mapM_raise. intros [[a b] name] e' _. unfold parse_operation, bind.
  destruct (parse_steps lib _) eqn:E.
  - apply validated_raise.
  - intros [= <-]. eapply parse_steps_raise; eauto.
Qed.

Lemma parse_tools_section_raise content e :
  _parse_tools_section lib content = Raise e -> raised_inside e.
Proof.
  unfold _parse_tools_section. destruct (Re.re_search _ _ _); [| discriminate].
  apply mapM_raise. intros [[a b] name] e' _. unfold parse_tool.
  destruct (Py.is_empty _); [intros [= <-]; exact I | apply validated_raise].
Qed.

Lemma parse_trigger_line_raise line e :
  parse_trigger_line lib line = Raise e -> exists msg, e = BusyValidationError msg.
Proof.
  unfold parse_trigger_line.
  destruct (_ || _); [discriminate |].
  destruct (Py.is_empty _); [discriminate |].
  destruct (_parse_trigger_declaration lib _); [discriminate | intros [= <-]; eauto].
Qed.

Lemma parse_triggers_raise content e :
  _parse_triggers lib content = Raise e -> raised_inside e.
Proof.
  unfold _parse_triggers, bind. destruct (Re.re_search _ _ _); [| discriminate].
  destruct (mapM _ _) eqn:E; [discriminate |]. intros [= <-].
  revert E. apply mapM_raise. intros line e' _ H.
  apply parse_trigger_line_raise in H as [msg ->]. exact I.
Qed.

Lemma frontmatter_trigger_raise meta v e :
  frontmatter_trigger lib meta v = Raise e -> raised_inside e.
Proof.
  unfold frontmatter_trigger.
  destruct v; try (intros [= <-]; exact I).
  destruct (negb _); [intros [= <-]; exact I |].
  destruct (_ && _); [intros [= <-]; exact I |].
  apply new_Trigger_raise.
Qed.

Lemma parse_frontmatter_triggers_raise data meta e :
  _parse_frontmatter_triggers lib data meta = Raise e -> raised_inside e.
Proof.
  unfold _parse_frontmatter_triggers.
  destruct (negb _); [discriminate |].
  destruct (get_or_none "Triggers" data); try (intros [= <-]; exact I).
  apply mapM_raise. intros v e' _. apply frontmatter_trigger_raise.
Qed.

(** The sub-parsers raise validation errors and pydantic's errors, never
    a parse error or an import error. *)
Lemma parse_document_body_raise content e :
  parse_document_body lib content = Raise e -> raised_inside e.
Proof.
  unfold parse_document_body, bind.
  destruct (_extract_metadata lib content) as [[[meta body] data] | e0] eqn:E0.
  2:{ intros [= <-].
      apply extract_metadata_raise in E0 as [[msg ->] | (m & msg & _ & _ & ->)]; exact I. }
  rewrite parse_imports_total.
  destruct (_parse_local_definitions lib body) eqn:E1.
  2:{ intros [= <-]. eapply parse_local_definitions_raise; eauto. }
  destruct (_parse_operations lib body) eqn:E2.
  2:{ intros [= <-]. eapply parse_operations_raise; eauto. }
  destruct (Py.str_eqb _ _).
  - destruct (_parse_tools_section lib body) as [[|t ts] | e3] eqn:E3.
    + intros [= <-]. exact I.
    + discriminate.
    + intros [= <-]. eapply parse_tools_section_raise; eauto.
  - destruct (_parse_frontmatter_triggers lib data meta) eqn:E3.
    2:{ intros [= <-]. eapply parse_frontmatter_triggers_raise; eauto. }
    destruct (_parse_triggers lib body) eqn:E4; [discriminate |].
    intros [= <-]. eapply parse_triggers_raise; eauto.
Qed.

End Raised.

(** ** The assembler *)

(** C7.  When a sub-parser raises during the assembly of a document, a
    validation error or an import error leaves [parse_document] as it is,
    with the same message; any other exception leaves it as a parse error
    whose message is that of the cause after the fixed prefix.  The cause is
    then never itself a parse error: the conversion happens once, in
    [parse_document]. *)
Theorem error_propagation (lib : Library) (content : str) (e : exn) :
  parse_document_body lib content = Raise e ->
  match e with
  | BusyValidationError msg =>
      parse_document lib content = Raise (BusyValidationError msg)
  | BusyImportError msg =>
      parse_document lib content = Raise (BusyImportError msg)
  | _ =>
      parse_document lib content =
      Raise (BusyParseError (L "Failed to parse BUSY document: " ++ exn_str e))
      /\ (forall msg, e <> BusyParseError msg)
  end.
Proof.
  intros H. pose proof (parse_document_body_raise _ _ _ H) as Hin.
  unfold parse_document. rewrite H.
  destruct e; simpl in Hin; try contradiction; try reflexivity.
  all: split; [reflexivity | discriminate].
Qed.

Lemma error_propagation_witness :
  parse_document_body Fixture.lib Fixture.step_zero_doc =
  Raise (ValidationError (L "1 validation error for Step"))
  /\ parse_document Fixture.lib Fixture.step_zero_doc =
     Raise (BusyParseError (L "Failed to parse BUSY document: 1 validation error for Step"))
  /\ parse_document Fixture.lib Fixture.tool_doc_without_tools =
     Raise (BusyValidationError
              (L "Tool document must contain at least one tool definition in Tools section")).
Proof.
  assert (H1 : parse_document_body Fixture.lib Fixture.step_zero_doc =
               Raise (ValidationError (L "1 validation error for Step")))
    by (vm_compute; reflexivity).
  assert (H2 : parse_document_body Fixture.lib Fixture.tool_doc_without_tools =
               Raise (BusyValidationError
                        (L "Tool document must contain at least one tool definition in Tools section")))
    by (vm_compute; reflexivity).
  split; [exact H1 |]. split.
  - exact (proj1 (error_propagation _ _ _ H1)).
  - exact (error_propagation _ _ _ H2).
Defined.

(** Every document that [parse_document] returns for a Tool-type
    frontmatter is the tool variant, with the tools of the body, at least
    one, and no trigger. *)
Lemma tool_document_shape lib content meta body data d :
  _extract_metadata lib content = Ok (meta, body, data) ->
  md_type meta = tool_tag ->
  parse_document lib content = Ok d ->
  exists fields tools,
    d = ToolDocument fields tools /\ tools <> [] /\ triggers fields = [] /\
    _parse_tools_section lib body = Ok tools.
Proof.
  intros Hmeta Htype.
  assert (Htag : Py.str_eqb (md_type meta) tool_tag = true) by now apply str_eqb_eq.
  unfold parse_document, parse_document_body, bind.
  rewrite Hmeta, parse_imports_total, Htag.
  destruct (_parse_local_definitions lib body) as [defs | [] ]; try discriminate.
  destruct (_parse_operations lib body) as [ops | [] ]; try discriminate.
  destruct (_parse_tools_section lib body) as [[|t ts] | [] ]; try discriminate.
  intros [= <-]. do 2 eexists. repeat split; discriminate.
Qed.

(** C6.  For a document whose metadata type is the Tool tag: when the
    earlier sections parse and no tool is parsed from the body,
    [parse_document] raises a validation error; when at least one tool is
    parsed, the result is the tool variant with these tools and an empty
    list of triggers, whatever the frontmatter and the body say about
    triggers; and every document it returns is of that shape. *)
Theorem tool_document_rule (lib : Library) (content : str)
        (meta : Metadata) (body : str) (data : list (str * value)) :
  _extract_metadata lib content = Ok (meta, body, data) ->
  md_type meta = tool_tag ->
  (forall defs ops,
      _parse_local_definitions lib body = Ok defs ->
      _parse_operations lib body = Ok ops ->
      _parse_tools_section lib body = Ok [] ->
      parse_document lib content =
      Raise (BusyValidationError
               (L "Tool document must contain at least one tool definition in Tools section")))
  /\ (forall defs ops t ts,
         _parse_local_definitions lib body = Ok defs ->
         _parse_operations lib body = Ok ops ->
         _parse_tools_section lib body = Ok (t :: ts) ->
         parse_document lib content =
         Ok (ToolDocument
               {| metadata := meta;
                  imports := map import_entry (Re.finditer Re.no_flags Pat.import_link body);
                  definitions := defs; setup := _parse_setup body;
                  operations := ops; triggers := [] |}
               (t :: ts)))
  /\ (forall d,
         parse_document lib content = Ok d ->
         exists fields tools,
           d = ToolDocument fields tools /\ tools <> [] /\ triggers fields = [] /\
           _parse_tools_section lib body = Ok tools).
Proof.
  intros Hmeta Htype.
  assert (Htag : Py.str_eqb (md_type meta) tool_tag = true) by now apply str_eqb_eq.
  split; [| split].
  - unfold parse_document, parse_document_body, bind.
    rewrite Hmeta, parse_imports_total, Htag.
    intros defs ops -> -> ->. reflexivity.
  - unfold parse_document, parse_document_body, bind.
    rewrite Hmeta, parse_imports_total, Htag.
    intros defs ops t ts -> -> ->. reflexivity.
  - intros d. now apply (tool_document_shape lib content meta body data).
Qed.

Lemma tool_document_rule_witness :
  (exists fields tools,
      parse_document Fixture.lib Fixture.tool_doc_with_triggers =
      Ok (ToolDocument fields tools)
      /\ map tool_name tools = [L "send_email"] /\ triggers fields = [])
  /\ parse_document Fixture.lib Fixture.tool_doc_without_tools =
     Raise (BusyValidationError
              (L "Tool document must contain at least one tool definition in Tools section")).
Proof.
  split.
  - destruct (_extract_metadata Fixture.lib Fixture.tool_doc_with_triggers)
      as [[[meta body] data] |] eqn:E; [| vm_compute in E; discriminate].
    assert (Htype : md_type meta = tool_tag)
      by (vm_compute in E; injection E as <- _ _; reflexivity).
    destruct (tool_document_rule _ _ _ _ _ E Htype) as (_ & H & _).
    destruct (_parse_local_definitions Fixture.lib body) as [defs |] eqn:E1;
      [| vm_compute in E; injection E as _ <- _; vm_compute in E1; discriminate].
    destruct (_parse_operations Fixture.lib body) as [ops |] eqn:E2;
      [| vm_compute in E; injection E as _ <- _; vm_compute in E2; discriminate].
    destruct (_parse_tools_section Fixture.lib body) as [[|t ts] |] eqn:E3;
      [ vm_compute in E; injection E as _ <- _; vm_compute in E3; discriminate
      | | vm_compute in E; injection E as _ <- _; vm_compute in E3; discriminate].
    do 2 eexists. split; [exact (H _ _ _ _ eq_refl eq_refl eq_refl) |].
    split; [| reflexivity].
    vm_compute in E; injection E as _ <- _. vm_compute in E3.
    injection E3 as <- <-. reflexivity.
  - destruct (_extract_metadata Fixture.lib Fixture.tool_doc_without_tools)
      as [[[meta body] data] |] eqn:E; [| vm_compute in E; discriminate].
    assert (Htype : md_type meta = tool_tag)
      by (vm_compute in E; injection E as <- _ _; reflexivity).
    destruct (tool_document_rule _ _ _ _ _ E Htype) as (H & _ & _).
    apply (H [] []); vm_compute in E; injection E as _ <- _; vm_compute; reflexivity.
Defined.

(** ** The frontmatter *)

(** C8, as it is stated, fails.  The Type of this document is written
    [[Yes]]; YAML decodes it as the sequence of the truth value [True],
    and the parsed [metadata.type] is [[True]], not [[Yes]]. *)
Lemma type_tag_counterexample :
  exists meta body data,
    _extract_metadata FixtureYaml.lib FixtureYaml.switch_doc = Ok (meta, body, data)
    /\ dict_get (L "Type") data = Some (VList [VBool true])
    /\ md_type meta = L "[True]"
    /\ md_type meta <> L "[Yes]".
Proof.
  do 3 eexists. split; [vm_compute; reflexivity |].
  split; [reflexivity |]. split; [reflexivity | discriminate].
Qed.

(** C8, amended.  For a frontmatter that is valid (the fences match, YAML
    gives a mapping, Name and Description are strings that are not empty,
    Provider is absent, null or a string): (1) when Type was decoded as
    the string [[Word]] or as the sequence of the one string [Word], the
    parsed [metadata.type] is the string [[Word]]; (2) when it was decoded
    as a sequence of one value, whatever it is, [metadata.type] is what
    [str] gives for that value, between brackets: [[True]], [[None]] and
    [[8]] for a truth value, null and a number; (3) when it was decoded as
    the empty sequence, it is the string [[]]. *)
Theorem type_tag_rewound (lib : Library) (content : str) (m : Re.rematch)
        (data : list (str * value)) (name description : str) :
  Re.re_match Re.DOTALL Pat.frontmatter content = Some m ->
  yaml_safe_load lib (Re.group_str m 1) = YamlValue (VDict data) ->
  dict_get (L "Name") data = Some (VStr name) -> name <> [] ->
  dict_get (L "Description") data = Some (VStr description) -> description <> [] ->
  provider_ok data ->
  (forall word,
      dict_get (L "Type") data = Some (VStr (L "[" ++ word ++ L "]")) \/
      dict_get (L "Type") data = Some (VList [VStr word]) ->
      exists meta,
        _extract_metadata lib content = Ok (meta, Re.group_str m 2, data) /\
        md_type meta = L "[" ++ word ++ L "]")
  /\ (forall first,
         dict_get (L "Type") data = Some (VList [first]) ->
         exists meta,
           _extract_metadata lib content = Ok (meta, Re.group_str m 2, data) /\
           md_type meta = L "[" ++ value_str lib first ++ L "]" /\
           match first with
           | VBool true => md_type meta = L "[True]"
           | VBool false => md_type meta = L "[False]"
           | VNone => md_type meta = L "[None]"
           | VInt z => md_type meta = L "[" ++ Py.str_of_Z z ++ L "]"
           | VStr word => md_type meta = L "[" ++ word ++ L "]"
           | _ => True
           end)
  /\ (dict_get (L "Type") data = Some (VList []) ->
      exists meta,
        _extract_metadata lib content = Ok (meta, Re.group_str m 2, data) /\
        md_type meta = L "[]").
Proof.
  intros Hm Hy Hname Hne Hdesc Hde Hprov.
  assert (Hgen : forall v t,
             dict_get (L "Type") data = Some v ->
             (v = VStr t
              \/ (exists w, v = VList [w] /\ t = L "[" ++ value_str lib w ++ L "]")
              \/ (v = VList [] /\ t = L "[]")) ->
             exists meta,
               _extract_metadata lib content = Ok (meta, Re.group_str m 2, data) /\
               md_type meta = t).
  { intros v t Hv Ht. unfold _extract_metadata. rewrite Hm, Hy.
    unfold missing_field, get_or_none, bind. rewrite Hname, Hv, Hdesc.
    unfold provider_ok in Hprov.
    destruct Ht as [-> | [(w & -> & ->) | [-> ->]]];
      unfold new_Metadata, str_field, min_length_1;
      rewrite (is_empty_false name), (is_empty_false description) by assumption;
      destruct (dict_get (L "Provider") data) as [[| | | p | |]|];
      try contradiction; simpl; eexists; split; reflexivity. }
  split; [| split].
  - intros word [H | H]; eapply Hgen; eauto.
  - intros first H.
    destruct (Hgen (VList [first]) (L "[" ++ value_str lib first ++ L "]") H)
      as (meta & He & Ht); [right; left; eauto |].
    exists meta. split; [exact He |]. split; [exact Ht |].
    destruct first as [| [|] | z | word | |]; try exact I; exact Ht.
  - intros H. eapply Hgen; eauto.
Qed.

Lemma type_tag_rewound_witness :
  (exists meta body data,
      _extract_metadata Fixture.lib Fixture.fenced_link_doc = Ok (meta, body, data)
      /\ dict_get (L "Type") data = Some (VList [VStr (L "Document")])
      /\ md_type meta = L "[Document]")
  /\ (exists meta body data,
         _extract_metadata FixtureYaml.lib FixtureYaml.switch_doc = Ok (meta, body, data)
         /\ dict_get (L "Type") data = Some (VList [VBool true])
         /\ md_type meta = L "[True]").
Proof.
  split.
  - destruct (Re.re_match Re.DOTALL Pat.frontmatter Fixture.fenced_link_doc)
      as [m|] eqn:Em; [| vm_compute in Em; discriminate].
    pose (data := [(L "Name", VStr (L "Notes")); (L "Type", VList [VStr (L "Document")]);
                   (L "Description", VStr (L "Notes"))]).
    assert (Hy : yaml_safe_load Fixture.lib (Re.group_str m 1) = YamlValue (VDict data))
      by (vm_compute in Em; injection Em as <-; vm_compute; reflexivity).
    destruct (type_tag_rewound Fixture.lib _ m data (L "Notes") (L "Notes") Em Hy
                               eq_refl ltac:(discriminate) eq_refl ltac:(discriminate) I)
      as [H _].
    destruct (H (L "Document")) as (meta & E & T); [right; reflexivity |].
    exists meta, (Re.group_str m 2), data. repeat split; assumption.
  - destruct (Re.re_match Re.DOTALL Pat.frontmatter FixtureYaml.switch_doc)
      as [m|] eqn:Em; [| vm_compute in Em; discriminate].
    pose (data := [(L "Name", VStr (L "Switch")); (L "Type", VList [VBool true]);
                   (L "Description", VStr (L "A switch"))]).
    assert (Hy : yaml_safe_load FixtureYaml.lib (Re.group_str m 1) = YamlValue (VDict data))
      by (vm_compute in Em; injection Em as <-; vm_compute; reflexivity).
    destruct (type_tag_rewound FixtureYaml.lib _ m data (L "Switch") (L "A switch") Em Hy
                               eq_refl ltac:(discriminate) eq_refl ltac:(discriminate) I)
      as (_ & H & _).
    destruct (H (VBool true) eq_refl) as (meta & E & _ & T).
    exists meta, (Re.group_str m 2), data. repeat split; assumption.
Defined.

(** ** Triggers declared in the frontmatter *)

Lemma validated_ok {A} lib model errs (a b : A) :
  validated lib model errs a = Ok b -> b = a.
Proof. destruct errs; simpl; [intros [= <-]; reflexivity | discriminate]. Qed.

Lemma frontmatter_trigger_operation lib meta v t :
  frontmatter_trigger lib meta v = Ok t ->
  operation t = md_name meta /\ trigger_type t = L "event".
Proof.
  unfold frontmatter_trigger. destruct v; try discriminate.
  destruct (negb _); [discriminate |].
  destruct (_ && _); [discriminate |].
  unfold new_Trigger.
  destruct (opt_str_field _ _), (opt_str_field _ _), (opt_str_dict_field _ _).
  simpl str_field. destruct (bool_field _ _).
  intros H. apply validated_ok in H as ->. split; reflexivity.
Qed.

(** The document [document_with_frontmatter_trigger] is of type
    [[Document]], neither an Operation nor a Tool document, has no Triggers
    section, and parses to a document with the trigger of its frontmatter. *)
Lemma frontmatter_triggers_counterexample :
  exists d,
    parse_document Fixture.lib Fixture.document_with_frontmatter_trigger = Ok d
    /\ md_type (metadata (doc_fields d)) = L "[Document]"
    /\ md_type (metadata (doc_fields d)) <> L "[Operation]"
    /\ md_type (metadata (doc_fields d)) <> L "[Tool]"
    /\ triggers (doc_fields d) =
       [{| raw_text := L "Frontmatter trigger: note.created";
           trigger_type := L "event"; schedule := None;
           event_type := Some (L "note.created"); filter := None;
           operation := L "Notes"; queue_when_paused := true |}].
Proof.
  eexists. split; [vm_compute; reflexivity |].
  repeat split; try reflexivity; discriminate.
Qed.

(** C2, amended.  Triggers declared in the frontmatter are materialized
    for every document that is not of the Tool type, whatever its type
    (Operation or any other tag): when the sections parse, the document
    holds the triggers of the frontmatter, one for each entry of the
    [Triggers] sequence, followed by those of the Triggers section; and the
    target operation of each trigger of the frontmatter is the document's
    own metadata name. *)
Theorem frontmatter_triggers_rule (lib : Library) (content : str)
        (meta : Metadata) (body : str) (data : list (str * value))
        (defs : list LocalDefinition) (ops : list Operation)
        (fts mts : list Trigger) :
  _extract_metadata lib content = Ok (meta, body, data) ->
  md_type meta <> tool_tag ->
  _parse_local_definitions lib body = Ok defs ->
  _parse_operations lib body = Ok ops ->
  _parse_frontmatter_triggers lib data meta = Ok fts ->
  _parse_triggers lib body = Ok mts ->
  parse_document lib content =
  Ok (Plain {| metadata := meta;
               imports := map import_entry (Re.finditer Re.no_flags Pat.import_link body);
               definitions := defs; setup := _parse_setup body;
               operations := ops; triggers := fts ++ mts |})
  /\ Forall (fun t => operation t = md_name meta /\ trigger_type t = L "event") fts
  /\ (forall entries,
         dict_get (L "Triggers") data = Some (VList entries) ->
         length fts = length entries).
Proof.
  intros Hmeta Htype Hdefs Hops Hfts Hmts. repeat split.
  - unfold parse_document, parse_document_body, bind.
    rewrite Hmeta, parse_imports_total, Hdefs, Hops, (str_eqb_neq _ _ Htype), Hfts, Hmts.
    reflexivity.
  - revert Hfts. unfold _parse_frontmatter_triggers.
    destruct (negb _); [intros [= <-]; constructor |].
    destruct (get_or_none "Triggers" data); try discriminate.
    apply mapM_forall. intros v t _. apply frontmatter_trigger_operation.
  - intros entries Hent. revert Hfts. unfold _parse_frontmatter_triggers, get_or_none.
    rewrite Hent. destruct entries as [|v entries]; simpl negb; cbv iota.
    + intros [= <-]. reflexivity.
    + apply mapM_length.
Qed.

Lemma frontmatter_triggers_rule_witness :
  exists d,
    parse_document Fixture.lib Fixture.document_with_frontmatter_trigger = Ok (Plain d)
    /\ map operation (triggers d) = [md_name (metadata d)]
    /\ md_type (metadata d) = L "[Document]".
Proof.
  destruct (_extract_metadata Fixture.lib Fixture.document_with_frontmatter_trigger)
    as [[[meta body] data] |] eqn:E; [| vm_compute in E; discriminate].
  assert (Hshape : md_type meta = L "[Document]" /\ md_name meta = L "Notes")
    by (vm_compute in E; injection E as <- _ _; split; reflexivity).
  destruct Hshape as [Htype Hname].
  assert (Hnot : md_type meta <> tool_tag) by (rewrite Htype; discriminate).
  destruct (_parse_local_definitions Fixture.lib body) as [defs |] eqn:E1;
    [| vm_compute in E; injection E as _ <- _; vm_compute in E1; discriminate].
  destruct (_parse_operations Fixture.lib body) as [ops |] eqn:E2;
    [| vm_compute in E; injection E as _ <- _; vm_compute in E2; discriminate].
  destruct (_parse_frontmatter_triggers Fixture.lib data meta) as [fts |] eqn:E3;
    [| vm_compute in E; injection E as <- _ <-; vm_compute in E3; discriminate].
  destruct (_parse_triggers Fixture.lib body) as [mts |] eqn:E4;
    [| vm_compute in E; injection E as _ <- _; vm_compute in E4; discriminate].
  destruct (frontmatter_triggers_rule _ _ _ _ _ _ _ _ _ E Hnot E1 E2 E3 E4) as (H & _ & _).
  eexists. split; [exact H |]. simpl. split; [| exact Htype].
  rewrite Hname.
  vm_compute in E; injection E as <- <- <-.
  vm_compute in E3. injection E3 as <-. vm_compute in E4. injection E4 as <-.
  reflexivity.
Defined.

(** ** The import resolver *)

Section ResolverFacts.

Variable lib : Library.
Variable fs : FileSystem.

Lemma resolve_one_visited recur i p resolved st r st' :
  keeps_visited recur ->
  resolve_one lib fs recur i p resolved st = Some (r, st') ->
  visited st' = visited st.
Proof.
  intros Hrec. unfold resolve_one.
  destruct (read_text fs p); [| intros [= <- <-]; reflexivity].
  destruct (parse_document lib _) as [doc |]; [| intros [= <- <-]; reflexivity].
  destruct (match has_anchor i with Some _ => _ | None => _ end);
    [intros [= <- <-]; reflexivity |].
  destruct (recur doc _ _) as [[[nested | e] st1] |] eqn:E; [| | discriminate];
    intros [= <- <-]; apply (Hrec _ _ _ _ _ E).
Qed.

Lemma mark_unmark (key : str) (v : gset str) : key ∉ v -> ({[key]} ∪ v) ∖ {[key]} = v.
Proof. set_solver. Qed.

Lemma resolve_each_visited recur base :
  keeps_visited recur ->
  forall todo resolved st r st',
    resolve_each lib fs recur base todo resolved st = Some (r, st') ->
    visited st' = visited st.
Proof.
  intros Hrec. induction todo as [|i todo IH]; intros resolved st r st'; simpl.
  - intros [= <- <-]. reflexivity.
  - destruct (path_exists fs _) as [[|] | e]; try (intros [= <- <-]; reflexivity).
    destruct (path_resolve fs _) as [key | e]; [| intros [= <- <-]; reflexivity].
    destruct (bool_decide _) eqn:Hin; [intros [= <- <-]; reflexivity |].
    apply bool_decide_eq_false in Hin.
    destruct (resolve_one _ _ _ _ _ _ _) as [[r1 st1] |] eqn:E; [| discriminate].
    apply resolve_one_visited in E; [| exact Hrec]. simpl in E.
    assert (Hback : visited (unmark key st1) = visited st).
    { simpl. rewrite E. now apply mark_unmark. }
    destruct (rewrap i r1).
    + intros H. apply IH in H. now rewrite H.
    + intros [= <- <-]. exact Hback.
Qed.

(** Every call leaves [_visited] as it found it, whether it returns or
    raises: each key added before a branch is removed when the branch
    ends. *)
Lemma resolve_imports_visited fuel :
  keeps_visited (resolve_imports lib fs fuel).
Proof.
  induction fuel as [|fuel IH]; intros d b st r st'; simpl; [discriminate |].
  now apply resolve_each_visited.
Qed.

Lemma resolve_each_live recur base i todo resolved st key :
  path_exists fs (file_of fs base i) = Ok true ->
  key_of fs base i = Ok key ->
  key ∉ visited st ->
  resolve_each lib fs recur base (i :: todo) resolved st =
  match resolve_one lib fs recur i (file_of fs base i) resolved (mark key st) with
  | None => None
  | Some (r, st1) =>
      match rewrap i r with
      | Ok resolved' => resolve_each lib fs recur base todo resolved' (unmark key st1)
      | Raise e => Some (Raise e, unmark key st1)
      end
  end.
Proof.
  intros Hex Hres Hkey. unfold key_of, file_of in *. simpl. rewrite Hex, Hres.
  now rewrite bool_decide_eq_false_2.
Qed.

(** An import whose key is in [_visited] is a circular import. *)
Lemma resolve_each_cycle recur base i todo resolved st key :
  path_exists fs (file_of fs base i) = Ok true ->
  key_of fs base i = Ok key ->
  key ∈ visited st ->
  resolve_each lib fs recur base (i :: todo) resolved st =
  Some (Raise (BusyImportError (circular_msg i (file_of fs base i))), st).
Proof.
  intros Hex Hres Hkey. unfold key_of, file_of in *. simpl. rewrite Hex, Hres.
  now rewrite bool_decide_eq_true_2.
Qed.

Lemma resolve_one_loads recur base i doc resolved st :
  loads lib fs base i doc ->
  resolve_one lib fs recur i (file_of fs base i) resolved st =
  match recur doc (dir_of fs base i) (log_read (file_of fs base i) st) with
  | None => None
  | Some (Raise e, st1) => Some (Raise e, st1)
  | Some (Ok nested, st1) =>
      Some (Ok (dict_update (dict_set (concept_name i) doc resolved) nested), st1)
  end.
Proof.
  intros (_ & _ & (text & Hread & Hparse) & Hanchor).
  unfold resolve_one, file_of, dir_of in *. rewrite Hread, Hparse.
  destruct (has_anchor i); [rewrite Hanchor |]; reflexivity.
Qed.

Lemma resolve_each_nil recur base resolved st :
  resolve_each lib fs recur base [] resolved st = Some (Ok resolved, st).
Proof. reflexivity. Qed.

Lemma loads_exists base i doc :
  loads lib fs base i doc -> path_exists fs (file_of fs base i) = Ok true.
Proof. intros (H & _). exact H. Qed.

Lemma loads_resolves base i doc :
  loads lib fs base i doc -> exists key, key_of fs base i = Ok key.
Proof. intros (_ & H & _). exact H. Qed.

Lemma rstate_eq (v v' : gset str) (l l' : list str) :
  v = v' -> l = l' -> RState v l = RState v' l'.
Proof. now intros -> ->. Qed.

(** A imports B and B imports A: the import of B met again below A and B
    is the circular one. *)
Lemma cycle_detected docA base iB moreA docB iA moreB docA' iB' moreA' fuel :
  imports (doc_fields docA) = iB :: moreA ->
  loads lib fs base iB docB ->
  imports (doc_fields docB) = iA :: moreB ->
  loads lib fs (dir_of fs base iB) iA docA' ->
  key_of fs (dir_of fs base iB) iA <> key_of fs base iB ->
  imports (doc_fields docA') = iB' :: moreA' ->
  path_exists fs (file_of fs (dir_of fs (dir_of fs base iB) iA) iB') = Ok true ->
  key_of fs (dir_of fs (dir_of fs base iB) iA) iB' = key_of fs base iB ->
  3 <= fuel ->
  resolve lib fs fuel docA base =
  Some (Raise (BusyImportError
                 (circular_msg iB' (file_of fs (dir_of fs (dir_of fs base iB) iA) iB'))),
        RState ∅ [file_of fs base iB; file_of fs (dir_of fs base iB) iA]).
Proof.
  intros HA HB HBi HA' Hne HA'i Hex Hkey Hfuel.
  destruct (loads_resolves _ _ _ HB) as [kB HkB].
  destruct (loads_resolves _ _ _ HA') as [kA HkA].
  rewrite HkB in Hkey. rewrite HkA, HkB in Hne.
  assert (Hne' : kA <> kB) by congruence.
  destruct fuel as [|[|[|fuel]]]; try lia.
  unfold resolve.
  change (resolve_imports lib fs (S (S (S fuel))) docA base (RState ∅ []))
    with (resolve_each lib fs (resolve_imports lib fs (S (S fuel))) base
                       (imports (doc_fields docA)) [] (RState ∅ [])).
  rewrite HA, (resolve_each_live _ _ _ _ _ _ kB), (resolve_one_loads _ _ _ docB);
    [| exact HB | eapply loads_exists; eauto | exact HkB | simpl; set_solver].
  change (resolve_imports lib fs (S (S fuel)) docB ?b ?st)
    with (resolve_each lib fs (resolve_imports lib fs (S fuel)) b
                       (imports (doc_fields docB)) [] st).
  rewrite HBi, (resolve_each_live _ _ _ _ _ _ kA), (resolve_one_loads _ _ _ docA');
    [| exact HA' | eapply loads_exists; eauto | exact HkA | simpl; set_solver].
  change (resolve_imports lib fs (S fuel) docA' ?b ?st)
    with (resolve_each lib fs (resolve_imports lib fs fuel) b
                       (imports (doc_fields docA')) [] st).
  rewrite HA'i, (resolve_each_cycle _ _ _ _ _ _ kB);
    [| exact Hex | exact Hkey | simpl; set_solver].
  simpl. f_equal. f_equal. apply rstate_eq; [set_solver | reflexivity].
Qed.

(** A imports B and C, each of which imports a file that imports nothing
    (the same file D or not): no cycle is reported, and that file is read
    once in each branch. *)
Lemma diamond_resolved docA base iB iC docB iD docD docC iD' docD' fuel :
  imports (doc_fields docA) = [iB; iC] ->
  loads lib fs base iB docB ->
  imports (doc_fields docB) = [iD] ->
  loads lib fs (dir_of fs base iB) iD docD ->
  imports (doc_fields docD) = [] ->
  key_of fs (dir_of fs base iB) iD <> key_of fs base iB ->
  loads lib fs base iC docC ->
  imports (doc_fields docC) = [iD'] ->
  loads lib fs (dir_of fs base iC) iD' docD' ->
  imports (doc_fields docD') = [] ->
  key_of fs (dir_of fs base iC) iD' <> key_of fs base iC ->
  3 <= fuel ->
  resolve lib fs fuel docA base =
  Some (Ok (dict_update
              (dict_set (concept_name iC) docC
                        (dict_update (dict_set (concept_name iB) docB [])
                                     [(concept_name iD, docD)]))
              [(concept_name iD', docD')]),
        RState ∅ [file_of fs base iB; file_of fs (dir_of fs base iB) iD;
                  file_of fs base iC; file_of fs (dir_of fs base iC) iD']).
Proof.
  intros HA HB HBi HD HDi Hne HC HCi HD' HD'i Hne' Hfuel.
  destruct (loads_resolves _ _ _ HB) as [kB HkB].
  destruct (loads_resolves _ _ _ HD) as [kD HkD].
  destruct (loads_resolves _ _ _ HC) as [kC HkC].
  destruct (loads_resolves _ _ _ HD') as [kD' HkD'].
  rewrite HkD, HkB in Hne. rewrite HkD', HkC in Hne'.
  assert (HneB : kD <> kB) by congruence.
  assert (HneC : kD' <> kC) by congruence.
  destruct fuel as [|[|[|fuel]]]; try lia.
  unfold resolve.
  change (resolve_imports lib fs (S (S (S fuel))) docA base (RState ∅ []))
    with (resolve_each lib fs (resolve_imports lib fs (S (S fuel))) base
                       (imports (doc_fields docA)) [] (RState ∅ [])).
  rewrite HA, (resolve_each_live _ _ _ _ _ _ kB), (resolve_one_loads _ _ _ docB);
    [| exact HB | eapply loads_exists; eauto | exact HkB | simpl; set_solver].
  change (resolve_imports lib fs (S (S fuel)) docB ?b ?st)
    with (resolve_each lib fs (resolve_imports lib fs (S fuel)) b
                       (imports (doc_fields docB)) [] st).
  rewrite HBi, (resolve_each_live _ _ _ _ _ _ kD), (resolve_one_loads _ _ _ docD);
    [| exact HD | eapply loads_exists; eauto | exact HkD | simpl; set_solver].
  change (resolve_imports lib fs (S fuel) docD ?b ?st)
    with (resolve_each lib fs (resolve_imports lib fs fuel) b
                       (imports (doc_fields docD)) [] st).
  rewrite HDi. repeat (rewrite resolve_each_nil; cbv beta iota delta [rewrap]).
  rewrite (resolve_each_live _ _ _ _ _ _ kC), (resolve_one_loads _ _ _ docC);
    [| exact HC | eapply loads_exists; eauto | exact HkC | simpl; set_solver].
  change (resolve_imports lib fs (S (S fuel)) docC ?b ?st)
    with (resolve_each lib fs (resolve_imports lib fs (S fuel)) b
                       (imports (doc_fields docC)) [] st).
  rewrite HCi, (resolve_each_live _ _ _ _ _ _ kD'), (resolve_one_loads _ _ _ docD');
    [| exact HD' | eapply loads_exists; eauto | exact HkD' | simpl; set_solver].
  change (resolve_imports lib fs (S fuel) docD' ?b ?st)
    with (resolve_each lib fs (resolve_imports lib fs fuel) b
                       (imports (doc_fields docD')) [] st).
  rewrite HD'i. repeat (rewrite resolve_each_nil; cbv beta iota delta [rewrap]).
  f_equal. f_equal. apply rstate_eq; [set_solver | reflexivity].
Qed.

End ResolverFacts.

(** C3.  (1) Every call of [resolve_imports] leaves the set [_visited] as
    it found it, on success and on failure alike: the key of an import is
    added before its branch and removed when the branch ends.  (2) When
    the first import of A is B, the first import of B is A (both files
    exist, read and parse) and the first import of that A is B again,
    resolving A raises the circular-import error, at every depth of
    recursion from 3 on.  (3) When A imports B and C, and B and C each
    import a file that imports nothing (the same file D or not), resolving
    A succeeds: no cycle is reported and that file is read once in each
    branch. *)
Theorem import_cycles_and_diamonds (lib : Library) (fs : FileSystem) :
  (forall fuel document base st r st',
      resolve_imports lib fs fuel document base st = Some (r, st') ->
      visited st' = visited st)
  /\ (forall docA base iB moreA docB iA moreB docA' iB' moreA' fuel,
         imports (doc_fields docA) = iB :: moreA ->
         loads lib fs base iB docB ->
         imports (doc_fields docB) = iA :: moreB ->
         loads lib fs (dir_of fs base iB) iA docA' ->
         key_of fs (dir_of fs base iB) iA <> key_of fs base iB ->
         imports (doc_fields docA') = iB' :: moreA' ->
         path_exists fs (file_of fs (dir_of fs (dir_of fs base iB) iA) iB') = Ok true ->
         key_of fs (dir_of fs (dir_of fs base iB) iA) iB' = key_of fs base iB ->
         3 <= fuel ->
         resolve lib fs fuel docA base =
         Some (Raise (BusyImportError
                        (circular_msg iB'
                           (file_of fs (dir_of fs (dir_of fs base iB) iA) iB'))),
               RState ∅ [file_of fs base iB; file_of fs (dir_of fs base iB) iA]))
  /\ (forall docA base iB iC docB iD docD docC iD' docD' fuel,
         imports (doc_fields docA) = [iB; iC] ->
         loads lib fs base iB docB ->
         imports (doc_fields docB) = [iD] ->
         loads lib fs (dir_of fs base iB) iD docD ->
         imports (doc_fields docD) = [] ->
         key_of fs (dir_of fs base iB) iD <> key_of fs base iB ->
         loads lib fs base iC docC ->
         imports (doc_fields docC) = [iD'] ->
         loads lib fs (dir_of fs base iC) iD' docD' ->
         imports (doc_fields docD') = [] ->
         key_of fs (dir_of fs base iC) iD' <> key_of fs base iC ->
         3 <= fuel ->
         resolve lib fs fuel docA base =
         Some (Ok (dict_update
                     (dict_set (concept_name iC) docC
                               (dict_update (dict_set (concept_name iB) docB [])
                                            [(concept_name iD, docD)]))
                     [(concept_name iD', docD')]),
               RState ∅ [file_of fs base iB; file_of fs (dir_of fs base iB) iD;
                         file_of fs base iC; file_of fs (dir_of fs base iC) iD'])).
Proof.
  split; [| split].
  - intros fuel. apply resolve_imports_visited.
  - intros. eapply cycle_detected; eauto.
  - intros. eapply diamond_resolved; eauto.
Qed.

Ltac loads_by text E :=
  split; [vm_compute; reflexivity |];
  split; [eexists; vm_compute; reflexivity |];
  split; [exists text; split; [vm_compute; reflexivity | exact E] | exact I].

Lemma import_cycles_and_diamonds_witness :
  (exists docA,
      parse_document Fixture.lib Fixture.a_md = Ok docA
      /\ resolve Fixture.lib Fixture.fs 3 docA (L "/ws") =
         Some (Raise (BusyImportError
                        (L "Circular import detected: 'b.md' (resolved to /ws/b.md)")),
               RState ∅ [L "/ws/b.md"; L "/ws/a.md"]))
  /\ (exists docTop resolved,
         parse_document Fixture.lib Fixture.top_md = Ok docTop
         /\ resolve Fixture.lib Fixture.fs 3 docTop (L "/ws") =
            Some (Ok resolved,
                  RState ∅ [L "/ws/left.md"; L "/ws/base.md";
                            L "/ws/right.md"; L "/ws/base.md"])
         /\ map fst resolved = [L "Left"; L "Base"; L "Right"]).
Proof.
  destruct (import_cycles_and_diamonds Fixture.lib Fixture.fs) as (_ & Hcycle & Hdiamond).
  split.
  - destruct (parse_document Fixture.lib Fixture.a_md) as [docA |] eqn:EA;
      [| vm_compute in EA; discriminate].
    destruct (parse_document Fixture.lib Fixture.b_md) as [docB |] eqn:EB;
      [| vm_compute in EB; discriminate].
    exists docA. split; [reflexivity |].
    pose (iB := {| concept_name := L "B"; path := L "b.md"; anchor := None |}).
    pose (iA := {| concept_name := L "A"; path := L "a.md"; anchor := None |}).
    assert (HA : imports (doc_fields docA) = [iB])
      by (vm_compute in EA; injection EA as <-; reflexivity).
    assert (HB : imports (doc_fields docB) = [iA])
      by (vm_compute in EB; injection EB as <-; reflexivity).
    apply (Hcycle docA (L "/ws") iB [] docB iA [] docA iB [] 3).
    + exact HA.
    + loads_by Fixture.b_md EB.
    + exact HB.
    + loads_by Fixture.a_md EA.
    + vm_compute. discriminate.
    + exact HA.
    + vm_compute. reflexivity.
    + vm_compute. reflexivity.
    + lia.
  - destruct (parse_document Fixture.lib Fixture.top_md) as [docTop |] eqn:ET;
      [| vm_compute in ET; discriminate].
    destruct (parse_document Fixture.lib Fixture.left_md) as [docL |] eqn:EL;
      [| vm_compute in EL; discriminate].
    destruct (parse_document Fixture.lib Fixture.right_md) as [docR |] eqn:ER;
      [| vm_compute in ER; discriminate].
    destruct (parse_document Fixture.lib Fixture.base_md) as [docD |] eqn:ED;
      [| vm_compute in ED; discriminate].
    pose (iL := {| concept_name := L "Left"; path := L "left.md"; anchor := None |}).
    pose (iR := {| concept_name := L "Right"; path := L "right.md"; anchor := None |}).
    pose (iD := {| concept_name := L "Base"; path := L "base.md"; anchor := None |}).
    assert (HT : imports (doc_fields docTop) = [iL; iR])
      by (vm_compute in ET; injection ET as <-; reflexivity).
    assert (HL : imports (doc_fields docL) = [iD])
      by (vm_compute in EL; injection EL as <-; reflexivity).
    assert (HR : imports (doc_fields docR) = [iD])
      by (vm_compute in ER; injection ER as <-; reflexivity).
    assert (HD : imports (doc_fields docD) = [])
      by (vm_compute in ED; injection ED as <-; reflexivity).
    exists docTop. eexists. split; [reflexivity |]. split.
    + apply (Hdiamond docTop (L "/ws") iL iR docL iD docD docR iD docD 3).
      * exact HT.
      * loads_by Fixture.left_md EL.
      * exact HL.
      * loads_by Fixture.base_md ED.
      * exact HD.
      * vm_compute. discriminate.
      * loads_by Fixture.right_md ER.
      * exact HR.
      * loads_by Fixture.base_md ED.
      * exact HD.
      * vm_compute. discriminate.
      * lia.
    + reflexivity.
Defined.

(** ** Text *)

Lemma drop_while_keep (p : ascii -> bool) (w : str) :
  match w with [] => True | c :: _ => p c = false end ->
  Py.drop_while p w = w.
Proof. destruct w as [|c w]; simpl; [reflexivity | intros ->; reflexivity]. Qed.

(** A text that neither starts nor ends with white space is its own
    [strip()]. *)
Lemma strip_keep (w : str) :
  match w with [] => True | c :: _ => Py.isspace c = false end ->
  match rev w with [] => True | c :: _ => Py.isspace c = false end ->
  Py.strip w = w.
Proof.
  intros H1 H2. unfold Py.strip, Py.lstrip, Py.rstrip.
  rewrite (drop_while_keep _ w H1), (drop_while_keep _ (rev w) H2).
  apply rev_involutive.
Qed.

Lemma strip_no_space (w : str) :
  Forall (fun c => Py.isspace c = false) w -> Py.strip w = w.
Proof.
  intros H. apply strip_keep.
  - destruct H; auto.
  - apply Forall_rev in H. destruct H; auto.
Qed.

Lemma word_not_space (c : ascii) : Py.isword c = true -> Py.isspace c = false.
Proof.
  destruct c as [[] [] [] [] [] [] [] []]; vm_compute; congruence.
Qed.

(** [Trigger(...)] accepts a text and an operation that are not empty,
    optional strings, and a filter of at most one entry. *)
Lemma new_Trigger_ok lib raw ty sch ev f op q :
  raw <> [] -> op <> [] ->
  new_Trigger lib raw ty (opt_value sch) (opt_value ev) (filter_value f)
              (VStr op) (VBool q) =
  Ok {| raw_text := raw; trigger_type := ty; schedule := sch; event_type := ev;
        filter := option_map (fun kv => [kv]) f;
        operation := op; queue_when_paused := q |}.
Proof.
  intros Hraw Hop. unfold new_Trigger, str_field, bool_field, min_length_1.
  rewrite (is_empty_false raw Hraw), (is_empty_false op Hop).
  destruct sch, ev, f as [[k v] |]; reflexivity.
Qed.

(** ** Event triggers *)

Section EventTriggers.
Import Re ReNotions ReFacts.

Ltac no_group := cbv; intuition discriminate.



End EventTriggers.






(** ** The first match *)

Section FirstMatch.
Import Re ReNotions ReFacts.

Lemma first_in fl r st x : first_match fl r st = Some x -> In x (rmatch fl r st).
Proof.
  unfold first_match. destruct (rmatch fl r st); simpl; [discriminate |].
  intros [= <-]. now left.
Qed.

Lemma first_seq fl a b st x y :
  first_match fl a st = Some x -> first_match fl b x = Some y ->
  first_match fl (Seq a b) st = Some y.
Proof.
  unfold first_match. rewrite rmatch_seq.
  destruct (rmatch fl a st) as [|x' l]; simpl; [discriminate |]. intros [= ->].
  destruct (rmatch fl b x) as [|y' l']; simpl; [discriminate |]. intros [= ->].
  reflexivity.
Qed.

Lemma first_seq_none fl a b st :
  first_match fl a st = None -> first_match fl (Seq a b) st = None.
Proof.
  unfold first_match. rewrite rmatch_seq.
  destruct (rmatch fl a st); simpl; [reflexivity | discriminate].
Qed.

Lemma first_alt fl a b st :
  first_match fl (Alt a b) st =
  match first_match fl a st with
  | Some y => Some y
  | None => first_match fl b st
  end.
Proof.
  unfold first_match. simpl. destruct (rmatch fl a st); reflexivity.
Qed.

Lemma first_eps fl st : first_match fl Eps st = Some st.
Proof. reflexivity. Qed.

Lemma first_opt fl r st :
  first_match fl (Opt r) st =
  match first_match fl r st with
  | Some y => Some y
  | None => Some st
  end.
Proof. unfold Opt. rewrite first_alt. reflexivity. Qed.

Lemma first_group fl n r st :
  first_match fl (Group n r) st = option_map (set_cap n st) (first_match fl r st).
Proof.
  unfold first_match. simpl. destruct (rmatch fl r st); reflexivity.
Qed.

Lemma first_chr fl cs st :
  first_match fl (Chr cs) st =
  match m_rest st with
  | c :: rest => if cmatch fl cs c then Some (advance c rest st) else None
  | [] => None
  end.
Proof.
  unfold first_match. simpl. destruct (m_rest st) as [|c rest]; [reflexivity |].
  destruct (cmatch fl cs c); reflexivity.
Qed.

(** A greedy star of a one-character matcher first goes over the longest
    run of characters of the class. *)
Lemma first_star_chr fl cs : forall n st,
    length (m_rest st) <= n ->
    exists x, head (star_loop fl true (Chr cs) n st) = Some x /\
              m_rest x = Py.drop_while (cmatch fl cs) (m_rest st) /\
              m_caps x = m_caps st.
Proof.
  induction n as [|n IH]; intros st Hlen.
  - exists st. destruct (m_rest st); simpl in *; [auto | lia].
  - cbn [star_loop]. cbn [rmatch].
    destruct (m_rest st) as [|c rest] eqn:Er.
    + exists st. simpl. auto.
    + simpl. destruct (cmatch fl cs c) eqn:Ec.
      * cbn [List.filter]. unfold progress at 1. cbn [advance m_pos].
        replace (m_pos st <? S (m_pos st)) with true
          by (symmetry; apply Nat.ltb_lt; lia).
        cbn [flat_map]. rewrite app_nil_r.
        destruct (IH (advance c rest st)) as (x & Hx & Hr & Hc);
          [simpl in *; lia |].
        exists x. simpl in Hr, Hc. repeat split; auto.
        destruct (star_loop fl true (Chr cs) n (advance c rest st)); [discriminate |].
        simpl in *. exact Hx.
      * exists st. simpl. rewrite Er. auto.
Qed.

Lemma first_sp_star fl st :
  exists x, first_match fl Pat.sp_star st = Some x /\
            m_rest x = Py.drop_while Py.isspace (m_rest st) /\
            m_caps x = m_caps st.
Proof.
  unfold first_match, Pat.sp_star. rewrite rmatch_star.
  apply (first_star_chr fl (One ASpace)). lia.
Qed.

End FirstMatch.

(** ** The time phrase of an alarm *)

Section TimePhrase.
Import Re ReNotions ReFacts.

Lemma first_chr_seq fl cs b st :
  first_match fl (Seq (Chr cs) b) st =
  match m_rest st with
  | c :: rest => if cmatch fl cs c then first_match fl b (advance c rest st) else None
  | [] => None
  end.
Proof.
  unfold first_match. rewrite rmatch_seq. cbn [rmatch].
  destruct (m_rest st) as [|c rest]; [reflexivity |].
  destruct (cmatch fl cs c); [| reflexivity].
  cbn [flat_map]. now rewrite app_nil_r.
Qed.

Lemma hour_pattern :
  Pat.hour = Seq hour_group (Seq minute_opt (Seq Pat.sp_star marker_opt)).
Proof. reflexivity. Qed.

Lemma hour_stage fl st d1 after1 :
  m_rest st = d1 :: after1 -> Py.isdigit d1 = true ->
  exists x, first_match fl hour_group st = Some x /\
            m_rest x = snd (spec_hour_digits (d1 :: after1)) /\
            m_caps x = (1, (m_pos st, fst (spec_hour_digits (d1 :: after1)))) :: m_caps st.
Proof.
  intros Hr Hd. unfold hour_group. rewrite first_group.
  unfold Pat.digit at 1. rewrite first_chr_seq, Hr. cbn [cmatch amatch]. rewrite Hd.
  rewrite first_opt. unfold Pat.digit. rewrite first_chr. cbn [advance m_rest cmatch amatch].
  destruct after1 as [|d2 rest]; [| destruct (Py.isdigit d2) eqn:Hd2];
    cbn [option_map spec_hour_digits fst snd]; try rewrite Hd2;
    eexists; (split; [reflexivity |]); (split; [reflexivity |]).
  - erewrite set_cap_text with (w := [d1]); [reflexivity | exact Hr | simpl; lia].
  - erewrite set_cap_text with (w := [d1; d2]); [reflexivity | exact Hr | simpl; lia].
  - erewrite set_cap_text with (w := [d1]); [reflexivity | exact Hr | simpl; lia].
Qed.

Lemma minute_stage fl x :
  exists y, first_match fl minute_opt x = Some y /\
            m_rest y = snd (spec_minute (m_rest x)) /\
            m_caps y = match fst (spec_minute (m_rest x)) with
                       | Some m => (2, (S (m_pos x), m)) :: m_caps x
                       | None => m_caps x
                       end.
Proof.
  unfold minute_opt. rewrite first_opt. unfold Pat.ch. rewrite first_chr_seq.
  destruct (m_rest x) as [|c r1] eqn:Er; [exists x; rewrite Er; auto |].
  cbn [cmatch amatch ignorecase].
  assert (Hfl : (if ignorecase fl
                 then Py.ascii_eqb (Py.lower_char ":") (Py.lower_char c)
                 else Py.ascii_eqb ":" c) = Py.ascii_eqb ":" c).
  { destruct (ignorecase fl); [| reflexivity].
    destruct c as [[] [] [] [] [] [] [] []]; reflexivity. }
  rewrite Hfl. clear Hfl.
  destruct (Py.ascii_eqb ":" c) eqn:Ec.
  2:{ exists x. rewrite Er. unfold spec_minute. rewrite Ec.
      destruct r1 as [|m1 [|m2 r]]; auto. }
  rewrite first_group. unfold Pat.digit. rewrite first_chr_seq.
  cbn [advance m_rest cmatch amatch].
  destruct r1 as [|m1 r2]; [exists x; rewrite Er; auto |].
  destruct (Py.isdigit m1) eqn:E1.
  2:{ exists x. rewrite Er. unfold spec_minute. rewrite Ec, E1.
      destruct r2; auto. }
  rewrite first_chr. cbn [advance m_rest cmatch amatch].
  destruct r2 as [|m2 r3]; [exists x; rewrite Er; auto |].
  destruct (Py.isdigit m2) eqn:E2.
  2:{ exists x. rewrite Er. unfold spec_minute. rewrite Ec, E1, E2. auto. }
  cbn [option_map]. eexists. split; [reflexivity |].
  unfold spec_minute. rewrite Ec, E1, E2. cbn [andb fst snd]. split; [reflexivity |].
  erewrite set_cap_text with (w := [m1; m2]); [reflexivity | reflexivity | simpl; lia].
Qed.

Lemma startswith_2 (a b : ascii) (t : str) :
  Py.startswith [a; b] t =
  match t with
  | x :: y :: _ => Py.ascii_eqb a x && Py.ascii_eqb b y
  | _ => false
  end.
Proof.
  destruct t as [|x [|y t]]; simpl; try reflexivity.
  - now rewrite andb_false_r.
  - now rewrite andb_true_r.
Qed.

Lemma first_str_2 (a b : ascii) x :
  first_match no_flags (Seq (Chr (One (AChar a))) (Seq (Chr (One (AChar b))) Eps)) x =
  match m_rest x with
  | c :: d :: rest =>
      if Py.ascii_eqb a c && Py.ascii_eqb b d
      then Some (advance d rest (advance c (d :: rest) x))
      else None
  | _ => None
  end.
Proof.
  rewrite first_chr_seq. destruct (m_rest x) as [|c [|d r]]; [reflexivity | |];
    cbn [cmatch amatch ignorecase no_flags];
    (destruct (Py.ascii_eqb a c); [| reflexivity]);
    rewrite first_chr_seq; cbn [advance m_rest]; [reflexivity |].
  cbn [cmatch amatch ignorecase no_flags andb].
  destruct (Py.ascii_eqb b d); reflexivity.
Qed.

Lemma marker_stage x :
  exists y, first_match no_flags marker_opt x = Some y /\
            m_caps y = match marker_text (m_rest x) with
                       | Some t => (3, (m_pos x, t)) :: m_caps x
                       | None => m_caps x
                       end.
Proof.
  unfold marker_opt. rewrite first_opt, first_group, first_alt.
  unfold Str. cbn [L list_ascii_of_string fold_right]. rewrite !first_str_2.
  unfold marker_text. change (L "am") with ["a"; "m"]%char.
  change (L "pm") with ["p"; "m"]%char. rewrite !startswith_2.
  destruct (m_rest x) as [|c [|d r]] eqn:Er; try (exists x; auto; fail).
  destruct (Py.ascii_eqb "a" c && Py.ascii_eqb "m" d) eqn:Eam.
  - apply andb_true_iff in Eam as [Ea Em].
    apply Ascii.eqb_eq in Ea as <-. apply Ascii.eqb_eq in Em as <-.
    eexists. split; [reflexivity |].
    erewrite set_cap_text with (w := ["a"; "m"]%char);
      [reflexivity | exact Er | simpl; lia].
  - destruct (Py.ascii_eqb "p" c && Py.ascii_eqb "m" d) eqn:Epm.
    + apply andb_true_iff in Epm as [Ep Em].
      apply Ascii.eqb_eq in Ep as <-. apply Ascii.eqb_eq in Em as <-.
      eexists. split; [reflexivity |].
      erewrite set_cap_text with (w := ["p"; "m"]%char);
        [reflexivity | exact Er | simpl; lia].
    + exists x. auto.
Qed.

End TimePhrase.

Section TimeTranslation.
Import Re ReNotions ReFacts.

Lemma group_cap_text m k : group m k = cap_text k (mt_final m).
Proof.
  unfold group, cap_text. destruct (cap_lookup k _) as [[a g] |]; reflexivity.
Qed.

(** At a digit the hour pattern matches, and its groups are the hour
    digits, the minute digits and the marker that the specification
    describes. *)
Lemma hour_first prev pos d1 after1 :
  Py.isdigit d1 = true ->
  exists x,
    first_match no_flags Pat.hour (MState prev pos (d1 :: after1) []) = Some x /\
    cap_text 1 x = Some (fst (spec_hour_digits (d1 :: after1))) /\
    cap_text 2 x = fst (spec_minute (snd (spec_hour_digits (d1 :: after1)))) /\
    cap_text 3 x =
    marker_text (Py.drop_while Py.isspace
                   (snd (spec_minute (snd (spec_hour_digits (d1 :: after1)))))).
Proof.
  intros Hd. rewrite hour_pattern.
  destruct (hour_stage no_flags (MState prev pos (d1 :: after1) []) d1 after1 eq_refl Hd)
    as (x1 & F1 & R1 & C1).
  destruct (minute_stage no_flags x1) as (x2 & F2 & R2 & C2).
  destruct (first_sp_star no_flags x2) as (x3 & F3 & R3 & C3).
  destruct (marker_stage x3) as (x4 & F4 & C4).
  exists x4. split.
  - eapply first_seq; [exact F1 |]. eapply first_seq; [exact F2 |].
    eapply first_seq; [exact F3 | exact F4].
  - unfold cap_text. rewrite C4, C3, C2, C1, R3, R2, R1. cbn [m_caps m_pos].
    generalize (fst (spec_hour_digits (d1 :: after1))) as hd.
    generalize (snd (spec_hour_digits (d1 :: after1))) as after_hour.
    intros after_hour hd.
    destruct (spec_minute after_hour) as [minute after_minute]. cbn [fst snd].
    generalize (marker_text (Py.drop_while Py.isspace after_minute)) as mk.
    intros [t |]; destruct minute as [m |];
      cbn [cap_lookup Nat.eqb option_map snd]; auto.
Qed.

Lemma hour_not_at fl prev pos rest :
  match rest with [] => True | c :: _ => Py.isdigit c = false end ->
  first_match fl Pat.hour (MState prev pos rest []) = None.
Proof.
  intros H. rewrite hour_pattern. apply first_seq_none.
  unfold hour_group. rewrite first_group. unfold Pat.digit at 1.
  rewrite first_chr_seq. cbn [m_rest].
  destruct rest as [|c rest]; [reflexivity |]. cbn [cmatch amatch]. now rewrite H.
Qed.

Lemma match_at_first fl r st :
  match_at fl r st = option_map (ReMatch (m_pos st)) (first_match fl r st).
Proof.
  unfold match_at, first_match. destruct (rmatch fl r st); reflexivity.
Qed.

(** The search for the hour pattern stops at the first digit. *)
Lemma hour_search s : forall prev pos,
    match Py.drop_while (fun c => negb (Py.isdigit c)) s with
    | [] => search_from no_flags Pat.hour prev pos s = None
    | d1 :: after1 =>
        exists prev' pos',
          search_from no_flags Pat.hour prev pos s =
          option_map (ReMatch pos')
                     (first_match no_flags Pat.hour (MState prev' pos' (d1 :: after1) []))
          /\ Py.isdigit d1 = true
    end.
Proof.
  induction s as [|c s IH]; intros prev pos.
  - cbn [Py.drop_while search_from].
    rewrite match_at_first, hour_not_at; [reflexivity | exact I].
  - cbn [Py.drop_while]. destruct (Py.isdigit c) eqn:Ec; cbn [negb].
    + exists prev, pos. split; [| exact Ec].
      cbn [search_from]. rewrite match_at_first.
      destruct (hour_first prev pos c s Ec) as (x & -> & _). reflexivity.
    + cbn [search_from]. rewrite match_at_first, hour_not_at by exact Ec.
      cbn [option_map]. apply IH.
Qed.

Lemma first_weekday_spec s : first_weekday weekdays s = spec_day_of_week s.
Proof. reflexivity. Qed.

(** [_parse_time_spec] translates a time phrase as the specification
    says. *)
Lemma parse_time_spec_refines time_spec :
  _parse_time_spec time_spec =
  match spec_cron time_spec with
  | Some cron => Ok cron
  | None => Raise (ValueError (L "Cannot parse time from '" ++ time_spec ++ L "'"))
  end.
Proof.
  unfold _parse_time_spec, spec_cron, re_search.
  pose proof (hour_search (Py.lower time_spec) None 0) as Hs.
  destruct (Py.drop_while _ (Py.lower time_spec)) as [|d1 after1] eqn:Ed.
  - rewrite Hs. reflexivity.
  - destruct Hs as (prev' & pos' & -> & Hd).
    destruct (hour_first prev' pos' d1 after1 Hd) as (x & -> & G1 & G2 & G3).
    cbn [option_map]. unfold group_str. rewrite !group_cap_text. cbn [mt_final].
    rewrite G1, G2, G3, first_weekday_spec.
    destruct (spec_hour_digits (d1 :: after1)) as [hd after_hour].
    cbn [fst snd].
    destruct (spec_minute after_hour) as [minute after_minute]. cbn [fst snd].
    unfold spec_marker, marker_text.
    destruct (Py.startswith (L "am") _) eqn:Eam;
      [| destruct (Py.startswith (L "pm") _) eqn:Epm];
      cbn [Py.str_eqb spec_hour24 andb].
    + change (Py.str_eqb (L "am") (L "pm")) with false.
      change (Py.str_eqb (L "am") (L "am")) with true. cbn [andb].
      destruct minute as [[|m1 m] |]; reflexivity.
    + change (Py.str_eqb (L "pm") (L "pm")) with true.
      change (Py.str_eqb (L "pm") (L "am")) with false. cbn [andb].
      destruct (Py.int_of_digits hd =? 12) eqn:E12; cbn [negb].
      * apply Nat.eqb_eq in E12. rewrite E12.
        destruct minute as [[|m1 m] |]; reflexivity.
      * destruct minute as [[|m1 m] |]; reflexivity.
    + cbn [andb]. destruct minute as [[|m1 m] |]; reflexivity.
Qed.

End TimeTranslation.

(** ** Alarm triggers *)

Section AlarmTriggers.
Import Re ReNotions ReFacts.

Ltac no_group := cbv; intuition discriminate.

(** What a match of the alarm pattern at the start of [text] holds: the
    text is not empty, group 1 is the time phrase and group 2 the
    operation, a word. *)
Lemma alarm_match_groups text st' :
  In st' (rmatch IGNORECASE Pat.alarm (MState None 0 text [])) ->
  text <> []
  /\ exists a phrase b op,
      cap_lookup 1 (m_caps st') = Some (a, phrase) /\
      cap_lookup 2 (m_caps st') = Some (b, op) /\ op <> [] /\ Py.strip op = op.
Proof.
  unfold Pat.alarm. cbn [Seqs]. intros H.
  apply in_seq in H as (s1 & H1 & H).
  apply in_seq in H as (s2 & H2 & H).
  apply in_seq in H as (s3 & H3 & H).
  apply in_seq in H as (s4 & H4 & H).
  apply in_seq in H as (s5 & H5 & H).
  apply in_seq in H as (s6 & H6 & H).
  apply in_seq in H as (s7 & H7 & H).
  split.
  - unfold Str in H1. cbn [L list_ascii_of_string fold_right] in H1.
    apply in_seq in H1 as (s0 & H0 & _).
    apply in_chr in H0 as (c & rest & Hr & _). cbn [m_rest] in Hr.
    rewrite Hr. discriminate.
  - destruct (in_group_plus_chr _ _ _ _ _ _ H7) as (phrase & _ & _ & Hc1).
    pose proof (rmatch_caps _ _ _ _ 1 H ltac:(no_group)) as Hkeep.
    apply in_seq in H as (s8 & H8 & H).
    apply in_seq in H as (s9 & H9 & H).
    apply in_seq in H as (s10 & H10 & H).
    apply in_seq in H as (s11 & H11 & H).
    apply in_seq in H as (s12 & H12 & H).
    destruct (in_group_plus_chr _ _ _ _ _ _ H) as (op & Hne & Hall & Hc2).
    exists (m_pos s6), phrase, (m_pos s12), op. repeat split; auto.
    + now rewrite Hkeep.
    + apply strip_no_space. eapply List.Forall_impl; [| exact Hall].
      intros c Hc. now apply word_not_space.
Qed.

Lemma alarm_declaration lib text am :
  re_match IGNORECASE Pat.alarm text = Some am ->
  exists phrase op,
    group am 1 = Some phrase /\ group am 2 = Some op /\
    _parse_trigger_declaration lib text =
    match spec_cron (Py.strip phrase) with
    | Some cron =>
        Ok {| raw_text := text; trigger_type := L "alarm"; schedule := Some cron;
              event_type := None; filter := None; operation := op;
              queue_when_paused := true |}
    | None =>
        Raise (ValueError (L "Cannot parse time from '" ++ Py.strip phrase ++ L "'"))
    end.
Proof.
  intros Hm.
  assert (Hin : In (mt_final am) (rmatch IGNORECASE Pat.alarm (MState None 0 text []))).
  { unfold re_match, match_at in Hm.
    destruct (rmatch _ _ _) as [|st' l]; [discriminate |].
    injection Hm as <-. now left. }
  apply alarm_match_groups in Hin as (Hraw & a & phrase & b & op & H1 & H2 & Hne & Hs).
  exists phrase, op. unfold group. rewrite H1, H2. repeat split.
  unfold _parse_trigger_declaration. rewrite Hm.
  unfold group_str, group. rewrite H1, H2, Hs, parse_time_spec_refines.
  destruct (spec_cron (Py.strip phrase)) as [cron |]; [| reflexivity].
  cbn [bind].
  apply (new_Trigger_ok lib text _ (Some cron) None None op true Hraw Hne).
Qed.

Lemma lower_keeps_digits (c : ascii) : Py.isdigit (Py.lower_char c) = Py.isdigit c.
Proof. destruct c as [[] [] [] [] [] [] [] []]; reflexivity. Qed.

Lemma drop_while_nil (p : ascii -> bool) (s : str) :
  Py.drop_while p s = [] <-> Forall (fun c => p c = true) s.
Proof.
  induction s as [|c s IH]; simpl.
  - split; [constructor | reflexivity].
  - destruct (p c) eqn:E.
    + rewrite IH. split; [now constructor | now inversion 1].
    + split; [discriminate | inversion 1; congruence].
Qed.

(** A phrase has no translation exactly when it holds no digit. *)
Lemma spec_cron_none phrase :
  spec_cron phrase = None <-> Forall (fun c => Py.isdigit c = false) phrase.
Proof.
  unfold spec_cron.
  destruct (Py.drop_while _ (Py.lower phrase)) as [|d1 after1] eqn:E.
  - split; [intros _ | reflexivity].
    apply drop_while_nil in E. unfold Py.lower in E. apply Forall_map in E.
    eapply List.Forall_impl; [| exact E]. intros c Hc. cbn beta in Hc.
    rewrite lower_keeps_digits in Hc. now apply negb_true_iff.
  - destruct (spec_hour_digits _), (spec_minute _). split; [discriminate |].
    intros H. exfalso.
    assert (E' : Py.drop_while (fun c => negb (Py.isdigit c)) (Py.lower phrase) = []).
    { apply drop_while_nil. unfold Py.lower. apply Forall_map.
      eapply List.Forall_impl; [| exact H]. intros c Hc. cbn beta.
      rewrite lower_keeps_digits. now apply negb_true_iff. }
    congruence.
Qed.

(** The error of a list item of the Triggers section cites the text of
    the item. *)
Lemma trigger_line_error lib line e :
  is_bullet (Py.strip line) = true ->
  Py.strip (Py.lstrip_chars (L "-*") (Py.strip line)) <> [] ->
  _parse_trigger_declaration lib (Py.strip (Py.lstrip_chars (L "-*") (Py.strip line)))
  = Raise e ->
  parse_trigger_line lib line =
  Raise (BusyValidationError
           (L "Invalid trigger declaration '"
              ++ Py.strip (Py.lstrip_chars (L "-*") (Py.strip line))
              ++ L "': " ++ exn_str e)).
Proof.
  intros Hb Hne He. unfold parse_trigger_line.
  rewrite Hb, (is_empty_false _ Hne), He.
  destruct (Py.strip line); [discriminate | reflexivity].
Qed.

End AlarmTriggers.

Lemma drop_while_forall (P : ascii -> Prop) (p : ascii -> bool) (s : str) :
  Forall P s -> Forall P (Py.drop_while p s).
Proof.
  induction 1 as [|c s Hc Hs IH]; simpl; [constructor |].
  destruct (p c); [exact IH | now constructor].
Qed.

Lemma strip_forall (P : ascii -> Prop) (s : str) : Forall P s -> Forall P (Py.strip s).
Proof.
  intros H. unfold Py.strip, Py.rstrip, Py.lstrip.
  apply Forall_rev, drop_while_forall, Forall_rev, drop_while_forall, H.
Qed.

(** A text is of ASCII characters when the test of its characters says
    so. *)
Lemma ascii_text_by (s : str) :
  forallb (fun c => Py.code c <? 128) s = true -> ascii_text s.
Proof.
  intros H. apply List.Forall_forall. intros c Hc.
  rewrite forallb_forall in H. apply Nat.ltb_lt. now apply H.
Qed.

(** The loop of [_parse_triggers] stops at the first line that is
    refused, with the error of that line. *)
Lemma mapM_first_raise {A B} (f : A -> result B) pre x post e :
  Forall (fun a => exists b, f a = Ok b) pre ->
  f x = Raise e ->
  mapM f (pre ++ x :: post) = Raise e.
Proof.
  intros Hpre Hx. induction Hpre as [|a pre [b Hb] _ IH]; simpl.
  - now rewrite Hx.
  - now rewrite Hb, IH.
Qed.

Lemma parse_triggers_first_refused lib body m pre line post e :
  Re.re_search Re.DOTALL Pat.triggers_section body = Some m ->
  Py.split Re.nl (Re.group_str m 1) = pre ++ line :: post ->
  Forall (fun l => exists ts, parse_trigger_line lib l = Ok ts) pre ->
  parse_trigger_line lib line = Raise e ->
  _parse_triggers lib body = Raise e.
Proof.
  intros Hm Hs Hpre Hline. unfold _parse_triggers. rewrite Hm. cbv zeta.
  rewrite Hs, (mapM_first_raise _ _ _ _ e Hpre Hline). reflexivity.
Qed.

(** C4.  For a text of ASCII characters: (1) [_parse_time_spec]
    translates every time phrase as the specification says ([spec_cron]:
    minute, hour, [* *], day of the week; the hour from the first number
    of one or two digits, the minute from an optional [:mm], else 0, pm
    adding 12 unless the hour is 12, am turning 12 into 0, the day from
    the first weekday name found when trying Monday to Sunday in this
    order, else [*]), and raises when the phrase has no translation.
    (2) A text that the alarm pattern matches, with time phrase [phrase]
    and operation [op], parses to the alarm trigger with that schedule and
    that operation.  (3) A phrase has no translation exactly when it holds
    no digit.  (4) When the Triggers section of a body is found and the
    first of its lines that is refused is a list item whose time phrase
    holds no digit, [_parse_triggers] raises the validation error that
    cites the text of the item.  (5) The three examples of the
    specification as the items of a Triggers section, and one of the
    error. *)
Theorem alarm_trigger_rule (lib : Library) :
  (forall time_spec,
      ascii_text time_spec ->
      _parse_time_spec time_spec =
      match spec_cron time_spec with
      | Some cron => Ok cron
      | None => Raise (ValueError (L "Cannot parse time from '" ++ time_spec ++ L "'"))
      end)
  /\ (forall text am,
         ascii_text text ->
         Re.re_match Re.IGNORECASE Pat.alarm text = Some am ->
         exists phrase op,
           Re.group am 1 = Some phrase /\ Re.group am 2 = Some op /\
           _parse_trigger_declaration lib text =
           match spec_cron (Py.strip phrase) with
           | Some cron =>
               Ok {| raw_text := text; trigger_type := L "alarm";
                     schedule := Some cron; event_type := None; filter := None;
                     operation := op; queue_when_paused := true |}
           | None =>
               Raise (ValueError
                        (L "Cannot parse time from '" ++ Py.strip phrase ++ L "'"))
           end)
  /\ (forall phrase,
         ascii_text phrase ->
         spec_cron phrase = None <-> Forall (fun c => Py.isdigit c = false) phrase)
  /\ (forall body m pre line post am phrase,
         ascii_text body ->
         Re.re_search Re.DOTALL Pat.triggers_section body = Some m ->
         Py.split Re.nl (Re.group_str m 1) = pre ++ line :: post ->
         Forall (fun l => exists ts, parse_trigger_line lib l = Ok ts) pre ->
         is_bullet (Py.strip line) = true ->
         Re.re_match Re.IGNORECASE Pat.alarm
                     (Py.strip (Py.lstrip_chars (L "-*") (Py.strip line))) = Some am ->
         Re.group am 1 = Some phrase ->
         Forall (fun c => Py.isdigit c = false) phrase ->
         _parse_triggers lib body =
         Raise (BusyValidationError
                  (L "Invalid trigger declaration '"
                     ++ Py.strip (Py.lstrip_chars (L "-*") (Py.strip line))
                     ++ L "': Cannot parse time from '" ++ Py.strip phrase ++ L "'")))
  /\ (_parse_triggers lib
        (lines_open ["# Triggers";
                     "- Set alarm for 6am each morning to run DailyReview";
                     "- Set alarm for 3pm daily to run X";
                     "- Set alarm for 9am every Monday to run X"]) =
      Ok [{| raw_text := L "Set alarm for 6am each morning to run DailyReview";
             trigger_type := L "alarm"; schedule := Some (L "0 6 * * *");
             event_type := None; filter := None; operation := L "DailyReview";
             queue_when_paused := true |};
          {| raw_text := L "Set alarm for 3pm daily to run X";
             trigger_type := L "alarm"; schedule := Some (L "0 15 * * *");
             event_type := None; filter := None; operation := L "X";
             queue_when_paused := true |};
          {| raw_text := L "Set alarm for 9am every Monday to run X";
             trigger_type := L "alarm"; schedule := Some (L "0 9 * * 1");
             event_type := None; filter := None; operation := L "X";
             queue_when_paused := true |}]
      /\ _parse_triggers lib
           (lines_open ["# Triggers";
                        "- Set alarm for 6am each morning to run DailyReview";
                        "- Set alarm for noon to run X"]) =
         Raise (BusyValidationError
                  (L "Invalid trigger declaration 'Set alarm for noon to run X': Cannot parse time from 'noon'"))).
Proof.
  split; [intros time_spec _; apply parse_time_spec_refines |].
  split; [intros text am _; apply alarm_declaration |].
  split; [intros phrase _; apply spec_cron_none |].
  split.
  - intros body m pre line post am phrase _ Hsec Hsplit Hpre Hb Hm Hg Hnd.
    destruct (alarm_declaration lib _ am Hm) as (phrase' & op & Hg' & _ & Hdecl).
    rewrite Hg in Hg'. injection Hg' as <-.
    assert (Hnone : spec_cron (Py.strip phrase) = None)
      by now apply spec_cron_none, strip_forall.
    rewrite Hnone in Hdecl.
    assert (Hne : Py.strip (Py.lstrip_chars (L "-*") (Py.strip line)) <> []).
    { intros E. rewrite E in Hm. vm_compute in Hm. discriminate. }
    apply (parse_triggers_first_refused lib body m pre line post _ Hsec Hsplit Hpre).
    rewrite (trigger_line_error lib line _ Hb Hne Hdecl). reflexivity.
  - split; vm_compute; reflexivity.
Qed.

Lemma alarm_trigger_rule_witness :
  _parse_triggers Fixture.lib
    (lines_open ["# Triggers";
                 "- When mail.received, run Reply";
                 "- Set alarm for half past noon to run X"]) =
  Raise (BusyValidationError
           (L "Invalid trigger declaration 'Set alarm for half past noon to run X': Cannot parse time from 'half past noon'"))
  /\ (exists op,
         _parse_trigger_declaration Fixture.lib
           (L "Set alarm for 12:45 am on Sunday to run Sync") =
         Ok {| raw_text := L "Set alarm for 12:45 am on Sunday to run Sync";
               trigger_type := L "alarm"; schedule := Some (L "45 0 * * 0");
               event_type := None; filter := None; operation := op;
               queue_when_paused := true |})
  /\ _parse_time_spec (L "7:30 pm on Friday") = Ok (L "30 19 * * 5")
  /\ spec_cron (L "noon") = None.
Proof.
  destruct (alarm_trigger_rule Fixture.lib) as (Htime & Hdecl & Hnone & Herr & _).
  split; [| split; [| split]].
  - set (body := lines_open ["# Triggers"; "- When mail.received, run Reply";
                              "- Set alarm for half past noon to run X"]).
    destruct (Re.re_search Re.DOTALL Pat.triggers_section body) as [m |] eqn:Es;
      [| vm_compute in Es; discriminate].
    destruct (Re.re_match Re.IGNORECASE Pat.alarm
                (Py.strip (Py.lstrip_chars (L "-*")
                   (Py.strip (L "- Set alarm for half past noon to run X")))))
      as [am |] eqn:Em; [| vm_compute in Em; discriminate].
    assert (Hg : Re.group am 1 = Some (L "half past noon"))
      by (vm_compute in Em; injection Em as <-; reflexivity).
    assert (Hnd : Forall (fun c => Py.isdigit c = false) (L "half past noon"))
      by (repeat constructor).
    rewrite (Herr body m [L "- When mail.received, run Reply"]
                  (L "- Set alarm for half past noon to run X") [] am
                  (L "half past noon")).
    + vm_compute. reflexivity.
    + apply ascii_text_by. vm_compute. reflexivity.
    + exact Es.
    + vm_compute in Es. injection Es as <-. vm_compute. reflexivity.
    + constructor; [| constructor]. eexists. vm_compute. reflexivity.
    + reflexivity.
    + exact Em.
    + exact Hg.
    + exact Hnd.
  - destruct (Re.re_match Re.IGNORECASE Pat.alarm
                (L "Set alarm for 12:45 am on Sunday to run Sync"))
      as [am |] eqn:Em; [| vm_compute in Em; discriminate].
    assert (Ha : ascii_text (L "Set alarm for 12:45 am on Sunday to run Sync"))
      by (apply ascii_text_by; vm_compute; reflexivity).
    destruct (Hdecl _ am Ha Em) as (phrase & op & G1 & G2 & H).
    exists op. rewrite H.
    vm_compute in Em. injection Em as <-. vm_compute in G1. injection G1 as <-.
    vm_compute. reflexivity.
  - rewrite (Htime (L "7:30 pm on Friday"))
      by (apply ascii_text_by; vm_compute; reflexivity).
    vm_compute. reflexivity.
  - apply (Hnone (L "noon")); [apply ascii_text_by; vm_compute; reflexivity |].
    repeat constructor.
Defined.

(** ** Code fences and the items of a section *)

Section Fences.
Import Re ReNotions ReFacts.

(** A literal text matches itself. *)
Lemma in_chars fl (l : str) : forall y x,
    ignorecase fl = false ->
    In x (rmatch fl (fold_right (fun c r => Seq (Chr (One (AChar c))) r) Eps l) y) ->
    m_rest y = l ++ m_rest x /\ m_pos x = m_pos y + length l.
Proof.
  induction l as [|c l IH]; intros y x Hfl Hin; cbn [fold_right] in Hin.
  - apply in_eps in Hin as ->. simpl. split; [reflexivity | lia].
  - apply in_seq in Hin as (mid & H1 & H2).
    apply in_chr in H1 as (c' & rest & Hr & Hc & ->).
    cbn [cmatch amatch] in Hc. rewrite Hfl in Hc.
    apply Ascii.eqb_eq in Hc as <-.
    destruct (IH _ _ Hfl H2) as [Hr' Hp']. cbn [advance m_rest m_pos] in Hr', Hp'.
    rewrite Hr, Hr'. simpl. split; [reflexivity | lia].
Qed.

Lemma in_str fl (w : string) y x :
  ignorecase fl = false -> In x (rmatch fl (Str w) y) ->
  m_rest y = L w ++ m_rest x /\ m_pos x = m_pos y + length (L w).
Proof. intros Hfl Hin. now apply (in_chars fl). Qed.

(** A fence region lies within the section, and its text starts and ends
    with three backticks. *)
Lemma fence_region section fs fe :
  In (fs, fe) (_find_code_fence_regions section) ->
  fe <= length section /\
  exists pre mid post,
    section = pre ++ (L "```" ++ mid ++ L "```") ++ post /\
    length pre = fs /\ fe = fs + length (L "```" ++ mid ++ L "```").
Proof.
  unfold _find_code_fence_regions. rewrite in_map_iff.
  intros (m & [= <- <-] & Hm).
  apply finditer_found_in in Hm.
  destruct Hm as (st0 & (pre & Hs & Hl) & _ & Hp & Hin).
  revert Hin. unfold Pat.fence. cbn [Seqs]. intros H.
  apply in_seq in H as (s1 & H1 & H). apply in_bol in H1 as [_ ->].
  apply in_seq in H as (s2 & H2 & H). apply in_str in H2 as [R2 P2]; [| reflexivity].
  apply in_seq in H as (s3 & H3 & H).
  apply in_seq in H as (s4 & H4 & H).
  apply in_seq in H as (s5 & H5 & H).
  apply in_seq in H as (s6 & H6 & H). apply in_bol in H6 as [_ ->].
  apply in_str in H as [R7 P7]; [| reflexivity].
  assert (E25 : extends s2 s5).
  { eapply extends_trans; [eapply rmatch_extends; eauto |].
    eapply extends_trans; eapply rmatch_extends; eauto. }
  destruct E25 as (mid & Rm & Pm).
  assert (Hend : mt_end m = mt_start m + length (L "```" ++ mid ++ L "```")).
  { unfold mt_end. rewrite !length_app, P7, Pm, P2, <- Hp. lia. }
  split.
  - rewrite Hend, Hs, R2, Rm, R7, <- Hp, <- Hl, !length_app. lia.
  - exists pre, mid, (m_rest (mt_final m)). repeat split.
    + rewrite Hs, R2, Rm, R7, <- !app_assoc. reflexivity.
    + now rewrite Hl, Hp.
    + exact Hend.
Qed.

(** No item starts inside a code fence. *)
Lemma boundary_outside_fences section pos name :
  In (pos, name) (item_boundaries section) ->
  _is_position_in_code_fence pos (_find_code_fence_regions section) = false
  /\ exists hm, In hm (finditer MULTILINE Pat.item_heading section)
                /\ pos = mt_start hm.
Proof.
  unfold item_boundaries. rewrite in_flat_map. intros (hm & Hhm & Hin).
  destruct (_is_position_in_code_fence _ _) eqn:E; cbn [negb] in Hin.
  - destruct Hin.
  - destruct Hin as [[= <- _] | []]. split; [exact E | eauto].
Qed.

(** A heading whose offset is inside a fence region starts no item. *)
Lemma fenced_heading_starts_no_item section hm :
  In hm (finditer MULTILINE Pat.item_heading section) ->
  _is_position_in_code_fence (mt_start hm) (_find_code_fence_regions section) = true ->
  forall name, ~ In (mt_start hm, name) (item_boundaries section).
Proof.
  intros _ Hin name Hb. apply boundary_outside_fences in Hb as [Hout _]. congruence.
Qed.

Lemma item_spans_in n bs a b name :
  In (a, b, name) (item_spans n bs) ->
  In (a, name) bs /\ (b = n \/ exists name', In (b, name') bs).
Proof.
  induction bs as [|[a0 name0] bs IH]; simpl; [intros [] |].
  intros [[= <- <- <-] | H].
  - split; [now left |]. destruct bs as [|[next name'] bs']; [now left |].
    right. exists name'. right. now left.
  - destruct (IH H) as [H1 H2]. split; [now right |].
    destruct H2 as [-> | (name' & H2)]; [now left | right; exists name'; now right].
Qed.

Lemma in_fence_false pos regions fs fe :
  _is_position_in_code_fence pos regions = false -> In (fs, fe) regions ->
  pos < fs \/ fe <= pos.
Proof.
  unfold _is_position_in_code_fence. intros H Hin.
  destruct (Nat.le_gt_cases fs pos) as [H1 | H1]; [| now left].
  destruct (Nat.le_gt_cases fe pos) as [H2 | H2]; [now right |].
  exfalso. assert (existsb (fun r => (fst r <=? pos) && (pos <? snd r)) regions = true).
  { apply existsb_exists. exists (fs, fe). split; [exact Hin |]. simpl.
    apply andb_true_iff. split; [now apply Nat.leb_le | now apply Nat.ltb_lt]. }
  congruence.
Qed.

(** A slice of a text around a part of it holds that part. *)
Lemma slice_around (pre w post : str) a b :
  a <= length pre -> length pre + length w <= b ->
  Py.slice (pre ++ w ++ post) a b =
  drop a pre ++ w ++ take (b - (length pre + length w)) post.
Proof.
  intros Ha Hb. unfold Py.slice.
  rewrite drop_app_le by exact Ha.
  rewrite take_app_ge by (rewrite length_drop; lia).
  f_equal. rewrite length_drop.
  rewrite take_app_ge by lia. f_equal. f_equal. lia.
Qed.

(** A fence that starts within an item ends within it, and the slice of
    the item holds its text as it is. *)
Lemma fence_within_item section a b name fs fe :
  In (a, b, name) (item_spans (length section) (item_boundaries section)) ->
  In (fs, fe) (_find_code_fence_regions section) ->
  a <= fs < b ->
  fe <= b /\
  (exists mid, Py.slice section fs fe = L "```" ++ mid ++ L "```") /\
  exists before after,
    item_slice section a b = before ++ Py.slice section fs fe ++ after /\
    length before = fs - a.
Proof.
  intros Hspan Hreg [Hlo Hhi].
  destruct (fence_region _ _ _ Hreg) as (Hlen & pre & mid & post & Hs & Hl & Hfe).
  apply item_spans_in in Hspan as [_ Hb].
  assert (Hle : fe <= b).
  { destruct Hb as [-> | (name' & Hb)]; [exact Hlen |].
    apply boundary_outside_fences in Hb as [Hout _].
    destruct (in_fence_false _ _ _ _ Hout Hreg); lia. }
  split; [exact Hle |].
  set (w := L "```" ++ mid ++ L "```") in *.
  assert (Hw : Py.slice section fs fe = w).
  { rewrite Hs. rewrite slice_around by lia.
    rewrite <- Hl, drop_all. rewrite Hfe.
    replace (fs + length w - (length pre + length w)) with 0 by lia.
    rewrite take_0, app_nil_r. reflexivity. }
  rewrite Hw. split; [exists mid; reflexivity |]. unfold item_slice.
  replace (Py.slice section a b) with (Py.slice (pre ++ w ++ post) a b)
    by now rewrite <- Hs.
  rewrite slice_around by lia.
  eexists. eexists. split; [reflexivity |]. rewrite length_drop. lia.
Qed.

Lemma take1_finditer fl r s :
  take 1 (finditer fl r s) =
  match re_search fl r s with
  | Some m => [m]
  | None => []
  end.
Proof.
  unfold finditer, re_search. cbn [finditer_from].
  destruct (search_from fl r None 0 s) as [m |]; [| reflexivity].
  destruct (mt_start m <? m_pos (mt_final m)); [reflexivity |].
  destruct (m_rest (mt_final m)); reflexivity.
Qed.

(** The content of an item is its slice without the match of the heading
    line, stripped. *)
Lemma item_content_unfold raw :
  item_content raw =
  Py.strip match re_search no_flags Pat.item_heading_line raw with
           | Some m => Py.slice raw 0 (mt_start m) ++ drop (mt_end m) raw
           | None => raw
           end.
Proof.
  unfold item_content, re_sub. rewrite take1_finditer.
  destruct (re_search _ _ raw); reflexivity.
Qed.

Lemma drop_while_stops (p : ascii -> bool) (X Y : str) c f :
  p c = false -> exists X1, Py.drop_while p (X ++ (c :: f) ++ Y) = X1 ++ (c :: f) ++ Y.
Proof.
  intros Hc. induction X as [|x X IH]; simpl.
  - rewrite Hc. now exists [].
  - destruct (p x); [exact IH | now exists (x :: X)].
Qed.

(** Stripping a text leaves alone a part of it that neither starts nor
    ends with white space. *)
Lemma strip_middle (X Y f : str) c c' f1 f2 :
  f = c :: f1 -> rev f = c' :: f2 ->
  Py.isspace c = false -> Py.isspace c' = false ->
  exists X' Y', Py.strip (X ++ f ++ Y) = X' ++ f ++ Y'.
Proof.
  intros Hf Hr Hc Hc'. unfold Py.strip, Py.lstrip, Py.rstrip.
  destruct (drop_while_stops Py.isspace X Y c f1 Hc) as (X1 & H1).
  rewrite Hf, H1, <- Hf.
  rewrite !rev_app_distr, <- app_assoc, Hr.
  destruct (drop_while_stops Py.isspace (rev Y) (rev X1) c' f2 Hc') as (Y1 & H2).
  rewrite H2, <- Hr. rewrite !rev_app_distr, !rev_involutive, <- app_assoc.
  now exists X1, (rev Y1).
Qed.

(** When the heading line that is cut off the item ends before the fence
    starts, the content of the item holds the fenced text as it is. *)
Lemma fence_within_content section a b name fs fe :
  In (a, b, name) (item_spans (length section) (item_boundaries section)) ->
  In (fs, fe) (_find_code_fence_regions section) ->
  a <= fs < b ->
  (forall hm, re_search no_flags Pat.item_heading_line (item_slice section a b) = Some hm ->
              mt_end hm <= fs - a) ->
  exists before after,
    item_content (item_slice section a b) = before ++ Py.slice section fs fe ++ after.
Proof.
  intros Hspan Hreg Hin Hline.
  destruct (fence_within_item _ _ _ _ _ _ Hspan Hreg Hin)
    as (_ & (mid & Hw) & before & after & Hraw & Hlen).
  rewrite item_content_unfold.
  assert (Hshape : exists X Y,
             match re_search no_flags Pat.item_heading_line (item_slice section a b) with
             | Some m => Py.slice (item_slice section a b) 0 (mt_start m)
                           ++ drop (mt_end m) (item_slice section a b)
             | None => item_slice section a b
             end = X ++ Py.slice section fs fe ++ Y).
  { destruct (re_search _ _ _) as [hm |] eqn:E.
    - specialize (Hline hm eq_refl).
      assert (Hd : drop (mt_end hm) (item_slice section a b) =
                   drop (mt_end hm) before ++ Py.slice section fs fe ++ after)
        by (rewrite Hraw; apply drop_app_le; lia).
      rewrite Hd. eexists. eexists. rewrite app_assoc. reflexivity.
    - eauto. }
  destruct Hshape as (X & Y & ->). rewrite Hw.
  eapply (strip_middle X Y _ "`" "`"); try reflexivity.
  rewrite !rev_app_distr. reflexivity.
Qed.

End Fences.

Lemma mapM_map {A B C} (f : A -> result B) (g : B -> C) (h : A -> C)
      (l : list A) (bs : list B) :
  (forall a b, f a = Ok b -> g b = h a) -> mapM f l = Ok bs -> map g bs = map h l.
Proof.
  intros H. revert bs. induction l as [|a l IH]; intros bs; simpl.
  - intros [= <-]. reflexivity.
  - destruct (f a) as [b |] eqn:E; simpl; [| discriminate].
    destruct (mapM f l) as [bs' |]; simpl; [| discriminate].
    intros [= <-]. simpl. f_equal; [now apply H | now apply IH].
Qed.

Lemma item_spans_names n bs :
  map (fun item => snd item) (item_spans n bs) = map snd bs.
Proof.
  induction bs as [|[a name] bs IH]; simpl; [reflexivity |]. now rewrite IH.
Qed.

(** The operations are the [##] headings outside the fences, in order. *)
Lemma operations_of_boundaries lib content m ops :
  Re.re_search Re.DOTALL Pat.operations_section content = Some m ->
  _parse_operations lib content = Ok ops ->
  map op_name ops = map snd (item_boundaries (Re.group_str m 1)).
Proof.
  intros Hm. unfold _parse_operations. rewrite Hm. intros H.
  rewrite <- (item_spans_names (length (Re.group_str m 1))).
  revert H. apply mapM_map. intros [[a b] name] op. unfold parse_operation, bind.
  destruct (parse_steps lib _); [| discriminate].
  intros H. apply validated_ok in H as ->. reflexivity.
Qed.

(** The tools are the [##] headings outside the fences, in order. *)
Lemma tools_of_boundaries lib content m tools :
  Re.re_search Re.DOTALL Pat.tools_section content = Some m ->
  _parse_tools_section lib content = Ok tools ->
  map tool_name tools = map snd (item_boundaries (Re.group_str m 1)).
Proof.
  intros Hm. unfold _parse_tools_section. rewrite Hm. intros H.
  rewrite <- (item_spans_names (length (Re.group_str m 1))).
  revert H. apply mapM_map. intros [[a b] name] tool. unfold parse_tool.
  destruct (Py.is_empty _); [discriminate |].
  intros H. apply validated_ok in H as ->. reflexivity.
Qed.

(** C5.  The fenced text is lost where the heading of an item has no
    name.  In the section [nameless_heading_section] the fence spans the
    offsets 3 to 15 and the only item spans the whole section; the heading
    pattern takes the line that opens the fence for the name of the item,
    and the content of the item, from which that line was cut as the
    heading line, does not hold the fenced text.  [_parse_operations] and
    [_parse_tools_section] return an item named by the three backticks,
    and the description of the tool is what is left of the fenced
    text. *)
Lemma fenced_text_counterexample :
  _find_code_fence_regions Fixture.nameless_heading_section = [(3, 15)]
  /\ item_spans (length Fixture.nameless_heading_section)
                (item_boundaries Fixture.nameless_heading_section)
     = [(0, 16, L "```")]
  /\ Py.slice Fixture.nameless_heading_section 3 15 = lines_open ["```"; "## x"; "```"]
  /\ item_content (item_slice Fixture.nameless_heading_section 0 16)
     = lines_open ["## x"; "```"]
  /\ ~ (exists before after,
           item_content (item_slice Fixture.nameless_heading_section 0 16)
           = before ++ Py.slice Fixture.nameless_heading_section 3 15 ++ after)
  /\ (forall lib,
         _parse_operations lib nameless_heading_body
         = Ok [{| op_name := L "```"; op_inputs := []; op_outputs := [];
                  op_steps := []; op_checklist := None |}])
  /\ (forall lib,
         _parse_tools_section lib nameless_heading_body
         = Ok [{| tool_name := L "```";
                  tool_description := lines_open ["## x"; "```"];
                  tool_inputs := []; tool_outputs := [];
                  tool_examples := None; tool_providers := None |}]).
Proof.
  repeat split; try (vm_compute; reflexivity).
  intros (before & after & H). apply (f_equal length) in H.
  rewrite !length_app in H.
  assert (H1 : length (item_content (item_slice Fixture.nameless_heading_section 0 16)) = 8)
    by (vm_compute; reflexivity).
  assert (H2 : length (Py.slice Fixture.nameless_heading_section 3 15) = 12)
    by (vm_compute; reflexivity).
  rewrite H1, H2 in H. lia.
Qed.

(** Lines of three backticks that are indented open no fence for
    [_find_code_fence_regions], whose pattern looks for them at the start
    of a line: the [##] line between them starts an item. *)
Lemma indented_fence_not_seen :
  _find_code_fence_regions indented_fence_section = []
  /\ map snd (item_boundaries indented_fence_section) = [L "Deploy"; L "x"].
Proof. split; vm_compute; reflexivity. Qed.

(** The fences and the items of the content of an Operations or Tools
    section, for the fence regions that [_find_code_fence_regions]
    reports: (1) the operations and the tools that are parsed are the [##]
    headings outside the fence regions, in order; (2) no item starts at an
    offset inside a fence region, so a [##] heading whose offset falls
    inside one starts no item; (3) a fence that starts within the span of
    an item ends within it, and the slice of the section that the item is
    cut from holds the fenced text as it is; (4) the content of the item
    (this slice without its heading line, stripped) holds the fenced text
    as it is whenever the heading line that is cut off ends before the
    fence starts. *)
Theorem fences_and_items (section : str) :
  (forall lib content m,
      Re.re_search Re.DOTALL Pat.operations_section content = Some m ->
      Re.group_str m 1 = section ->
      forall ops, _parse_operations lib content = Ok ops ->
                  map op_name ops = map snd (item_boundaries section))
  /\ (forall lib content m,
         Re.re_search Re.DOTALL Pat.tools_section content = Some m ->
         Re.group_str m 1 = section ->
         forall tools, _parse_tools_section lib content = Ok tools ->
                       map tool_name tools = map snd (item_boundaries section))
  /\ (forall pos name,
         In (pos, name) (item_boundaries section) ->
         _is_position_in_code_fence pos (_find_code_fence_regions section) = false)
  /\ (forall hm,
         In hm (Re.finditer Re.MULTILINE Pat.item_heading section) ->
         _is_position_in_code_fence (Re.mt_start hm) (_find_code_fence_regions section)
         = true ->
         forall name, ~ In (Re.mt_start hm, name) (item_boundaries section))
  /\ (forall a b name fs fe,
         In (a, b, name) (item_spans (length section) (item_boundaries section)) ->
         In (fs, fe) (_find_code_fence_regions section) ->
         a <= fs < b ->
         fe <= b /\
         exists before after,
           item_slice section a b = before ++ Py.slice section fs fe ++ after /\
           length before = fs - a)
  /\ (forall a b name fs fe,
         In (a, b, name) (item_spans (length section) (item_boundaries section)) ->
         In (fs, fe) (_find_code_fence_regions section) ->
         a <= fs < b ->
         (forall hm,
             Re.re_search Re.no_flags Pat.item_heading_line (item_slice section a b)
             = Some hm ->
             Re.mt_end hm <= fs - a) ->
         exists before after,
           item_content (item_slice section a b)
           = before ++ Py.slice section fs fe ++ after).
Proof.
  split; [| split; [| split; [| split; [| split]]]].
  - intros lib content m Hm <- ops. now apply operations_of_boundaries.
  - intros lib content m Hm <- tools. now apply tools_of_boundaries.
  - intros pos name H. now apply boundary_outside_fences in H as [H _].
  - intros hm. apply fenced_heading_starts_no_item.
  - intros a b name fs fe Hspan Hreg Hin.
    destruct (fence_within_item _ _ _ _ _ _ Hspan Hreg Hin) as (Hle & _ & Hx).
    split; [exact Hle | exact Hx].
  - intros a b name fs fe. apply fence_within_content.
Qed.

Lemma fences_and_items_witness :
  map snd (item_boundaries Fixture.fenced_section) = [L "Deploy"; L "Verify"]
  /\ exists before after,
      item_content (item_slice Fixture.fenced_section 0 63)
      = before ++ lines_open ["```"; "## not a heading"; "```"] ++ after.
Proof.
  split; [vm_compute; reflexivity |].
  destruct (fences_and_items Fixture.fenced_section) as (_ & _ & _ & _ & _ & H).
  destruct (H 0 63 (L "Deploy") 38 62) as (before & after & E).
  - vm_compute. now left.
  - vm_compute. now left.
  - lia.
  - intros hm Hm. vm_compute in Hm. injection Hm as <-.
    cbn [Re.mt_end Re.mt_final Re.m_pos]. lia.
  - exists before, after. rewrite E. reflexivity.
Defined.

(** ** The headings of the Operations and Tools sections *)

Section Headings.
Import Re ReNotions ReFacts.

Lemma startswith_app (p post : str) : Py.startswith p (p ++ post) = true.
Proof.
  induction p as [|c p IH]; simpl; [reflexivity |].
  unfold Py.ascii_eqb. now rewrite Ascii.eqb_refl.
Qed.

Lemma contains_intro (p pre post : str) : Py.contains p (pre ++ p ++ post) = true.
Proof.
  induction pre as [|c pre IH].
  - simpl app. destruct (p ++ post) eqn:E; simpl; rewrite <- E, startswith_app; reflexivity.
  - simpl. rewrite IH. apply orb_true_r.
Qed.

(** A heading label, bare or in brackets, holds its name. *)
Lemma label_name fl name y x :
  In x (rmatch fl (Pat.label name) y) ->
  exists y' x', extends y y' /\ In x' (rmatch fl name y').
Proof.
  unfold Pat.label. intros H. apply in_alt in H as [H | H].
  - cbn [Seqs] in H. apply in_seq in H as (y' & H1 & H).
    apply in_seq in H as (x' & H2 & _).
    exists y', x'. split; [eapply rmatch_extends; eauto | exact H2].
  - exists y, x. split; [apply extends_refl | exact H].
Qed.

(** A match of a section pattern in [body] shows the word of its label
    in [body]. *)
Lemma section_needs_word fl name tail (word : string) body m :
  ignorecase fl = false ->
  (forall y x, In x (rmatch fl name y) -> exists post, m_rest y = L word ++ post) ->
  re_search fl (Seq (Pat.ch "#") (Seq Pat.sp_plus (Seq (Pat.label name) tail))) body
  = Some m ->
  Py.contains (L word) body = true.
Proof.
  intros Hfl Hname Hm. apply re_search_found_in in Hm.
  destruct Hm as (st0 & (pre & Hs & _) & _ & _ & H).
  apply in_seq in H as (s1 & H1 & H).
  apply in_seq in H as (s2 & H2 & H).
  apply in_seq in H as (s3 & H3 & _).
  apply label_name in H3 as (y' & x' & Hext & Hin).
  destruct (Hname _ _ Hin) as (post & Hpost).
  assert (E : extends st0 y').
  { eapply extends_trans; [eapply rmatch_extends; eauto |].
    eapply extends_trans; [eapply rmatch_extends; eauto | exact Hext]. }
  destruct E as (w & Hw & _).
  rewrite Hs, Hw, Hpost, app_assoc. apply contains_intro.
Qed.

Lemma operations_need_word body m :
  re_search DOTALL Pat.operations_section body = Some m ->
  Py.contains (L "Operations") body = true.
Proof.
  apply (section_needs_word DOTALL (Str "Operations")); [reflexivity |].
  intros y x H. apply in_str in H as [H _]; [eauto | reflexivity].
Qed.

Lemma tools_need_word body m :
  re_search DOTALL Pat.tools_section body = Some m ->
  Py.contains (L "Operation") body = true.
Proof.
  apply (section_needs_word DOTALL (Pat.plural "Operation")); [reflexivity |].
  intros y x H. unfold Pat.plural in H. apply in_seq in H as (mid & H & _).
  apply in_str in H as [H _]; [eauto | reflexivity].
Qed.

(** *** A heading line that is there is found *)

Lemma reaches_seq fl a b st r1 r2 :
  reaches fl a st r1 -> (forall x, m_rest x = r1 -> reaches fl b x r2) ->
  reaches fl (Seq a b) st r2.
Proof.
  intros (x & Hx & Hr) Hb. destruct (Hb x Hr) as (y & Hy & Hr').
  exists y. split; [| exact Hr']. apply in_seq. eauto.
Qed.

Lemma reaches_chr fl cs st c r :
  m_rest st = c :: r -> cmatch fl cs c = true -> reaches fl (Chr cs) st r.
Proof.
  intros Hr Hc. exists (advance c r st). split; [| reflexivity].
  apply in_chr. eauto.
Qed.

Lemma in_star_nil fl g r st : In st (rmatch fl (Star g r) st).
Proof.
  rewrite rmatch_star. destruct (length (m_rest st)); cbn [star_loop]; [now left |].
  destruct g; [apply in_app_iff; right; now left | now left].
Qed.

Lemma reaches_star_nil fl g r st : reaches fl (Star g r) st (m_rest st).
Proof. exists st. split; [apply in_star_nil | reflexivity]. Qed.

Lemma star_loop_all fl g cs : forall n st,
    length (m_rest st) <= n ->
    Forall (fun c => cmatch fl cs c = true) (m_rest st) ->
    exists x, In x (star_loop fl g (Chr cs) n st) /\ m_rest x = [].
Proof.
  induction n as [|n IH]; intros st Hlen Hall.
  - exists st. split; [now left |]. destruct (m_rest st); simpl in *; [reflexivity | lia].
  - destruct (m_rest st) as [|c r] eqn:Er.
    + exists st. split; [| exact Er]. cbn [star_loop].
      destruct g; [apply in_app_iff; right; now left | now left].
    + inversion Hall as [|c' r' Hc Hr]; subst.
      destruct (IH (advance c r st)) as (x & Hx & Hnil); [simpl in *; lia | exact Hr |].
      exists x. split; [| exact Hnil]. cbn [star_loop].
      assert (Hmore : In x (flat_map (star_loop fl g (Chr cs) n)
                                     (List.filter (progress st) (rmatch fl (Chr cs) st)))).
      { apply in_flat_map. exists (advance c r st). split; [| exact Hx].
        apply filter_In. split.
        - apply in_chr. eauto.
        - unfold progress. simpl. apply Nat.ltb_lt. lia. }
      destruct g; [apply in_app_iff; now left | now right].
Qed.

Lemma reaches_star_all fl g cs st :
  Forall (fun c => cmatch fl cs c = true) (m_rest st) ->
  reaches fl (Star g (Chr cs)) st [].
Proof. intros H. unfold reaches. rewrite rmatch_star. now apply star_loop_all. Qed.

Lemma reaches_chars fl (l : str) : forall st r,
    ignorecase fl = false -> m_rest st = l ++ r ->
    reaches fl (fold_right (fun c r => Seq (Chr (One (AChar c))) r) Eps l) st r.
Proof.
  induction l as [|c l IH]; intros st r Hfl Hr; cbn [fold_right].
  - exists st. split; [now left | exact Hr].
  - eapply reaches_seq.
    + eapply reaches_chr; [exact Hr |]. cbn [cmatch amatch]. rewrite Hfl.
      unfold Py.ascii_eqb. apply Ascii.eqb_refl.
    + intros x Hx. now apply IH.
Qed.

Lemma reaches_str fl (w : string) st r :
  ignorecase fl = false -> m_rest st = L w ++ r -> reaches fl (Str w) st r.
Proof. intros. now apply (reaches_chars fl). Qed.

Lemma reaches_group fl n r st rest : reaches fl r st rest -> reaches fl (Group n r) st rest.
Proof.
  intros (x & Hx & Hr). exists (set_cap n st x). split; [| exact Hr].
  apply in_group. eauto.
Qed.

Lemma reaches_alt_l fl a b st rest : reaches fl a st rest -> reaches fl (Alt a b) st rest.
Proof. intros (x & Hx & Hr). exists x. split; [apply in_alt; now left | exact Hr]. Qed.

Lemma reaches_alt_r fl a b st rest : reaches fl b st rest -> reaches fl (Alt a b) st rest.
Proof. intros (x & Hx & Hr). exists x. split; [apply in_alt; now right | exact Hr]. Qed.

Lemma reaches_eol fl st : m_rest st = [] -> reaches fl Eol st [].
Proof.
  intros Hr. exists st. split; [| exact Hr]. apply in_eol. split; [| reflexivity].
  unfold at_eol. now rewrite Hr.
Qed.

Lemma dotall_any c : cmatch DOTALL (One AAny) c = true.
Proof. reflexivity. Qed.

(** After the label, the rest of the line and all the text that follows. *)
Lemma reaches_section_tail st post :
  m_rest st = nl :: post ->
  reaches DOTALL (Seqs [Pat.sp_star; Pat.newline; Group 1 (Star true Pat.dot); Eol]) st [].
Proof.
  intros Hr. cbn [Seqs]. eapply reaches_seq; [apply reaches_star_nil |].
  intros x1 H1. apply reaches_seq with (r1 := post).
  { eapply reaches_chr; [rewrite H1; exact Hr | reflexivity]. }
  intros x2 H2. eapply reaches_seq.
  { apply reaches_group. apply reaches_star_all.
    apply Forall_forall. intros c _. apply dotall_any. }
  intros x3 H3. now apply reaches_eol.
Qed.

(** A section pattern matches at a line [# name] when the label matches
    the name. *)
Lemma reaches_section name st (text : str) post :
  m_rest st = "#"%char :: " "%char :: text ++ nl :: post ->
  (forall x, m_rest x = text ++ nl :: post ->
             reaches DOTALL (Pat.label name) x (nl :: post)) ->
  reaches DOTALL
          (Seqs [Pat.ch "#"; Pat.sp_plus; Pat.label name; Pat.sp_star; Pat.newline;
                 Group 1 (Star true Pat.dot); Eol]) st [].
Proof.
  intros Hr Hlabel.
  change (Seqs [Pat.ch "#"; Pat.sp_plus; Pat.label name; Pat.sp_star; Pat.newline;
                Group 1 (Star true Pat.dot); Eol])
    with (Seq (Pat.ch "#")
              (Seq Pat.sp_plus
                   (Seq (Pat.label name)
                        (Seqs [Pat.sp_star; Pat.newline; Group 1 (Star true Pat.dot); Eol])))).
  eapply reaches_seq; [eapply reaches_chr; [exact Hr | reflexivity] |].
  intros x1 H1. apply reaches_seq with (r1 := text ++ nl :: post).
  { unfold Pat.sp_plus, Plus. eapply reaches_seq.
    - eapply reaches_chr; [exact H1 | reflexivity].
    - intros x Hx. rewrite <- Hx. apply reaches_star_nil. }
  intros x2 H2. eapply reaches_seq; [now apply Hlabel |].
  intros x3 H3. eapply reaches_section_tail. exact H3.
Qed.

Lemma search_from_some fl r (rest : str) :
  (forall prev pos, rmatch fl r (MState prev pos rest []) <> []) ->
  forall pre prev pos, search_from fl r prev pos (pre ++ rest) <> None.
Proof.
  intros Hmatch. induction pre as [|c pre IH]; intros prev pos.
  - simpl app. destruct rest as [|c rest']; simpl; unfold match_at;
      destruct (rmatch fl r _) eqn:E; try discriminate; now apply Hmatch in E.
  - simpl. unfold match_at. destruct (rmatch fl r _); [apply IH | discriminate].
Qed.

Lemma reaches_nonempty fl r st rest : reaches fl r st rest -> rmatch fl r st <> [].
Proof. intros (x & Hx & _) E. rewrite E in Hx. destruct Hx. Qed.

(** The bracketed and the bare spelling of a label. *)
Lemma reaches_label_bare name x (text rest : str) :
  m_rest x = text ++ rest ->
  (forall y, m_rest y = text ++ rest -> reaches DOTALL name y rest) ->
  reaches DOTALL (Pat.label name) x rest.
Proof. intros Hr Hname. apply reaches_alt_r. now apply Hname. Qed.

Lemma reaches_label_bracketed name x (text rest : str) :
  m_rest x = L "[" ++ text ++ L "]" ++ rest ->
  (forall y, m_rest y = text ++ L "]" ++ rest -> reaches DOTALL name y (L "]" ++ rest)) ->
  reaches DOTALL (Pat.label name) x rest.
Proof.
  intros Hr Hname. apply reaches_alt_l. cbn [Seqs].
  eapply reaches_seq; [eapply reaches_chr; [exact Hr | reflexivity] |].
  intros y Hy. eapply reaches_seq; [now apply Hname |].
  intros z Hz. eapply reaches_chr; [exact Hz | reflexivity].
Qed.

Lemma reaches_plural (stem : string) y rest :
  m_rest y = L stem ++ rest \/ m_rest y = L stem ++ L "s" ++ rest ->
  reaches DOTALL (Pat.plural stem) y rest.
Proof.
  unfold Pat.plural. intros [H | H].
  - eapply reaches_seq; [apply reaches_str; [reflexivity | exact H] |].
    intros x Hx. apply reaches_alt_r. exists x. split; [now left | exact Hx].
  - eapply reaches_seq; [apply reaches_str; [reflexivity | exact H] |].
    intros x Hx. apply reaches_alt_l. eapply reaches_chr; [exact Hx | reflexivity].
Qed.

End Headings.

Section HeadingRules.
Import Re ReNotions ReFacts.

Lemma operations_heading_found pre post label :
  In label [L "Operations"; L "[Operations]"] ->
  re_search DOTALL Pat.operations_section (pre ++ L "# " ++ label ++ nl :: post) <> None.
Proof.
  intros Hl. apply search_from_some. intros prev pos.
  apply (reaches_nonempty _ _ _ []).
  unfold Pat.operations_section.
  destruct Hl as [<- | [<- | []]].
  - apply (reaches_section _ _ (L "Operations") post); [reflexivity |].
    intros x Hx. apply (reaches_label_bare _ _ (L "Operations")); [exact Hx |].
    intros y Hy. apply reaches_str; [reflexivity | exact Hy].
  - apply (reaches_section _ _ (L "[Operations]") post); [reflexivity |].
    intros x Hx. apply (reaches_label_bracketed _ _ (L "Operations")); [exact Hx |].
    intros y Hy. apply reaches_str; [reflexivity | exact Hy].
Qed.

Lemma tools_heading_found pre post label :
  In label [L "Operation"; L "Operations"; L "[Operation]"; L "[Operations]"] ->
  re_search DOTALL Pat.tools_section (pre ++ L "# " ++ label ++ nl :: post) <> None.
Proof.
  intros Hl. apply search_from_some. intros prev pos.
  apply (reaches_nonempty _ _ _ []).
  unfold Pat.tools_section.
  destruct Hl as [<- | [<- | [<- | [<- | []]]]].
  - apply (reaches_section _ _ (L "Operation") post); [reflexivity |].
    intros x Hx. apply (reaches_label_bare _ _ (L "Operation")); [exact Hx |].
    intros y Hy. apply reaches_plural. left. exact Hy.
  - apply (reaches_section _ _ (L "Operations") post); [reflexivity |].
    intros x Hx. apply (reaches_label_bare _ _ (L "Operations")); [exact Hx |].
    intros y Hy. apply reaches_plural. right. exact Hy.
  - apply (reaches_section _ _ (L "[Operation]") post); [reflexivity |].
    intros x Hx. apply (reaches_label_bracketed _ _ (L "Operation")); [exact Hx |].
    intros y Hy. apply reaches_plural. left. exact Hy.
  - apply (reaches_section _ _ (L "[Operations]") post); [reflexivity |].
    intros x Hx. apply (reaches_label_bracketed _ _ (L "Operations")); [exact Hx |].
    intros y Hy. apply reaches_plural. right. exact Hy.
Qed.

Lemma no_operations_without_word lib body :
  Py.contains (L "Operations") body = false -> _parse_operations lib body = Ok [].
Proof.
  intros H. unfold _parse_operations.
  destruct (re_search DOTALL Pat.operations_section body) as [m |] eqn:E; [| reflexivity].
  apply operations_need_word in E. congruence.
Qed.

Lemma no_tools_without_word lib body :
  Py.contains (L "Operation") body = false -> _parse_tools_section lib body = Ok [].
Proof.
  intros H. unfold _parse_tools_section.
  destruct (re_search DOTALL Pat.tools_section body) as [m |] eqn:E; [| reflexivity].
  apply tools_need_word in E. congruence.
Qed.

End HeadingRules.

(** The Tool document [tool_doc_tools_heading] declares its tool under a
    [# Tools] heading: no tool is parsed from its body and the document
    is refused.  The Operation document [operation_doc_singular_heading]
    declares its operation under [# Operation]: it parses to a document
    without operations. *)
Lemma tools_heading_counterexample :
  (exists meta body data,
      _extract_metadata Fixture.lib Fixture.tool_doc_tools_heading = Ok (meta, body, data)
      /\ md_type meta = L "[Tool]"
      /\ _parse_tools_section Fixture.lib body = Ok []
      /\ parse_document Fixture.lib Fixture.tool_doc_tools_heading =
         Raise (BusyValidationError
                  (L "Tool document must contain at least one tool definition in Tools section")))
  /\ (exists d,
         parse_document Fixture.lib Fixture.operation_doc_singular_heading = Ok d
         /\ operations (doc_fields d) = []).
Proof.
  split.
  - do 3 eexists. split; [vm_compute; reflexivity |].
    repeat split; vm_compute; reflexivity.
  - eexists. split; vm_compute; reflexivity.
Qed.

(** C1, amended.  The operations section is located by a heading labeled
    [Operations], bare or in square brackets: a body without the word
    "Operations" has no operations, so the singular [Operation] is not a
    heading of that section; and a line [# Operations] or [# [Operations]]
    is found.  For a Tool document the tools section is located by a
    heading labeled [Operation] or [Operations], bare or in square
    brackets, not by [Tools] or [Tool]: a body without the word
    "Operation" has no tools, and a Tool document with such a body never
    parses; a line [# Operation], [# Operations], [# [Operation]] or
    [# [Operations]] is found.  In particular the Tool document whose tool
    is declared under [# Operations] parses with that tool in its list of
    tools. *)
Theorem section_headings :
  (forall lib body,
      Py.contains (L "Operations") body = false -> _parse_operations lib body = Ok [])
  /\ (forall pre post label,
         In label [L "Operations"; L "[Operations]"] ->
         Re.re_search Re.DOTALL Pat.operations_section
                      (pre ++ L "# " ++ label ++ Re.nl :: post) <> None)
  /\ (forall lib body,
         Py.contains (L "Operation") body = false -> _parse_tools_section lib body = Ok [])
  /\ (forall lib content meta body data,
         _extract_metadata lib content = Ok (meta, body, data) ->
         md_type meta = tool_tag ->
         Py.contains (L "Operation") body = false ->
         forall d, parse_document lib content <> Ok d)
  /\ (forall pre post label,
         In label [L "Operation"; L "Operations"; L "[Operation]"; L "[Operations]"] ->
         Re.re_search Re.DOTALL Pat.tools_section
                      (pre ++ L "# " ++ label ++ Re.nl :: post) <> None)
  /\ (exists fields,
         parse_document Fixture.lib Fixture.tool_doc_operations_heading =
         Ok (ToolDocument fields
               [{| tool_name := L "send_email"; tool_description := L "Send an email.";
                   tool_inputs := [L "to: recipient"]; tool_outputs := [];
                   tool_examples := None; tool_providers := None |}])).
Proof.
  split; [apply no_operations_without_word |].
  split; [apply operations_heading_found |].
  split; [apply no_tools_without_word |].
  split; [| split; [apply tools_heading_found |]].
  - intros lib content meta body data Hmeta Htype Hno d Hd.
    destruct (tool_document_shape _ _ _ _ _ _ Hmeta Htype Hd)
      as (fields & tools & _ & Hne & _ & Htools).
    rewrite (no_tools_without_word lib body Hno) in Htools.
    injection Htools as <-. now apply Hne.
  - eexists. vm_compute. reflexivity.
Qed.

Lemma section_headings_witness :
  _parse_tools_section Fixture.lib
    (lines ["# Tools"; "## send_email"; "Send an email."]) = Ok []
  /\ Re.re_search Re.DOTALL Pat.tools_section
       (lines ["Intro"; "# Operation"; "## send_email"; "Send an email."]) <> None.
Proof.
  destruct section_headings as (_ & _ & Hnone & _ & Hfound & _).
  split.
  - apply Hnone. vm_compute. reflexivity.
  - apply (Hfound (lines ["Intro"]) (lines ["## send_email"; "Send an email."])
                  (L "Operation")).
    now left.
Defined.

(** * Further properties of the parser, the resolver, the writer and the
    personality parser *)

(** ** Documents without a frontmatter *)

Section NoFrontmatter.
Import Re ReNotions ReFacts.

Lemma in_newline fl st x :
  ignorecase fl = false ->
  In x (rmatch fl Pat.newline st) ->
  m_rest st = nl :: m_rest x /\ m_pos x = S (m_pos st) /\ m_caps x = m_caps st.
Proof.
  intros Hfl H. apply in_chr in H as (c & r & Hr & Hc & ->).
  cbn [cmatch amatch] in Hc. rewrite Hfl in Hc. apply Ascii.eqb_eq in Hc as <-.
  simpl. auto.
Qed.

(** A text that the frontmatter pattern matches starts with three dashes
    and holds a line that starts with three dashes further on. *)
Lemma frontmatter_shape st x :
  In x (rmatch DOTALL Pat.frontmatter st) ->
  exists w1 w2 rest,
    m_rest st = L "---" ++ w1 ++ nl :: w2 ++ nl :: L "---" ++ rest.
Proof.
  unfold Pat.frontmatter. cbn [Seqs]. intros H.
  apply in_seq in H as (s1 & H1 & H). apply in_bol in H1 as [_ ->].
  apply in_seq in H as (s2 & H2 & H). apply in_str in H2 as [R2 _]; [| reflexivity].
  apply in_seq in H as (s3 & H3 & H). apply rmatch_extends in H3 as (w1 & R3 & _).
  apply in_seq in H as (s4 & H4 & H). apply in_newline in H4 as (R4 & _); [| reflexivity].
  apply in_seq in H as (s5 & H5 & H). apply rmatch_extends in H5 as (w2 & R5 & _).
  apply in_seq in H as (s6 & H6 & H). apply in_newline in H6 as (R6 & _); [| reflexivity].
  apply in_seq in H as (s7 & H7 & H). apply in_str in H7 as [R7 _]; [| reflexivity].
  exists w1, w2, (m_rest s7). rewrite R2, R3, R4, R5, R6, R7. reflexivity.
Qed.

Lemma startswith_prefix (p s : str) :
  Py.startswith p s = true <-> exists post, s = p ++ post.
Proof.
  revert s. induction p as [|c p IH]; intros s; simpl.
  - split; [intros _; now exists s | reflexivity].
  - destruct s as [|d s]; [split; [discriminate | intros (post & H); discriminate] |].
    rewrite andb_true_iff, IH. unfold Py.ascii_eqb. rewrite Ascii.eqb_eq. split.
    + intros [-> (post & ->)]. now exists post.
    + intros (post & [= -> ->]). split; [reflexivity | now exists post].
Qed.

Lemma frontmatter_absent content :
  Py.startswith (L "---") content = false
  \/ Py.contains (nl :: L "---") content = false ->
  re_match DOTALL Pat.frontmatter content = None.
Proof.
  intros Hno. unfold re_match, match_at.
  destruct (rmatch DOTALL Pat.frontmatter (MState None 0 content [])) as [|x l] eqn:E;
    [reflexivity |].
  exfalso. assert (Hin : In x (rmatch DOTALL Pat.frontmatter (MState None 0 content [])))
    by (rewrite E; now left).
  apply frontmatter_shape in Hin as (w1 & w2 & rest & Hr). cbn [m_rest] in Hr.
  destruct Hno as [Hno | Hno].
  - assert (Py.startswith (L "---") content = true)
      by (apply startswith_prefix; eauto).
    congruence.
  - assert (Py.contains (nl :: L "---") content = true).
    { rewrite Hr.
      replace (L "---" ++ w1 ++ nl :: w2 ++ nl :: L "---" ++ rest)
        with ((L "---" ++ w1 ++ nl :: w2) ++ (nl :: L "---") ++ rest)
        by (rewrite <- !app_assoc; reflexivity).
      apply contains_intro. }
    congruence.
Qed.

End NoFrontmatter.

(** X1.  A document that does not start with three dashes, or that holds
    no later line starting with three dashes, has no frontmatter:
    [parse_document] raises the validation error of the missing metadata
    section.  The empty document is one of them. *)
Theorem document_needs_frontmatter (lib : Library) (content : str) :
  Py.startswith (L "---") content = false
  \/ Py.contains (Re.nl :: L "---") content = false ->
  parse_document lib content =
  Raise (BusyValidationError
           (L "Document missing metadata section (YAML frontmatter with --- fences)")).
Proof.
  intros H. unfold parse_document, parse_document_body, _extract_metadata.
  now rewrite (frontmatter_absent content H).
Qed.

Lemma document_needs_frontmatter_witness :
  parse_document Fixture.lib [] =
  Raise (BusyValidationError
           (L "Document missing metadata section (YAML frontmatter with --- fences)"))
  /\ parse_document Fixture.lib (lines ["---"; "Name: Notes"; "# Setup"]) =
     Raise (BusyValidationError
              (L "Document missing metadata section (YAML frontmatter with --- fences)")).
Proof.
  split.
  - apply document_needs_frontmatter. left. reflexivity.
  - apply document_needs_frontmatter. right. vm_compute. reflexivity.
Defined.

(** ** The errors of the frontmatter *)

Lemma extract_metadata_passes lib content msg :
  _extract_metadata lib content = Raise (BusyValidationError msg) ->
  parse_document lib content = Raise (BusyValidationError msg).
Proof.
  intros H. unfold parse_document, parse_document_body. now rewrite H.
Qed.

Lemma first_missing_raises data field :
  first_missing data = Some field ->
  (let* _ := missing_field data "Name" in
   let* _ := missing_field data "Type" in
   missing_field data "Description") =
  Raise (BusyValidationError
           (L "Missing required field '" ++ L field ++ L "' in document metadata")).
Proof.
  unfold first_missing, required_fields, missing_field. cbn [find bind].
  destruct (dict_get (L "Name") data); [| intros [= <-]; reflexivity].
  destruct (dict_get (L "Type") data); [| intros [= <-]; reflexivity].
  destruct (dict_get (L "Description") data); [discriminate | intros [= <-]; reflexivity].
Qed.

(** X2.  The errors of the frontmatter.  What [_extract_metadata] raises
    is a validation error, which leaves [parse_document] as it is, or an
    exception that [yaml.safe_load] raised and that is no [YAMLError]:
    that one is not caught, and [parse_document] turns it into a parse
    error.  With a frontmatter between its fences: a text that YAML cannot
    load is reported with YAML's message; a value that is no mapping is
    refused; and of the required fields Name, Type and Description, looked
    for in this order, the first that the mapping lacks is the one the
    error names. *)
Theorem metadata_errors (lib : Library) (content : str) :
  (forall e,
      _extract_metadata lib content = Raise e ->
      (exists msg, e = BusyValidationError msg
                   /\ parse_document lib content = Raise (BusyValidationError msg))
      \/ (exists m msg,
             Re.re_match Re.DOTALL Pat.frontmatter content = Some m
             /\ yaml_safe_load lib (Re.group_str m 1) = YamlRaises msg
             /\ e = ValueError msg
             /\ parse_document lib content =
                Raise (BusyParseError (L "Failed to parse BUSY document: " ++ msg))))
  /\ (forall m,
         Re.re_match Re.DOTALL Pat.frontmatter content = Some m ->
         match yaml_safe_load lib (Re.group_str m 1) with
         | YamlError msg =>
             parse_document lib content =
             Raise (BusyValidationError (L "Invalid YAML in frontmatter: " ++ msg))
         | YamlRaises msg =>
             parse_document lib content =
             Raise (BusyParseError (L "Failed to parse BUSY document: " ++ msg))
         | YamlValue (VDict data) =>
             forall field,
               first_missing data = Some field ->
               parse_document lib content =
               Raise (BusyValidationError
                        (L "Missing required field '" ++ L field
                           ++ L "' in document metadata"))
         | YamlValue _ =>
             parse_document lib content =
             Raise (BusyValidationError (L "Document metadata must be a YAML dictionary"))
         end).
Proof.
  assert (Hraises : forall m msg,
             Re.re_match Re.DOTALL Pat.frontmatter content = Some m ->
             yaml_safe_load lib (Re.group_str m 1) = YamlRaises msg ->
             parse_document lib content =
             Raise (BusyParseError (L "Failed to parse BUSY document: " ++ msg))).
  { intros m msg Hm Ey. unfold parse_document, parse_document_body, _extract_metadata.
    now rewrite Hm, Ey. }
  split.
  - intros e He.
    destruct (extract_metadata_raise lib content e He)
      as [[msg ->] | (m & msg & Hm & Ey & ->)].
    + left. exists msg. split; [reflexivity | now apply extract_metadata_passes].
    + right. exists m, msg. repeat split; auto. now apply (Hraises m).
  - intros m Hm.
    destruct (yaml_safe_load lib (Re.group_str m 1)) as [v | msg | msg] eqn:Ey.
    + destruct v as [| b | z | s | l | data];
        try (apply extract_metadata_passes; unfold _extract_metadata;
             rewrite Hm, Ey; reflexivity).
      intros field Hf. apply extract_metadata_passes. unfold _extract_metadata.
      rewrite Hm, Ey.
      pose proof (first_missing_raises data field Hf) as Hr.
      unfold bind in Hr |- *.
      destruct (missing_field data "Name"); [| now injection Hr as ->].
      destruct (missing_field data "Type"); [| now injection Hr as ->].
      destruct (missing_field data "Description"); [discriminate | now injection Hr as ->].
    + apply extract_metadata_passes. unfold _extract_metadata. now rewrite Hm, Ey.
    + now apply (Hraises m).
Qed.

Lemma metadata_errors_witness :
  _extract_metadata FixtureYaml.lib FixtureYaml.dated_doc
  = Raise (ValueError (L "day is out of range for month"))
  /\ parse_document FixtureYaml.lib FixtureYaml.dated_doc
     = Raise (BusyParseError
                (L "Failed to parse BUSY document: day is out of range for month"))
  /\ parse_document FixtureYaml.lib FixtureYaml.nameless_doc
     = Raise (BusyValidationError (L "Missing required field 'Name' in document metadata")).
Proof.
  assert (He : _extract_metadata FixtureYaml.lib FixtureYaml.dated_doc
               = Raise (ValueError (L "day is out of range for month")))
    by (vm_compute; reflexivity).
  destruct (metadata_errors FixtureYaml.lib FixtureYaml.dated_doc) as [Hall _].
  destruct (metadata_errors FixtureYaml.lib FixtureYaml.nameless_doc) as [_ Hfound].
  split; [exact He |]. split.
  - destruct (Hall _ He) as [(msg & Hmsg & _) | (m & msg & _ & _ & Hmsg & Hp)];
      [discriminate |].
    injection Hmsg as <-. exact Hp.
  - destruct (Re.re_match Re.DOTALL Pat.frontmatter FixtureYaml.nameless_doc)
      as [m |] eqn:Em; [| vm_compute in Em; discriminate].
    specialize (Hfound m eq_refl).
    assert (Ey : yaml_safe_load FixtureYaml.lib (Re.group_str m 1)
                 = YamlValue (VDict [(L "Type", VList [VStr (L "Document")]);
                                     (L "Description", VStr (L "Notes"))])).
    { vm_compute in Em. injection Em as <-. vm_compute. reflexivity. }
    rewrite Ey in Hfound. apply (Hfound "Name"%string). reflexivity.
Defined.

(** ** What every parsed document satisfies *)

Section Validity.

Variable lib : Library.

Lemma validated_inv {A} model errs (a b : A) :
  validated lib model errs a = Ok b -> errs = [] /\ b = a.
Proof. destruct errs; simpl; [intros [= <-]; auto | discriminate]. Qed.

Lemma min_length_1_nil field (s : str) : min_length_1 field s = [] -> s <> [].
Proof. unfold min_length_1. destruct s; simpl; [discriminate | discriminate]. Qed.

Lemma str_field_min field v s errs :
  str_field field true v = (s, errs) -> errs = [] -> s <> [].
Proof.
  unfold str_field. destruct v; intros [= <- <-]; try discriminate.
  apply min_length_1_nil.
Qed.

Lemma app_nil_inv {A} (l1 l2 : list A) : l1 ++ l2 = [] -> l1 = [] /\ l2 = [].
Proof. destruct l1; simpl; [auto | discriminate]. Qed.

Lemma new_Metadata_valid name type description provider m :
  new_Metadata lib name type description provider = Ok m -> valid_Metadata m.
Proof.
  unfold new_Metadata.
  destruct (str_field "name" true name) as [n e1] eqn:E1.
  destruct (str_field "type" false type) as [t e2].
  destruct (str_field "description" true description) as [d e3] eqn:E3.
  destruct (opt_str_field "provider" provider) as [p e4].
  intros H. apply validated_inv in H as [He ->].
  apply app_nil_inv in He as [He1 He]. apply app_nil_inv in He as [_ He].
  apply app_nil_inv in He as [He3 _].
  split; cbn [md_name md_description]; eapply str_field_min; eauto.
Qed.

Lemma extract_metadata_valid content meta body data :
  _extract_metadata lib content = Ok (meta, body, data) -> valid_Metadata meta.
Proof.
  unfold _extract_metadata.
  destruct (Re.re_match _ _ _) as [m |]; [| discriminate].
  destruct (yaml_safe_load lib _) as [[| | | | | d] | msg | msg]; try discriminate.
  unfold bind.
  destruct (missing_field d "Name"); [| discriminate].
  destruct (missing_field d "Type"); [| discriminate].
  destruct (missing_field d "Description"); [| discriminate].
  destruct (new_Metadata _ _ _ _ _) as [md |] eqn:E; [| discriminate].
  intros [= <- _ _]. eapply new_Metadata_valid; eauto.
Qed.

Lemma parse_imports_valid body imps :
  _parse_imports lib body = Ok imps -> Forall valid_Import imps.
Proof.
  unfold _parse_imports. apply mapM_forall. intros m i _. unfold import_of_match, new_Import.
  intros H. apply validated_inv in H as [He ->].
  apply app_nil_inv in He as [H1 H2].
  split; cbn [concept_name path]; eapply min_length_1_nil; eauto.
Qed.

Lemma parse_local_definitions_valid body defs :
  _parse_local_definitions lib body = Ok defs -> Forall valid_LocalDefinition defs.
Proof.
  unfold _parse_local_definitions. destruct (Re.re_search _ _ _); [| intros [= <-]; constructor].
  apply mapM_forall. intros hm d _. unfold new_LocalDefinition.
  intros H. apply validated_inv in H as [He ->].
  unfold valid_LocalDefinition. cbn [ld_name]. eapply min_length_1_nil; eauto.
Qed.

Lemma parse_steps_valid op_content steps :
  parse_steps lib op_content = Ok steps -> Forall valid_Step steps.
Proof.
  unfold parse_steps. destruct (Re.re_search _ _ _); [| intros [= <-]; constructor].
  apply mapM_forall. intros sm s _. unfold parse_step, new_Step.
  intros H. apply validated_inv in H as [He ->].
  apply app_nil_inv in He as [H1 H2].
  split; cbn [step_number instruction].
  - destruct (1 <=? _) eqn:E; [now apply Nat.leb_le in E | discriminate].
  - eapply min_length_1_nil; eauto.
Qed.

Lemma parse_operations_valid body ops :
  _parse_operations lib body = Ok ops -> Forall valid_Operation ops.
Proof.
  unfold _parse_operations. destruct (Re.re_search _ _ _); [| intros [= <-]; constructor].
  apply mapM_forall. intros [[a b] name] o _. unfold parse_operation, bind.
  destruct (parse_steps lib _) as [steps |] eqn:Es; [| discriminate].
  unfold new_Operation. intros H. apply validated_inv in H as [He ->].
  split; cbn [op_name op_steps].
  - eapply min_length_1_nil; eauto.
  - eapply parse_steps_valid; eauto.
Qed.

Lemma parse_tools_section_valid body tools :
  _parse_tools_section lib body = Ok tools -> Forall valid_Tool tools.
Proof.
  unfold _parse_tools_section. destruct (Re.re_search _ _ _); [| intros [= <-]; constructor].
  apply mapM_forall. intros [[a b] name] t _. unfold parse_tool.
  destruct (Py.is_empty _); [discriminate |].
  unfold new_Tool. intros H. apply validated_inv in H as [He ->].
  apply app_nil_inv in He as [H1 H2].
  split; cbn [tool_name tool_description]; eapply min_length_1_nil; eauto.
Qed.

Lemma new_Trigger_valid raw ty sch ev fil op q t :
  new_Trigger lib raw ty sch ev fil op q = Ok t -> valid_Trigger t.
Proof.
  unfold new_Trigger.
  destruct (opt_str_field _ sch) as [s e1], (opt_str_field _ ev) as [e e2],
    (opt_str_dict_field _ fil) as [f e3], (str_field _ _ op) as [o e4] eqn:Eo,
    (bool_field _ q) as [b e5].
  intros H. apply validated_inv in H as [He ->].
  apply app_nil_inv in He as [H0 He]. apply app_nil_inv in He as [_ He].
  apply app_nil_inv in He as [_ He]. apply app_nil_inv in He as [_ He].
  apply app_nil_inv in He as [H4 _].
  split; cbn [raw_text operation].
  - eapply min_length_1_nil; eauto.
  - eapply str_field_min; eauto.
Qed.

Lemma parse_trigger_declaration_valid text t :
  _parse_trigger_declaration lib text = Ok t -> valid_Trigger t.
Proof.
  unfold _parse_trigger_declaration, bind.
  destruct (Re.re_match _ Pat.alarm _).
  - destruct (_parse_time_spec _); [| discriminate]. apply new_Trigger_valid.
  - destruct (Re.re_match _ Pat.event _); [| discriminate]. apply new_Trigger_valid.
Qed.

Lemma Forall_concat {A} (P : A -> Prop) (ls : list (list A)) :
  Forall (Forall P) ls -> Forall P (concat ls).
Proof.
  induction 1 as [|l ls Hl _ IH]; simpl; [constructor |].
  apply Forall_app. split; assumption.
Qed.

Lemma parse_triggers_valid body ts :
  _parse_triggers lib body = Ok ts -> Forall valid_Trigger ts.
Proof.
  unfold _parse_triggers, bind. destruct (Re.re_search _ _ _); [| intros [= <-]; constructor].
  destruct (mapM _ _) as [per_line |] eqn:E; [| discriminate].
  intros [= <-]. apply Forall_concat. revert E. apply mapM_forall.
  intros line l _. unfold parse_trigger_line.
  destruct (_ || _); [intros [= <-]; constructor |].
  destruct (Py.is_empty _); [intros [= <-]; constructor |].
  destruct (_parse_trigger_declaration lib _) as [t |] eqn:Et; [| discriminate].
  intros [= <-]. constructor; [| constructor].
  eapply parse_trigger_declaration_valid; eauto.
Qed.

Lemma parse_frontmatter_triggers_valid data meta ts :
  _parse_frontmatter_triggers lib data meta = Ok ts -> Forall valid_Trigger ts.
Proof.
  unfold _parse_frontmatter_triggers.
  destruct (negb _); [intros [= <-]; constructor |].
  destruct (get_or_none "Triggers" data); try discriminate.
  apply mapM_forall. intros v t _. unfold frontmatter_trigger.
  destruct v; try discriminate.
  destruct (negb _); [discriminate |].
  destruct (_ && _); [discriminate |].
  apply new_Trigger_valid.
Qed.

Lemma parse_document_ok content d :
  parse_document lib content = Ok d -> parse_document_body lib content = Ok d.
Proof.
  unfold parse_document. destruct (parse_document_body lib content) as [d' | []];
    try discriminate. intros [= <-]. reflexivity.
Qed.

Lemma parse_document_valid content d :
  parse_document lib content = Ok d -> valid_Document d.
Proof.
  intros H. apply parse_document_ok in H. revert H.
  unfold parse_document_body, bind.
  destruct (_extract_metadata lib content) as [[[meta body] data] |] eqn:E0; [| discriminate].
  destruct (_parse_imports lib body) as [imps |] eqn:E1; [| discriminate].
  destruct (_parse_local_definitions lib body) as [defs |] eqn:E2; [| discriminate].
  destruct (_parse_operations lib body) as [ops |] eqn:E3; [| discriminate].
  apply extract_metadata_valid in E0. apply parse_imports_valid in E1.
  apply parse_local_definitions_valid in E2. apply parse_operations_valid in E3.
  destruct (Py.str_eqb _ _).
  - destruct (_parse_tools_section lib body) as [[|t ts] |] eqn:E4; try discriminate.
    apply parse_tools_section_valid in E4.
    intros [= <-]. unfold valid_Document. cbn [doc_fields doc_tools metadata imports
      definitions operations triggers].
    split; [exact E0 |]. split; [exact E1 |]. split; [exact E2 |]. split; [exact E3 |].
    split; [constructor | exact E4].
  - destruct (_parse_frontmatter_triggers lib data meta) as [fts |] eqn:E4; [| discriminate].
    destruct (_parse_triggers lib body) as [mts |] eqn:E5; [| discriminate].
    apply parse_frontmatter_triggers_valid in E4. apply parse_triggers_valid in E5.
    intros [= <-]. unfold valid_Document. cbn [doc_fields doc_tools metadata imports
      definitions operations triggers].
    split; [exact E0 |]. split; [exact E1 |]. split; [exact E2 |]. split; [exact E3 |].
    split; [apply Forall_app; split; assumption | constructor].
Qed.

End Validity.

(** X3.  Every document that [parse_document] returns satisfies the
    constraints that [models.py] puts on the fields: the name and the
    description of the metadata, the concept name and the path of every
    import, the name of every definition, operation and tool, the
    description of every tool, the instruction of every step and the text
    and the operation of every trigger are not empty, and every step is
    numbered from 1 up. *)
Theorem parsed_document_valid (lib : Library) (content : str) (d : Document) :
  parse_document lib content = Ok d -> valid_Document d.
Proof. apply parse_document_valid. Qed.

Lemma parsed_document_valid_witness :
  exists d, parse_document Fixture.lib Fixture.tool_doc_operations_heading = Ok d
            /\ valid_Document d.
Proof.
  destruct (parse_document Fixture.lib Fixture.tool_doc_operations_heading) as [d |] eqn:E;
    [| vm_compute in E; discriminate].
  exists d. split; [reflexivity |].
  exact (parsed_document_valid Fixture.lib Fixture.tool_doc_operations_heading d E).
Defined.

(** ** More about the matcher: the order of the matches *)

Module ReCalc.
Import Re ReNotions ReFacts ReMore.

Lemma star_chr_stop fl g cs st :
  match m_rest st with [] => True | c :: _ => cmatch fl cs c = false end ->
  rmatch fl (Star g (Chr cs)) st = [st].
Proof.
  intros H. rewrite rmatch_star. destruct (m_rest st) as [|c r] eqn:E; cbn [length star_loop].
  - reflexivity.
  - cbn [rmatch]. rewrite E, H. cbn [List.filter flat_map app]. destruct g; reflexivity.
Qed.

Lemma star_chr_step fl g cs st c r :
  m_rest st = c :: r -> cmatch fl cs c = true ->
  rmatch fl (Star g (Chr cs)) st =
  if g then rmatch fl (Star g (Chr cs)) (advance c r st) ++ [st]
  else st :: rmatch fl (Star g (Chr cs)) (advance c r st).
Proof.
  intros E Hc. rewrite !rmatch_star. rewrite E. cbn [length star_loop rmatch].
  rewrite E, Hc. cbn [List.filter]. unfold progress. cbn [advance m_pos m_rest].
  replace (m_pos st <? S (m_pos st)) with true by (symmetry; apply Nat.ltb_lt; lia).
  cbn [flat_map]. rewrite app_nil_r. reflexivity.
Qed.

Lemma head_app_some {A} (l1 l2 : list A) x : head l1 = Some x -> head (l1 ++ l2) = Some x.
Proof. destruct l1; simpl; [discriminate | auto]. Qed.

(** A greedy star of a one-character matcher first goes over the whole
    run [w] of characters of the class. *)
Lemma first_star_run fl cs w : forall st tail,
    m_rest st = w ++ tail ->
    Forall (fun c => cmatch fl cs c = true) w ->
    match tail with [] => True | c :: _ => cmatch fl cs c = false end ->
    first_match fl (Star true (Chr cs)) st = Some (gone_over st w tail).
Proof.
  induction w as [|c w IH]; intros st tail Hr Hall Hstop.
  - unfold first_match. rewrite star_chr_stop by (rewrite Hr; exact Hstop).
    simpl. f_equal. destruct st as [p n r caps]. unfold gone_over. simpl in *.
    subst. f_equal. lia.
  - inversion Hall as [|c' w' Hc Hw]; subst.
    unfold first_match. rewrite (star_chr_step fl true cs st c (w ++ tail)) by assumption.
    apply head_app_some.
    specialize (IH (advance c (w ++ tail) st) tail eq_refl Hw Hstop).
    unfold first_match in IH. rewrite IH. f_equal.
    unfold gone_over, advance, prev_after. simpl. f_equal. lia.
Qed.

Lemma first_plus_run fl cs c w st tail :
  m_rest st = (c :: w) ++ tail ->
  Forall (fun c => cmatch fl cs c = true) (c :: w) ->
  match tail with [] => True | c :: _ => cmatch fl cs c = false end ->
  first_match fl (Plus true (Chr cs)) st = Some (gone_over st (c :: w) tail).
Proof.
  intros Hr Hall Hstop. inversion Hall as [|c' w' Hc Hw]; subst.
  unfold Plus. rewrite first_chr_seq, Hr. cbn [app]. rewrite Hc.
  rewrite (first_star_run fl cs w (advance c (w ++ tail) st) tail eq_refl Hw Hstop).
  f_equal. unfold gone_over, advance, prev_after. simpl. f_equal. lia.
Qed.

Lemma set_cap_gone_over n st w tail :
  m_rest st = w ++ tail ->
  set_cap n st (gone_over st w tail) =
  MState (prev_after (m_prev st) w) (m_pos st + length w) tail
         ((n, (m_pos st, w)) :: m_caps st).
Proof.
  intros Hr. unfold set_cap, gone_over. cbn [m_prev m_pos m_rest m_caps].
  rewrite Hr. replace (m_pos st + length w - m_pos st) with (length w) by lia.
  now rewrite take_app_length.
Qed.

(** A group around a greedy plus of a one-character matcher first holds
    the whole run. *)
Lemma first_group_plus_run fl n cs c w st tail :
  m_rest st = (c :: w) ++ tail ->
  Forall (fun c => cmatch fl cs c = true) (c :: w) ->
  match tail with [] => True | c :: _ => cmatch fl cs c = false end ->
  first_match fl (Group n (Plus true (Chr cs))) st =
  Some (MState (prev_after (m_prev st) (c :: w)) (m_pos st + length (c :: w)) tail
               ((n, (m_pos st, c :: w)) :: m_caps st)).
Proof.
  intros Hr Hall Hstop. rewrite first_group, (first_plus_run fl cs c w st tail) by assumption.
  cbn [option_map]. f_equal. now apply set_cap_gone_over.
Qed.

(** A literal text, read with the case kept, matches in one way at most. *)
Lemma rmatch_chars fl (l : str) : forall st,
    ignorecase fl = false ->
    rmatch fl (fold_right (fun c r => Seq (Chr (One (AChar c))) r) Eps l) st =
    if Py.startswith l (m_rest st)
    then [gone_over st l (drop (length l) (m_rest st))]
    else [].
Proof.
  induction l as [|c l IH]; intros st Hfl; cbn [fold_right].
  - cbn [rmatch Py.startswith length drop]. f_equal.
    destruct st as [p n r caps]. unfold gone_over. simpl. f_equal. lia.
  - rewrite rmatch_seq. cbn [rmatch]. destruct (m_rest st) as [|d r] eqn:Er;
      [reflexivity |].
    cbn [cmatch amatch Py.startswith]. rewrite Hfl.
    destruct (Py.ascii_eqb c d) eqn:Ec; cbn [andb flat_map]; [| reflexivity].
    rewrite app_nil_r, IH by exact Hfl. cbn [advance m_rest].
    destruct (Py.startswith l r); [| reflexivity].
    apply Ascii.eqb_eq in Ec as <-.
    unfold gone_over, advance, prev_after. simpl. f_equal. f_equal. lia.
Qed.

Lemma rmatch_str fl (w : string) st :
  ignorecase fl = false ->
  rmatch fl (Str w) st =
  if Py.startswith (L w) (m_rest st)
  then [gone_over st (L w) (drop (length (L w)) (m_rest st))]
  else [].
Proof. intros Hfl. now apply (rmatch_chars fl). Qed.

Lemma rmatch_ch fl (c : ascii) st :
  ignorecase fl = false ->
  rmatch fl (Pat.ch c) st =
  match m_rest st with
  | d :: r => if Py.ascii_eqb c d then [advance d r st] else []
  | [] => []
  end.
Proof.
  intros Hfl. unfold Pat.ch. cbn [rmatch cmatch amatch]. now rewrite Hfl.
Qed.

(** When the first part of a sequence matches in one way, the sequence
    matches as its second part does from there. *)
Lemma rmatch_seq_one fl a b st x :
  rmatch fl a st = [x] -> rmatch fl (Seq a b) st = rmatch fl b x.
Proof. intros H. rewrite rmatch_seq, H. cbn [flat_map]. apply app_nil_r. Qed.

Lemma rmatch_seq_none fl a b st :
  rmatch fl a st = [] -> rmatch fl (Seq a b) st = [].
Proof. intros H. rewrite rmatch_seq, H. reflexivity. Qed.

Lemma flat_map_map {A B C} (f : A -> B) (g : B -> list C) (l : list A) :
  flat_map g (map f l) = flat_map (fun x => g (f x)) l.
Proof. induction l as [|a l IH]; simpl; [reflexivity | now rewrite IH]. Qed.

Lemma star_lazy_head fl r st :
  exists more, rmatch fl (Star false r) st = st :: more.
Proof.
  rewrite rmatch_star. destruct (length (m_rest st)); cbn [star_loop]; eauto.
Qed.

(** A lazy star of a one-character matcher, in a group and followed by
    [K]: when [K] fails at every position within the run [w] and matches
    after it, the group first holds [w]. *)
Lemma lazy_run_first fl n cs K st0 : forall w st tail y,
    m_rest st = w ++ tail ->
    Forall (fun c => cmatch fl cs c = true) w ->
    (forall x j, j < length w -> m_rest x = drop j w ++ tail -> rmatch fl K x = []) ->
    head (rmatch fl K (set_cap n st0 (gone_over st w tail))) = Some y ->
    head (flat_map (fun x => rmatch fl K (set_cap n st0 x))
                   (rmatch fl (Star false (Chr cs)) st)) = Some y.
Proof.
  induction w as [|c w IH]; intros st tail y Hr Hall Hfail Hy.
  - destruct (star_lazy_head fl (Chr cs) st) as (more & ->). cbn [flat_map].
    apply head_app_some.
    replace (gone_over st [] tail) with st in Hy; [exact Hy |].
    destruct st as [p k r caps]. unfold gone_over. simpl in *. subst. f_equal. lia.
  - inversion Hall as [|c' w' Hc Hw]; subst.
    rewrite (star_chr_step fl false cs st c (w ++ tail)) by assumption.
    cbn [flat_map].
    rewrite (Hfail (set_cap n st0 st) 0); [| simpl; lia | exact Hr].
    cbn [app]. apply (IH (advance c (w ++ tail) st) tail y eq_refl Hw).
    + intros x j Hj Hx. apply (Hfail x (S j)); [simpl; lia | exact Hx].
    + replace (gone_over (advance c (w ++ tail) st) w tail)
        with (gone_over st (c :: w) tail); [exact Hy |].
      unfold gone_over, advance, prev_after. simpl. f_equal. lia.
Qed.

Lemma first_lazy_group fl n cs K st w tail y :
  m_rest st = w ++ tail ->
  Forall (fun c => cmatch fl cs c = true) w ->
  (forall x j, j < length w -> m_rest x = drop j w ++ tail -> rmatch fl K x = []) ->
  first_match fl K (MState (prev_after (m_prev st) w) (m_pos st + length w) tail
                           ((n, (m_pos st, w)) :: m_caps st)) = Some y ->
  first_match fl (Seq (Group n (Star false (Chr cs))) K) st = Some y.
Proof.
  intros Hr Hall Hfail Hy. unfold first_match. rewrite rmatch_seq. cbn [rmatch].
  change ((fix loop (n0 : nat) (st1 : mstate) {struct n0} : list mstate :=
             match n0 with
             | 0 => [st1]
             | S n' =>
                 let more :=
                   flat_map (loop n')
                            (List.filter (progress st1) (rmatch fl (Chr cs) st1)) in
                 st1 :: more
             end) (length (m_rest st)) st)
    with (rmatch fl (Star false (Chr cs)) st).
  rewrite flat_map_map. eapply lazy_run_first; eauto.
  rewrite set_cap_gone_over by exact Hr. exact Hy.
Qed.

(** *** Searching *)

Lemma search_from_here fl r prev pos rest m :
  match_at fl r (MState prev pos rest []) = Some m ->
  search_from fl r prev pos rest = Some m.
Proof. intros H. destruct rest; simpl; now rewrite H. Qed.

Lemma search_from_next fl r prev pos c rest :
  match_at fl r (MState prev pos (c :: rest) []) = None ->
  search_from fl r prev pos (c :: rest) = search_from fl r (Some c) (S pos) rest.
Proof. intros H. simpl. now rewrite H. Qed.

Lemma search_from_end fl r prev pos :
  search_from fl r prev pos [] = match_at fl r (MState prev pos [] []).
Proof. simpl. destruct (match_at _ _ _); reflexivity. Qed.

(** A match that the search finds starts at or after the position where
    the search starts, and what is left to read after it is shorter than
    what the search had to read by the text gone over. *)
Lemma search_from_span fl r rest : forall prev pos m,
    search_from fl r prev pos rest = Some m ->
    exists k w,
      mt_start m = pos + k /\ m_pos (mt_final m) = pos + k + length w /\
      rest = take k rest ++ w ++ m_rest (mt_final m) /\ k <= length rest.
Proof.
  induction rest as [|c rest IH]; intros prev pos m H.
  - rewrite search_from_end in H. unfold match_at in H.
    destruct (rmatch fl r _) as [|x l] eqn:E; [discriminate |]. injection H as <-.
    assert (Hin : In x (rmatch fl r (MState prev pos [] []))) by (rewrite E; now left).
    apply rmatch_extends in Hin as (w & Hw & Hp). simpl in *.
    exists 0, w. repeat split; simpl; auto; lia.
  - simpl in H. unfold match_at in H.
    destruct (rmatch fl r (MState prev pos (c :: rest) [])) as [|x l] eqn:E.
    + apply IH in H as (k & w & H1 & H2 & H3 & H4).
      exists (S k), w. repeat split; simpl; try lia. now rewrite <- H3.
    + injection H as <-.
      assert (Hin : In x (rmatch fl r (MState prev pos (c :: rest) [])))
        by (rewrite E; now left).
      apply rmatch_extends in Hin as (w & Hw & Hp). simpl in *.
      exists 0, w. repeat split; simpl; auto; lia.
Qed.

Lemma search_from_shorter fl r rest prev pos m :
  search_from fl r prev pos rest = Some m ->
  pos <= mt_start m /\ mt_start m <= m_pos (mt_final m)
  /\ length (m_rest (mt_final m)) + (m_pos (mt_final m) - pos) = length rest.
Proof.
  intros H. apply search_from_span in H as (k & w & H1 & H2 & H3 & H4).
  apply (f_equal length) in H3. rewrite !length_app, length_take in H3. lia.
Qed.

(** [finditer_from] does not depend on its fuel once there is enough of
    it. *)
Lemma finditer_fuel fl r : forall n fuel1 fuel2 prev pos rest,
    length rest <= n -> length rest < fuel1 -> length rest < fuel2 ->
    finditer_from fuel1 fl r prev pos rest = finditer_from fuel2 fl r prev pos rest.
Proof.
  induction n as [|n IH]; intros [|fuel1] [|fuel2] prev pos rest Hn H1 H2; try lia;
    cbn [finditer_from];
    destruct (search_from fl r prev pos rest) as [m |] eqn:E; try reflexivity;
    apply search_from_shorter in E as (Ha & Hb & Hc);
    destruct (mt_start m <? m_pos (mt_final m)) eqn:Ep.
  - apply Nat.ltb_lt in Ep. lia.
  - destruct (m_rest (mt_final m)) as [|c rest'] eqn:Er; [reflexivity |]. simpl in Hc. lia.
  - apply Nat.ltb_lt in Ep. f_equal. apply IH; lia.
  - destruct (m_rest (mt_final m)) as [|c rest'] eqn:Er; [reflexivity |]. simpl in Hc.
    f_equal. apply IH; lia.
Qed.

Lemma finditer_is_at fl r s : finditer fl r s = finditer_at fl r None 0 s.
Proof. reflexivity. Qed.

(** The matches from a position on: the first match that the search finds
    and the matches from its end on, one character further after an empty
    match. *)
Lemma finditer_at_unfold fl r prev pos rest :
  finditer_at fl r prev pos rest =
  match search_from fl r prev pos rest with
  | None => []
  | Some m =>
      let fin := mt_final m in
      if mt_start m <? m_pos fin
      then m :: finditer_at fl r (m_prev fin) (m_pos fin) (m_rest fin)
      else match m_rest fin with
           | c :: rest' => m :: finditer_at fl r (Some c) (S (m_pos fin)) rest'
           | [] => [m]
           end
  end.
Proof.
  unfold finditer_at at 1. cbn [finditer_from].
  destruct (search_from fl r prev pos rest) as [m |] eqn:E; [| reflexivity].
  apply search_from_shorter in E as (Ha & Hb & Hc). cbv zeta.
  destruct (mt_start m <? m_pos (mt_final m)) eqn:Ep.
  - apply Nat.ltb_lt in Ep. f_equal. unfold finditer_at.
    apply (finditer_fuel fl r (length rest)); lia.
  - destruct (m_rest (mt_final m)) as [|c rest'] eqn:Er; [reflexivity |]. simpl in Hc.
    f_equal. unfold finditer_at. apply (finditer_fuel fl r (length rest)); simpl; lia.
Qed.

End ReCalc.

(** ** Heading names in square brackets *)

Section Unbracket.
Import Re ReNotions ReFacts ReMore ReCalc.

(** A greedy star of a one-character matcher followed by [K], when [K]
    fails wherever the star has gone into the run [v]: the star gives
    back the whole of [v]. *)
Lemma greedy_gives_back fl cs (K' : mstate -> list mstate) tail : forall v st,
    m_rest st = v ++ tail ->
    Forall (fun c => cmatch fl cs c = true) v ->
    match tail with [] => True | c :: _ => cmatch fl cs c = false end ->
    (forall x j, 0 < j <= length v -> m_rest x = drop j v ++ tail -> K' x = []) ->
    flat_map K' (rmatch fl (Star true (Chr cs)) st) = K' st.
Proof.
  induction v as [|c v IH]; intros st Hr Hall Hstop Hfail.
  - rewrite star_chr_stop by (rewrite Hr; exact Hstop). cbn [flat_map]. apply app_nil_r.
  - inversion Hall as [|c' v' Hc Hv]; subst.
    rewrite (star_chr_step fl true cs st c (v ++ tail)) by assumption.
    rewrite flat_map_app. cbn [flat_map]. rewrite app_nil_r.
    rewrite (IH (advance c (v ++ tail) st) eq_refl Hv Hstop).
    + rewrite (Hfail (advance c (v ++ tail) st) 1); [reflexivity | simpl; lia | reflexivity].
    + intros x j Hj Hx. apply (Hfail x (S j)); [simpl; lia | exact Hx].
Qed.

Lemma greedy_run_first fl cs (K' : mstate -> list mstate) v tail y : forall w st,
    m_rest st = w ++ v ++ tail ->
    Forall (fun c => cmatch fl cs c = true) (w ++ v) ->
    match tail with [] => True | c :: _ => cmatch fl cs c = false end ->
    (forall x j, 0 < j <= length v -> m_rest x = drop j v ++ tail -> K' x = []) ->
    head (K' (gone_over st w (v ++ tail))) = Some y ->
    head (flat_map K' (rmatch fl (Star true (Chr cs)) st)) = Some y.
Proof.
  induction w as [|c w IH]; intros st Hr Hall Hstop Hfail Hy.
  - rewrite (greedy_gives_back fl cs K' tail v st Hr Hall Hstop Hfail).
    replace (gone_over st [] (v ++ tail)) with st in Hy; [exact Hy |].
    destruct st as [p k r caps]. unfold gone_over. simpl in *. subst. f_equal. lia.
  - inversion Hall as [|c' w' Hc Hw]; subst.
    rewrite (star_chr_step fl true cs st c (w ++ v ++ tail)) by assumption.
    rewrite flat_map_app. apply head_app_some.
    apply (IH (advance c (w ++ v ++ tail) st) eq_refl Hw Hstop Hfail).
    replace (gone_over (advance c (w ++ v ++ tail) st) w (v ++ tail))
      with (gone_over st (c :: w) (v ++ tail)); [exact Hy |].
    unfold gone_over, advance, prev_after. simpl. f_equal. lia.
Qed.

(** A group around a greedy plus of a one-character matcher, followed by
    [K] that fails wherever the plus has gone into [v] and matches before
    [v]: the group first holds the run up to [v]. *)
Lemma first_greedy_group fl n cs K c w v tail st y :
  m_rest st = (c :: w) ++ v ++ tail ->
  Forall (fun c => cmatch fl cs c = true) ((c :: w) ++ v) ->
  match tail with [] => True | c :: _ => cmatch fl cs c = false end ->
  (forall x j, 0 < j <= length v -> m_rest x = drop j v ++ tail -> rmatch fl K x = []) ->
  first_match fl K (MState (prev_after (m_prev st) (c :: w)) (m_pos st + length (c :: w))
                           (v ++ tail) ((n, (m_pos st, c :: w)) :: m_caps st)) = Some y ->
  first_match fl (Seq (Group n (Plus true (Chr cs))) K) st = Some y.
Proof.
  intros Hr Hall Hstop Hfail Hy. inversion Hall as [|c' w' Hc Hw]; subst.
  unfold first_match. rewrite rmatch_seq.
  change (rmatch fl (Group n (Plus true (Chr cs))) st)
    with (map (set_cap n st) (rmatch fl (Plus true (Chr cs)) st)).
  unfold Plus. rewrite (rmatch_seq_one fl (Chr cs) _ st (advance c (w ++ v ++ tail) st)).
  2:{ cbn [rmatch]. rewrite Hr. cbn [app]. now rewrite Hc. }
  rewrite flat_map_map.
  apply (greedy_run_first fl cs (fun x => rmatch fl K (set_cap n st x)) v tail y w
                          (advance c (w ++ v ++ tail) st) eq_refl Hw Hstop).
  - intros x j Hj Hx. apply (Hfail _ j Hj). exact Hx.
  - replace (set_cap n st (gone_over (advance c (w ++ v ++ tail) st) w (v ++ tail)))
      with (MState (prev_after (m_prev st) (c :: w)) (m_pos st + length (c :: w))
                   (v ++ tail) ((n, (m_pos st, c :: w)) :: m_caps st)); [exact Hy |].
    unfold set_cap, gone_over, advance, prev_after. cbn [m_prev m_pos m_rest m_caps].
    rewrite Hr. cbn [fold_left length].
    replace (S (m_pos st) + length w - m_pos st) with (S (length w)) by lia.
    replace (S (m_pos st) + length w) with (m_pos st + S (length w)) by lia.
    cbn [app take]. now rewrite take_app_length.
Qed.

End Unbracket.

Section UnbracketRule.
Import Re ReNotions ReFacts ReMore ReCalc.

Lemma not_nl_dot (w : str) :
  ~ In nl w -> Forall (fun c => cmatch no_flags (One AAny) c = true) w.
Proof.
  intros H. apply Forall_forall. intros c Hc. cbn [cmatch amatch dotall no_flags orb].
  apply negb_true_iff. unfold Py.ascii_eqb. apply Ascii.eqb_neq. intros ->.
  apply H. now apply list_elem_of_In.
Qed.

(** After the start of the subject the bracket pattern matches nowhere. *)
Lemma bracketed_not_later rest : forall c pos,
    search_from no_flags Pat.bracketed (Some c) pos rest = None.
Proof.
  assert (Hno : forall c pos rest,
             match_at no_flags Pat.bracketed (MState (Some c) pos rest []) = None).
  { intros c pos rest'. unfold match_at, Pat.bracketed. cbn [Seqs].
    now rewrite rmatch_seq_none. }
  induction rest as [|d rest IH]; intros c pos.
  - rewrite search_from_end. apply Hno.
  - rewrite search_from_next by apply Hno. apply IH.
Qed.

Lemma unbracket_plain name :
  Py.startswith (L "[") name = false -> unbracket name = name.
Proof.
  intros H. unfold unbracket, re_sub. rewrite finditer_is_at, finditer_at_unfold.
  assert (Hs : search_from no_flags Pat.bracketed None 0 name = None).
  { assert (Hno : match_at no_flags Pat.bracketed (MState None 0 name []) = None).
    { unfold match_at, Pat.bracketed. cbn [Seqs].
      rewrite (rmatch_seq_one _ Bol _ _ (MState None 0 name [])) by reflexivity.
      rewrite rmatch_seq_none; [reflexivity |].
      rewrite rmatch_ch by reflexivity. cbn [m_rest].
      destruct name as [|c name]; [reflexivity |].
      cbn [Py.startswith L list_ascii_of_string] in H.
      rewrite andb_true_r in H. now rewrite H. }
    destruct name as [|c name].
    - rewrite search_from_end. exact Hno.
    - rewrite search_from_next by exact Hno. apply bracketed_not_later. }
  rewrite Hs. reflexivity.
Qed.

Lemma unbracket_wrapped w :
  w <> [] -> ~ In nl w -> unbracket (L "[" ++ w ++ L "]") = w.
Proof.
  intros Hne Hnl. destruct w as [|c w]; [congruence |].
  unfold unbracket, re_sub. rewrite finditer_is_at, finditer_at_unfold.
  set (name := L "[" ++ (c :: w) ++ L "]").
  set (fin := MState (Some "]"%char) (S (S (length (c :: w)))) []
                     [(1, (1, c :: w))]).
  assert (Hm : match_at no_flags Pat.bracketed (MState None 0 name []) =
               Some (ReMatch 0 fin)).
  { rewrite match_at_first. cbn [m_pos]. unfold Pat.bracketed. cbn [Seqs].
    unfold first_match.
    rewrite (rmatch_seq_one _ Bol _ _ (MState None 0 name [])) by reflexivity.
    rewrite (rmatch_seq_one _ (Pat.ch "[") _ _
               (advance "["%char ((c :: w) ++ L "]") (MState None 0 name [])))
      by reflexivity.
    change (head (rmatch no_flags
                    (Seq (Group 1 (Plus true Pat.dot)) (Seq (Pat.ch "]") Eol))
                    (advance "["%char ((c :: w) ++ L "]") (MState None 0 name []))))
      with (first_match no_flags
              (Seq (Group 1 (Plus true (Chr (One AAny)))) (Seq (Pat.ch "]") Eol))
              (advance "["%char ((c :: w) ++ L "]") (MState None 0 name []))).
    rewrite (first_greedy_group no_flags 1 (One AAny) (Seq (Pat.ch "]") Eol)
               c w (L "]") [] _ fin); [reflexivity | | | exact I | |].
    - cbn [advance m_rest]. now rewrite app_nil_r.
    - apply not_nl_dot. intros Hin. apply in_app_iff in Hin as [Hin | Hin];
        [exact (Hnl Hin) |]. destruct Hin as [Hin | []]. discriminate.
    - intros x j Hj Hx. cbn [L list_ascii_of_string length] in Hj.
      assert (j = 1) as -> by lia. cbn in Hx.
      rewrite rmatch_seq_none; [reflexivity |].
      rewrite rmatch_ch by reflexivity. now rewrite Hx.
    - cbn [advance m_prev m_pos m_caps app]. unfold first_match.
      rewrite (rmatch_seq_one _ (Pat.ch "]") _ _ fin).
      + reflexivity.
      + rewrite rmatch_ch by reflexivity. cbn [m_rest L list_ascii_of_string app].
        cbn [Py.ascii_eqb]. unfold advance, fin, prev_after. cbn.
        repeat f_equal. }
  rewrite (search_from_here _ _ _ _ _ _ Hm). cbv zeta. cbn [mt_start mt_final].
  replace (0 <? m_pos fin) with true by reflexivity.
  rewrite finditer_at_unfold. cbn [m_prev m_pos m_rest fin].
  rewrite bracketed_not_later.
  cbn [sub_matches Py.slice]. unfold group_str, group, mt_end. cbn.
  rewrite drop_ge; [now rewrite app_nil_r |].
  rewrite length_app. simpl. lia.
Qed.

End UnbracketRule.

Section UnbracketOther.
Import Re ReNotions ReFacts ReMore ReCalc.

(** What the bracket pattern matches from the start of a text without a
    newline is the whole text, an opening bracket, a text that is not
    empty and a closing bracket. *)
Lemma bracketed_shape name x :
  ~ In nl name ->
  In x (rmatch no_flags Pat.bracketed (MState None 0 name [])) ->
  exists w, w <> [] /\ name = L "[" ++ w ++ L "]".
Proof.
  intros Hnl. unfold Pat.bracketed. cbn [Seqs]. intros H.
  apply in_seq in H as (s1 & H1 & H). apply in_bol in H1 as [_ ->].
  apply in_seq in H as (s2 & H2 & H).
  apply in_chr in H2 as (c & r & Hr & Hc & ->). cbn [m_rest] in Hr.
  cbn [cmatch amatch ignorecase no_flags] in Hc. apply Ascii.eqb_eq in Hc as <-.
  apply in_seq in H as (s3 & H3 & H).
  apply in_group in H3 as (mid & H3 & ->).
  apply in_plus_chr in H3 as (w & Hne & Hw & _). cbn [advance m_rest] in Hw.
  apply in_seq in H as (s4 & H4 & H).
  apply in_chr in H4 as (c & r4 & Hr4 & Hc & ->). cbn [set_cap m_rest] in Hr4.
  cbn [cmatch amatch ignorecase no_flags] in Hc. apply Ascii.eqb_eq in Hc as <-.
  apply in_eol in H as [He _]. unfold at_eol in He. cbn [advance m_rest] in He.
  exists w. split; [exact Hne |]. rewrite Hr, Hw, Hr4.
  destruct r4 as [|d r4]; [reflexivity |]. exfalso.
  apply andb_true_iff in He as [He _]. apply Ascii.eqb_eq in He as ->.
  apply Hnl. rewrite Hr, Hw, Hr4. right. apply in_app_iff. right. right. now left.
Qed.

Lemma unbracket_other name :
  ~ In nl name ->
  (forall w, w <> [] -> name <> L "[" ++ w ++ L "]") ->
  unbracket name = name.
Proof.
  intros Hnl Hno. unfold unbracket, re_sub. rewrite finditer_is_at, finditer_at_unfold.
  assert (Hm : match_at no_flags Pat.bracketed (MState None 0 name []) = None).
  { unfold match_at.
    destruct (rmatch no_flags Pat.bracketed (MState None 0 name [])) as [|x l] eqn:E;
      [reflexivity |].
    exfalso. destruct (bracketed_shape name x Hnl) as (w & Hne & Hw);
      [rewrite E; now left |].
    exact (Hno w Hne Hw). }
  assert (Hs : search_from no_flags Pat.bracketed None 0 name = None).
  { destruct name as [|c name].
    - rewrite search_from_end. exact Hm.
    - rewrite search_from_next by exact Hm. apply bracketed_not_later. }
  rewrite Hs. reflexivity.
Qed.

End UnbracketOther.

(** X4.  The name of a heading that is written in square brackets is
    stored without them, any other name as it is: for a name on one line,
    [re.sub(r"^\[(.+)\]$", r"\1", name)] is the text between the brackets
    when the name is an opening bracket, a text that is not empty and a
    closing bracket, and the name itself otherwise (so [[]] stays as it
    is, and so does a name that only starts or only ends with a
    bracket). *)
Theorem heading_name_unwrapped :
  (forall w, w <> [] -> ~ In Re.nl w -> unbracket (L "[" ++ w ++ L "]") = w)
  /\ (forall name,
         ~ In Re.nl name ->
         (forall w, w <> [] -> name <> L "[" ++ w ++ L "]") ->
         unbracket name = name).
Proof. split; [apply unbracket_wrapped | apply unbracket_other]. Qed.

Lemma heading_name_unwrapped_witness :
  unbracket (L "[Send Email]") = L "Send Email"
  /\ unbracket (L "[]") = L "[]"
  /\ unbracket (L "[Send] Email") = L "[Send] Email".
Proof.
  destruct heading_name_unwrapped as [Hw Ho]. split; [| split].
  - apply (Hw (L "Send Email")); [discriminate |].
    vm_compute. intuition discriminate.
  - apply (Ho (L "[]")); [vm_compute; intuition discriminate |].
    intros [|c w] Hne; [congruence |]. destruct w; discriminate.
  - apply (Ho (L "[Send] Email")); [vm_compute; intuition discriminate |].
    intros w _ E. apply (f_equal (@List.rev ascii)) in E.
    rewrite !rev_app_distr in E. vm_compute in E. discriminate.
Defined.

(** ** The order of the matches, of the fence regions and of the items *)

Section Ordered.
Import Re ReNotions ReFacts ReMore ReCalc.

Lemma finditer_at_ordered fl r : forall n rest prev pos,
    length rest <= n ->
    matches_ordered pos (pos + length rest) (finditer_at fl r prev pos rest).
Proof.
  induction n as [|n IH]; intros rest prev pos Hn; rewrite finditer_at_unfold;
    destruct (search_from fl r prev pos rest) as [m |] eqn:E; try exact I;
    apply search_from_shorter in E as (Ha & Hb & Hc); cbv zeta;
    destruct (mt_start m <? m_pos (mt_final m)) eqn:Ep.
  - apply Nat.ltb_lt in Ep. lia.
  - apply Nat.ltb_ge in Ep.
    destruct (m_rest (mt_final m)) as [|c rest'] eqn:Er; [| simpl in Hc; lia].
    cbn [matches_ordered]. unfold mt_end. simpl in Hc. repeat split; lia.
  - apply Nat.ltb_lt in Ep. cbn [matches_ordered]. unfold mt_end.
    split; [lia |]. split; [lia |]. split; [lia |].
    replace (Nat.max (m_pos (mt_final m)) (S (mt_start m))) with (m_pos (mt_final m)) by lia.
    replace (pos + length rest)
      with (m_pos (mt_final m) + length (m_rest (mt_final m))) by lia.
    apply IH. lia.
  - apply Nat.ltb_ge in Ep.
    destruct (m_rest (mt_final m)) as [|c rest'] eqn:Er.
    + cbn [matches_ordered]. unfold mt_end. simpl in Hc. repeat split; lia.
    + cbn [matches_ordered]. unfold mt_end. simpl in Hc.
      split; [lia |]. split; [lia |]. split; [lia |].
      replace (Nat.max (m_pos (mt_final m)) (S (mt_start m)))
        with (S (m_pos (mt_final m))) by lia.
      replace (pos + length rest) with (S (m_pos (mt_final m)) + length rest') by lia.
      apply IH. lia.
Qed.

Lemma finditer_ordered fl r s : matches_ordered 0 (length s) (finditer fl r s).
Proof.
  rewrite finditer_is_at.
  exact (finditer_at_ordered fl r (length s) s None 0 (Nat.le_refl _)).
Qed.

Lemma matches_ordered_weaken from from' upto ms :
  from' <= from -> matches_ordered from upto ms -> matches_ordered from' upto ms.
Proof. destruct ms as [|m ms]; simpl; [auto |]. intros H (H1 & H2). split; [lia | exact H2]. Qed.

(** Matches that are not empty, in order, give regions in order. *)
Lemma regions_of_matches (ms : list rematch) : forall from upto,
    matches_ordered from upto ms ->
    Forall (fun m => mt_start m < mt_end m) ms ->
    regions_ordered from upto (map (fun m => (mt_start m, mt_end m)) ms).
Proof.
  induction ms as [|m ms IH]; intros from upto Hord Hne; [exact I |].
  inversion Hne as [|m' ms' Hm Hms]; subst.
  destruct Hord as (H1 & H2 & H3 & H4). cbn [map regions_ordered].
  split; [exact H1 |]. split; [exact Hm |]. split; [exact H3 |].
  apply IH; [| exact Hms]. eapply matches_ordered_weaken; [| exact H4]. lia.
Qed.

Lemma fence_regions_ordered content :
  regions_ordered 0 (length content) (_find_code_fence_regions content).
Proof.
  unfold _find_code_fence_regions. apply regions_of_matches; [apply finditer_ordered |].
  apply Forall_forall. intros m Hm. apply list_elem_of_In in Hm.
  assert (Hin : In (mt_start m, mt_end m) (_find_code_fence_regions content)).
  { unfold _find_code_fence_regions. apply in_map_iff. exists m. split; [reflexivity | exact Hm]. }
  apply fence_region in Hin as (_ & pre & mid & post & _ & _ & He).
  rewrite He, !length_app. simpl. lia.
Qed.

Lemma in_fence_iff pos regions :
  _is_position_in_code_fence pos regions = true <->
  exists fs fe, In (fs, fe) regions /\ fs <= pos < fe.
Proof.
  unfold _is_position_in_code_fence. rewrite existsb_exists. split.
  - intros ([fs fe] & Hin & H). apply andb_true_iff in H as [H1 H2].
    apply Nat.leb_le in H1. apply Nat.ltb_lt in H2. exists fs, fe. simpl in *. auto.
  - intros (fs & fe & Hin & H1 & H2). exists (fs, fe). split; [exact Hin |].
    apply andb_true_iff. split; [now apply Nat.leb_le | now apply Nat.ltb_lt].
Qed.

Lemma regions_ordered_from rs : forall from upto a b,
    regions_ordered from upto rs -> In (a, b) rs -> from <= a /\ a < b /\ b <= upto.
Proof.
  induction rs as [|[a0 b0] rs IH]; intros from upto a b Hord Hin; [destruct Hin |].
  destruct Hord as (H1 & H2 & H3 & H4). destruct Hin as [[= <- <-] | Hin]; [lia |].
  destruct (IH _ _ _ _ H4 Hin). lia.
Qed.

(** Regions in order do not overlap: a position lies in one of them at
    most. *)
Lemma regions_ordered_disjoint rs : forall from upto a b a' b' pos,
    regions_ordered from upto rs ->
    In (a, b) rs -> In (a', b') rs ->
    a <= pos < b -> a' <= pos < b' -> (a, b) = (a', b').
Proof.
  induction rs as [|[a0 b0] rs IH]; intros from upto a b a' b' pos Hord H1 H2 Hp Hp';
    [destruct H1 |].
  destruct Hord as (O1 & O2 & O3 & O4).
  destruct H1 as [[= <- <-] | H1], H2 as [[= <- <-] | H2].
  - reflexivity.
  - destruct (regions_ordered_from _ _ _ _ _ O4 H2). lia.
  - destruct (regions_ordered_from _ _ _ _ _ O4 H1). lia.
  - eapply IH; eauto.
Qed.

End Ordered.

(** X5.  The fence regions that [_find_code_fence_regions] reports come
    in the order of the text and do not overlap: each starts at or after
    the end of the one before, ends after its start and within the text;
    the text of a region starts and ends with three backticks; and
    [_is_position_in_code_fence] holds of a position exactly when one of
    the regions holds it, its start included and its end excluded, and
    then only one region does. *)
Theorem fence_regions_in_order (content : str) :
  regions_ordered 0 (length content) (_find_code_fence_regions content)
  /\ (forall fs fe,
         In (fs, fe) (_find_code_fence_regions content) ->
         exists mid, Py.slice content fs fe = L "```" ++ mid ++ L "```")
  /\ (forall pos,
         _is_position_in_code_fence pos (_find_code_fence_regions content) = true <->
         exists fs fe, In (fs, fe) (_find_code_fence_regions content) /\ fs <= pos < fe)
  /\ (forall pos fs fe fs' fe',
         In (fs, fe) (_find_code_fence_regions content) ->
         In (fs', fe') (_find_code_fence_regions content) ->
         fs <= pos < fe -> fs' <= pos < fe' -> (fs, fe) = (fs', fe')).
Proof.
  split; [apply fence_regions_ordered |]. split; [| split].
  - intros fs fe Hin.
    destruct (fence_region _ _ _ Hin) as (Hlen & pre & mid & post & Hs & Hl & Hfe).
    exists mid. rewrite Hs at 1. rewrite slice_around by lia.
    rewrite <- Hl, drop_all, Hfe.
    replace (fs + length (L "```" ++ mid ++ L "```")
             - (length pre + length (L "```" ++ mid ++ L "```"))) with 0 by lia.
    now rewrite take_0, app_nil_r.
  - intros pos. apply in_fence_iff.
  - intros pos fs fe fs' fe'. apply regions_ordered_disjoint with (from := 0)
      (upto := length content). apply fence_regions_ordered.
Qed.

Lemma fence_regions_in_order_witness :
  _find_code_fence_regions Fixture.fenced_section = [(38, 62)]
  /\ exists mid, Py.slice Fixture.fenced_section 38 62 = L "```" ++ mid ++ L "```".
Proof.
  split; [vm_compute; reflexivity |].
  destruct (fence_regions_in_order Fixture.fenced_section) as (_ & H & _).
  apply H. vm_compute. now left.
Defined.

(** ** The items of a section *)

Section Items.
Import Re ReNotions ReFacts ReMore ReCalc.

(** The name that a heading match gives its item. *)
Lemma item_boundaries_filter section :
  item_boundaries section =
  map (fun hm => (mt_start hm, unbracket (Py.strip (group_str hm 1))))
      (List.filter
         (fun hm => negb (_is_position_in_code_fence
                            (mt_start hm) (_find_code_fence_regions section)))
         (finditer MULTILINE Pat.item_heading section)).
Proof.
  unfold item_boundaries.
  induction (finditer MULTILINE Pat.item_heading section) as [|hm l IH];
    [reflexivity |].
  cbn [flat_map List.filter].
  destruct (negb (_is_position_in_code_fence _ _)); cbn [map app]; now rewrite IH.
Qed.

Lemma matches_ordered_filter (p : rematch -> bool) ms : forall from upto,
    matches_ordered from upto ms -> matches_ordered from upto (List.filter p ms).
Proof.
  induction ms as [|m ms IH]; intros from upto H; [exact I |].
  destruct H as (H1 & H2 & H3 & H4). cbn [List.filter]. destruct (p m).
  - cbn [matches_ordered]. repeat split; auto.
  - eapply matches_ordered_weaken; [| apply IH; exact H4]. lia.
Qed.

(** A heading of an item is two hashes, white space and a name: four
    characters at least, the first two of them hashes. *)
Lemma item_heading_match section hm :
  In hm (finditer MULTILINE Pat.item_heading section) ->
  mt_start hm + 4 <= mt_end hm
  /\ exists r, drop (mt_start hm) section = L "##" ++ r.
Proof.
  intros Hm. apply finditer_found_in in Hm.
  destruct Hm as (st0 & (pre & Hs & Hl) & _ & Hp & Hin).
  revert Hin. unfold Pat.item_heading. cbn [Seqs]. intros H.
  apply in_seq in H as (s1 & H1 & H). apply in_bol in H1 as [_ ->].
  apply in_seq in H as (s2 & H2 & H). apply in_str in H2 as [R2 P2]; [| reflexivity].
  apply in_seq in H as (s3 & H3 & H).
  apply in_plus_chr in H3 as (w3 & Hne3 & R3 & P3 & _).
  apply in_group in H as (s4 & H4 & E).
  apply in_plus_chr in H4 as (w4 & Hne4 & R4 & P4 & _).
  split.
  - unfold mt_end. rewrite E. cbn [set_cap m_pos]. rewrite P4, P3, P2, <- Hp.
    destruct w3; [congruence |]. destruct w4; [congruence |]. simpl. lia.
  - exists (m_rest s2). rewrite <- Hp, <- Hl, Hs, drop_app_length. exact R2.
Qed.

Lemma startswith_take (p r : str) k :
  length p <= k -> Py.startswith p (take k (p ++ r)) = true.
Proof.
  intros H. rewrite take_app_ge by exact H. apply startswith_app.
Qed.

(** The spans cut from headings in order: each span holds the whole of
    its heading. *)
Lemma spans_hold_headings len (g : rematch -> str) hs : forall from a b name,
    regions_ordered from len (map (fun hm => (mt_start hm, mt_end hm)) hs) ->
    In (a, b, name) (item_spans len (map (fun hm => (mt_start hm, g hm)) hs)) ->
    exists hm, In hm hs /\ a = mt_start hm /\ name = g hm
               /\ from <= a /\ mt_end hm <= b /\ b <= len.
Proof.
  induction hs as [|hm hs IH]; intros from a b name Hord Hin; [destruct Hin |].
  cbn [map regions_ordered] in Hord. destruct Hord as (O1 & O2 & O3 & O4).
  cbn [map item_spans] in Hin. destruct Hin as [[= <- <- <-] | Hin].
  - exists hm. split; [now left |]. repeat split; auto.
    + destruct hs as [|hm2 hs]; cbn [map]; [exact O3 |].
      cbn [map regions_ordered] in O4. tauto.
    + destruct hs as [|hm2 hs]; cbn [map]; [lia |].
      cbn [map regions_ordered] in O4. lia.
  - destruct (IH _ _ _ _ O4 Hin) as (hm' & H1 & H2 & H3 & H4 & H5 & H6).
    exists hm'. split; [now right |]. repeat split; auto. lia.
Qed.

Lemma slice_to_end (s : str) a : Py.slice s a (length s) = drop a s.
Proof. unfold Py.slice. apply take_ge. rewrite length_drop. lia. Qed.

Lemma slice_then_drop (s : str) a b :
  a <= b -> Py.slice s a b ++ drop b s = drop a s.
Proof.
  intros H. unfold Py.slice. replace (drop b s) with (drop (b - a) (drop a s)).
  - apply take_drop.
  - rewrite drop_drop. f_equal. lia.
Qed.

(** The slices of the items, one after the other, are the section from
    the first heading on. *)
Lemma spans_cover section (g : rematch -> str) hs : forall from,
    regions_ordered from (length section) (map (fun hm => (mt_start hm, mt_end hm)) hs) ->
    concat (map (fun item => item_slice section (fst (fst item)) (snd (fst item)))
                (item_spans (length section) (map (fun hm => (mt_start hm, g hm)) hs)))
    = match hs with
      | [] => []
      | hm :: _ => drop (mt_start hm) section
      end.
Proof.
  induction hs as [|hm hs IH]; intros from Hord; [reflexivity |].
  cbn [map regions_ordered] in Hord. destruct Hord as (O1 & O2 & O3 & O4).
  cbn [map item_spans concat fst snd]. rewrite (IH _ O4). unfold item_slice.
  destruct hs as [|hm2 hs]; cbn [map].
  - rewrite app_nil_r. apply slice_to_end.
  - apply slice_then_drop. cbn [map regions_ordered] in O4. lia.
Qed.

Lemma heading_regions_ordered section :
  regions_ordered 0 (length section)
    (map (fun hm => (mt_start hm, mt_end hm))
         (List.filter
            (fun hm => negb (_is_position_in_code_fence
                               (mt_start hm) (_find_code_fence_regions section)))
            (finditer MULTILINE Pat.item_heading section))).
Proof.
  apply regions_of_matches.
  - apply matches_ordered_filter, finditer_ordered.
  - apply Forall_forall. intros hm Hm. apply list_elem_of_In in Hm.
    apply filter_In in Hm as [Hm _]. apply item_heading_match in Hm as [H _]. lia.
Qed.

End Items.

(** X6.  The items of an Operations or Tools section are cut out of it
    without a gap and without an overlap.  Every item starts at a [##]
    heading outside the fences and holds the whole of that heading; it
    ends where the next item starts, the last one at the end of the
    section, so the slices of the items, one after the other, are the
    section from the first such heading on; what stands before that
    heading belongs to no item. *)
Theorem items_cover_section (section : str) :
  (forall a b name,
      In (a, b, name) (item_spans (length section) (item_boundaries section)) ->
      exists hm,
        In hm (Re.finditer Re.MULTILINE Pat.item_heading section)
        /\ a = Re.mt_start hm /\ Re.mt_end hm <= b /\ b <= length section
        /\ name = unbracket (Py.strip (Re.group_str hm 1))
        /\ Py.startswith (L "##") (item_slice section a b) = true)
  /\ concat (map (fun item => item_slice section (fst (fst item)) (snd (fst item)))
                 (item_spans (length section) (item_boundaries section)))
     = match item_boundaries section with
       | [] => []
       | (first, _) :: _ => drop first section
       end.
Proof.
  rewrite item_boundaries_filter. split.
  - intros a b name Hin.
    destruct (spans_hold_headings _ _ _ 0 _ _ _ (heading_regions_ordered section) Hin)
      as (hm & Hhm & -> & -> & _ & He & Hb).
    apply filter_In in Hhm as [Hhm _].
    exists hm. repeat split; auto.
    destruct (item_heading_match section hm Hhm) as (H4 & r & Hr).
    unfold item_slice, Py.slice. rewrite Hr. apply startswith_take. simpl. lia.
  - rewrite (spans_cover section _ _ 0 (heading_regions_ordered section)).
    destruct (List.filter _ _); reflexivity.
Qed.

Lemma items_cover_section_witness :
  item_spans (length Fixture.fenced_section) (item_boundaries Fixture.fenced_section)
  = [(0, 63, L "Deploy"); (63, 101, L "Verify")]
  /\ item_slice Fixture.fenced_section 0 63 ++ item_slice Fixture.fenced_section 63 101
     = Fixture.fenced_section.
Proof.
  split; [vm_compute; reflexivity |].
  destruct (items_cover_section Fixture.fenced_section) as [_ H].
  vm_compute in H. vm_compute. exact H.
Defined.

(** ** List items of the Triggers section that are no declarations *)

Section Unrecognized.
Import Re ReNotions ReFacts ReMore ReCalc.

(** A literal read without regard to case matches a text that starts with
    it once both are in lower case. *)
Lemma in_chars_nocase (l : str) : forall y x,
    In x (rmatch IGNORECASE
                 (fold_right (fun c r => Seq (Chr (One (AChar c))) r) Eps l) y) ->
    Py.startswith (Py.lower l) (Py.lower (m_rest y)) = true.
Proof.
  induction l as [|c l IH]; intros y x Hin; cbn [fold_right] in Hin; [reflexivity |].
  apply in_seq in Hin as (mid & H1 & H2).
  apply in_chr in H1 as (d & rest & Hr & Hc & ->).
  cbn [cmatch amatch ignorecase IGNORECASE] in Hc.
  apply IH in H2. cbn [advance m_rest] in H2.
  rewrite Hr. cbn [Py.lower map Py.startswith]. rewrite Hc. exact H2.
Qed.

Lemma pattern_needs_word (word : string) tail text :
  Py.startswith (Py.lower (L word)) (Py.lower text) = false ->
  re_match IGNORECASE (Seq (Str word) tail) text = None.
Proof.
  intros H. unfold re_match, match_at.
  destruct (rmatch IGNORECASE (Seq (Str word) tail) (MState None 0 text [])) as [|x l] eqn:E;
    [reflexivity |].
  exfalso. assert (Hin : In x (rmatch IGNORECASE (Seq (Str word) tail) (MState None 0 text [])))
    by (rewrite E; now left).
  apply in_seq in Hin as (mid & H1 & _). apply in_chars_nocase in H1.
  cbn [m_rest] in H1. congruence.
Qed.

Lemma unrecognized_declaration lib text :
  Py.startswith (L "set") (Py.lower text) = false ->
  Py.startswith (L "when") (Py.lower text) = false ->
  _parse_trigger_declaration lib text = Raise (ValueError unrecognized_trigger).
Proof.
  intros Hs Hw. unfold _parse_trigger_declaration.
  unfold Pat.alarm, Pat.event. cbn [Seqs].
  rewrite (pattern_needs_word "set") by exact Hs.
  rewrite (pattern_needs_word "when") by exact Hw.
  reflexivity.
Qed.

End Unrecognized.

(** A line that is no list item with a text gives no trigger. *)
Lemma line_skipped lib line : is_item line = false -> parse_trigger_line lib line = Ok [].
Proof.
  unfold is_item, item_text, parse_trigger_line. intros H.
  destruct (is_bullet (Py.strip line)); cbn [negb andb] in H.
  - apply negb_false_iff in H. rewrite H. now destruct (Py.is_empty (Py.strip line)).
  - now rewrite orb_true_r.
Qed.

(** The lines that are skipped can be left out. *)
Lemma items_only lib (ls : list str) :
  (let* per_line := mapM (parse_trigger_line lib) ls in Ok (concat per_line))
  = (let* per_line := mapM (parse_trigger_line lib) (List.filter is_item ls) in
     Ok (concat per_line)).
Proof.
  induction ls as [|l ls IH]; [reflexivity |]. cbn [List.filter].
  destruct (is_item l) eqn:E; cbn [mapM].
  - destruct (parse_trigger_line lib l) as [ts |]; cbn [bind]; [| reflexivity].
    unfold bind in IH |- *.
    destruct (mapM (parse_trigger_line lib) ls),
      (mapM (parse_trigger_line lib) (List.filter is_item ls));
      cbn [concat] in *; congruence.
  - rewrite (line_skipped lib l E). cbn [bind]. rewrite <- IH. unfold bind.
    destruct (mapM (parse_trigger_line lib) ls); reflexivity.
Qed.

(** X7.  For a text of ASCII characters.  A trigger declaration is an
    alarm, which starts with the word [set], or an event, which starts
    with the word [when], in any case of the letters: a text that starts
    with neither is refused with a [ValueError].  When the Triggers
    section of a body is found and the first of its lines that is refused
    is a list item with such a text, [_parse_triggers] raises the
    validation error that cites the text of the item.  The lines of the
    section that are no list items, and the list items without text, are
    passed over: [_parse_triggers] gives what the other lines give. *)
Theorem unrecognized_trigger_refused (lib : Library) :
  (forall text,
      ascii_text text ->
      Py.startswith (L "set") (Py.lower text) = false ->
      Py.startswith (L "when") (Py.lower text) = false ->
      _parse_trigger_declaration lib text = Raise (ValueError unrecognized_trigger))
  /\ (forall body m pre line post,
         ascii_text body ->
         Re.re_search Re.DOTALL Pat.triggers_section body = Some m ->
         Py.split Re.nl (Re.group_str m 1) = pre ++ line :: post ->
         Forall (fun l => exists ts, parse_trigger_line lib l = Ok ts) pre ->
         is_item line = true ->
         Py.startswith (L "set") (Py.lower (item_text line)) = false ->
         Py.startswith (L "when") (Py.lower (item_text line)) = false ->
         _parse_triggers lib body =
         Raise (BusyValidationError
                  (L "Invalid trigger declaration '" ++ item_text line
                     ++ L "': " ++ unrecognized_trigger)))
  /\ (forall body m,
         ascii_text body ->
         Re.re_search Re.DOTALL Pat.triggers_section body = Some m ->
         _parse_triggers lib body =
         let* per_line :=
           mapM (parse_trigger_line lib)
                (List.filter is_item (Py.split Re.nl (Re.group_str m 1))) in
         Ok (concat per_line)).
Proof.
  split; [intros text _; apply unrecognized_declaration |]. split.
  - intros body m pre line post _ Hsec Hsplit Hpre Hitem Hs Hw.
    unfold is_item in Hitem. apply andb_true_iff in Hitem as [Hb Hne].
    apply negb_true_iff in Hne.
    assert (Hne' : item_text line <> []) by (intros E; now rewrite E in Hne).
    apply (parse_triggers_first_refused lib body m pre line post _ Hsec Hsplit Hpre).
    apply (trigger_line_error lib line (ValueError unrecognized_trigger) Hb Hne').
    now apply unrecognized_declaration.
  - intros body m _ Hsec. unfold _parse_triggers. rewrite Hsec. cbv zeta.
    apply items_only.
Qed.

Lemma unrecognized_trigger_refused_witness :
  _parse_triggers Fixture.lib
    (lines_open ["# Triggers"; "Run these:"; "-  ";
                 "- When mail.received, run Reply";
                 "- Every morning run DailyReview"]) =
  Raise (BusyValidationError
           (L "Invalid trigger declaration 'Every morning run DailyReview': "
              ++ unrecognized_trigger))
  /\ _parse_trigger_declaration Fixture.lib (L "Every morning run DailyReview")
     = Raise (ValueError unrecognized_trigger)
  /\ (exists t,
         _parse_triggers Fixture.lib
           (lines_open ["# Triggers"; "Run these:"; "-  ";
                        "- When mail.received, run Reply"]) = Ok [t]).
Proof.
  destruct (unrecognized_trigger_refused Fixture.lib) as (Hdecl & Hbad & Hskip).
  split; [| split].
  - set (body := lines_open ["# Triggers"; "Run these:"; "-  ";
                              "- When mail.received, run Reply";
                              "- Every morning run DailyReview"]).
    destruct (Re.re_search Re.DOTALL Pat.triggers_section body) as [m |] eqn:Es;
      [| vm_compute in Es; discriminate].
    rewrite (Hbad body m [L "Run these:"; L "-  "; L "- When mail.received, run Reply"]
                  (L "- Every morning run DailyReview") []).
    + vm_compute. reflexivity.
    + apply ascii_text_by. vm_compute. reflexivity.
    + exact Es.
    + vm_compute in Es. injection Es as <-. vm_compute. reflexivity.
    + repeat constructor; eexists; vm_compute; reflexivity.
    + reflexivity.
    + reflexivity.
    + reflexivity.
  - apply Hdecl; [apply ascii_text_by; vm_compute; reflexivity | reflexivity | reflexivity].
  - set (body := lines_open ["# Triggers"; "Run these:"; "-  ";
                              "- When mail.received, run Reply"]).
    destruct (Re.re_search Re.DOTALL Pat.triggers_section body) as [m |] eqn:Es;
      [| vm_compute in Es; discriminate].
    rewrite (Hskip body m); [| apply ascii_text_by; vm_compute; reflexivity | exact Es].
    vm_compute in Es. injection Es as <-. eexists. vm_compute. reflexivity.
Defined.

(** ** A body without headings *)

Section NoHeadings.
Import Re ReNotions ReFacts ReMore ReCalc.

(** A pattern whose matches start with a hash finds nothing in a text
    without one. *)
Lemma search_needs_hash fl r body :
  (forall y x, In x (rmatch fl r y) -> exists rest, m_rest y = "#"%char :: rest) ->
  Forall (fun c => c <> "#"%char) body ->
  re_search fl r body = None.
Proof.
  intros Hr Hno. destruct (re_search fl r body) as [m |] eqn:E; [| reflexivity].
  exfalso. apply re_search_found_in in E.
  destruct E as (st0 & (pre & Hs & _) & _ & _ & Hin).
  destruct (Hr _ _ Hin) as (rest & Hrest). rewrite Hs, Hrest in Hno.
  apply Forall_app in Hno as [_ Hno]. inversion Hno. congruence.
Qed.

Lemma starts_with_hash fl tail y x :
  ignorecase fl = false ->
  In x (rmatch fl (Seq (Pat.ch "#") tail) y) -> exists rest, m_rest y = "#"%char :: rest.
Proof.
  intros Hfl H. apply in_seq in H as (mid & H & _).
  apply in_chr in H as (c & rest & Hr & Hc & _).
  cbn [cmatch amatch] in Hc. rewrite Hfl in Hc. apply Ascii.eqb_eq in Hc as <-. eauto.
Qed.

Lemma no_hash_no_section lib body :
  Forall (fun c => c <> "#"%char) body ->
  _parse_local_definitions lib body = Ok []
  /\ _parse_setup body = None
  /\ _parse_operations lib body = Ok []
  /\ _parse_tools_section lib body = Ok []
  /\ _parse_triggers lib body = Ok [].
Proof.
  intros Hno.
  unfold _parse_local_definitions, _parse_setup, _parse_operations, _parse_tools_section,
    _parse_triggers.
  rewrite (search_needs_hash DOTALL Pat.local_definitions body),
    (search_needs_hash DOTALL Pat.setup_section body),
    (search_needs_hash DOTALL Pat.operations_section body),
    (search_needs_hash DOTALL Pat.tools_section body),
    (search_needs_hash DOTALL Pat.triggers_section body); auto;
    intros y x; apply starts_with_hash; reflexivity.
Qed.

End NoHeadings.

(** X8.  A body without a hash character has no section: no definition,
    no setup, no operation, no tool and no trigger is parsed from it.  A
    document with such a body (the empty body is one) parses, when it is
    not of the Tool type, to a document that holds the metadata, the
    imports of its reference links and the triggers of its frontmatter and
    nothing else; when it is of the Tool type it is refused for want of a
    tool. *)
Theorem no_headings_no_sections (lib : Library) (body : str) :
  Forall (fun c => c <> "#"%char) body ->
  (_parse_local_definitions lib body = Ok []
   /\ _parse_setup body = None
   /\ _parse_operations lib body = Ok []
   /\ _parse_tools_section lib body = Ok []
   /\ _parse_triggers lib body = Ok [])
  /\ (forall content meta data,
         _extract_metadata lib content = Ok (meta, body, data) ->
         (md_type meta = tool_tag ->
          parse_document lib content =
          Raise (BusyValidationError
                   (L "Tool document must contain at least one tool definition in Tools section")))
         /\ (md_type meta <> tool_tag ->
             forall fts,
               _parse_frontmatter_triggers lib data meta = Ok fts ->
               parse_document lib content =
               Ok (Plain {| metadata := meta;
                            imports := map import_entry
                                           (Re.finditer Re.no_flags Pat.import_link body);
                            definitions := []; setup := None; operations := [];
                            triggers := fts |}))).
Proof.
  intros Hno. destruct (no_hash_no_section lib body Hno) as (H1 & H2 & H3 & H4 & H5).
  split; [repeat split; assumption |].
  intros content meta data Hmeta. split.
  - intros Htype. unfold parse_document, parse_document_body, bind.
    rewrite Hmeta, parse_imports_total, H1, H3, H4.
    assert (Htag : Py.str_eqb (md_type meta) tool_tag = true) by now apply str_eqb_eq.
    now rewrite Htag.
  - intros Htype fts Hfts. unfold parse_document, parse_document_body, bind.
    rewrite Hmeta, parse_imports_total, H1, H2, H3, (str_eqb_neq _ _ Htype), Hfts, H5.
    now rewrite app_nil_r.
Qed.

Lemma no_headings_no_sections_witness :
  parse_document Fixture.lib Fixture.a_md =
  Ok (Plain {| metadata := {| md_name := L "Notes"; md_type := L "[Document]";
                              md_description := L "Notes"; md_provider := None |};
               imports := [{| concept_name := L "B"; path := L "b.md"; anchor := None |}];
               definitions := []; setup := None; operations := []; triggers := [] |}).
Proof.
  destruct (_extract_metadata Fixture.lib Fixture.a_md) as [[[meta body] data] |] eqn:E;
    [| vm_compute in E; discriminate].
  assert (Hb : body = lines ["[B]: b.md"])
    by (vm_compute in E; injection E as _ <- _; reflexivity).
  assert (Hno : Forall (fun c => c <> "#"%char) body).
  { rewrite Hb. vm_compute. repeat constructor; discriminate. }
  destruct (no_headings_no_sections Fixture.lib body Hno) as (_ & H).
  destruct (H Fixture.a_md meta data E) as (_ & Hplain).
  assert (Hm : meta = {| md_name := L "Notes"; md_type := L "[Document]";
                         md_description := L "Notes"; md_provider := None |})
    by (vm_compute in E; injection E as <- _ _; reflexivity).
  rewrite (Hplain ltac:(rewrite Hm; discriminate) []).
  - rewrite Hm, Hb. vm_compute. reflexivity.
  - vm_compute in E. injection E as <- _ <-. vm_compute. reflexivity.
Defined.

(** ** What a resolution that succeeds has done *)

Lemma dict_get_set_same {V} (k : str) (v : V) d : dict_get k (dict_set k v d) = Some v.
Proof.
  induction d as [|[k' v'] d IH]; simpl.
  - now rewrite str_eqb_refl.
  - destruct (Py.str_eqb k' k) eqn:E; simpl.
    + now rewrite str_eqb_refl.
    + now rewrite E.
Qed.

Lemma dict_get_set_other {V} (k k' : str) (v : V) d :
  k' <> k -> dict_get k (dict_set k' v d) = dict_get k d.
Proof.
  intros Hne. induction d as [|[k0 v0] d IH]; simpl.
  - now rewrite (str_eqb_neq k' k).
  - destruct (Py.str_eqb k0 k') eqn:E; simpl.
    + apply str_eqb_eq in E as ->. now rewrite (str_eqb_neq k' k).
    + destruct (Py.str_eqb k0 k); [reflexivity | exact IH].
Qed.

Lemma dict_set_keeps {V} (k k' : str) (v : V) d :
  dict_get k d <> None -> dict_get k (dict_set k' v d) <> None.
Proof.
  intros H. destruct (decide (k' = k)) as [-> | Hne].
  - now rewrite dict_get_set_same.
  - now rewrite dict_get_set_other.
Qed.

Lemma dict_update_keeps {V} (k : str) (e : list (str * V)) : forall d,
    dict_get k d <> None -> dict_get k (dict_update d e) <> None.
Proof.
  unfold dict_update. induction e as [|[k' v'] e IH]; intros d H; simpl; [exact H |].
  apply IH. now apply dict_set_keeps.
Qed.

Section Resolved.

Variable lib : Library.
Variable fs : FileSystem.

Lemma rewrap_ok {A} i (r : result A) v : rewrap i r = Ok v -> r = Ok v.
Proof. destruct r as [a | []]; simpl; congruence. Qed.

Lemma resolve_one_ok recur i p resolved st v st' :
  resolve_one lib fs recur i p resolved st = Some (Ok v, st') ->
  exists text doc nested,
    read_text fs p = Ok text /\ parse_document lib text = Ok doc
    /\ match has_anchor i with
       | Some a => anchor_found doc a = true
       | None => True
       end
    /\ recur doc (path_parent fs p) (log_read p st) = Some (Ok nested, st')
    /\ v = dict_update (dict_set (concept_name i) doc resolved) nested.
Proof.
  unfold resolve_one.
  destruct (read_text fs p) as [text |] eqn:Eread; [| discriminate].
  destruct (parse_document lib text) as [doc |] eqn:Eparse; [| discriminate].
  destruct (has_anchor i) as [a |].
  - destruct (anchor_found doc a) eqn:Ea; [| discriminate].
    destruct (recur doc _ _) as [[[nested |] st1] |] eqn:Er; try discriminate.
    intros [= <- <-]. exists text, doc, nested. repeat split; auto.
  - destruct (recur doc _ _) as [[[nested |] st1] |] eqn:Er; try discriminate.
    intros [= <- <-]. exists text, doc, nested. repeat split; auto.
Qed.

Lemma resolve_each_ok recur base :
  keeps_visited recur ->
  forall todo resolved st v st',
    resolve_each lib fs recur base todo resolved st = Some (Ok v, st') ->
    Forall (fun i => (exists doc, loads lib fs base i doc)
                     /\ (exists key, key_of fs base i = Ok key /\ key ∉ visited st)
                     /\ dict_get (concept_name i) v <> None) todo
    /\ (forall k, dict_get k resolved <> None -> dict_get k v <> None).
Proof.
  intros Hrec. induction todo as [|i todo IH]; intros resolved st v st'.
  - simpl. intros [= <- <-]. split; [constructor | auto].
  - cbn [resolve_each].
    destruct (path_exists fs _) as [[|] |] eqn:Hex; try discriminate.
    destruct (path_resolve fs _) as [key |] eqn:Hkey; [| discriminate].
    destruct (bool_decide _) eqn:Hin; [discriminate |].
    apply bool_decide_eq_false in Hin.
    destruct (resolve_one _ _ _ _ _ _ _) as [[r1 st1] |] eqn:E1; [| discriminate].
    destruct (rewrap i r1) as [resolved' |] eqn:Ew; [| discriminate].
    apply rewrap_ok in Ew as ->.
    pose proof (resolve_one_visited lib fs _ _ _ _ _ _ _ Hrec E1) as Hv1.
    apply resolve_one_ok in E1 as (text & doc & nested & Hread & Hparse & Hanchor & _ & Hres).
    intros Hrest. apply IH in Hrest as [Hall Hkeys].
    assert (Hback : visited (unmark key st1) = visited st).
    { simpl. rewrite Hv1. simpl. now apply mark_unmark. }
    split.
    + constructor.
      * split; [| split].
        -- exists doc. split; [exact Hex |]. split; [eauto |].
           split; [eauto | exact Hanchor].
        -- exists key. split; [exact Hkey | exact Hin].
        -- apply Hkeys. rewrite Hres. apply dict_update_keeps.
           now rewrite dict_get_set_same.
      * eapply List.Forall_impl; [| exact Hall]. intros j (H1 & H2 & H3).
        split; [exact H1 |]. split; [| exact H3]. now rewrite <- Hback.
    + intros k Hk. apply Hkeys. rewrite Hres. apply dict_update_keeps.
      now apply dict_set_keeps.
Qed.

Lemma parse_document_raises content e :
  parse_document lib content = Raise e ->
  match e with
  | BusyParseError _ | BusyValidationError _ | BusyImportError _ => True
  | _ => False
  end.
Proof.
  unfold parse_document. destruct (parse_document_body lib content) as [d | []];
    try discriminate; intros [= <-]; exact I.
Qed.

Lemma rewrap_leaves {A} i (r : result A) e :
  rewrap i r = Raise e ->
  (forall e', r = Raise e' ->
              leaves_resolver fs e' \/ (exists m, e' = BusyParseError m)
              \/ (exists m, e' = BusyValidationError m)) ->
  leaves_resolver fs e.
Proof.
  intros Hw Hr. destruct r as [a | e']; [discriminate |].
  destruct (Hr e' eq_refl) as [H | [(m & ->) | (m & ->)]].
  - destruct e'; simpl in *; injection Hw as <-; try exact H; exact I.
  - injection Hw as <-. exact I.
  - injection Hw as <-. exact I.
Qed.

Lemma raised_leaves e :
  fs_raised fs e ->
  leaves_resolver fs e \/ (exists m, e = BusyParseError m)
  \/ (exists m, e = BusyValidationError m).
Proof. intros H. left. destruct e; simpl; auto. Qed.

Lemma resolve_one_raises recur i p resolved st e st' :
  (forall d b s e' s', recur d b s = Some (Raise e', s') -> leaves_resolver fs e') ->
  resolve_one lib fs recur i p resolved st = Some (Raise e, st') ->
  leaves_resolver fs e \/ (exists m, e = BusyParseError m)
  \/ (exists m, e = BusyValidationError m).
Proof.
  intros Hrec. unfold resolve_one.
  destruct (read_text fs p) as [text | e0] eqn:Eread.
  2:{ intros [= <- <-]. apply raised_leaves. exists p. auto. }
  destruct (parse_document lib text) as [doc | e0] eqn:Eparse.
  2:{ intros [= <- <-]. apply parse_document_raises in Eparse.
      destruct e0; try contradiction; eauto; left; exact I. }
  destruct (match has_anchor i with Some _ => _ | None => _ end).
  { intros [= <- <-]. left. exact I. }
  destruct (recur doc _ _) as [[[nested | e0] st1] |] eqn:Er; try discriminate.
  intros [= <- <-]. left. eapply Hrec; eauto.
Qed.

Lemma resolve_each_raises recur base :
  (forall d b s e' s', recur d b s = Some (Raise e', s') -> leaves_resolver fs e') ->
  forall todo resolved st e st',
    resolve_each lib fs recur base todo resolved st = Some (Raise e, st') ->
    leaves_resolver fs e.
Proof.
  intros Hrec. induction todo as [|i todo IH]; intros resolved st e st'; [discriminate |].
  cbn [resolve_each].
  destruct (path_exists fs _) as [[|] | e0] eqn:Hex.
  2:{ intros [= <- <-]. exact I. }
  2:{ intros [= <- <-]. destruct e0; simpl; auto; eexists; eauto. }
  destruct (path_resolve fs _) as [key | e0] eqn:Hkey.
  2:{ intros [= <- <-]. destruct e0; simpl; auto; eexists; eauto. }
  destruct (bool_decide _); [intros [= <- <-]; exact I |].
  destruct (resolve_one _ _ _ _ _ _ _) as [[r1 st1] |] eqn:E1; [| discriminate].
  destruct (rewrap i r1) as [resolved' | e1] eqn:Ew.
  - apply IH.
  - intros [= <- <-]. eapply rewrap_leaves; [exact Ew |].
    intros e' ->. eapply resolve_one_raises; eauto.
Qed.

Lemma resolve_imports_raises fuel :
  forall d b s e s',
    resolve_imports lib fs fuel d b s = Some (Raise e, s') -> leaves_resolver fs e.
Proof.
  induction fuel as [|fuel IH]; intros d b s e s'; [discriminate |].
  cbn [resolve_imports]. now apply resolve_each_raises.
Qed.

End Resolved.

(** X9.  When [resolve_imports] returns, every import of the document
    has been loaded: its path exists under the base directory, its file
    was read and parsed, and its anchor, if it has one, names an operation
    or a definition of that file; the key of its path was not in
    [_visited] when the call started; and its concept name is a key of the
    mapping that is returned. *)
Theorem imports_resolved (lib : Library) (fs : FileSystem) (fuel : nat)
        (document : Document) (base_path : str) (st : rstate)
        (resolved : list (str * Document)) (st' : rstate) :
  resolve_imports lib fs fuel document base_path st = Some (Ok resolved, st') ->
  Forall (fun i => (exists doc, loads lib fs base_path i doc)
                   /\ (exists key, key_of fs base_path i = Ok key /\ key ∉ visited st)
                   /\ dict_get (concept_name i) resolved <> None)
         (imports (doc_fields document)).
Proof.
  destruct fuel as [|fuel]; [discriminate |]. cbn [resolve_imports]. intros H.
  apply resolve_each_ok in H as [H _]; [exact H |]. apply resolve_imports_visited.
Qed.

Lemma imports_resolved_witness :
  exists docTop resolved st',
    parse_document Fixture.lib Fixture.top_md = Ok docTop
    /\ resolve_imports Fixture.lib Fixture.fs 3 docTop (L "/ws") (RState ∅ [])
       = Some (Ok resolved, st')
    /\ map concept_name (imports (doc_fields docTop)) = [L "Left"; L "Right"]
    /\ Forall (fun i => dict_get (concept_name i) resolved <> None)
              (imports (doc_fields docTop)).
Proof.
  destruct (parse_document Fixture.lib Fixture.top_md) as [docTop |] eqn:ET;
    [| vm_compute in ET; discriminate].
  destruct (resolve_imports Fixture.lib Fixture.fs 3 docTop (L "/ws") (RState ∅ []))
    as [[[resolved |] st'] |] eqn:ER;
    [| vm_compute in ET; injection ET as <-; vm_compute in ER; discriminate
     | vm_compute in ET; injection ET as <-; vm_compute in ER; discriminate].
  exists docTop, resolved, st'. split; [reflexivity |]. split; [exact ER |].
  pose proof (imports_resolved _ _ _ _ _ _ _ _ ER) as H.
  split; [vm_compute in ET; injection ET as <-; reflexivity |].
  eapply List.Forall_impl; [| exact H]. intros i (_ & _ & Hk). exact Hk.
Defined.

(** X10.  What [resolve_imports] raises is an import error or an
    exception that the file system raised, when a path was tested,
    resolved or read.  So when the file system raises neither a parse
    error nor a validation error, none of them leaves the resolver: the
    failure to parse an imported document is turned into an import
    error.  When the file of the first import is read and
    [parse_document] refuses its text, the import error names the path of
    the import and carries the message of the refusal, and [_visited] is
    left as it was. *)
Theorem resolver_raises_import_errors (lib : Library) (fs : FileSystem) :
  (forall fuel document base_path st e st',
      resolve_imports lib fs fuel document base_path st = Some (Raise e, st') ->
      match e with
      | BusyImportError _ => True
      | _ => exists p, path_exists fs p = Raise e \/ path_resolve fs p = Raise e
                       \/ read_text fs p = Raise e
      end)
  /\ ((forall e, fs_raised fs e ->
                 forall m, e <> BusyParseError m /\ e <> BusyValidationError m) ->
      forall fuel document base_path st e st',
        resolve_imports lib fs fuel document base_path st = Some (Raise e, st') ->
        forall m, e <> BusyParseError m /\ e <> BusyValidationError m)
  /\ (forall fuel document base_path st i more key text msg,
         imports (doc_fields document) = i :: more ->
         path_exists fs (file_of fs base_path i) = Ok true ->
         key_of fs base_path i = Ok key ->
         key ∉ visited st ->
         read_text fs (file_of fs base_path i) = Ok text ->
         parse_document lib text = Raise (BusyValidationError msg)
         \/ parse_document lib text = Raise (BusyParseError msg) ->
         resolve_imports lib fs (S fuel) document base_path st =
         Some (Raise (BusyImportError
                        (L "Failed to parse imported document '" ++ path i
                           ++ L "': " ++ msg)),
               RState (visited st) (reads st ++ [file_of fs base_path i]))).
Proof.
  split; [| split].
  - intros fuel document base_path st e st' H.
    apply (resolve_imports_raises lib fs) in H. exact H.
  - intros Hfs fuel document base_path st e st' H m.
    apply (resolve_imports_raises lib fs) in H.
    destruct e; try (split; discriminate); exact (Hfs _ H m).
  - intros fuel document base_path st i more key text msg Hi Hex Hres Hkey Hread Hparse.
    cbn [resolve_imports]. rewrite Hi, (resolve_each_live _ _ _ _ _ _ _ _ key) by assumption.
    unfold resolve_one. rewrite Hread.
    destruct Hparse as [-> | ->]; cbn [rewrap]; f_equal; f_equal;
      apply rstate_eq; simpl; try reflexivity; now apply mark_unmark.
Qed.

Lemma resolver_raises_import_errors_witness :
  resolve Fixture.lib FixtureDisk.fs 2 (FixtureDisk.importing "Broken" "broken.md") (L "/ws")
  = Some (Raise (BusyImportError
                   (L "Failed to parse imported document 'broken.md': Document missing metadata section (YAML frontmatter with --- fences)")),
          RState ∅ [L "/ws/broken.md"])
  /\ (exists st,
         resolve Fixture.lib FixtureDisk.fs 2
                 (FixtureDisk.importing "Long" FixtureDisk.long_name) (L "/ws")
         = Some (Raise (OSError (L "File name too long")), st)
         /\ exists p, path_exists FixtureDisk.fs p = Raise (OSError (L "File name too long"))
                      \/ path_resolve FixtureDisk.fs p
                         = Raise (OSError (L "File name too long"))
                      \/ read_text FixtureDisk.fs p
                         = Raise (OSError (L "File name too long")))
  /\ (forall fuel document base_path st e st',
         resolve_imports Fixture.lib FixtureDisk.fs fuel document base_path st
         = Some (Raise e, st') ->
         forall m, e <> BusyParseError m /\ e <> BusyValidationError m).
Proof.
  destruct (resolver_raises_import_errors Fixture.lib FixtureDisk.fs)
    as (Hall & Hnone & Hparse).
  split; [| split].
  - apply (Hparse 1 (FixtureDisk.importing "Broken" "broken.md") (L "/ws") (RState ∅ [])
                  {| concept_name := L "Broken"; path := L "broken.md"; anchor := None |}
                  [] (L "/ws/broken.md") FixtureDisk.broken_md
                  (L "Document missing metadata section (YAML frontmatter with --- fences)")).
    + reflexivity.
    + vm_compute. reflexivity.
    + vm_compute. reflexivity.
    + simpl. set_solver.
    + vm_compute. reflexivity.
    + left. vm_compute. reflexivity.
  - destruct (resolve Fixture.lib FixtureDisk.fs 2
                      (FixtureDisk.importing "Long" FixtureDisk.long_name) (L "/ws"))
      as [[[v | e] st] |] eqn:E; try (vm_compute in E; discriminate).
    exists st.
    assert (He : e = OSError (L "File name too long"))
      by (vm_compute in E; now injection E as <- _).
    subst e. split; [reflexivity |].
    exact (Hall 2 _ _ _ _ _ E).
  - apply Hnone. intros e (p & H) m.
    unfold FixtureDisk.fs, Fixture.fs in H.
    cbn [path_exists path_resolve read_text] in H.
    destruct (255 <? length p), (Py.str_eqb p (L "/ws/broken.md")),
      (dict_get p Fixture.files);
      destruct H as [H | [H | H]]; try discriminate;
      injection H as <-; split; discriminate.
Defined.

(** ** Imports written and read back *)

Section ImportsRoundTrip.
Import Re ReNotions ReFacts ReMore ReCalc.

Lemma join_lines (ls : list str) :
  ls <> [] -> Text.join [nl] ls ++ [nl] = concat (map (fun l => l ++ [nl]) ls).
Proof.
  induction ls as [|l ls IH]; [congruence |]. intros _.
  destruct ls as [|l2 ls]; [simpl; now rewrite app_nil_r |].
  change (Text.join [nl] (l :: l2 :: ls)) with (l ++ [nl] ++ Text.join [nl] (l2 :: ls)).
  change (concat (map (fun l => l ++ [nl]) (l :: l2 :: ls)))
    with ((l ++ [nl]) ++ concat (map (fun l => l ++ [nl]) (l2 :: ls))).
  rewrite <- IH by discriminate. rewrite <- !app_assoc. reflexivity.
Qed.

Lemma name_class_ok c : cmatch no_flags name_class c = true <-> c <> "]"%char.
Proof.
  cbn [cmatch name_class existsb amatch ignorecase no_flags]. rewrite orb_false_r.
  rewrite negb_true_iff. unfold Py.ascii_eqb. rewrite Ascii.eqb_neq.
  split; intros H E; apply H; congruence.
Qed.

Lemma path_class_ok c :
  cmatch no_flags path_class c = true <-> Py.isspace c = false /\ c <> "#"%char.
Proof.
  cbn [cmatch path_class existsb amatch ignorecase no_flags]. rewrite orb_false_r.
  rewrite negb_true_iff, orb_false_iff. unfold Py.ascii_eqb. rewrite Ascii.eqb_neq.
  split; intros [H1 H2]; (split; [exact H1 |]); intros E; apply H2; congruence.
Qed.

Lemma anchor_class_ok c : cmatch no_flags anchor_class c = true <-> Py.isspace c = false.
Proof.
  cbn [cmatch anchor_class existsb amatch]. rewrite orb_false_r. apply negb_true_iff.
Qed.

Lemma forall_class (P : ascii -> Prop) cs (w : str) :
  (forall c, cmatch no_flags cs c = true <-> P c) ->
  Forall P w <-> Forall (fun c => cmatch no_flags cs c = true) w.
Proof.
  intros H. split; intros Hw; (eapply List.Forall_impl; [| exact Hw]);
    intros c Hc; now apply H.
Qed.

Lemma link_ends_path T :
  link_ends T -> match T with [] => True | c :: _ => cmatch no_flags path_class c = false end.
Proof.
  destruct T as [|c T]; [auto |]. intros H.
  cbn [cmatch path_class existsb amatch]. simpl in H. now rewrite H.
Qed.

Lemma link_ends_anchor T :
  link_ends T ->
  match T with [] => True | c :: _ => cmatch no_flags anchor_class c = false end.
Proof.
  destruct T as [|c T]; [auto |]. intros H.
  cbn [cmatch anchor_class existsb amatch]. simpl in H. now rewrite H.
Qed.

Lemma link_ends_no_hash T prev pos caps tail :
  link_ends T ->
  first_match no_flags (Seq (Pat.ch "#") tail) (MState prev pos T caps) = None.
Proof.
  intros H. apply first_seq_none. unfold Pat.ch. rewrite first_chr. cbn [m_rest].
  destruct T as [|c T]; [reflexivity |]. simpl in H.
  cbn [cmatch amatch ignorecase no_flags].
  destruct (Py.ascii_eqb "#" c) eqn:E; [| reflexivity].
  apply Ascii.eqb_eq in E as <-. discriminate.
Qed.

(** The link [[name]: path] or [[name]: path#anchor], followed by [T], is
    read as a whole, with its name, its path and its anchor. *)
Lemma import_link_first prev pos i T :
  writable_Import i -> link_ends T ->
  exists x,
    first_match no_flags Pat.import_link
                (MState prev pos (Writer.import_line i ++ T) []) = Some x
    /\ m_rest x = T
    /\ m_pos x = pos + length (Writer.import_line i)
    /\ import_entry (ReMatch pos x) = i.
Proof.
  destruct i as [name pth anc]. intros (Hn & Hnc & Hp & Hpc & Ha) HT.
  cbn [concept_name path anchor] in *.
  destruct name as [|n0 name]; [congruence |].
  destruct pth as [|p0 pth]; [congruence |].
  apply (forall_class _ name_class) in Hnc; [| apply name_class_ok].
  apply (forall_class _ path_class) in Hpc; [| apply path_class_ok].
  unfold Pat.import_link. cbn [Seqs].
  change (Chr (NoneOf [AChar "]"])) with (Chr name_class).
  change (Chr (NoneOf [ASpace; AChar "#"])) with (Chr path_class).
  change (Chr (NoneOf [ASpace])) with (Chr anchor_class).
  set (suffix := match anc with
                 | Some a => if Py.is_empty a then T else ("#"%char :: a) ++ T
                 | None => T
                 end).
  assert (Htext : Writer.import_line {| concept_name := n0 :: name; path := p0 :: pth;
                                        anchor := anc |} ++ T
                  = "["%char :: (n0 :: name)
                      ++ "]"%char :: ":"%char :: " "%char :: (p0 :: pth) ++ suffix).
  { unfold Writer.import_line, has_anchor, suffix. cbn [anchor concept_name path].
    destruct anc as [[|a0 a] |]; cbn [Py.is_empty L list_ascii_of_string app];
      repeat (rewrite <- ?app_assoc; cbn [app]); reflexivity. }
  assert (Hlen : length (Writer.import_line {| concept_name := n0 :: name;
                                               path := p0 :: pth; anchor := anc |})
                 + length T
                 = 4 + length (n0 :: name) + length (p0 :: pth) + length suffix).
  { rewrite <- length_app, Htext. cbn [length]. rewrite !length_app. cbn [length].
    rewrite !length_app. cbn [length]. lia. }
  rewrite Htext.
  (* the link up to its path *)
  assert (Hstop1 : match "]"%char :: ":"%char :: " "%char :: (p0 :: pth) ++ suffix with
                   | [] => True
                   | c :: _ => cmatch no_flags name_class c = false
                   end) by reflexivity.
  assert (Hstop2 : match suffix with
                   | [] => True
                   | c :: _ => cmatch no_flags path_class c = false
                   end).
  { unfold suffix. destruct anc as [[|a0 a] |]; cbn [Py.is_empty];
      try (now apply link_ends_path). reflexivity. }
  assert (Hsp : match (p0 :: pth) ++ suffix with
                | [] => True
                | c :: _ => cmatch no_flags (One ASpace) c = false
                end).
  { cbn [app cmatch amatch]. inversion Hpc as [|c l Hc _]; subst.
    apply path_class_ok in Hc as [Hc _]. exact Hc. }
  pose (st1 := advance "["%char
                 ((n0 :: name) ++ "]"%char :: ":"%char :: " "%char :: (p0 :: pth) ++ suffix)
                 (MState prev pos
                    ("["%char :: (n0 :: name)
                       ++ "]"%char :: ":"%char :: " "%char :: (p0 :: pth) ++ suffix) [])).
  pose proof (first_group_plus_run no_flags 1 name_class n0 name st1 _ eq_refl Hnc Hstop1)
    as F2.
  cbn [st1 advance m_prev m_pos m_caps] in F2.
  set (st2 := MState (prev_after (Some "["%char) (n0 :: name))
                     (S pos + length (n0 :: name))
                     ("]"%char :: ":"%char :: " "%char :: (p0 :: pth) ++ suffix)
                     [(1, (S pos, n0 :: name))]) in F2.
  pose (st4 := advance ":"%char (" "%char :: (p0 :: pth) ++ suffix)
                 (advance "]"%char (":"%char :: " "%char :: (p0 :: pth) ++ suffix) st2)).
  pose proof (first_star_run no_flags (One ASpace) [" "%char] st4 ((p0 :: pth) ++ suffix)
                eq_refl ltac:(repeat constructor) Hsp) as F5.
  set (st5 := gone_over st4 [" "%char] ((p0 :: pth) ++ suffix)) in F5.
  pose proof (first_group_plus_run no_flags 2 path_class p0 pth st5 suffix eq_refl Hpc Hstop2)
    as F6.
  cbn [st5 st4 st2 gone_over advance m_prev m_pos m_caps prev_after fold_left] in F6.
  set (st6 := MState (fold_left (fun _ c => Some c) pth (Some p0))
                     (S (S (S pos + length (n0 :: name))) + length [" "%char]
                      + length (p0 :: pth))
                     suffix
                     [(2, (S (S (S pos + length (n0 :: name))) + length [" "%char],
                           p0 :: pth));
                      (1, (S pos, n0 :: name))]) in F6.
  assert (Hprefix : forall tail y,
             first_match no_flags tail st6 = Some y ->
             first_match no_flags
               (Seq (Pat.ch "[")
                  (Seq (Group 1 (Plus true (Chr name_class)))
                     (Seq (Pat.ch "]")
                        (Seq (Pat.ch ":")
                           (Seq Pat.sp_star
                              (Seq (Group 2 (Plus true (Chr path_class))) tail))))))
               (MState prev pos
                  ("["%char :: (n0 :: name)
                     ++ "]"%char :: ":"%char :: " "%char :: (p0 :: pth) ++ suffix) [])
             = Some y).
  { intros tail y Hy.
    eapply first_seq; [unfold Pat.ch; rewrite first_chr; reflexivity |].
    eapply first_seq; [exact F2 |].
    eapply first_seq; [unfold Pat.ch; rewrite first_chr; reflexivity |].
    eapply first_seq; [unfold Pat.ch; rewrite first_chr; reflexivity |].
    eapply first_seq; [exact F5 |].
    eapply first_seq; [exact F6 | exact Hy]. }
  destruct anc as [[|a0 a] |].
  - (* an empty anc is not written *)
    destruct Ha as [Ha _]. congruence.
  - destruct Ha as [_ Hac].
    apply (forall_class _ anchor_class) in Hac; [| apply anchor_class_ok].
    pose (st7 := advance "#"%char ((a0 :: a) ++ T) st6).
    pose proof (first_group_plus_run no_flags 3 anchor_class a0 a st7 T eq_refl Hac
                  (link_ends_anchor T HT)) as F8.
    eexists. split; [| split; [| split]].
    + apply Hprefix. rewrite first_opt.
      erewrite first_seq; [reflexivity | | exact F8].
      unfold Pat.ch. rewrite first_chr. reflexivity.
    + reflexivity.
    + cbn [st7 st6 advance m_pos length]. cbn [length] in Hlen.
      unfold suffix in Hlen. cbn [Py.is_empty length app] in Hlen.
      rewrite length_app in Hlen. cbn [length] in Hlen. lia.
    + reflexivity.
  - eexists. split; [| split; [| split]].
    + apply Hprefix. rewrite first_opt.
      unfold st6, suffix. rewrite link_ends_no_hash by exact HT. reflexivity.
    + reflexivity.
    + cbn [st6 m_pos length]. cbn [length] in Hlen. unfold suffix in Hlen. lia.
    + reflexivity.
Qed.

End ImportsRoundTrip.

Section ImportsBack.
Import Re ReNotions ReFacts ReMore ReCalc.

Lemma finditer_at_skip fl r prev pos c rest :
  match_at fl r (MState prev pos (c :: rest) []) = None ->
  finditer_at fl r prev pos (c :: rest) = finditer_at fl r (Some c) (S pos) rest.
Proof.
  intros H. rewrite (finditer_at_unfold fl r prev pos), (finditer_at_unfold fl r (Some c)).
  now rewrite search_from_next.
Qed.

Lemma import_link_needs_bracket prev pos rest :
  match rest with [] => True | c :: _ => c <> "["%char end ->
  match_at no_flags Pat.import_link (MState prev pos rest []) = None.
Proof.
  intros H. rewrite match_at_first. unfold Pat.import_link. cbn [Seqs].
  rewrite first_seq_none; [reflexivity |].
  unfold Pat.ch. rewrite first_chr. cbn [m_rest].
  destruct rest as [|c rest]; [reflexivity |].
  cbn [cmatch amatch ignorecase no_flags].
  destruct (Py.ascii_eqb "[" c) eqn:E; [| reflexivity].
  apply Ascii.eqb_eq in E. congruence.
Qed.

Lemma import_line_not_empty i : 0 < length (Writer.import_line i).
Proof.
  unfold Writer.import_line. destruct (has_anchor i); rewrite length_app; simpl; lia.
Qed.

(** The links of a list of imports, each on its line, are read back as
    these imports, one match for each. *)
Lemma import_lines_found imps : forall prev pos,
    Forall writable_Import imps ->
    map import_entry
        (finditer_at no_flags Pat.import_link prev pos
                     (concat (map (fun l => l ++ [nl]) (map Writer.import_line imps))))
    = imps.
Proof.
  induction imps as [|i imps IH]; intros prev pos Hall.
  - cbn [map concat]. rewrite finditer_at_unfold, search_from_end.
    now rewrite import_link_needs_bracket.
  - inversion Hall as [|i' imps' Hi Himps]; subst.
    cbn [map concat]. rewrite <- app_assoc.
    set (T := [nl] ++ concat (map (fun l => l ++ [nl]) (map Writer.import_line imps))).
    destruct (import_link_first prev pos i T Hi) as (x & Hx & Hr & Hp & He);
      [reflexivity |].
    rewrite finditer_at_unfold.
    rewrite (search_from_here _ _ _ _ _ (ReMatch pos x)).
    2:{ rewrite match_at_first. cbn [m_pos]. now rewrite Hx. }
    cbv zeta. cbn [mt_start mt_final].
    replace (pos <? m_pos x) with true
      by (symmetry; apply Nat.ltb_lt; pose proof (import_line_not_empty i); lia).
    cbn [map]. rewrite He. f_equal. rewrite Hr. unfold T. cbn [app].
    rewrite finditer_at_skip by (apply import_link_needs_bracket; discriminate).
    now apply IH.
Qed.

Lemma serialized_imports_read lib imps :
  Forall writable_Import imps ->
  _parse_imports lib (Writer._serialize_imports imps) = Ok imps.
Proof.
  intros Hall. rewrite parse_imports_total. f_equal.
  destruct imps as [|i imps].
  - cbn [Writer._serialize_imports]. rewrite finditer_is_at, finditer_at_unfold, search_from_end.
    now rewrite import_link_needs_bracket.
  - unfold Writer._serialize_imports. rewrite join_lines by discriminate.
    rewrite finditer_is_at. now apply import_lines_found.
Qed.

(** What the reference-link pattern matches: a name without a closing
    bracket, a path without white space and hash, an anchor without white
    space. *)
Lemma import_link_classes st0 st' :
  m_caps st0 = [] ->
  In st' (rmatch no_flags Pat.import_link st0) ->
  writable_Import (import_entry (ReMatch (m_pos st0) st')).
Proof.
  intros Hc0. unfold Pat.import_link. cbn [Seqs]. intros H.
  change (Chr (NoneOf [AChar "]"])) with (Chr name_class) in H.
  change (Chr (NoneOf [ASpace; AChar "#"])) with (Chr path_class) in H.
  change (Chr (NoneOf [ASpace])) with (Chr anchor_class) in H.
  apply in_seq in H as (s1 & H1 & H).
  apply in_seq in H as (s2 & H2 & H).
  apply in_seq in H as (s3 & H3 & H).
  apply in_seq in H as (s4 & H4 & H).
  apply in_seq in H as (s5 & H5 & H).
  apply in_seq in H as (s6 & H6 & H).
  destruct (in_group_plus_chr _ _ _ _ _ _ H2) as (g1 & Hne1 & Hall1 & Hc1).
  destruct (in_group_plus_chr _ _ _ _ _ _ H6) as (g2 & Hne2 & Hall2 & Hc2).
  assert (K1 : cap_lookup 1 (m_caps st') = Some (m_pos s1, g1)).
  { rewrite (rmatch_caps _ _ _ _ 1 H) by (cbv; intuition discriminate).
    rewrite (rmatch_caps _ _ _ _ 1 H6) by (cbv; intuition discriminate).
    rewrite (rmatch_caps _ _ _ _ 1 H5) by (cbv; intuition discriminate).
    rewrite (rmatch_caps _ _ _ _ 1 H4) by (cbv; intuition discriminate).
    rewrite (rmatch_caps _ _ _ _ 1 H3) by (cbv; intuition discriminate).
    exact Hc1. }
  assert (K2 : cap_lookup 2 (m_caps st') = Some (m_pos s5, g2)).
  { rewrite (rmatch_caps _ _ _ _ 2 H) by (cbv; intuition discriminate). exact Hc2. }
  assert (K3 : cap_lookup 3 (m_caps s6) = None).
  { rewrite (rmatch_caps _ _ _ _ 3 H6) by (cbv; intuition discriminate).
    rewrite (rmatch_caps _ _ _ _ 3 H5) by (cbv; intuition discriminate).
    rewrite (rmatch_caps _ _ _ _ 3 H4) by (cbv; intuition discriminate).
    rewrite (rmatch_caps _ _ _ _ 3 H3) by (cbv; intuition discriminate).
    rewrite (rmatch_caps _ _ _ _ 3 H2) by (cbv; intuition discriminate).
    rewrite (rmatch_caps _ _ _ _ 3 H1) by (cbv; intuition discriminate).
    now rewrite Hc0. }
  unfold writable_Import, import_entry, group_str, group.
  cbn [concept_name path anchor mt_final]. rewrite K1, K2.
  split; [exact Hne1 |]. split; [now apply (forall_class _ name_class), Hall1; apply name_class_ok |].
  split; [exact Hne2 |]. split; [now apply (forall_class _ path_class), Hall2; apply path_class_ok |].
  apply in_opt in H as [H | ->].
  - apply in_seq in H as (s7 & H7 & H).
    destruct (in_group_plus_chr _ _ _ _ _ _ H) as (g3 & Hne3 & Hall3 & Hc3).
    rewrite Hc3. rewrite (is_empty_false g3 Hne3).
    split; [exact Hne3 |]. now apply (forall_class _ anchor_class), Hall3; apply anchor_class_ok.
  - now rewrite K3.
Qed.

Lemma parsed_imports_writable lib body imps :
  _parse_imports lib body = Ok imps -> Forall writable_Import imps.
Proof.
  rewrite parse_imports_total. intros [= <-]. apply Forall_forall. intros i Hi.
  apply list_elem_of_In in Hi. apply in_map_iff in Hi as (m & <- & Hm).
  apply finditer_found in Hm as (st0 & Hc & Hp & Hin).
  pose proof (import_link_classes st0 (mt_final m) Hc Hin) as H.
  rewrite Hp in H. destruct m. exact H.
Qed.

End ImportsBack.

(** X11.  Imports survive being written and read back.  The writer puts
    every import on a line of its own, [[name]: path] or
    [[name]: path#anchor]; for imports whose concept name holds no closing
    bracket, whose path holds no white space and no hash and whose anchor
    holds no white space, none of them empty, [_parse_imports] reads the
    written text back as the same list of imports.  The imports that
    [_parse_imports] returns for any text are of this kind, so they are
    read back unchanged after being written. *)
Theorem imports_round_trip (lib : Library) :
  (forall imps,
      Forall writable_Import imps ->
      _parse_imports lib (Writer._serialize_imports imps) = Ok imps)
  /\ (forall body imps,
         _parse_imports lib body = Ok imps ->
         Forall writable_Import imps
         /\ _parse_imports lib (Writer._serialize_imports imps) = Ok imps).
Proof.
  split; [apply serialized_imports_read |].
  intros body imps H. apply parsed_imports_writable in H.
  split; [exact H | now apply serialized_imports_read].
Qed.

Lemma imports_round_trip_witness :
  Writer._serialize_imports
    [{| concept_name := L "Operation"; path := L "./op.busy.md"; anchor := Some (L "run") |};
     {| concept_name := L "Base"; path := L "base.md"; anchor := None |}]
  = lines ["[Operation]: ./op.busy.md#run"; "[Base]: base.md"]
  /\ _parse_imports Fixture.lib
       (lines ["[Operation]: ./op.busy.md#run"; "[Base]: base.md"])
     = Ok [{| concept_name := L "Operation"; path := L "./op.busy.md";
              anchor := Some (L "run") |};
           {| concept_name := L "Base"; path := L "base.md"; anchor := None |}].
Proof.
  split; [reflexivity |].
  destruct (imports_round_trip Fixture.lib) as [H _].
  apply (H [{| concept_name := L "Operation"; path := L "./op.busy.md";
               anchor := Some (L "run") |};
            {| concept_name := L "Base"; path := L "base.md"; anchor := None |}]).
  repeat constructor; try discriminate; cbn; repeat constructor; try discriminate.
Defined.

(** ** Stripped texts *)

Lemma drop_while_length (p : ascii -> bool) (s : str) :
  length (Py.drop_while p s) <= length s.
Proof. induction s as [|c s IH]; simpl; [lia |]. destruct (p c); simpl; lia. Qed.

Lemma drop_while_head (p : ascii -> bool) (s : str) c t :
  Py.drop_while p s = c :: t -> p c = false.
Proof.
  induction s as [|d s IH]; simpl; [discriminate |].
  destruct (p d) eqn:E; [exact IH | intros [= <- <-]; exact E].
Qed.

Lemma drop_while_all (p : ascii -> bool) (ws rest : str) :
  Forall (fun c => p c = true) ws -> Py.drop_while p (ws ++ rest) = Py.drop_while p rest.
Proof. induction 1 as [|c ws Hc _ IH]; simpl; [reflexivity | now rewrite Hc]. Qed.

(** A text that is its own [strip()] and is not empty starts and ends
    with a character that is no white space. *)
Lemma stripped_ends (s : str) :
  Py.strip s = s -> s <> [] ->
  (exists c t, s = c :: t /\ Py.isspace c = false)
  /\ (exists c t, rev s = c :: t /\ Py.isspace c = false).
Proof.
  intros Hs Hne. unfold Py.strip, Py.rstrip, Py.lstrip in Hs.
  assert (Hl : Py.drop_while Py.isspace s = s).
  { destruct s as [|c t]; [congruence |]. simpl. destruct (Py.isspace c) eqn:E; [| reflexivity].
    exfalso. apply (f_equal (@length ascii)) in Hs. rewrite length_rev in Hs.
    simpl in Hs. rewrite E in Hs.
    pose proof (drop_while_length Py.isspace (rev (Py.drop_while Py.isspace t))) as H1.
    rewrite length_rev in H1. pose proof (drop_while_length Py.isspace t). simpl in *. lia. }
  rewrite Hl in Hs. split.
  - destruct s as [|c t]; [congruence |]. exists c, t. split; [reflexivity |].
    eapply drop_while_head. exact Hl.
  - destruct (rev s) as [|c t] eqn:Er.
    + apply (f_equal (@rev ascii)) in Er. rewrite rev_involutive in Er. simpl in Er. congruence.
    + exists c, t. split; [reflexivity |].
      destruct (Py.isspace c) eqn:E; [| reflexivity]. exfalso.
      apply (f_equal (@length ascii)) in Hs. rewrite length_rev in Hs. simpl in Hs.
      rewrite E in Hs. pose proof (drop_while_length Py.isspace t).
      assert (length s = S (length t)) by (rewrite <- length_rev, Er; reflexivity). lia.
Qed.

(** White space around a stripped text is stripped off. *)
Lemma strip_padded (ws1 s ws2 : str) :
  Py.strip s = s -> s <> [] ->
  Forall (fun c => Py.isspace c = true) ws1 ->
  Forall (fun c => Py.isspace c = true) ws2 ->
  Py.strip (ws1 ++ s ++ ws2) = s.
Proof.
  intros Hs Hne H1 H2. destruct (stripped_ends s Hs Hne) as ((c & t & E1 & Hc) & (d & u & E2 & Hd)).
  unfold Py.strip, Py.rstrip, Py.lstrip.
  rewrite drop_while_all by exact H1.
  rewrite E1. cbn [app Py.drop_while]. rewrite Hc. rewrite <- E1.
  change (c :: t ++ ws2) with ((c :: t) ++ ws2). rewrite <- E1.
  rewrite rev_app_distr, drop_while_all by now apply Forall_rev.
  rewrite E2. cbn [Py.drop_while]. rewrite Hd, <- E2. apply rev_involutive.
Qed.

Lemma strip_blank (ws : str) :
  Forall (fun c => Py.isspace c = true) ws -> Py.strip ws = [].
Proof.
  intros H. unfold Py.strip, Py.rstrip, Py.lstrip.
  rewrite <- (app_nil_r ws), drop_while_all by exact H. reflexivity.
Qed.

(** ** The setup written and read back *)

Section SetupRoundTrip.
Import Re ReNotions ReFacts ReMore ReCalc.

Lemma with_caps_same st : with_caps (m_caps st) st = st.
Proof. destruct st. reflexivity. Qed.

Lemma ahead_at_end fl H x :
  m_rest x = [] -> rmatch fl (heading_ahead H) x = [x].
Proof.
  intros Hr. unfold heading_ahead.
  assert (HA : rmatch fl (Alt (Seqs [Pat.newline; H; Pat.sp_plus]) EndZ) x = [x]).
  { cbn [Seqs]. change (rmatch fl (Alt ?a ?b) x) with (rmatch fl a x ++ rmatch fl b x).
    replace (rmatch fl EndZ x) with [x] by (cbn [rmatch]; now rewrite Hr).
    rewrite rmatch_seq_none; [reflexivity |].
    unfold Pat.newline, Pat.ch. cbn [rmatch]. now rewrite Hr. }
  cbn [rmatch] in HA |- *. rewrite HA. now rewrite with_caps_same.
Qed.

Lemma ch_needs_hash : needs_hash (Pat.ch "#").
Proof.
  intros y Hy. rewrite rmatch_ch by reflexivity.
  destruct (m_rest y) as [|d r]; [reflexivity |]. simpl in Hy.
  destruct (Py.ascii_eqb "#" d) eqn:E; [| reflexivity].
  apply Ascii.eqb_eq in E. congruence.
Qed.

Lemma str_needs_hash (w : string) rest :
  L w = "#"%char :: rest -> needs_hash (Str w).
Proof.
  intros Hw y Hy. rewrite rmatch_str by reflexivity. rewrite Hw.
  destruct (m_rest y) as [|d r]; [reflexivity |]. simpl in Hy. cbn [Py.startswith].
  destruct (Py.ascii_eqb "#" d) eqn:E; [| reflexivity].
  apply Ascii.eqb_eq in E. congruence.
Qed.

Lemma ahead_fails H x c r :
  needs_hash H -> m_rest x = c :: r -> no_hash_first r ->
  rmatch DOTALL (heading_ahead H) x = [].
Proof.
  intros HH Hr Hd. unfold heading_ahead.
  assert (HA : rmatch DOTALL (Alt (Seqs [Pat.newline; H; Pat.sp_plus]) EndZ) x = []).
  { cbn [Seqs]. change (rmatch DOTALL (Alt ?a ?b) x) with (rmatch DOTALL a x ++ rmatch DOTALL b x).
    replace (rmatch DOTALL EndZ x) with (@nil mstate) by (cbn [rmatch]; now rewrite Hr).
    rewrite app_nil_r.
    unfold Pat.newline. rewrite rmatch_seq. rewrite rmatch_ch by reflexivity. rewrite Hr.
    destruct (Py.ascii_eqb nl c); [| reflexivity]. cbn [flat_map]. rewrite app_nil_r.
    rewrite rmatch_seq_none; [reflexivity |]. apply HH. exact Hd. }
  cbn [rmatch] in HA |- *. now rewrite HA.
Qed.

Lemma first_sp_plus_space fl st t :
  m_rest st = " "%char :: t ->
  match t with [] => True | c :: _ => Py.isspace c = false end ->
  first_match fl Pat.sp_plus st = Some (gone_over st [" "%char] t).
Proof.
  intros Hr Ht. apply (first_plus_run fl (One ASpace) " "%char [] st t).
  - exact Hr.
  - repeat constructor.
  - destruct t; [exact I | exact Ht].
Qed.

Lemma first_label_bare (word : string) c0 ws st tail :
  L word = c0 :: ws -> c0 <> "["%char ->
  m_rest st = L word ++ tail ->
  first_match DOTALL (Pat.label (Str word)) st = Some (gone_over st (L word) tail).
Proof.
  intros Hw Hc Hr. unfold Pat.label. rewrite first_alt. cbn [Seqs].
  rewrite first_seq_none.
  - unfold first_match. rewrite rmatch_str by reflexivity.
    rewrite Hr, startswith_app, drop_app_length. reflexivity.
  - unfold Pat.ch. rewrite first_chr, Hr, Hw. cbn [app cmatch amatch ignorecase DOTALL].
    destruct (Py.ascii_eqb "[" c0) eqn:E; [| reflexivity].
    apply Ascii.eqb_eq in E. congruence.
Qed.

(** After a heading, an empty line and then the text [t]: the white space
    of the pattern gives back the second newline, which ends the line of
    the heading. *)
Lemma first_blank_line K st c t y :
  m_rest st = nl :: nl :: c :: t -> Py.isspace c = false ->
  first_match DOTALL K (gone_over st [nl; nl] (c :: t)) = Some y ->
  first_match DOTALL (Seq Pat.sp_star (Seq Pat.newline K)) st = Some y.
Proof.
  intros Hr Hc Hy. unfold first_match. rewrite rmatch_seq. unfold Pat.sp_star.
  apply (greedy_run_first DOTALL (One ASpace) (rmatch DOTALL (Seq Pat.newline K))
                          [nl] (c :: t) y [nl] st).
  - exact Hr.
  - repeat constructor.
  - exact Hc.
  - intros x j Hj Hx. cbn [length] in Hj. assert (j = 1) as -> by lia. cbn in Hx.
    rewrite rmatch_seq_none; [reflexivity |].
    unfold Pat.newline. rewrite rmatch_ch by reflexivity. rewrite Hx.
    destruct (Py.ascii_eqb nl c) eqn:E; [| reflexivity].
    apply Ascii.eqb_eq in E. subst c. discriminate.
  - rewrite (rmatch_seq_one _ Pat.newline _ _ (gone_over st [nl; nl] (c :: t))).
    + exact Hy.
    + unfold Pat.newline. rewrite rmatch_ch by reflexivity. cbn.
      unfold advance, gone_over, prev_after. cbn. repeat f_equal. lia.
Qed.

(** A body without a hash, a lazy group around it and the look-ahead for
    the next heading: the group holds the body to its end. *)
Lemma first_body_to_end H n st w :
  needs_hash H -> m_rest st = w -> Forall (fun c => c <> "#"%char) w ->
  first_match DOTALL (Seq (Group n (Star false Pat.dot)) (heading_ahead H)) st =
  Some (MState (prev_after (m_prev st) w) (m_pos st + length w) []
               ((n, (m_pos st, w)) :: m_caps st)).
Proof.
  intros HH Hr Hno. unfold Pat.dot.
  apply (first_lazy_group DOTALL n (One AAny) (heading_ahead H) st w []).
  - now rewrite app_nil_r.
  - apply Forall_forall. intros c _. reflexivity.
  - intros x j Hj Hx. rewrite app_nil_r in Hx.
    destruct (drop j w) as [|c r] eqn:Ed.
    + apply (f_equal (@length ascii)) in Ed. rewrite length_drop in Ed. simpl in Ed. lia.
    + apply (ahead_fails H x c r HH Hx).
      assert (Hd : Forall (fun c => c <> "#"%char) (c :: r))
        by (rewrite <- Ed; now apply Forall_drop).
      inversion Hd as [|c' r' _ Hr']; subst. destruct r; [exact I |].
      inversion Hr'. assumption.
  - unfold first_match. now rewrite ahead_at_end.
Qed.

Lemma setup_written_first prev pos s :
  s <> [] -> Py.strip s = s -> Forall (fun c => c <> "#"%char) s ->
  exists x,
    first_match DOTALL Pat.setup_section
                (MState prev pos (L "# Setup" ++ [nl; nl] ++ s ++ [nl]) []) = Some x
    /\ cap_lookup 1 (m_caps x) = Some (pos + 9, s ++ [nl]).
Proof.
  intros Hne Hs Hno.
  destruct (stripped_ends s Hs Hne) as ((c & t & E1 & Hc) & _). subst s.
  unfold Pat.setup_section. cbn [Seqs].
  change (Look true (Alt (Seq Pat.newline (Seq (Pat.ch "#") Pat.sp_plus)) EndZ))
    with (heading_ahead (Pat.ch "#")).
  eexists. split.
  - eapply first_seq; [unfold Pat.ch; rewrite first_chr; reflexivity |].
    eapply first_seq; [apply first_sp_plus_space; [reflexivity | reflexivity] |].
    eapply first_seq.
    { apply (first_label_bare "Setup" "S"%char (L "etup")); [reflexivity | discriminate |].
      reflexivity. }
    eapply first_blank_line.
    + cbn [gone_over m_rest app]. reflexivity.
    + exact Hc.
    + apply first_body_to_end; [apply ch_needs_hash | reflexivity |].
      cbn [gone_over m_rest].
      change (c :: t ++ [nl]) with ((c :: t) ++ [nl]).
      apply Forall_app. split; [exact Hno | repeat constructor; discriminate].
  - cbn [m_caps cap_lookup Nat.eqb gone_over advance m_pos m_rest length
           L list_ascii_of_string app].
    f_equal. f_equal. lia.
Qed.

End SetupRoundTrip.

(** X12.  The setup survives being written and read back: for a setup
    text that is not empty, that neither starts nor ends with white space
    and that holds no hash character, [_parse_setup] returns the text from
    what [_serialize_setup] wrote.  A document without a setup, or with an
    empty one, is written without a Setup section and read back without a
    setup. *)
Theorem setup_round_trip :
  (forall s,
      s <> [] -> Py.strip s = s -> Forall (fun c => c <> "#"%char) s ->
      _parse_setup (Writer._serialize_setup (Some s)) = Some s)
  /\ _parse_setup (Writer._serialize_setup None) = None
  /\ _parse_setup (Writer._serialize_setup (Some [])) = None.
Proof.
  split; [| split; vm_compute; reflexivity].
  intros s Hne Hs Hno. unfold Writer._serialize_setup.
  rewrite (is_empty_false s Hne).
  destruct (setup_written_first None 0 s Hne Hs Hno) as (x & Hx & Hc).
  unfold _parse_setup, Re.re_search.
  rewrite (ReCalc.search_from_here _ _ _ _ _ (Re.ReMatch 0 x)).
  - unfold Re.group_str, Re.group. cbn [Re.mt_final]. rewrite Hc. f_equal.
    apply (strip_padded [] s [Re.nl]); auto.
  - rewrite match_at_first. cbn [Re.m_pos]. now rewrite Hx.
Qed.

Lemma setup_round_trip_witness :
  Writer._serialize_setup (Some (L "Load the ledger.")) = lines ["# Setup"; ""; "Load the ledger."]
  /\ _parse_setup (lines ["# Setup"; ""; "Load the ledger."]) = Some (L "Load the ledger.").
Proof.
  split; [reflexivity |].
  destruct setup_round_trip as [H _].
  apply (H (L "Load the ledger.")); [discriminate | reflexivity |].
  repeat constructor; discriminate.
Defined.

(** ** List items *)

Lemma split_line (l rest : str) :
  ~ In Re.nl l -> Py.split Re.nl (l ++ Re.nl :: rest) = l :: Py.split Re.nl rest.
Proof.
  induction l as [|c l IH]; intros Hno.
  - reflexivity.
  - cbn [app Py.split]. destruct (Py.ascii_eqb c Re.nl) eqn:E.
    + apply Ascii.eqb_eq in E. exfalso. apply Hno. now left.
    + rewrite IH; [reflexivity |]. intros H. apply Hno. now right.
Qed.

Lemma split_last_line (l : str) : ~ In Re.nl l -> Py.split Re.nl l = [l].
Proof.
  induction l as [|c l IH]; intros Hno; [reflexivity |].
  cbn [Py.split]. destruct (Py.ascii_eqb c Re.nl) eqn:E.
  - apply Ascii.eqb_eq in E. exfalso. apply Hno. now left.
  - rewrite IH; [reflexivity |]. intros H. apply Hno. now right.
Qed.

(** Lines joined by newlines are split into these lines again. *)
Lemma split_join (ls : list str) :
  ls <> [] -> Forall (fun l => ~ In Re.nl l) ls ->
  Py.split Re.nl (Text.join [Re.nl] ls) = ls.
Proof.
  induction ls as [|l ls IH]; [congruence |]. intros _ Hall.
  inversion Hall as [|l' ls' Hl Hls]; subst.
  destruct ls as [|l2 ls]; [now apply split_last_line |].
  change (Text.join [Re.nl] (l :: l2 :: ls))
    with (l ++ Re.nl :: Text.join [Re.nl] (l2 :: ls)).
  rewrite split_line by exact Hl. f_equal. apply IH; [discriminate | exact Hls].
Qed.

Lemma item_line_read (marker : ascii) (item : str) :
  marker = "-"%char \/ marker = "*"%char ->
  Py.strip item = item ->
  let line := Py.strip (marker :: " "%char :: item) in
  is_bullet line = true /\ Py.strip (Py.lstrip_chars (L "-*") line) = item.
Proof.
  intros Hm Hs. cbv zeta. destruct item as [|c t].
  - destruct Hm as [-> | ->]; split; reflexivity.
  - destruct (stripped_ends (c :: t) Hs ltac:(discriminate))
      as ((c' & t' & E1 & Hc) & (d & u & E2 & Hd)).
    injection E1 as <- <-.
    assert (Hline : Py.strip (marker :: " "%char :: c :: t) = marker :: " "%char :: c :: t).
    { apply strip_keep.
      - destruct Hm as [-> | ->]; reflexivity.
      - change (marker :: " "%char :: c :: t) with ([marker; " "%char] ++ c :: t).
        rewrite rev_app_distr, E2. exact Hd. }
    rewrite Hline. split.
    + destruct Hm as [-> | ->]; reflexivity.
    + replace (Py.lstrip_chars (L "-*") (marker :: " "%char :: c :: t))
        with (" "%char :: c :: t) by (destruct Hm as [-> | ->]; reflexivity).
      pose proof (strip_padded [" "%char] (c :: t) [] Hs ltac:(discriminate)
                    ltac:(repeat constructor) ltac:(constructor)) as Hp.
      rewrite app_nil_r in Hp. exact Hp.
Qed.

Lemma bullet_items_lines (ls : list str) :
  ls <> [] -> Forall (fun l => ~ In Re.nl l) ls ->
  bullet_items (Text.join [Re.nl] ls) =
  flat_map (fun line => if is_bullet (Py.strip line)
                        then [Py.strip (Py.lstrip_chars (L "-*") (Py.strip line))]
                        else [])
           ls.
Proof. intros Hne Hall. unfold bullet_items. now rewrite split_join. Qed.

Lemma bullet_items_written (marker : ascii) (entries : list str) :
  marker = "-"%char \/ marker = "*"%char ->
  Forall (fun i => Py.strip i = i /\ ~ In Re.nl i) entries ->
  bullet_items (Text.join [Re.nl] (map (fun i => marker :: " "%char :: i) entries)) = entries.
Proof.
  intros Hm Hall. destruct entries as [|e entries]; [reflexivity |].
  rewrite bullet_items_lines.
  - induction Hall as [|i l [Hs Hn] _ IH]; [reflexivity |].
    cbn [map flat_map]. destruct (item_line_read marker i Hm Hs) as [Hb Hi].
    rewrite Hb, Hi. cbn [app]. f_equal. exact IH.
  - discriminate.
  - apply Forall_map. eapply List.Forall_impl; [| exact Hall].
    intros i [_ Hn] [H | [H | H]].
    + destruct Hm as [-> | ->]; discriminate.
    + discriminate.
    + contradiction.
Qed.

(** X13.  The items of a list sub-section (Inputs, Outputs, Examples,
    Checklist, a tool's inputs) are read line by line: a line that, once
    stripped, starts with [-] or [*] gives the item that is left when
    these markers and the white space around are taken off, and any other
    line gives nothing.  So the list that the writer writes, one line
    [- item] for each item, is read back as the same items, for items on
    one line that neither start nor end with white space; and so is a list
    written with [*]. *)
Theorem list_items_read_back :
  (forall ls,
      ls <> [] -> Forall (fun l => ~ In Re.nl l) ls ->
      bullet_items (Text.join [Re.nl] ls) =
      flat_map (fun line => if is_bullet (Py.strip line)
                            then [Py.strip (Py.lstrip_chars (L "-*") (Py.strip line))]
                            else [])
               ls)
  /\ (forall marker entries,
         marker = "-"%char \/ marker = "*"%char ->
         Forall (fun i => Py.strip i = i /\ ~ In Re.nl i) entries ->
         bullet_items (Text.join [Re.nl] (map (fun i => marker :: " "%char :: i) entries))
         = entries).
Proof. split; [apply bullet_items_lines | apply bullet_items_written]. Qed.

Lemma list_items_read_back_witness :
  bullet_items (lines_open ["- to: recipient"; "- -v"; "- "])
  = [L "to: recipient"; L "-v"; L ""].
Proof.
  destruct list_items_read_back as [_ H].
  apply (H "-"%char [L "to: recipient"; L "-v"; L ""]); [now left |].
  repeat constructor; try reflexivity; vm_compute; intuition discriminate.
Defined.

(** ** The local definitions written and read back *)

Section HeadingsAhead.
Import Re ReNotions ReFacts ReMore ReCalc.

Lemma rmatch_look fl r st :
  rmatch fl (Look true r) st =
  match first_match fl r st with
  | Some y => [with_caps (m_caps y) st]
  | None => []
  end.
Proof. unfold first_match. cbn [rmatch]. destruct (rmatch fl r st); reflexivity. Qed.

Lemma ch_reads_hashes : reads_hashes (Pat.ch "#") (L "#").
Proof.
  intros y. rewrite rmatch_ch by reflexivity.
  destruct (m_rest y) as [|d r]; [reflexivity |].
  cbn [L list_ascii_of_string Py.startswith length drop].
  destruct (Py.ascii_eqb "#" d) eqn:E; [| reflexivity].
  apply Ascii.eqb_eq in E. subst d. cbn [andb].
  unfold advance, gone_over, prev_after. cbn [fold_left length drop].
  replace (m_pos y + 1) with (S (m_pos y)) by lia. reflexivity.
Qed.

Lemma str_reads_hashes (w : string) : reads_hashes (Str w) (L w).
Proof. intros y. now rewrite rmatch_str. Qed.

Lemma space_run (t : str) :
  exists w tail,
    t = w ++ tail /\ Forall (fun c => Py.isspace c = true) w
    /\ match tail with [] => True | c :: _ => Py.isspace c = false end.
Proof.
  induction t as [|c t (w & tail & E & Hw & Ht)].
  - exists [], []. repeat split. constructor.
  - destruct (Py.isspace c) eqn:Ec.
    + exists (c :: w), tail. subst t. repeat split; [now constructor | exact Ht].
    + exists [], (c :: t). repeat split; [constructor | exact Ec].
Qed.

Lemma sp_plus_none fl y :
  match m_rest y with [] => True | c :: _ => Py.isspace c = false end ->
  rmatch fl Pat.sp_plus y = [].
Proof.
  intros H. unfold Pat.sp_plus, Plus. apply rmatch_seq_none. unfold Pat.sp.
  cbn [rmatch]. destruct (m_rest y) as [|c r]; [reflexivity |].
  cbn [cmatch amatch]. now rewrite H.
Qed.

(** The look-ahead succeeds where a heading is next, and leaves the
    matcher where it is. *)
Lemma ahead_next H hs x :
  reads_hashes H hs -> heading_next hs (m_rest x) = true ->
  rmatch DOTALL (heading_ahead H) x = [x].
Proof.
  intros HH Hn. unfold heading_next in Hn.
  destruct (m_rest x) as [|c r] eqn:Hr; [discriminate |].
  apply andb_true_iff in Hn as [Hn Hd]. apply andb_true_iff in Hn as [Hc Hs].
  apply Ascii.eqb_eq in Hc. subst c.
  destruct (drop (length hs) r) as [|d r'] eqn:Ed; [discriminate |].
  destruct (space_run r') as (w & tail & Er & Hw & Ht).
  unfold heading_ahead. rewrite rmatch_look, first_alt. cbn [Seqs].
  set (x1 := advance nl r x).
  set (x2 := gone_over x1 hs (d :: r')).
  rewrite (first_seq _ _ _ _ x1 (gone_over x2 (d :: w) tail)).
  - cbn [gone_over m_caps x2 x1 advance]. now rewrite with_caps_same.
  - unfold Pat.newline, Pat.ch. rewrite first_chr, Hr. reflexivity.
  - apply (first_seq _ _ _ _ x2).
    + unfold first_match. rewrite HH. cbn [x1 advance m_rest]. rewrite Hs, Ed. reflexivity.
    + apply (first_plus_run DOTALL (One ASpace) d w x2 tail).
      * cbn [x2 gone_over m_rest]. now rewrite Er.
      * constructor; [exact Hd | exact Hw].
      * destruct tail; [exact I | exact Ht].
Qed.

(** The look-ahead fails inside the text where no heading is next. *)
Lemma ahead_clear H hs x :
  reads_hashes H hs -> m_rest x <> [] -> heading_next hs (m_rest x) = false ->
  rmatch DOTALL (heading_ahead H) x = [].
Proof.
  intros HH Hne Hn. unfold heading_ahead. rewrite rmatch_look, first_alt.
  destruct (m_rest x) as [|c r] eqn:Hr; [congruence |].
  assert (HA : first_match DOTALL (Seqs [Pat.newline; H; Pat.sp_plus]) x = None).
  { cbn [Seqs]. unfold first_match, Pat.newline.
    rewrite rmatch_seq, rmatch_ch by reflexivity. rewrite Hr.
    unfold heading_next in Hn.
    destruct (Py.ascii_eqb nl c); [| reflexivity]. cbn [andb] in Hn.
    cbn [flat_map]. rewrite app_nil_r, rmatch_seq, HH. cbn [advance m_rest].
    destruct (Py.startswith hs r); [| reflexivity]. cbn [andb] in Hn.
    cbn [flat_map]. rewrite app_nil_r, sp_plus_none; [reflexivity |].
    cbn [gone_over m_rest]. destruct (drop (length hs) r); [exact I | exact Hn]. }
  rewrite HA. unfold first_match. cbn [rmatch]. rewrite Hr. reflexivity.
Qed.

Lemma none_ahead_drop hs tail : forall w j,
    none_ahead hs w tail -> j < length w -> heading_next hs (drop j w ++ tail) = false.
Proof.
  induction w as [|c w IH]; intros j Hw Hj; [simpl in Hj; lia |].
  destruct Hw as [H0 Hw]. destruct j as [|j]; [exact H0 |].
  cbn [drop]. apply IH; [exact Hw | simpl in Hj; lia].
Qed.

Lemma none_ahead_app hs a b tail :
  none_ahead hs a (b ++ tail) -> none_ahead hs b tail -> none_ahead hs (a ++ b) tail.
Proof.
  induction a as [|c a IH]; intros Ha Hb; [exact Hb |].
  destruct Ha as [H0 Ha]. cbn [app none_ahead] in *. split.
  - rewrite <- app_assoc. exact H0.
  - now apply IH.
Qed.

(** No heading is next inside a line. *)
Lemma none_ahead_line hs a tail :
  ~ In nl a -> none_ahead hs a tail.
Proof.
  induction a as [|c a IH]; intros Hno; [exact I |]. split.
  - cbn [app heading_next]. destruct (Py.ascii_eqb nl c) eqn:E; [| reflexivity].
    apply Ascii.eqb_eq in E. exfalso. apply Hno. now left.
  - apply IH. intros Hin. apply Hno. now right.
Qed.

(** No heading is next inside a text without a hash, if none is next at
    its last newline. *)
Lemma none_ahead_plain hs a tail :
  Forall (fun c => c <> "#"%char) a ->
  heading_next ("#"%char :: hs) (nl :: tail) = false ->
  none_ahead ("#"%char :: hs) a tail.
Proof.
  intros Ha Ht. induction Ha as [|c a Hc Ha IH]; [exact I |]. split; [| exact IH].
  destruct a as [|d a].
  - cbn [app]. destruct (Py.ascii_eqb nl c) eqn:E.
    + apply Ascii.eqb_eq in E. now subst c.
    + cbn [heading_next]. now rewrite E.
  - inversion Ha as [|d' a' Hd _]; subst.
    cbn [app heading_next Py.startswith].
    destruct (Py.ascii_eqb "#" d) eqn:E.
    + apply Ascii.eqb_eq in E. congruence.
    + now rewrite andb_false_r.
Qed.

(** A lazy group and the look-ahead for the next heading: the group holds
    the text in which no heading is next, up to the heading or to the end
    of the text. *)
Lemma first_body H hs n st w tail :
  reads_hashes H hs -> m_rest st = w ++ tail -> none_ahead hs w tail ->
  tail = [] \/ heading_next hs tail = true ->
  first_match DOTALL (Seq (Group n (Star false Pat.dot)) (heading_ahead H)) st =
  Some (MState (prev_after (m_prev st) w) (m_pos st + length w) tail
               ((n, (m_pos st, w)) :: m_caps st)).
Proof.
  intros HH Hr Hw Ht. unfold Pat.dot.
  apply (first_lazy_group DOTALL n (One AAny) (heading_ahead H) st w tail).
  - exact Hr.
  - apply Forall_forall. intros c _. reflexivity.
  - intros x j Hj Hx. apply (ahead_clear H hs x HH).
    + rewrite Hx. intros E. apply (f_equal (@length ascii)) in E.
      rewrite length_app, length_drop in E. simpl in E. lia.
    + rewrite Hx. now apply none_ahead_drop.
  - unfold first_match. destruct Ht as [-> | Ht].
    + now rewrite ahead_at_end.
    + now rewrite (ahead_next H hs).
Qed.

End HeadingsAhead.

Section DefinitionsRoundTrip.
Import Re ReNotions ReFacts ReMore ReCalc.

Lemma join_cons sep (x y : str) l :
  Text.join sep (x :: y :: l) = x ++ sep ++ Text.join sep (y :: l).
Proof. reflexivity. Qed.

Lemma definition_lines_text : forall ds d,
    Text.join [nl] (flat_map (fun defn => [L "## " ++ ld_name defn ++ [nl];
                                           ld_content defn ++ [nl]])
                             (d :: ds))
    = Text.join [nl] (map definition_block (d :: ds)).
Proof.
  induction ds as [|d' ds IH]; intros d.
  - cbn [flat_map map Text.join app]. unfold definition_block.
    rewrite <- !app_assoc. reflexivity.
  - pose proof (IH d') as IH'. cbn [flat_map app map] in IH' |- *.
    rewrite (join_cons [nl] (L "## " ++ ld_name d ++ [nl])).
    rewrite (join_cons [nl] (ld_content d ++ [nl])).
    rewrite IH'. rewrite (join_cons [nl] (definition_block d)).
    change (definition_block d)
      with (L "## " ++ ld_name d ++ [nl; nl] ++ ld_content d ++ [nl]).
    rewrite <- !app_assoc. reflexivity.
Qed.

(** What the writer writes for the local definitions: the heading of the
    section, an empty line, and the definitions with an empty line
    between them. *)
Lemma serialized_definitions_text d ds :
  Writer._serialize_local_definitions (d :: ds) =
  L "# Local Definitions" ++ [nl; nl] ++ Text.join [nl] (map definition_block (d :: ds)).
Proof.
  unfold Writer._serialize_local_definitions.
  pose proof (definition_lines_text ds d) as E. cbn [flat_map app] in E |- *.
  rewrite (join_cons [nl] (L "# Local Definitions" ++ [nl])), E.
  rewrite <- !app_assoc. reflexivity.
Qed.

Lemma definition_blocks_start d ds :
  exists rest, Text.join [nl] (map definition_block (d :: ds)) = L "## " ++ rest.
Proof.
  destruct ds as [|d' ds].
  - eexists. cbn [map Text.join]. unfold definition_block. reflexivity.
  - eexists. cbn [map]. rewrite join_cons. unfold definition_block at 1.
    rewrite <- !app_assoc. reflexivity.
Qed.

Lemma not_nl_run (w : str) :
  ~ In nl w -> Forall (fun c => cmatch DOTALL (NoneOf [AChar nl]) c = true) w.
Proof.
  intros Hno. apply Forall_forall. intros c Hc. apply list_elem_of_In in Hc.
  cbn [cmatch existsb amatch ignorecase DOTALL orb].
  destruct (Py.ascii_eqb nl c) eqn:E; [| reflexivity].
  apply Ascii.eqb_eq in E. subst c. contradiction.
Qed.

Lemma strip_between (ws1 s ws2 : str) :
  Py.strip s = s ->
  Forall (fun c => Py.isspace c = true) ws1 ->
  Forall (fun c => Py.isspace c = true) ws2 ->
  Py.strip (ws1 ++ s ++ ws2) = s.
Proof.
  intros Hs H1 H2. destruct s as [|c t].
  - apply strip_blank. apply Forall_app. split; assumption.
  - apply strip_padded; [exact Hs | discriminate | exact H1 | exact H2].
Qed.

(** No heading of the first level is next inside a written definition. *)
Lemma definition_block_clear d T :
  writable_LocalDefinition d ->
  T = [] \/ (exists T', T = nl :: "#"%char :: "#"%char :: T') ->
  none_ahead (L "#") (definition_block d) T.
Proof.
  intros (Hne & Hs & Hnl & Hb & Hcs & Hch) HT. unfold definition_block.
  rewrite app_assoc. apply none_ahead_app.
  - apply none_ahead_line. intros Hin. apply in_app_or in Hin as [Hin | Hin].
    + cbn in Hin. intuition discriminate.
    + contradiction.
  - apply (none_ahead_plain []).
    + apply Forall_app. split; [repeat constructor; discriminate |].
      apply Forall_app. split; [exact Hch | repeat constructor; discriminate].
    + destruct HT as [-> | (T' & ->)]; reflexivity.
Qed.

Lemma definition_blocks_clear : forall ds d,
    Forall writable_LocalDefinition (d :: ds) ->
    none_ahead (L "#") (Text.join [nl] (map definition_block (d :: ds))) [].
Proof.
  induction ds as [|d' ds IH]; intros d Hall;
    inversion Hall as [|d0 ds0 Hd Hds]; subst.
  - cbn [map Text.join]. apply definition_block_clear; [exact Hd | now left].
  - cbn [map]. rewrite join_cons.
    destruct (definition_blocks_start d' ds) as (rest & Er).
    apply none_ahead_app; [| apply (none_ahead_app _ [nl])].
    + rewrite app_nil_r. apply definition_block_clear; [exact Hd |].
      right. exists (" "%char :: rest). cbn [map] in Er. rewrite Er. reflexivity.
    + cbn [none_ahead]. split; [| exact I]. cbn [map] in Er. rewrite Er. reflexivity.
    + apply IH. exact Hds.
Qed.

Lemma definition_heading_needs_hash prev pos rest :
  match rest with [] => True | c :: _ => c <> "#"%char end ->
  match_at DOTALL Pat.definition_heading (MState prev pos rest []) = None.
Proof.
  intros H. rewrite match_at_first. unfold Pat.definition_heading. cbn [Seqs].
  rewrite first_seq_none; [reflexivity |].
  unfold first_match. rewrite rmatch_str by reflexivity. cbn [m_rest].
  destruct rest as [|c rest]; [reflexivity |].
  cbn [L list_ascii_of_string Py.startswith].
  destruct (Py.ascii_eqb "#" c) eqn:E; [| reflexivity].
  apply Ascii.eqb_eq in E. congruence.
Qed.

(** A written definition, followed by nothing or by the heading of the
    next one, is read as a whole: the first group holds its name and the
    second its content between two newlines. *)
Lemma definition_block_first prev pos d T :
  writable_LocalDefinition d ->
  T = [] \/ heading_next (L "##") T = true ->
  exists x,
    first_match DOTALL Pat.definition_heading
                (MState prev pos (definition_block d ++ T) []) = Some x
    /\ m_rest x = T
    /\ m_pos x = pos + length (definition_block d)
    /\ group_str (ReMatch pos x) 1 = ld_name d
    /\ group_str (ReMatch pos x) 2 = nl :: ld_content d ++ [nl].
Proof.
  destruct d as [n c]. intros (Hne & Hs & Hnl & Hb & Hcs & Hch) HT.
  cbn [ld_name ld_content] in *.
  destruct (stripped_ends n Hs Hne) as ((c0 & t & E1 & Hc0) & _). subst n.
  unfold definition_block. cbn [ld_name ld_content].
  replace ((L "## " ++ (c0 :: t) ++ [nl; nl] ++ c ++ [nl]) ++ T)
    with (L "## " ++ (c0 :: t) ++ nl :: (nl :: c ++ [nl]) ++ T)
    by (rewrite <- !app_assoc; cbn [app]; rewrite <- !app_assoc; reflexivity).
  unfold Pat.definition_heading. cbn [Seqs].
  change (Look true (Alt (Seq Pat.newline (Seq (Str "##") Pat.sp_plus)) EndZ))
    with (heading_ahead (Str "##")).
  eexists. split; [| split; [| split; [| split]]].
  - eapply first_seq.
    { unfold first_match. rewrite rmatch_str by reflexivity. reflexivity. }
    eapply first_seq.
    { apply first_sp_plus_space; [reflexivity | exact Hc0]. }
    eapply first_seq.
    { unfold Pat.not_nl.
      apply (first_group_plus_run DOTALL 1 (NoneOf [AChar nl]) c0 t _
                                  (nl :: (nl :: c ++ [nl]) ++ T)).
      - reflexivity.
      - now apply not_nl_run.
      - reflexivity. }
    eapply first_seq.
    { unfold Pat.newline, Pat.ch. rewrite first_chr. reflexivity. }
    apply (first_body (Str "##") (L "##") 2 _ (nl :: c ++ [nl]) T).
    + apply str_reads_hashes.
    + reflexivity.
    + apply (none_ahead_plain ["#"%char]).
      * constructor; [discriminate |]. apply Forall_app. split; [exact Hch |].
        repeat constructor; discriminate.
      * destruct HT as [-> | HT]; [reflexivity |].
        destruct T as [|a T]; [discriminate |].
        cbn [heading_next] in HT. apply andb_true_iff in HT as [HT _].
        apply andb_true_iff in HT as [HT _]. apply Ascii.eqb_eq in HT. subst a.
        reflexivity.
    + exact HT.
  - reflexivity.
  - cbn [m_pos gone_over advance length L list_ascii_of_string app].
    rewrite !length_app. cbn [length]. rewrite !length_app. cbn [length]. lia.
  - reflexivity.
  - reflexivity.
Qed.

Lemma definition_block_length d : 0 < length (definition_block d).
Proof. unfold definition_block. rewrite length_app. simpl. lia. Qed.

Lemma definition_read lib d m :
  writable_LocalDefinition d ->
  group_str m 1 = ld_name d -> group_str m 2 = nl :: ld_content d ++ [nl] ->
  new_LocalDefinition lib (unbracket (Py.strip (group_str m 1)))
                      (Py.strip (group_str m 2)) = Ok d.
Proof.
  intros (Hne & Hs & Hnl & Hb & Hcs & Hch) -> ->.
  rewrite Hs, (unbracket_plain _ Hb).
  change (nl :: ld_content d ++ [nl]) with ([nl] ++ ld_content d ++ [nl]).
  rewrite (strip_between [nl] (ld_content d) [nl] Hcs) by (repeat constructor).
  destruct d as [n c]. cbn [ld_name ld_content] in *.
  destruct n; [congruence | reflexivity].
Qed.

(** The written definitions are found one after the other, and each is
    read back as it was. *)
Lemma definition_blocks_found lib : forall ds d prev pos,
    Forall writable_LocalDefinition (d :: ds) ->
    mapM (fun hm =>
            let name := unbracket (Py.strip (group_str hm 1)) in
            let definition_content := Py.strip (group_str hm 2) in
            new_LocalDefinition lib name definition_content)
         (finditer_at DOTALL Pat.definition_heading prev pos
                      (Text.join [nl] (map definition_block (d :: ds))))
    = Ok (d :: ds).
Proof.
  induction ds as [|d' ds IH]; intros d prev pos Hall;
    inversion Hall as [|d0 ds0 Hd Hds]; subst.
  - cbn [map Text.join].
    destruct (definition_block_first prev pos d [] Hd) as (x & Hx & Hr & Hp & H1 & H2);
      [now left |].
    rewrite app_nil_r in Hx.
    rewrite finditer_at_unfold.
    rewrite (search_from_here _ _ _ _ _ (ReMatch pos x))
      by (rewrite match_at_first; cbn [m_pos]; now rewrite Hx).
    cbv zeta. cbn [mt_start mt_final].
    replace (pos <? m_pos x) with true
      by (symmetry; apply Nat.ltb_lt; pose proof (definition_block_length d); lia).
    rewrite Hr, finditer_at_unfold, search_from_end.
    rewrite definition_heading_needs_hash by exact I.
    cbn [mapM]. rewrite (definition_read lib d _ Hd H1 H2). reflexivity.
  - cbn [map]. rewrite join_cons.
    destruct (definition_blocks_start d' ds) as (rest & Er). cbn [map] in Er.
    set (J := Text.join [nl] (definition_block d' :: map definition_block ds)) in *.
    destruct (definition_block_first prev pos d ([nl] ++ J) Hd)
      as (x & Hx & Hr & Hp & H1 & H2).
    { right. rewrite Er. reflexivity. }
    rewrite finditer_at_unfold.
    rewrite (search_from_here _ _ _ _ _ (ReMatch pos x))
      by (rewrite match_at_first; cbn [m_pos]; now rewrite Hx).
    cbv zeta. cbn [mt_start mt_final].
    replace (pos <? m_pos x) with true
      by (symmetry; apply Nat.ltb_lt; pose proof (definition_block_length d); lia).
    rewrite Hr. cbn [app].
    rewrite finditer_at_skip by (apply definition_heading_needs_hash; discriminate).
    cbn [mapM]. rewrite (definition_read lib d _ Hd H1 H2).
    unfold J. specialize (IH d' (Some nl) (S (m_pos x)) Hds). cbn [map] in IH.
    cbn [bind]. rewrite IH. reflexivity.
Qed.

(** The section of the written definitions is found, and its text is the
    definitions. *)
Lemma definitions_section_found d ds :
  Forall writable_LocalDefinition (d :: ds) ->
  exists m,
    re_search DOTALL Pat.local_definitions (Writer._serialize_local_definitions (d :: ds))
    = Some m
    /\ group_str m 1 = Text.join [nl] (map definition_block (d :: ds)).
Proof.
  intros Hall. rewrite serialized_definitions_text.
  pose proof (definition_blocks_clear ds d Hall) as Hclear.
  destruct (definition_blocks_start d ds) as (rest & Er).
  set (J := Text.join [nl] (map definition_block (d :: ds))) in *.
  assert (Hfirst : exists x,
             first_match DOTALL Pat.local_definitions
                         (MState None 0 (L "# Local Definitions" ++ [nl; nl] ++ J) [])
             = Some x /\ group_str (ReMatch 0 x) 1 = J).
  { unfold Pat.local_definitions. cbn [Seqs].
    change (Look true (Alt (Seq Pat.newline (Seq (Pat.ch "#") Pat.sp_plus)) EndZ))
      with (heading_ahead (Pat.ch "#")).
    eexists. split.
    - eapply first_seq; [unfold Pat.ch; rewrite first_chr; reflexivity |].
      eapply first_seq; [apply first_sp_plus_space; [reflexivity | reflexivity] |].
      eapply first_seq.
      { apply (first_label_bare "Local Definitions" "L"%char (L "ocal Definitions"));
          [reflexivity | discriminate | reflexivity]. }
      apply (first_blank_line _ _ "#"%char ("#"%char :: " "%char :: rest)).
      + cbn [gone_over m_rest app]. rewrite Er. reflexivity.
      + reflexivity.
      + replace ("#"%char :: "#"%char :: " "%char :: rest) with (J ++ [])
          by (rewrite app_nil_r, Er; reflexivity).
        apply (first_body (Pat.ch "#") (L "#") 1 _ J []).
        * apply ch_reads_hashes.
        * reflexivity.
        * exact Hclear.
        * now left.
    - reflexivity. }
  destruct Hfirst as (x & Hx & Hg). exists (ReMatch 0 x). split; [| exact Hg].
  unfold re_search. apply search_from_here. rewrite match_at_first. cbn [m_pos].
  now rewrite Hx.
Qed.

Lemma serialized_definitions_read lib defs :
  Forall writable_LocalDefinition defs ->
  _parse_local_definitions lib (Writer._serialize_local_definitions defs) = Ok defs.
Proof.
  intros Hall. destruct defs as [|d ds]; [reflexivity |].
  destruct (definitions_section_found d ds Hall) as (m & Hm & Hg).
  unfold _parse_local_definitions. rewrite Hm, Hg, finditer_is_at.
  now apply definition_blocks_found.
Qed.

End DefinitionsRoundTrip.

(** X14.  The local definitions survive being written and read back:
    [_parse_local_definitions] returns, from what
    [_serialize_local_definitions] wrote, the definitions that were
    written, in their order.  This holds for definitions whose name is on
    one line, is not empty, neither starts nor ends with white space and
    does not start with a bracket, and whose content (which may be empty
    or span several lines) neither starts nor ends with white space and
    holds no hash. *)
Theorem definitions_round_trip lib defs :
  Forall writable_LocalDefinition defs ->
  _parse_local_definitions lib (Writer._serialize_local_definitions defs) = Ok defs.
Proof.
  intros Hall. destruct defs as [|d ds].
  - reflexivity.
  - now apply serialized_definitions_read.
Qed.

Lemma definitions_round_trip_witness :
  Writer._serialize_local_definitions
    [{| ld_name := L "Lead"; ld_content := L "A person who may buy." |};
     {| ld_name := L "Owner"; ld_content := L "The user." ++ [Re.nl] ++ L "Never a [Lead]." |};
     {| ld_name := L "Later"; ld_content := [] |}]
  = lines_open ["# Local Definitions"; ""; "## Lead"; ""; "A person who may buy."; "";
                "## Owner"; ""; "The user."; "Never a [Lead]."; "";
                "## Later"; ""; ""; ""]
  /\ _parse_local_definitions Fixture.lib
       (Writer._serialize_local_definitions
          [{| ld_name := L "Lead"; ld_content := L "A person who may buy." |};
           {| ld_name := L "Owner";
              ld_content := L "The user." ++ [Re.nl] ++ L "Never a [Lead]." |};
           {| ld_name := L "Later"; ld_content := [] |}])
     = Ok [{| ld_name := L "Lead"; ld_content := L "A person who may buy." |};
           {| ld_name := L "Owner";
              ld_content := L "The user." ++ [Re.nl] ++ L "Never a [Lead]." |};
           {| ld_name := L "Later"; ld_content := [] |}].
Proof.
  split; [reflexivity |].
  apply definitions_round_trip.
  repeat constructor; try discriminate; try reflexivity;
    cbn; try (intuition discriminate); repeat constructor; discriminate.
Defined.

(** ** What the parser leaves of the texts that it reads *)

Lemma drop_while_suffix (p : ascii -> bool) (s : str) :
  exists pre, s = pre ++ Py.drop_while p s /\ Forall (fun c => p c = true) pre.
Proof.
  induction s as [|c s (pre & E & Hpre)]; [exists []; split; [reflexivity | constructor] |].
  simpl. destruct (p c) eqn:Ec.
  - exists (c :: pre). simpl. split; [now f_equal | now constructor].
  - exists []. split; [reflexivity | constructor].
Qed.

(** Stripping twice is stripping once. *)
Lemma strip_strip (s : str) : stripped (Py.strip s).
Proof.
  unfold stripped. apply strip_keep.
  - unfold Py.strip, Py.rstrip, Py.lstrip.
    set (u := Py.drop_while Py.isspace s).
    destruct (drop_while_suffix Py.isspace (rev u)) as (pre & E & _).
    set (v := Py.drop_while Py.isspace (rev u)) in *.
    assert (Eu : u = rev v ++ rev pre)
      by (rewrite <- rev_app_distr, <- E, rev_involutive; reflexivity).
    destruct (rev v) as [|a w] eqn:Ev; [exact I |].
    apply (drop_while_head Py.isspace s a (w ++ rev pre)). exact Eu.
  - unfold Py.strip, Py.rstrip, Py.lstrip. rewrite rev_involutive.
    destruct (Py.drop_while Py.isspace (rev (Py.drop_while Py.isspace s))) as [|a w] eqn:E;
      [exact I |].
    eapply drop_while_head. exact E.
Qed.

Lemma bullet_items_stripped (text : str) : Forall stripped (bullet_items text).
Proof.
  unfold bullet_items. induction (Py.split Re.nl text) as [|line ls IH]; [constructor |].
  cbn [flat_map]. apply Forall_app. split; [| exact IH].
  destruct (is_bullet _); [| constructor].
  constructor; [apply strip_strip | constructor].
Qed.

Lemma subsection_items_stripped name content :
  Forall stripped (subsection_items name content).
Proof.
  unfold subsection_items. destruct (Re.re_search _ _ _); [| constructor].
  apply bullet_items_stripped.
Qed.

Section NormalForm.

Variable lib : Library.

Lemma parse_setup_stripped body s : _parse_setup body = Some s -> stripped s.
Proof.
  unfold _parse_setup. destruct (Re.re_search _ _ _); [| discriminate].
  intros [= <-]. apply strip_strip.
Qed.

Lemma parse_local_definitions_stripped body defs :
  _parse_local_definitions lib body = Ok defs ->
  Forall (fun defn => stripped (ld_content defn)) defs.
Proof.
  unfold _parse_local_definitions. destruct (Re.re_search _ _ _); [| intros [= <-]; constructor].
  apply mapM_forall. intros hm d _. unfold new_LocalDefinition.
  intros H. apply validated_inv in H as [_ ->]. apply strip_strip.
Qed.

Lemma parse_steps_normal op_content steps :
  parse_steps lib op_content = Ok steps -> Forall normal_Step steps.
Proof.
  unfold parse_steps. destruct (Re.re_search _ _ _); [| intros [= <-]; constructor].
  apply mapM_forall. intros sm s _. unfold parse_step, new_Step.
  intros H. apply validated_inv in H as [_ ->].
  split; cbn [instruction operation_references]; [apply strip_strip |].
  destruct (map _ _); discriminate.
Qed.

Lemma parse_checklist_normal op_content :
  match parse_checklist op_content with
  | Some c => items c <> [] /\ Forall stripped (items c)
  | None => True
  end.
Proof.
  unfold parse_checklist. destruct (Re.re_search _ _ _) as [m |]; [| exact I].
  pose proof (bullet_items_stripped (Re.group_str m 1)) as H.
  destruct (bullet_items _); [exact I |]. cbn [items]. split; [discriminate | exact H].
Qed.

Lemma parse_operations_normal body ops :
  _parse_operations lib body = Ok ops -> Forall normal_Operation ops.
Proof.
  unfold _parse_operations. destruct (Re.re_search _ _ _); [| intros [= <-]; constructor].
  apply mapM_forall. intros [[a b] name] o _. unfold parse_operation, bind.
  destruct (parse_steps lib _) as [steps |] eqn:Es; [| discriminate].
  unfold new_Operation. intros H. apply validated_inv in H as [_ ->].
  unfold normal_Operation. cbn [op_inputs op_outputs op_steps op_checklist].
  split; [apply subsection_items_stripped |].
  split; [apply subsection_items_stripped |].
  split; [eapply parse_steps_normal; eauto | apply parse_checklist_normal].
Qed.

Lemma parse_tools_section_normal body tools :
  _parse_tools_section lib body = Ok tools -> Forall normal_Tool tools.
Proof.
  unfold _parse_tools_section. destruct (Re.re_search _ _ _); [| intros [= <-]; constructor].
  apply mapM_forall. intros [[a b] name] t _. unfold parse_tool.
  destruct (Py.is_empty _); [discriminate |].
  unfold new_Tool. intros H. apply validated_inv in H as [_ ->].
  unfold normal_Tool.
  cbn [tool_description tool_inputs tool_outputs tool_examples tool_providers].
  split.
  { destruct (Re.re_search _ _ _); [apply strip_strip | reflexivity]. }
  split; [apply subsection_items_stripped |].
  split; [apply subsection_items_stripped |].
  split.
  - pose proof (subsection_items_stripped (Pat.plural "Example")
                  (item_content (item_slice (Re.group_str r 1) a b))) as H.
    destruct (subsection_items _ _); [exact I | split; [discriminate | exact H]].
  - destruct (parse_providers _); discriminate.
Qed.

Lemma parse_document_normal content d :
  parse_document lib content = Ok d -> normal_Document d.
Proof.
  intros H. apply parse_document_ok in H. revert H.
  unfold parse_document_body, bind.
  destruct (_extract_metadata lib content) as [[[meta body] data] |]; [| discriminate].
  destruct (_parse_imports lib body) as [imps |]; [| discriminate].
  destruct (_parse_local_definitions lib body) as [defs |] eqn:E2; [| discriminate].
  destruct (_parse_operations lib body) as [ops |] eqn:E3; [| discriminate].
  apply parse_local_definitions_stripped in E2. apply parse_operations_normal in E3.
  assert (E1 : match _parse_setup body with Some s => stripped s | None => True end).
  { destruct (_parse_setup body) eqn:E; [| exact I]. eapply parse_setup_stripped; eauto. }
  destruct (Py.str_eqb _ _).
  - destruct (_parse_tools_section lib body) as [[|t ts] |] eqn:E4; try discriminate.
    apply parse_tools_section_normal in E4.
    intros [= <-]. unfold normal_Document.
    cbn [doc_fields doc_tools setup definitions operations].
    split; [exact E1 |]. split; [exact E2 |]. split; [exact E3 | exact E4].
  - destruct (_parse_frontmatter_triggers lib data meta) as [fts |]; [| discriminate].
    destruct (_parse_triggers lib body) as [mts |]; [| discriminate].
    intros [= <-]. unfold normal_Document.
    cbn [doc_fields doc_tools setup definitions operations].
    split; [exact E1 |]. split; [exact E2 |]. split; [exact E3 | constructor].
Qed.

End NormalForm.

(** X15.  What [parse_document] returns is in a normal form.  The setup,
    the content of every definition, the description of every tool, the
    instruction of every step and every item of a list (inputs, outputs,
    examples, checklist) neither start nor end with white space.  What is
    optional is absent rather than empty: the operation references of a
    step, the checklist of an operation, the examples and the providers of
    a tool are never an empty list. *)
Theorem parsed_texts_normal (lib : Library) (content : str) (d : Document) :
  parse_document lib content = Ok d -> normal_Document d.
Proof.
  intros H. destruct (parse_document_normal lib content d H) as (Hs & Hd & Ho & Ht).
  repeat split; assumption.
Qed.

Lemma parsed_texts_normal_witness :
  exists d, parse_document Fixture.lib Fixture.tool_doc_operations_heading = Ok d
            /\ normal_Document d.
Proof.
  destruct (parse_document Fixture.lib Fixture.tool_doc_operations_heading) as [d |] eqn:E;
    [| vm_compute in E; discriminate].
  exists d. split; [reflexivity |].
  exact (parsed_texts_normal Fixture.lib Fixture.tool_doc_operations_heading d E).
Defined.

(** ** Writing a document *)

Lemma lstrip_slashes (s : str) :
  exists slashes,
    s = slashes ++ Py.lstrip_chars (L "/") s
    /\ Forall (fun c => c = "/"%char) slashes
    /\ Py.startswith (L "/") (Py.lstrip_chars (L "/") s) = false.
Proof.
  unfold Py.lstrip_chars.
  destruct (drop_while_suffix (fun c => Py.mem_char c (L "/")) s) as (pre & E & Hpre).
  exists pre. split; [exact E |]. split.
  - eapply List.Forall_impl; [| exact Hpre]. intros c Hc. cbn in Hc.
    rewrite orb_false_r in Hc. now apply Ascii.eqb_eq in Hc.
  - destruct (Py.drop_while _ s) as [|c t] eqn:Ed; [reflexivity |].
    apply drop_while_head in Ed. cbn in Ed. rewrite orb_false_r in Ed.
    cbn [L list_ascii_of_string Py.startswith]. rewrite andb_true_r.
    unfold Py.ascii_eqb in *. now rewrite Ascii.eqb_sym.
Qed.

Lemma written_path (w : Workspace) (path : str) :
  let p := if Py.startswith (backend_path w) path
           then Py.lstrip_chars (L "/") (drop (length (backend_path w)) path)
           else path in
  exists slashes,
    if Py.startswith (backend_path w) path
    then path = backend_path w ++ slashes ++ p
         /\ Forall (fun c => c = "/"%char) slashes
         /\ Py.startswith (L "/") p = false
    else p = path /\ slashes = [].
Proof.
  cbv zeta. destruct (Py.startswith (backend_path w) path) eqn:E.
  - apply startswith_prefix in E as (post & ->). rewrite drop_app_length.
    destruct (lstrip_slashes post) as (slashes & E & Hs & Hp).
    exists slashes. split; [now rewrite <- E | split; assumption].
  - exists []. split; reflexivity.
Qed.

(** X16.  Writing a document.  Without a workspace, given or current,
    [write_busy_document] raises a [ValueError] whatever the document is.
    With a workspace, a document that [parse_document] returned passes the
    checks of the writer on its name and its description: it is refused
    only for an empty type, and otherwise its sections, joined by
    newlines, are handed to the backend.  The path handed to the backend
    is the given path or, for a path that starts with the path of the
    backend, what follows that prefix and the slashes after it. *)
Theorem parsed_document_written :
  (forall host d path,
      get_current_workspace host = None ->
      Writer.write_busy_document host d path None
      = Raise (ValueError
                 (L "No active workspace context. Call within workspace.execution_context()")))
  /\ (forall host lib content d path w,
         parse_document lib content = Ok d ->
         if Py.is_empty (md_type (metadata (doc_fields d)))
         then Writer.write_busy_document host d path (Some w)
              = Raise (BusyValidationError (L "Document metadata missing Type field"))
         else exists p slashes,
             Writer.write_busy_document host d path (Some w)
             = Ok (p, Text.join [Re.nl] (Writer.document_sections host (doc_fields d)))
             /\ (if Py.startswith (backend_path w) path
                 then path = backend_path w ++ slashes ++ p
                      /\ Forall (fun c => c = "/"%char) slashes
                      /\ Py.startswith (L "/") p = false
                 else p = path /\ slashes = [])).
Proof.
  split.
  - intros host d path Hw. unfold Writer.write_busy_document. now rewrite Hw.
  - intros host lib content d path w Hp.
    apply parse_document_valid in Hp as ((Hn & Hd) & _).
    unfold Writer.write_busy_document.
    rewrite (is_empty_false _ Hn), (is_empty_false _ Hd).
    destruct (Py.is_empty (md_type _)); [reflexivity |].
    destruct (written_path w path) as (slashes & Hs). cbv zeta in Hs.
    eexists. exists slashes. split; [reflexivity | exact Hs].
Qed.

Lemma parsed_document_written_witness :
  exists d p content,
    parse_document Fixture.lib Fixture.tool_doc_operations_heading = Ok d
    /\ Writer.write_busy_document FixtureHost.host d (L "/srv/workspace/tools/mail.busy.md")
                                  (Some FixtureHost.workspace)
       = Ok (p, content)
    /\ Py.startswith (L "/") p = false.
Proof.
  destruct (parse_document Fixture.lib Fixture.tool_doc_operations_heading) as [d |] eqn:E;
    [| vm_compute in E; discriminate].
  destruct parsed_document_written as [_ H].
  specialize (H FixtureHost.host Fixture.lib Fixture.tool_doc_operations_heading d
                (L "/srv/workspace/tools/mail.busy.md") FixtureHost.workspace E).
  destruct (Py.is_empty (md_type (metadata (doc_fields d)))) eqn:Et.
  - exfalso. revert Et. vm_compute in E. injection E as <-. discriminate.
  - destruct H as (p & slashes & Hw & Hpath).
    assert (Hs : Py.startswith (backend_path FixtureHost.workspace)
                               (L "/srv/workspace/tools/mail.busy.md") = true)
      by reflexivity.
    rewrite Hs in Hpath. destruct Hpath as (_ & _ & Hp).
    exists d, p. eexists. split; [reflexivity |]. split; [exact Hw | exact Hp].
Defined.

(** ** The personality parser *)

Lemma dict_set_forall {V} (P : str * V -> Prop) k v d :
  P (k, v) -> Forall P d -> Forall P (dict_set k v d).
Proof.
  intros Hkv. induction 1 as [|[k' v'] d Hx Hd IH]; cbn [dict_set].
  - repeat constructor. exact Hkv.
  - destruct (Py.str_eqb k' k); constructor; assumption.
Qed.

Lemma dict_get_forall {V} (Q : V -> Prop) k v (d : list (str * V)) :
  Forall (fun kv => Q (snd kv)) d -> dict_get k d = Some v -> Q v.
Proof.
  induction 1 as [|[k' v'] d Hx Hd IH]; cbn [dict_get]; [discriminate |].
  destruct (Py.str_eqb k' k); [intros [= <-]; exact Hx | exact IH].
Qed.

Section PersonalityParsed.
Import Personality.

Lemma frontmatter_entries_stripped lines_ : forall acc,
    Forall (fun kv : str * str => stripped (snd kv)) acc ->
    Forall (fun kv : str * str => stripped (snd kv)) (fold_left frontmatter_entry lines_ acc).
Proof.
  induction lines_ as [|line ls IH]; intros acc Hacc; [exact Hacc |].
  cbn [fold_left]. apply IH. unfold frontmatter_entry.
  destruct (Py.contains _ _); [| exact Hacc].
  destruct (split_colon line) as [key value].
  apply dict_set_forall; [apply strip_strip | exact Hacc].
Qed.

Lemma parse_frontmatter_stripped content frontmatter remaining :
  _parse_frontmatter content = Ok (frontmatter, remaining) ->
  Forall (fun kv : str * str => stripped (snd kv)) frontmatter.
Proof.
  unfold _parse_frontmatter. destruct (Re.re_match _ _ _); [| discriminate].
  intros [= <- _]. apply frontmatter_entries_stripped. constructor.
Qed.

Lemma get_or_empty_stripped key frontmatter :
  Forall (fun kv : str * str => stripped (snd kv)) frontmatter ->
  stripped (get_or_empty key frontmatter).
Proof.
  intros H. unfold get_or_empty. destruct (dict_get _ _) as [v |] eqn:E; [| reflexivity].
  exact (dict_get_forall stripped _ _ _ H E).
Qed.

Lemma sections_of_stripped content : forall matches acc,
    Forall (fun kv : str * str => stripped (fst kv) /\ stripped (snd kv)) acc ->
    Forall (fun kv : str * str => stripped (fst kv) /\ stripped (snd kv))
           (sections_of content matches acc).
Proof.
  induction matches as [|m rest IH]; intros acc Hacc; [exact Hacc |].
  cbn [sections_of]. apply IH. apply dict_set_forall; [| exact Hacc].
  split; apply strip_strip.
Qed.

Lemma validated_sections_present (sections_ : list (str * str)) :
  _validate_required_sections sections_ = Ok tt ->
  Forall (fun r => has_section sections_ r = true) REQUIRED_SECTIONS.
Proof.
  unfold _validate_required_sections, missing_sections, REQUIRED_SECTIONS.
  cbn [map List.filter].
  destruct (has_section sections_ (L "Identity")) eqn:E1; cbn [negb]; [| discriminate].
  destruct (has_section sections_ (L "Tone & Voice")) eqn:E2; cbn [negb]; [| discriminate].
  destruct (has_section sections_ (L "Domain Context")) eqn:E3; cbn [negb]; [| discriminate].
  destruct (has_section sections_ (L "Boundaries")) eqn:E4; cbn [negb]; [| discriminate].
  intros _. repeat constructor; assumption.
Qed.

Lemma validate_raises_value_error (sections_ : list (str * str)) e :
  _validate_required_sections sections_ = Raise e -> exists msg, e = ValueError msg.
Proof.
  unfold _validate_required_sections. destruct (missing_sections _); [discriminate |].
  intros [= <-]. eexists. reflexivity.
Qed.

Lemma parse_personality_complete lib content d :
  parse_personality_document lib content = Ok d -> complete_Personality d.
Proof.
  unfold parse_personality_document, bind.
  destruct (_parse_frontmatter content) as [[frontmatter remaining] |] eqn:Ef; [| discriminate].
  apply parse_frontmatter_stripped in Ef.
  destruct (Py.is_empty (get_or_empty "Name" frontmatter)) eqn:En; [discriminate |].
  destruct (Py.is_empty (get_or_empty "Type" frontmatter)) eqn:Et; [discriminate |].
  destruct (_validate_required_sections _) as [[] |] eqn:Ev; [| discriminate].
  apply validated_sections_present in Ev.
  unfold new_PersonalityDocument. intros H. apply validated_inv in H as [_ ->].
  unfold complete_Personality. cbn [name document_type description sections].
  split; [intros E; now rewrite E in En |].
  split; [intros E; now rewrite E in Et |].
  split; [now apply get_or_empty_stripped |].
  split; [now apply get_or_empty_stripped |].
  split; [now apply get_or_empty_stripped |].
  split; [exact Ev |].
  unfold _parse_sections. apply sections_of_stripped. constructor.
Qed.

Lemma parse_personality_raises lib content e :
  parse_personality_document lib content = Raise e -> exists msg, e = ValueError msg.
Proof.
  unfold parse_personality_document, bind, _parse_frontmatter.
  destruct (Re.re_match _ _ _); [| intros [= <-]; eexists; reflexivity].
  destruct (Py.is_empty (get_or_empty "Name" _)) eqn:En; [intros [= <-]; eexists; reflexivity |].
  destruct (Py.is_empty (get_or_empty "Type" _)); [intros [= <-]; eexists; reflexivity |].
  destruct (_validate_required_sections _) as [[] |] eqn:Ev.
  - unfold new_PersonalityDocument, min_length_1. rewrite En. discriminate.
  - intros [= <-]. eapply validate_raises_value_error. exact Ev.
Qed.

Lemma personality_frontmatter_absent content :
  Py.startswith (L "---") content = false ->
  _parse_frontmatter content = Raise (ValueError (L "Missing or malformed frontmatter")).
Proof.
  intros H. unfold _parse_frontmatter, Re.re_match, Re.match_at, frontmatter_pattern.
  cbn [Re.Seqs].
  rewrite (ReCalc.rmatch_seq_one _ Re.Bol _ _ (Re.MState None 0 content [])) by reflexivity.
  rewrite ReCalc.rmatch_seq_none; [reflexivity |].
  rewrite ReCalc.rmatch_str by reflexivity. cbn [Re.m_rest]. now rewrite H.
Qed.

End PersonalityParsed.

(** X17.  A personality document that [parse_personality_document]
    returns is complete: its name and its type are not empty, the four
    required sections (Identity, Tone & Voice, Domain Context, Boundaries)
    are among its sections, and its name, its type, its description and
    the name and the content of every section neither start nor end with
    white space. *)
Theorem personality_document_complete lib content d :
  Personality.parse_personality_document lib content = Ok d -> complete_Personality d.
Proof.
  intros H. destruct (parse_personality_complete lib content d H)
    as (Hn & Ht & Hsn & Hst & Hsd & Hreq & Hsec).
  repeat split; assumption.
Qed.

Lemma personality_document_complete_witness :
  exists d,
    Personality.parse_personality_document Fixture.lib
                                           Personality.get_default_maui_personality = Ok d
    /\ complete_Personality d.
Proof.
  destruct (Personality.parse_personality_document
              Fixture.lib Personality.get_default_maui_personality) as [d |] eqn:E;
    [| vm_compute in E; discriminate].
  exists d. split; [reflexivity |].
  exact (personality_document_complete Fixture.lib _ d E).
Defined.

(** X18.  What [parse_personality_document] raises is a [ValueError],
    whatever the content is: the model of the document never refuses what
    the parser hands to it.  A content that does not start with three
    dashes is refused for its frontmatter. *)
Theorem personality_errors :
  (forall lib content e,
      Personality.parse_personality_document lib content = Raise e ->
      exists msg, e = ValueError msg)
  /\ (forall lib content,
         Py.startswith (L "---") content = false ->
         Personality.parse_personality_document lib content
         = Raise (ValueError (L "Missing or malformed frontmatter"))).
Proof.
  split.
  - apply parse_personality_raises.
  - intros lib content H. unfold Personality.parse_personality_document.
    now rewrite personality_frontmatter_absent.
Qed.

Lemma personality_errors_witness :
  Personality.parse_personality_document Fixture.lib (lines ["# Identity"; "You are Maui."])
  = Raise (ValueError (L "Missing or malformed frontmatter")).
Proof.
  destruct personality_errors as [_ H]. apply H. reflexivity.
Defined.

(** ** The sections of a personality document *)

Section PersonalitySections.
Import Re ReNotions ReFacts ReMore ReCalc Personality.

(** A lazy plus of a one-character matcher, in a group and followed by
    [K]: when [K] fails inside the run and matches after it, the group
    first holds the run. *)
Lemma first_lazy_plus_group fl n cs K st c w tail y :
  m_rest st = (c :: w) ++ tail ->
  Forall (fun c => cmatch fl cs c = true) (c :: w) ->
  (forall x j, j < length w -> m_rest x = drop j w ++ tail -> rmatch fl K x = []) ->
  first_match fl K (MState (prev_after (m_prev st) (c :: w)) (m_pos st + length (c :: w))
                           tail ((n, (m_pos st, c :: w)) :: m_caps st)) = Some y ->
  first_match fl (Seq (Group n (Plus false (Chr cs))) K) st = Some y.
Proof.
  intros Hr Hall Hfail Hy. inversion Hall as [|c' w' Hc Hw]; subst.
  unfold first_match. rewrite rmatch_seq.
  change (rmatch fl (Group n (Plus false (Chr cs))) st)
    with (map (set_cap n st) (rmatch fl (Seq (Chr cs) (Star false (Chr cs))) st)).
  rewrite rmatch_seq.
  change (rmatch fl (Chr cs) st)
    with (match m_rest st with
          | c :: rest => if cmatch fl cs c then [advance c rest st] else []
          | [] => []
          end).
  rewrite Hr. cbn [app]. rewrite Hc. cbn [flat_map]. rewrite app_nil_r, flat_map_map.
  apply (lazy_run_first fl n cs K st w (advance c (w ++ tail) st) tail y eq_refl Hw Hfail).
  replace (gone_over (advance c (w ++ tail) st) w tail) with (gone_over st (c :: w) tail)
    by (unfold gone_over, advance, prev_after; simpl; f_equal; lia).
  rewrite set_cap_gone_over by exact Hr. exact Hy.
Qed.

Lemma eol_inside x c r : m_rest x = c :: r -> c <> nl -> rmatch MULTILINE Eol x = [].
Proof.
  intros Hr Hc. cbn [rmatch]. unfold at_eol. rewrite Hr.
  destruct (Py.ascii_eqb c nl) eqn:E; [apply Ascii.eqb_eq in E; congruence | reflexivity].
Qed.

Lemma in_drop (w : str) j a r : drop j w = a :: r -> In a w.
Proof.
  intros E. rewrite <- (take_drop j w), E. apply in_or_app. right. now left.
Qed.

(** The heading of a section at the start of a line is read with its
    name, up to the end of the line. *)
Lemma section_heading_first prev pos n T :
  n <> [] -> stripped n -> ~ In nl n -> prev = None \/ prev = Some nl ->
  exists x,
    first_match MULTILINE section_pattern (MState prev pos (L "# " ++ n ++ nl :: T) [])
    = Some x
    /\ m_rest x = nl :: T /\ m_pos x = pos + 2 + length n
    /\ group_str (ReMatch pos x) 1 = n.
Proof.
  intros Hne Hs Hnl Hp.
  destruct (stripped_ends n Hs Hne) as ((c & t & -> & Hc) & _).
  set (st := MState prev pos (L "# " ++ (c :: t) ++ nl :: T) []).
  assert (HB : first_match MULTILINE Bol st = Some st).
  { unfold first_match. cbn [rmatch]. unfold at_bol. cbn [st m_prev].
    destruct Hp as [-> | ->]; reflexivity. }
  unfold section_pattern. cbn [Seqs]. eexists. split; [| split; [| split]].
  - eapply first_seq; [exact HB |].
    eapply first_seq; [unfold Pat.ch; rewrite first_chr; reflexivity |].
    eapply first_seq; [apply first_sp_plus_space; [reflexivity | exact Hc] |].
    unfold Pat.dot.
    apply (first_lazy_plus_group MULTILINE 1 (One AAny) Eol _ c t (nl :: T)).
    + reflexivity.
    + apply Forall_forall. intros a Ha. apply list_elem_of_In in Ha.
      cbn [cmatch amatch dotall MULTILINE orb].
      destruct (Py.ascii_eqb a nl) eqn:E; [| reflexivity].
      apply Ascii.eqb_eq in E. subst a. contradiction.
    + intros x j Hj Hx. destruct (drop j t) as [|a r] eqn:Ed.
      * apply (f_equal (@length ascii)) in Ed. rewrite length_drop in Ed. simpl in Ed. lia.
      * apply (eol_inside x a (r ++ nl :: T)); [rewrite Hx; reflexivity |].
        intros ->. apply Hnl. right. eapply in_drop. exact Ed.
    + unfold first_match. cbn [rmatch]. unfold at_eol. cbn [m_rest]. reflexivity.
  - reflexivity.
  - cbn [m_pos st gone_over advance length]. lia.
  - reflexivity.
Qed.

(** No heading is read but at the start of a line, at a hash that white
    space follows. *)
Lemma section_pattern_fails prev pos rest :
  match rest with
  | [] => True
  | c :: r =>
      line_start prev = false \/ c <> "#"%char
      \/ match r with d :: _ => Py.isspace d = false | [] => True end
  end ->
  match_at MULTILINE section_pattern (MState prev pos rest []) = None.
Proof.
  intros H. rewrite match_at_first. unfold section_pattern. cbn [Seqs].
  unfold first_match. rewrite rmatch_seq.
  assert (HB : rmatch MULTILINE Bol (MState prev pos rest [])
               = if line_start prev then [MState prev pos rest []] else []).
  { cbn [rmatch]. unfold at_bol, line_start. cbn [m_prev]. destruct prev; reflexivity. }
  rewrite HB. destruct (line_start prev) eqn:Hl; [| reflexivity].
  cbn [flat_map]. rewrite app_nil_r.
  rewrite rmatch_seq, rmatch_ch by reflexivity. cbn [m_rest].
  destruct rest as [|c r]; [reflexivity |].
  destruct (Py.ascii_eqb "#" c) eqn:E; [| reflexivity].
  apply Ascii.eqb_eq in E. subst c. destruct H as [H | [H | H]]; try congruence.
  cbn [flat_map]. rewrite app_nil_r. rewrite rmatch_seq_none; [reflexivity |].
  apply sp_plus_none. exact H.
Qed.

Lemma section_pattern_fails_inside rest : forall w prev pos j,
    no_heading_line prev w = true -> j < length w ->
    match_at MULTILINE section_pattern
             (MState (prev_after prev (take j w)) pos (drop j w ++ rest) []) = None.
Proof.
  induction w as [|c w IH]; intros prev pos j Hw Hj; [simpl in Hj; lia |].
  cbn [no_heading_line] in Hw. apply andb_true_iff in Hw as [Hc Hw].
  destruct j as [|j].
  - cbn [take drop prev_after fold_left app]. apply section_pattern_fails.
    apply negb_true_iff in Hc.
    destruct (line_start prev); [| now left]. right.
    destruct (Py.ascii_eqb "#" c) eqn:E.
    + right. cbn [andb] in Hc. destruct w as [|d w']; [discriminate |]. exact Hc.
    + left. intros ->. cbn in E. discriminate.
  - cbn [take drop]. apply (IH (Some c) pos j Hw). simpl in Hj. lia.
Qed.

(** The search goes over a text in which the pattern matches nowhere. *)
Lemma finditer_at_skip_run fl r rest : forall w prev pos,
    (forall j pos', j < length w ->
                    match_at fl r (MState (prev_after prev (take j w)) pos'
                                          (drop j w ++ rest) []) = None) ->
    finditer_at fl r prev pos (w ++ rest)
    = finditer_at fl r (prev_after prev w) (pos + length w) rest.
Proof.
  induction w as [|c w IH]; intros prev pos H.
  - cbn [app length prev_after fold_left]. now rewrite Nat.add_0_r.
  - cbn [app]. rewrite finditer_at_skip by (apply (H 0 pos); simpl; lia).
    rewrite IH.
    + unfold prev_after. cbn [fold_left length]. f_equal. lia.
    + intros j q' Hj. apply (H (S j) q'). simpl. lia.
Qed.

Lemma prev_after_lines prev (w : str) :
  whole_lines w -> prev = None \/ prev = Some nl ->
  prev_after prev w = None \/ prev_after prev w = Some nl.
Proof.
  intros [-> | (b & ->)] Hp; [exact Hp |].
  right. unfold prev_after. now rewrite fold_left_app.
Qed.

Lemma strip_lead (ws s : str) :
  Forall (fun c => Py.isspace c = true) ws -> Py.strip (ws ++ s) = Py.strip s.
Proof.
  intros H. unfold Py.strip, Py.lstrip. now rewrite drop_while_all.
Qed.

Lemma slice_middle (P Q R : str) :
  Py.slice (P ++ Q ++ R) (length P) (length P + length Q) = Q.
Proof.
  unfold Py.slice. rewrite drop_app_length.
  replace (length P + length Q - length P) with (length Q) by lia.
  apply take_app_length.
Qed.

(** The sections that stand one after the other are found each at its
    heading, and each is filed under its name with its body, stripped. *)
Lemma sections_found content : forall secs done prev acc,
    prev = None \/ prev = Some nl ->
    Forall readable_section secs ->
    content = done ++ concat (map section_block secs) ->
    sections_of content
                (finditer_at MULTILINE section_pattern prev (length done)
                             (concat (map section_block secs))) acc
    = fold_left (fun acc sec => dict_set (fst sec) (Py.strip (snd sec)) acc) secs acc
    /\ match finditer_at MULTILINE section_pattern prev (length done)
                         (concat (map section_block secs)) with
       | m :: _ => mt_start m = length done
       | [] => secs = []
       end.
Proof.
  induction secs as [|[n body] secs IH]; intros done prev acc Hp Hall Hc.
  - cbn [map concat]. rewrite finditer_at_unfold, search_from_end.
    rewrite section_pattern_fails by exact I. split; reflexivity.
  - inversion Hall as [|s0 l0 (Hne & Hs & Hnl & Hb & Hl) Hsecs]; subst s0 l0.
    cbn [fst snd] in *. cbn [map concat].
    set (B := concat (map section_block secs)) in *.
    unfold section_block at 1 2. cbn [fst snd].
    replace ((L "# " ++ n ++ [nl] ++ body) ++ B) with (L "# " ++ n ++ nl :: (body ++ B))
      by (rewrite <- !app_assoc; reflexivity).
    destruct (section_heading_first prev (length done) n (body ++ B) Hne Hs Hnl Hp)
      as (x & Hx & Hr & Hpos & Hg).
    rewrite finditer_at_unfold.
    rewrite (search_from_here _ _ _ _ _ (ReMatch (length done) x))
      by (rewrite match_at_first; cbn [m_pos]; now rewrite Hx).
    cbv zeta. cbn [mt_start mt_final].
    replace (length done <? m_pos x) with true by (symmetry; apply Nat.ltb_lt; lia).
    rewrite Hr. change (nl :: body ++ B) with ((nl :: body) ++ B).
    rewrite finditer_at_skip_run.
    2:{ intros j q' Hj. destruct j as [|j].
        - apply section_pattern_fails. right. left. discriminate.
        - cbn [take drop]. apply (section_pattern_fails_inside B body (Some nl)); [exact Hb |].
          simpl in Hj. lia. }
    set (done' := done ++ L "# " ++ n ++ [nl] ++ body).
    assert (Hlen : m_pos x + length (nl :: body) = length done').
    { unfold done'. rewrite Hpos. rewrite ?length_app. simpl. rewrite ?length_app.
      simpl. lia. }
    assert (Hprev : prev_after (m_prev x) (nl :: body) = Some nl).
    { destruct Hl as [-> | (b & ->)]; [reflexivity |].
      unfold prev_after. change (nl :: b ++ [nl]) with ((nl :: b) ++ [nl]).
      now rewrite fold_left_app. }
    rewrite Hlen, Hprev.
    assert (Hc' : content = done' ++ B).
    { unfold done', B. rewrite Hc. cbn [map concat].
      change (section_block (n, body)) with (L "# " ++ n ++ [nl] ++ body).
      rewrite <- !app_assoc. reflexivity. }
    destruct (IH done' (Some nl) (dict_set n (Py.strip body) acc)
                 (or_intror eq_refl) Hsecs Hc') as [IH1 IH2].
    split; [| reflexivity].
    cbn [sections_of]. rewrite Hg, Hs.
    assert (Hend : match finditer_at MULTILINE section_pattern (Some nl) (length done') B with
                   | next :: _ => mt_start next
                   | [] => length content
                   end = length done').
    { destruct (finditer_at MULTILINE section_pattern (Some nl) (length done') B).
      - subst secs. rewrite Hc'. unfold B. cbn [map concat]. now rewrite app_nil_r.
      - exact IH2. }
    rewrite Hend.
    replace (Py.slice content (mt_end (ReMatch (length done) x)) (length done'))
      with (nl :: body).
    + change (nl :: body) with ([nl] ++ body).
      rewrite (strip_lead [nl] body) by (repeat constructor). exact IH1.
    + unfold mt_end. cbn [mt_final]. rewrite Hpos.
      replace content with ((done ++ L "# " ++ n) ++ (nl :: body) ++ B).
      * replace (length done + 2 + length n) with (length (done ++ L "# " ++ n))
          by (rewrite ?length_app; simpl; rewrite ?length_app; simpl; lia).
        replace (length done') with (length (done ++ L "# " ++ n) + length (nl :: body))
          by (unfold done'; rewrite ?length_app; simpl; rewrite ?length_app; simpl; lia).
        now rewrite slice_middle.
      * rewrite Hc'. unfold done'. rewrite <- !app_assoc. reflexivity.
Qed.

Lemma personality_sections_found pre secs :
  no_heading_line None pre = true -> whole_lines pre ->
  Forall readable_section secs ->
  _parse_sections (pre ++ concat (map section_block secs))
  = fold_left (fun acc sec => dict_set (fst sec) (Py.strip (snd sec)) acc) secs [].
Proof.
  intros Hpre Hl Hall. unfold _parse_sections. rewrite finditer_is_at.
  rewrite finditer_at_skip_run
    by (intros j q' Hj; now apply section_pattern_fails_inside).
  cbn [Nat.add].
  apply (sections_found (pre ++ concat (map section_block secs)) secs pre
                        (prev_after None pre) []); [| exact Hall | reflexivity].
  apply prev_after_lines; [exact Hl | now left].
Qed.

End PersonalitySections.

(** X19.  How the personality parser reads the sections of a document.
    For sections that stand one after the other, each with its heading
    [# name] on a line and a body of whole lines, [_parse_sections] files
    every body, stripped, under its name, in the order of the document; a
    name that comes again replaces the content filed before.  What stands
    before the first heading is left out.  Lines that start with several
    hashes are no headings of a section: they stay in the body.  This
    holds for names on one line, not empty and without white space around
    them, and for bodies in which no line starts with a hash that white
    space follows. *)
Theorem personality_sections_read pre secs :
  no_heading_line None pre = true -> whole_lines pre ->
  Forall readable_section secs ->
  Personality._parse_sections (pre ++ concat (map section_block secs))
  = fold_left (fun acc sec => dict_set (fst sec) (Py.strip (snd sec)) acc) secs [].
Proof.
  intros Hpre Hl Hall. now apply personality_sections_found.
Qed.

Lemma personality_sections_read_witness :
  Personality._parse_sections
    (lines ["Notes."; "# Identity"; ""; "You are Maui."; "## Role"; "A helper."; "";
            "# Boundaries"; "Be kind."; "# Identity"; "You are Maui again."])
  = [(L "Identity", L "You are Maui again."); (L "Boundaries", L "Be kind.")].
Proof.
  apply (personality_sections_read
           (lines ["Notes."])
           [(L "Identity", lines [""; "You are Maui."; "## Role"; "A helper."; ""]);
            (L "Boundaries", lines ["Be kind."]);
            (L "Identity", lines ["You are Maui again."])]).
  - reflexivity.
  - right. exists (L "Notes."). reflexivity.
  - constructor; [| constructor; [| constructor; [| constructor]]].
    + split; [discriminate |]. split; [reflexivity |].
      split; [cbn; intuition discriminate |]. split; [reflexivity |].
      right. exists (lines [""; "You are Maui."; "## Role"; "A helper."]). reflexivity.
    + split; [discriminate |]. split; [reflexivity |].
      split; [cbn; intuition discriminate |]. split; [reflexivity |].
      right. exists (L "Be kind."). reflexivity.
    + split; [discriminate |]. split; [reflexivity |].
      split; [cbn; intuition discriminate |]. split; [reflexivity |].
      right. exists (L "You are Maui again."). reflexivity.
Defined.

(** X20.  The default personality that the module ships is a personality
    document for its own parser: [parse_personality_document] accepts
    what [get_default_maui_personality] returns, with the name Maui, the
    type Personality, the four required sections and the optional one, in
    the order of the template, none of them empty. *)
Theorem default_personality_accepted (lib : Library) :
  exists d,
    Personality.parse_personality_document lib Personality.get_default_maui_personality
    = Ok d
    /\ Personality.name d = L "Maui"
    /\ Personality.document_type d = L "Personality"
    /\ map fst (Personality.sections d)
       = Personality.REQUIRED_SECTIONS ++ Personality.OPTIONAL_SECTIONS
    /\ Forall (fun kv => snd kv <> []) (Personality.sections d).
Proof.
  destruct (Personality.parse_personality_document
              lib Personality.get_default_maui_personality) as [d |] eqn:E;
    vm_compute in E; [| discriminate].
  injection E as <-. eexists. split; [reflexivity |].
  split; [reflexivity |]. split; [reflexivity |]. split; [reflexivity |].
  repeat constructor; discriminate.
Qed.

(** * The operations written and read back *)

(** ** Numbers written and read back *)

Lemma digits_fold (d : Decimal.uint) : forall acc,
    fold_left (fun a c => 10 * a + Py.digit_val c) (L (NilEmpty.string_of_uint d)) acc
    = Nat.of_uint_acc d acc.
Proof.
  induction d; intros acc; cbn [NilEmpty.string_of_uint L list_ascii_of_string
                                 fold_left Nat.of_uint_acc];
    try reflexivity; rewrite IHd; f_equal; rewrite Nat.tail_mul_spec;
    unfold Py.digit_val; simpl; lia.
Qed.

Lemma digits_are_digits (d : Decimal.uint) :
  Forall (fun c => Py.isdigit c = true) (L (NilEmpty.string_of_uint d)).
Proof.
  induction d; cbn [NilEmpty.string_of_uint L list_ascii_of_string];
    constructor; try reflexivity; assumption.
Qed.

(** [int(str(n))] is [n], and [str(n)] is a run of digits that is not
    empty. *)
Lemma int_of_str (n : nat) :
  Py.int_of_digits (Py.str_of_nat n) = n
  /\ Forall (fun c => Py.isdigit c = true) (Py.str_of_nat n)
  /\ Py.str_of_nat n <> [].
Proof.
  unfold Py.int_of_digits, Py.str_of_nat, NilZero.string_of_uint.
  pose proof (DecimalNat.Unsigned.of_to n) as Hn. unfold Nat.of_uint in Hn.
  destruct (Nat.to_uint n) as [| d | d | d | d | d | d | d | d | d | d] eqn:E;
    (split; [| split; [| discriminate]]);
    try (rewrite digits_fold; exact Hn);
    try apply digits_are_digits.
  - simpl in Hn. simpl. exact Hn.
  - repeat constructor.
Qed.

(** ** What the writer writes for the operations *)

Lemma join_groups_app sep (R T : str) (rest : list str) :
  (forall y, Text.join sep (y :: rest) = y ++ T) ->
  forall g x, Text.join sep ((x :: g) ++ rest) = Text.join sep (x :: g) ++ T.
Proof.
  intros H. induction g as [|y g IH]; intros x.
  - cbn [app]. rewrite H. reflexivity.
  - change (Text.join sep ((x :: y :: g) ++ rest))
      with (x ++ sep ++ Text.join sep ((y :: g) ++ rest)).
    rewrite IH, join_cons, <- !app_assoc. reflexivity.
Qed.

(** Lines that come in groups, some of them empty, joined after a first
    line. *)
Lemma join_groups sep : forall (gs : list (list str)) h,
    Text.join sep (h :: concat gs)
    = h ++ concat (map (fun g => match g with
                                 | [] => []
                                 | _ :: _ => sep ++ Text.join sep g
                                 end) gs).
Proof.
  induction gs as [|g gs IH]; intros h.
  - cbn [concat map Text.join]. now rewrite app_nil_r.
  - cbn [concat map]. destruct g as [|x g].
    + cbn [app]. apply IH.
    + change (Text.join sep (h :: (x :: g) ++ concat gs))
        with (h ++ sep ++ Text.join sep ((x :: g) ++ concat gs)).
      rewrite (join_groups_app sep [] _ (concat gs) IH g x).
      rewrite <- !app_assoc. reflexivity.
Qed.

Lemma join_snoc_empty sep (x : str) (l : list str) :
  Text.join sep (x :: l ++ [[]]) = Text.join sep (x :: l) ++ sep.
Proof.
  revert x. induction l as [|y l IH]; intros x.
  - cbn [app Text.join]. now rewrite app_nil_r.
  - change (Text.join sep (x :: (y :: l) ++ [[]]))
      with (x ++ sep ++ Text.join sep (y :: l ++ [[]])).
    rewrite IH, join_cons, <- !app_assoc. reflexivity.
Qed.

Lemma list_lines_text (word : string) (e : str) (es : list str) :
  Text.join [Re.nl] (Writer.list_lines ("### " ++ word) (e :: es))
  = sub_block (word, map bullet_line (e :: es)) ++ [Re.nl].
Proof.
  unfold Writer.list_lines, sub_block. cbn [fst snd].
  change (map (fun item => L "- " ++ item) (e :: es)) with (map bullet_line (e :: es)).
  cbn [map]. change ((bullet_line e :: map bullet_line es) ++ [[]])
    with (bullet_line e :: map bullet_line es ++ [[]]).
  rewrite join_cons, join_snoc_empty.
  replace (L ("### " ++ word)) with (L "### " ++ L word) by reflexivity.
  rewrite <- !app_assoc. reflexivity.
Qed.

Lemma serialize_steps_text (s : Step) (ss : list Step) :
  Writer._serialize_steps (s :: ss)
  = sub_block ("Steps"%string, map Writer.step_line (s :: ss)) ++ [Re.nl].
Proof.
  unfold Writer._serialize_steps, sub_block. cbn [fst snd map].
  rewrite join_cons, <- !app_assoc. reflexivity.
Qed.

Lemma serialize_checklist_text (i : str) (is_ : list str) :
  Writer._serialize_checklist (Some {| items := i :: is_ |})
  = sub_block ("Checklist"%string, map bullet_line (i :: is_)) ++ [Re.nl].
Proof.
  unfold Writer._serialize_checklist, sub_block. cbn [items fst snd map].
  change (map (fun item => L "- " ++ item) is_) with (map bullet_line is_).
  change (L "- " ++ i) with (bullet_line i).
  rewrite join_cons, <- !app_assoc. reflexivity.
Qed.

Lemma parts_text : forall (ps : list (string * list str)) p,
    concat (map (fun q => [Re.nl] ++ sub_block q ++ [Re.nl]) (p :: ps))
    = Re.nl :: Text.join [Re.nl; Re.nl] (map sub_block (p :: ps)) ++ [Re.nl].
Proof.
  induction ps as [|q ps IH]; intros p.
  - cbn [map concat Text.join app]. now rewrite app_nil_r.
  - change (map ?f (p :: q :: ps)) with (f p :: map f (q :: ps)).
    cbn [concat]. rewrite IH. cbn [map]. rewrite join_cons.
    cbn [app]. rewrite <- !app_assoc. reflexivity.
Qed.

(** What the writer writes for an operation whose checklist, if it has
    one, is not empty. *)
Lemma serialize_operation_text (o : Operation) :
  match op_checklist o with
  | Some c => items c <> []
  | None => True
  end ->
  Writer._serialize_operation o = operation_text o.
Proof.
  intros Hc. unfold Writer._serialize_operation, operation_text, operation_tail.
  set (h := L "## " ++ op_name o ++ [Re.nl]).
  set (G1 := Writer.list_lines "### Inputs" (op_inputs o)).
  set (G2 := Writer.list_lines "### Outputs" (op_outputs o)).
  set (G3 := match op_steps o with [] => [] | s :: ss => [Writer._serialize_steps (s :: ss)] end).
  set (G4 := match op_checklist o with
             | Some c => [Writer._serialize_checklist (Some c)]
             | None => []
             end).
  assert (Hlines :
            (let lines := [h] in
             let lines := lines ++ G1 in
             let lines := lines ++ G2 in
             let lines := match op_steps o with
                          | [] => lines
                          | s :: ss => lines ++ [Writer._serialize_steps (s :: ss)]
                          end in
             let lines := match op_checklist o with
                          | Some c => lines ++ [Writer._serialize_checklist (Some c)]
                          | None => lines
                          end in
             lines) = h :: concat [G1; G2; G3; G4]).
  { cbv zeta. unfold G3, G4. cbn [concat].
    destruct (op_steps o), (op_checklist o); cbn [app];
      rewrite ?app_nil_r, <- ?app_assoc; reflexivity. }
  cbv zeta in Hlines. cbv zeta.
  change (Text.join [Re.nl] ?l) with (Text.join [Re.nl] l).
  etransitivity; [apply (f_equal (Text.join [Re.nl])); exact Hlines |].
  rewrite join_groups. cbn [map concat]. rewrite app_nil_r.
  assert (HG1 : match G1 with [] => [] | _ :: _ => [Re.nl] ++ Text.join [Re.nl] G1 end
                = match op_inputs o with
                  | [] => []
                  | l => [Re.nl] ++ sub_block ("Inputs"%string, map bullet_line l) ++ [Re.nl]
                  end).
  { unfold G1. destruct (op_inputs o) as [|i is_]; [reflexivity |].
    rewrite <- list_lines_text. reflexivity. }
  assert (HG2 : match G2 with [] => [] | _ :: _ => [Re.nl] ++ Text.join [Re.nl] G2 end
                = match op_outputs o with
                  | [] => []
                  | l => [Re.nl] ++ sub_block ("Outputs"%string, map bullet_line l) ++ [Re.nl]
                  end).
  { unfold G2. destruct (op_outputs o) as [|i is_]; [reflexivity |].
    rewrite <- list_lines_text. reflexivity. }
  assert (HG3 : match G3 with [] => [] | _ :: _ => [Re.nl] ++ Text.join [Re.nl] G3 end
                = match op_steps o with
                  | [] => []
                  | l => [Re.nl] ++ sub_block ("Steps"%string, map Writer.step_line l)
                              ++ [Re.nl]
                  end).
  { unfold G3. destruct (op_steps o) as [|s ss]; [reflexivity |].
    rewrite <- serialize_steps_text. reflexivity. }
  assert (HG4 : match G4 with [] => [] | _ :: _ => [Re.nl] ++ Text.join [Re.nl] G4 end
                = match op_checklist o with
                  | Some c => [Re.nl] ++ sub_block ("Checklist"%string,
                                                    map bullet_line (items c)) ++ [Re.nl]
                  | None => []
                  end).
  { unfold G4. destruct (op_checklist o) as [[[|c cs]] |]; [| | reflexivity].
    - exfalso. apply Hc. reflexivity.
    - cbn [items]. rewrite <- serialize_checklist_text. reflexivity. }
  rewrite HG1, HG2, HG3, HG4.
  unfold operation_content, operation_parts, h.
  destruct (op_inputs o) as [|i is_]; destruct (op_outputs o) as [|u us];
    destruct (op_steps o) as [|s ss]; destruct (op_checklist o) as [[[|c cs]] |];
    try (exfalso; apply Hc; reflexivity);
    cbn [items app map Text.join]; rewrite ?app_nil_r;
    repeat (progress (rewrite <- ?app_assoc; cbn [app])); reflexivity.
Qed.

(** ** Stretches of text in which a pattern matches nowhere *)

Section DeadRuns.
Import Re ReNotions ReFacts ReMore ReCalc.

Lemma prev_after_app prev (a b : str) :
  prev_after prev (a ++ b) = prev_after (prev_after prev a) b.
Proof. unfold prev_after. apply fold_left_app. Qed.

Lemma dead_run_nil fl r prev rest : dead_run fl r prev [] rest.
Proof. intros j pos Hj. simpl in Hj. lia. Qed.

Lemma dead_run_app fl r prev a b rest :
  dead_run fl r prev a (b ++ rest) -> dead_run fl r (prev_after prev a) b rest ->
  dead_run fl r prev (a ++ b) rest.
Proof.
  intros Ha Hb j pos Hj. destruct (Nat.lt_ge_cases j (length a)) as [Hlt | Hge].
  - rewrite take_app_le, drop_app_le by lia. rewrite <- app_assoc. now apply Ha.
  - rewrite take_app_ge, drop_app_ge by lia. rewrite prev_after_app.
    apply Hb. rewrite length_app in Hj. lia.
Qed.

Lemma dead_run_first fl r (P : ascii -> Prop) prev w rest :
  needs_first fl r P -> Forall (fun c => ~ P c) w -> dead_run fl r prev w rest.
Proof.
  intros Hr Hw j pos Hj. apply Hr. destruct (drop j w) as [|c t] eqn:E.
  - apply (f_equal (@length ascii)) in E. rewrite length_drop in E. simpl in E. lia.
  - cbn [app]. rewrite List.Forall_forall in Hw. apply Hw. eapply in_drop. exact E.
Qed.

Lemma finditer_at_dead fl r prev pos w rest :
  dead_run fl r prev w rest ->
  finditer_at fl r prev pos (w ++ rest)
  = finditer_at fl r (prev_after prev w) (pos + length w) rest.
Proof. intros H. apply finditer_at_skip_run. exact H. Qed.

Lemma search_from_dead fl r rest : forall w prev pos,
    dead_run fl r prev w rest ->
    search_from fl r prev pos (w ++ rest)
    = search_from fl r (prev_after prev w) (pos + length w) rest.
Proof.
  induction w as [|c w IH]; intros prev pos H.
  - cbn [app length prev_after fold_left]. now rewrite Nat.add_0_r.
  - cbn [app]. rewrite search_from_next by (apply (H 0 pos); simpl; lia).
    rewrite IH.
    + unfold prev_after. cbn [fold_left length]. f_equal. lia.
    + intros j q' Hj. apply (H (S j) q'). simpl. lia.
Qed.

(** No match in a text that is dead to its end. *)
Lemma search_from_dead_end fl r w prev pos :
  dead_run fl r prev w [] ->
  (forall p q, match_at fl r (MState p q [] []) = None) ->
  search_from fl r prev pos w = None.
Proof.
  intros H He. rewrite <- (app_nil_r w), search_from_dead by exact H.
  rewrite search_from_end. apply He.
Qed.

Lemma finditer_at_dead_end fl r w prev pos :
  dead_run fl r prev w [] ->
  (forall p q, match_at fl r (MState p q [] []) = None) ->
  finditer_at fl r prev pos w = [].
Proof.
  intros H He. rewrite <- (app_nil_r w), finditer_at_dead by exact H.
  rewrite finditer_at_unfold, search_from_end. now rewrite He.
Qed.

Lemma first_seq_bol fl X st :
  first_match fl X st = None -> first_match fl (Seq Bol X) st = None.
Proof.
  intros H. unfold first_match in *. rewrite rmatch_seq.
  assert (HB : rmatch fl Bol st = [st] \/ rmatch fl Bol st = [])
    by (cbn [rmatch]; destruct (at_bol _ _); auto).
  destruct HB as [-> | ->]; cbn [flat_map]; [| reflexivity].
  now rewrite app_nil_r.
Qed.

Lemma first_str_none fl (w : string) c0 ws st :
  ignorecase fl = false -> L w = c0 :: ws ->
  match m_rest st with [] => True | c :: _ => c <> c0 end ->
  first_match fl (Str w) st = None.
Proof.
  intros Hi Hw H. unfold first_match. rewrite rmatch_str by exact Hi. rewrite Hw.
  destruct (m_rest st) as [|c t]; [reflexivity |]. cbn [Py.startswith].
  destruct (Py.ascii_eqb c0 c) eqn:E; [| reflexivity].
  apply Ascii.eqb_eq in E. congruence.
Qed.

Lemma needs_first_str fl (w : string) c0 ws K :
  ignorecase fl = false -> L w = c0 :: ws ->
  needs_first fl (Seq (Str w) K) (fun c => c = c0).
Proof.
  intros Hi Hw prev pos rest H. rewrite match_at_first.
  rewrite first_seq_none; [reflexivity |].
  apply (first_str_none fl w c0 ws _ Hi Hw). cbn [m_rest]. exact H.
Qed.

Lemma needs_first_bol_str fl (w : string) c0 ws K :
  ignorecase fl = false -> L w = c0 :: ws ->
  needs_first fl (Seq Bol (Seq (Str w) K)) (fun c => c = c0).
Proof.
  intros Hi Hw prev pos rest H. rewrite match_at_first.
  rewrite first_seq_bol; [reflexivity |].
  rewrite first_seq_none; [reflexivity |].
  apply (first_str_none fl w c0 ws _ Hi Hw). cbn [m_rest]. exact H.
Qed.

Lemma fence_needs_backtick :
  needs_first DOTALL_MULTILINE Pat.fence (fun c => c = "`"%char).
Proof.
  unfold Pat.fence. cbn [Seqs].
  apply (needs_first_bol_str _ "```" "`"%char (L "``")); reflexivity.
Qed.

Lemma item_heading_needs_hash :
  needs_first MULTILINE Pat.item_heading (fun c => c = "#"%char).
Proof.
  unfold Pat.item_heading. cbn [Seqs].
  apply (needs_first_bol_str _ "##" "#"%char (L "#")); reflexivity.
Qed.

Lemma subsection_needs_hash name :
  needs_first DOTALL (Pat.subsection name) (fun c => c = "#"%char).
Proof.
  unfold Pat.subsection. cbn [Seqs].
  apply (needs_first_str _ "###" "#"%char (L "##")); reflexivity.
Qed.

Lemma checklist_needs_hash :
  needs_first DOTALL Pat.checklist_section (fun c => c = "#"%char).
Proof.
  unfold Pat.checklist_section. cbn [Seqs].
  apply (needs_first_str _ "###" "#"%char (L "##")); reflexivity.
Qed.

Lemma step_needs_digit :
  needs_first no_flags Pat.step_pat (fun c => Py.isdigit c = true).
Proof.
  intros prev pos rest H. rewrite match_at_first. unfold Pat.step_pat. cbn [Seqs].
  rewrite first_seq_none; [reflexivity |].
  rewrite first_group. unfold Plus. rewrite first_seq_none; [reflexivity |].
  unfold Pat.digit. rewrite first_chr. cbn [m_rest].
  destruct rest as [|c t]; [reflexivity |]. cbn [cmatch amatch].
  destruct (Py.isdigit c); [congruence | reflexivity].
Qed.

End DeadRuns.

(** ** The texts of a written operation *)

Section PlainTexts.
Import Re ReNotions ReFacts ReMore ReCalc.

Lemma Forall_join (P : ascii -> Prop) sep (ls : list str) :
  Forall P sep -> Forall (Forall P) ls -> Forall P (Text.join sep ls).
Proof.
  intros Hsep. induction 1 as [|l ls Hl Hls IH]; [constructor |].
  destruct ls as [|l2 ls]; [exact Hl |].
  rewrite join_cons. apply Forall_app. split; [exact Hl |].
  apply Forall_app. split; [exact Hsep | exact IH].
Qed.

Lemma plain_line_chars (P : ascii -> Prop) s :
  (forall c, c <> nl -> c <> "#"%char -> c <> "`"%char -> P c) ->
  plain_line s -> Forall P s.
Proof.
  intros HP (_ & _ & H). eapply List.Forall_impl; [| exact H].
  intros c (H1 & H2 & H3). now apply HP.
Qed.

Lemma plain_line_text s : plain_line s -> Forall text_char s.
Proof. apply plain_line_chars. intros c _ H2 H3. now split. Qed.

Lemma plain_line_no_nl s : plain_line s -> ~ In nl s.
Proof.
  intros (_ & _ & H) Hin. rewrite List.Forall_forall in H.
  destruct (H nl Hin) as (H1 & _). congruence.
Qed.

Lemma bullet_line_plain item : plain_line item -> plain_line (bullet_line item).
Proof.
  intros (Hne & Hs & Hc). unfold bullet_line.
  destruct (stripped_ends item Hs Hne) as (_ & (d & u & Er & Hd)).
  split; [discriminate |]. split.
  - unfold stripped. apply strip_keep; [reflexivity |].
    rewrite rev_app_distr, Er. exact Hd.
  - apply Forall_app. split; [| exact Hc].
    repeat constructor; discriminate.
Qed.

Lemma digit_plain c : Py.isdigit c = true -> c <> nl /\ c <> "#"%char /\ c <> "`"%char.
Proof. intros H. repeat split; intros ->; discriminate. Qed.

Lemma digit_not_space c : Py.isdigit c = true -> Py.isspace c = false.
Proof.
  destruct c as [[] [] [] [] [] [] [] []]; cbn; intros H; try discriminate; reflexivity.
Qed.

Lemma step_line_plain s : writable_Step s -> plain_line (Writer.step_line s).
Proof.
  intros (_ & (Hne & Hs & Hc) & _). unfold Writer.step_line.
  destruct (int_of_str (step_number s)) as (_ & Hd & Hn).
  destruct (stripped_ends _ Hs Hne) as (_ & (d & u & Er & Hdd)).
  destruct (Py.str_of_nat (step_number s)) as [|c0 ds] eqn:E; [congruence |].
  split; [discriminate |]. split.
  - unfold stripped. apply strip_keep.
    + cbn [app]. apply digit_not_space. now inversion Hd.
    + rewrite !rev_app_distr, Er. exact Hdd.
  - apply Forall_app. split.
    + eapply List.Forall_impl; [| exact Hd]. intros c. apply digit_plain.
    + apply Forall_app. split; [| exact Hc]. repeat constructor; discriminate.
Qed.

Lemma Forall_map_plain {A} (f : A -> str) (P : A -> Prop) l :
  (forall a, P a -> plain_line (f a)) -> Forall P l -> Forall plain_line (map f l).
Proof. intros Hf H. apply Forall_map. eapply List.Forall_impl; [| exact H]. exact Hf. Qed.

Lemma operation_parts_plain o :
  writable_Operation o -> Forall plain_part (operation_parts o).
Proof.
  intros (_ & _ & Hi & Ho & Hs & Hc). unfold operation_parts.
  apply Forall_app. split.
  { destruct (op_inputs o) as [|i l]; [constructor |]. constructor; [| constructor].
    split; [cbn; tauto |]. split; [discriminate |].
    apply (Forall_map_plain bullet_line plain_line); [apply bullet_line_plain | exact Hi]. }
  apply Forall_app. split.
  { destruct (op_outputs o) as [|i l]; [constructor |]. constructor; [| constructor].
    split; [cbn; tauto |]. split; [discriminate |].
    apply (Forall_map_plain bullet_line plain_line); [apply bullet_line_plain | exact Ho]. }
  apply Forall_app. split.
  { destruct (op_steps o) as [|i l]; [constructor |]. constructor; [| constructor].
    split; [cbn; tauto |]. split; [discriminate |].
    apply (Forall_map_plain Writer.step_line writable_Step);
      [apply step_line_plain | exact Hs]. }
  destruct (op_checklist o) as [c |]; [| constructor].
  destruct Hc as [Hne Hc]. destruct (items c) as [|i l]; [constructor |].
  constructor; [| constructor].
  split; [cbn; tauto |]. split; [discriminate |].
  apply (Forall_map_plain bullet_line plain_line); [apply bullet_line_plain | exact Hc].
Qed.

Lemma word_text (w : string) :
  In w ["Inputs"; "Outputs"; "Steps"; "Checklist"]%string -> Forall text_char (L w).
Proof.
  intros [<- | [<- | [<- | [<- | []]]]]; repeat constructor; discriminate.
Qed.

Lemma lines_text (ls : list str) :
  Forall plain_line ls -> Forall text_char (Text.join [nl] ls).
Proof.
  intros H. apply Forall_join; [repeat constructor; discriminate |].
  eapply List.Forall_impl; [| exact H]. apply plain_line_text.
Qed.

(** A sub-section is its three hashes and a text without hash and
    backtick. *)
Lemma sub_block_text p :
  plain_part p ->
  exists t, sub_block p = L "###" ++ t /\ Forall text_char t.
Proof.
  intros (Hw & _ & Hl). exists (" "%char :: L (fst p) ++ [nl; nl] ++ Text.join [nl] (snd p)).
  split; [reflexivity |].
  constructor; [split; discriminate |].
  apply Forall_app. split; [now apply word_text |].
  apply Forall_app. split; [repeat constructor; discriminate | now apply lines_text].
Qed.

End PlainTexts.

(** ** The headings of the written operations *)

Section OperationHeadings.
Import Re ReNotions ReFacts ReMore ReCalc.

Lemma text_char_no_hash (t : str) :
  Forall text_char t -> Forall (fun c => ~ c = "#"%char) t.
Proof. apply List.Forall_impl. intros c [H _]. exact H. Qed.

Lemma text_char_no_backtick (t : str) :
  Forall text_char t -> Forall (fun c => ~ c = "`"%char) t.
Proof. apply List.Forall_impl. intros c [_ H]. exact H. Qed.

(** A pattern that needs a hash to start and that does not match at the
    three hashes of a sub-section matches nowhere in the content of an
    operation. *)
Lemma dead_sub_block fl r p prev rest :
  needs_first fl r (fun c => c = "#"%char) ->
  (forall prev rest, dead_run fl r prev (L "###") rest) ->
  plain_part p ->
  dead_run fl r prev (sub_block p) rest.
Proof.
  intros Hf Hm Hp. destruct (sub_block_text p Hp) as (t & -> & Ht).
  apply dead_run_app; [apply Hm |].
  apply (dead_run_first fl r _ _ t rest Hf). now apply text_char_no_hash.
Qed.

Lemma dead_parts fl r :
  needs_first fl r (fun c => c = "#"%char) ->
  (forall prev rest, dead_run fl r prev (L "###") rest) ->
  forall ps prev rest,
    Forall plain_part ps ->
    dead_run fl r prev (Text.join [nl; nl] (map sub_block ps)) rest.
Proof.
  intros Hf Hm. induction ps as [|p ps IH]; intros prev rest Hall.
  - apply dead_run_nil.
  - inversion Hall as [|p0 ps0 Hp Hps]; subst. destruct ps as [|q ps].
    + cbn [map Text.join]. now apply dead_sub_block.
    + cbn [map]. rewrite join_cons. apply dead_run_app; [now apply dead_sub_block |].
      apply dead_run_app.
      * apply (dead_run_first fl r _ _ [nl; nl] _ Hf). repeat constructor; discriminate.
      * apply IH. exact Hps.
Qed.

(** The same of the tail of a written operation, and of the newline that
    separates it from the next operation. *)
Lemma dead_tail fl r o prev sep rest :
  needs_first fl r (fun c => c = "#"%char) ->
  (forall prev rest, dead_run fl r prev (L "###") rest) ->
  writable_Operation o ->
  sep = [] \/ sep = [nl] ->
  dead_run fl r prev (operation_tail o ++ sep) rest.
Proof.
  intros Hf Hm Ho Hsep. pose proof (operation_parts_plain o Ho) as Hp.
  assert (Hnl : forall p q s, Forall (fun c => ~ c = "#"%char) s -> dead_run fl r p s q)
    by (intros p q s Hs; now apply (dead_run_first fl r _ p s q Hf)).
  apply dead_run_app.
  - unfold operation_tail. apply dead_run_app; [apply Hnl; repeat constructor; discriminate |].
    unfold operation_content. destruct (operation_parts o) as [|p ps] eqn:E.
    + apply dead_run_nil.
    + change (nl :: Text.join [nl; nl] (map sub_block (p :: ps)) ++ [nl])
        with ([nl] ++ Text.join [nl; nl] (map sub_block (p :: ps)) ++ [nl]).
      apply dead_run_app; [apply Hnl; repeat constructor; discriminate |].
      apply dead_run_app; [now apply dead_parts |].
      apply Hnl. repeat constructor; discriminate.
  - destruct Hsep as [-> | ->]; [apply dead_run_nil |].
    apply Hnl. repeat constructor; discriminate.
Qed.

Lemma item_heading_not_bol prev pos rest :
  line_start prev = false ->
  match_at MULTILINE Pat.item_heading (MState prev pos rest []) = None.
Proof.
  intros H. rewrite match_at_first. unfold Pat.item_heading. cbn [Seqs].
  unfold first_match. rewrite rmatch_seq.
  replace (rmatch MULTILINE Bol (MState prev pos rest [])) with (@nil mstate); [reflexivity |].
  cbn [rmatch]. unfold at_bol. cbn [m_prev]. unfold line_start in H.
  destruct prev as [c |]; [| discriminate]. cbn [multiline MULTILINE andb]. now rewrite H.
Qed.

Lemma item_heading_three_hashes prev pos rest :
  match_at MULTILINE Pat.item_heading
           (MState prev pos ("#"%char :: "#"%char :: "#"%char :: rest) []) = None.
Proof.
  rewrite match_at_first. unfold Pat.item_heading. cbn [Seqs].
  rewrite first_seq_bol; [reflexivity |].
  unfold first_match. rewrite rmatch_seq, rmatch_str by reflexivity.
  cbn [m_rest L list_ascii_of_string Py.startswith].
  replace (Py.ascii_eqb "#" "#") with true by reflexivity.
  cbn [andb flat_map]. rewrite app_nil_r, rmatch_seq_none; [reflexivity |].
  apply sp_plus_none. reflexivity.
Qed.

Lemma item_heading_marker prev rest :
  dead_run MULTILINE Pat.item_heading prev (L "###") rest.
Proof.
  intros j pos Hj. cbn [L list_ascii_of_string length] in Hj.
  destruct j as [|[|[|j]]]; [| | | lia].
  - apply (item_heading_three_hashes prev pos rest).
  - apply item_heading_not_bol. reflexivity.
  - apply item_heading_not_bol. reflexivity.
Qed.

Lemma not_nl_class fl (w : str) :
  ignorecase fl = false -> ~ In nl w ->
  Forall (fun c => cmatch fl (NoneOf [AChar nl]) c = true) w.
Proof.
  intros Hi Hno. apply Forall_forall. intros c Hc. apply list_elem_of_In in Hc.
  cbn [cmatch existsb amatch]. rewrite Hi, orb_false_r.
  destruct (Py.ascii_eqb nl c) eqn:E; [| reflexivity].
  apply Ascii.eqb_eq in E. subst c. contradiction.
Qed.

(** The heading of a written operation at the start of a line is read
    with its name. *)
Lemma operation_heading_first prev pos n T :
  plain_line n -> line_start prev = true ->
  exists x,
    first_match MULTILINE Pat.item_heading (MState prev pos (L "## " ++ n ++ nl :: T) [])
    = Some x
    /\ m_rest x = nl :: T /\ m_pos x = pos + 3 + length n
    /\ m_prev x = prev_after None n
    /\ group_str (ReMatch pos x) 1 = n.
Proof.
  intros Hn Hp. pose proof (plain_line_no_nl n Hn) as Hnl.
  destruct Hn as (Hne & Hs & _).
  destruct (stripped_ends n Hs Hne) as ((c & t & -> & Hc) & _).
  set (st := MState prev pos (L "## " ++ (c :: t) ++ nl :: T) []).
  assert (HB : first_match MULTILINE Bol st = Some st).
  { unfold first_match. cbn [rmatch]. unfold at_bol. cbn [st m_prev].
    unfold line_start in Hp. destruct prev as [p |]; [| reflexivity].
    cbn [multiline MULTILINE andb]. now rewrite Hp. }
  unfold Pat.item_heading. cbn [Seqs]. eexists. split; [| split; [| split; [| split]]].
  - eapply first_seq; [exact HB |].
    eapply first_seq.
    { unfold first_match. rewrite rmatch_str by reflexivity. reflexivity. }
    eapply first_seq; [apply first_sp_plus_space; [reflexivity | exact Hc] |].
    unfold Pat.not_nl.
    apply (first_group_plus_run MULTILINE 1 (NoneOf [AChar nl]) c t _ (nl :: T)).
    + reflexivity.
    + now apply not_nl_class.
    + reflexivity.
  - reflexivity.
  - cbn [m_pos st gone_over advance length L list_ascii_of_string]. lia.
  - cbn [m_prev]. unfold prev_after. cbn [fold_left]. reflexivity.
  - reflexivity.
Qed.

End OperationHeadings.

Section OperationsFound.
Import Re ReNotions ReFacts ReMore ReCalc.

Lemma operation_text_length o :
  length (operation_text o) = 3 + length (op_name o) + length (operation_tail o).
Proof. unfold operation_text. rewrite !length_app. reflexivity. Qed.

Lemma operation_tail_cons o : exists t, operation_tail o = nl :: t.
Proof. eexists. reflexivity. Qed.

Lemma item_heading_at_end p q :
  match_at MULTILINE Pat.item_heading (MState p q [] []) = None.
Proof. apply item_heading_needs_hash. exact I. Qed.

(** The headings of the written operations are found, each where its
    operation starts, and no other heading is. *)
Lemma headings_found : forall ops o prev pos,
    line_start prev = true -> Forall writable_Operation (o :: ops) ->
    map (fun hm => (mt_start hm, group_str hm 1))
        (finditer_at MULTILINE Pat.item_heading prev pos
                     (Text.join [nl] (map operation_text (o :: ops))))
    = op_starts pos (o :: ops).
Proof.
  induction ops as [|o' ops IH]; intros o prev pos Hp Hall;
    inversion Hall as [|o0 l0 Ho Hops]; subst o0 l0.
  - cbn [map Text.join op_starts]. destruct (operation_tail_cons o) as (t & Et).
    unfold operation_text. rewrite Et.
    destruct (operation_heading_first prev pos (op_name o) t (proj1 Ho) Hp)
      as (x & Hx & Hr & Hpos & _ & Hg).
    rewrite finditer_at_unfold.
    rewrite (search_from_here _ _ _ _ _ (ReMatch pos x))
      by (rewrite match_at_first; cbn [m_pos]; now rewrite Hx).
    cbv zeta. cbn [mt_start mt_final].
    replace (pos <? m_pos x) with true by (symmetry; apply Nat.ltb_lt; lia).
    rewrite Hr, <- Et. cbn [map]. rewrite Hg. f_equal.
    rewrite finditer_at_dead_end; [reflexivity | | apply item_heading_at_end].
    rewrite <- (app_nil_r (operation_tail o)).
    apply dead_tail; [apply item_heading_needs_hash | apply item_heading_marker
                      | exact Ho | now left].
  - cbn [map]. rewrite join_cons. cbn [op_starts].
    set (Rest := Text.join [nl] (operation_text o' :: map operation_text ops)).
    destruct (operation_tail_cons o) as (t & Et).
    unfold operation_text at 1. rewrite Et.
    replace ((L "## " ++ op_name o ++ nl :: t) ++ [nl] ++ Rest)
      with (L "## " ++ op_name o ++ nl :: (t ++ [nl] ++ Rest))
      by (rewrite <- !app_assoc; reflexivity).
    destruct (operation_heading_first prev pos (op_name o) (t ++ [nl] ++ Rest) (proj1 Ho) Hp)
      as (x & Hx & Hr & Hpos & _ & Hg).
    rewrite finditer_at_unfold.
    rewrite (search_from_here _ _ _ _ _ (ReMatch pos x))
      by (rewrite match_at_first; cbn [m_pos]; now rewrite Hx).
    cbv zeta. cbn [mt_start mt_final].
    replace (pos <? m_pos x) with true by (symmetry; apply Nat.ltb_lt; lia).
    rewrite Hr. cbn [map]. rewrite Hg. f_equal.
    replace (nl :: t ++ [nl] ++ Rest) with ((operation_tail o ++ [nl]) ++ Rest)
      by (rewrite Et, <- !app_assoc; reflexivity).
    rewrite finditer_at_dead
      by (apply dead_tail; [apply item_heading_needs_hash | apply item_heading_marker
                            | exact Ho | now right]).
    rewrite prev_after_app.
    replace (m_pos x + length (operation_tail o ++ [nl]))
      with (pos + length (operation_text o) + 1)
      by (rewrite Hpos, operation_text_length, length_app; simpl; lia).
    apply (IH o' (prev_after (prev_after (m_prev x) (operation_tail o)) [nl])
              (pos + length (operation_text o) + 1)); [reflexivity | exact Hops].
Qed.

Lemma operation_text_no_backtick o :
  writable_Operation o -> Forall (fun c => ~ c = "`"%char) (operation_text o).
Proof.
  intros Ho. pose proof (operation_parts_plain o Ho) as Hp.
  unfold operation_text, operation_tail, operation_content.
  apply Forall_app. split; [repeat constructor; discriminate |].
  apply Forall_app. split.
  { apply text_char_no_backtick, plain_line_text. exact (proj1 Ho). }
  constructor; [discriminate |].
  destruct (operation_parts o) as [|p ps]; [constructor |].
  constructor; [discriminate |].
  apply Forall_app. split; [| repeat constructor; discriminate].
  apply Forall_join; [repeat constructor; discriminate |].
  apply Forall_map. eapply List.Forall_impl; [| exact Hp].
  intros q Hq. destruct (sub_block_text q Hq) as (t & -> & Ht).
  apply Forall_app. split; [repeat constructor; discriminate |].
  now apply text_char_no_backtick.
Qed.

(** No code fence in the written operations. *)
Lemma no_fences ops :
  Forall writable_Operation ops ->
  _find_code_fence_regions (Text.join [nl] (map operation_text ops)) = [].
Proof.
  intros Hall. unfold _find_code_fence_regions. rewrite finditer_is_at.
  rewrite finditer_at_dead_end; [reflexivity | |].
  - apply (dead_run_first _ _ _ _ _ _ fence_needs_backtick).
    apply Forall_join; [repeat constructor; discriminate |].
    apply Forall_map. eapply List.Forall_impl; [| exact Hall].
    apply operation_text_no_backtick.
  - intros p q. apply fence_needs_backtick. exact I.
Qed.

End OperationsFound.

(** ** Looking for a sub-section in the content of a written operation *)

Section SearchParts.
Import Re ReNotions ReFacts ReMore ReCalc.

(** The pattern of a sub-section and its word: the pattern matches only
    at three hashes, not at the heading of another word, and at the
    heading of its word it takes the lines up to the next heading. *)
Variable pat : regex.
Variable tw : string.

Hypothesis needs_hashes :
  forall prev pos rest,
    Py.startswith (L "###") rest = false ->
    match_at DOTALL pat (MState prev pos rest []) = None.

Hypothesis rejects :
  forall prev pos w t,
    In w ["Inputs"; "Outputs"; "Steps"; "Checklist"]%string -> w <> tw ->
    match_at DOTALL pat (MState prev pos (L "### " ++ L w ++ t) []) = None.

Hypothesis accepts :
  forall prev pos lines_ e T,
    Forall plain_line lines_ -> lines_ <> [] ->
    (e = [] /\ T = []) \/ (e = [nl] /\ exists t, T = nl :: L "### " ++ t) ->
    exists x,
      first_match DOTALL pat
                  (MState prev pos
                          (L "### " ++ L tw ++ [nl; nl] ++ (Text.join [nl] lines_ ++ e) ++ T) [])
      = Some x
      /\ group_str (ReMatch pos x) 1 = Text.join [nl] lines_ ++ e.

Lemma dead_text prev w rest :
  Forall text_char w -> dead_run DOTALL pat prev w rest.
Proof.
  intros Hw j pos Hj. apply needs_hashes. destruct (drop j w) as [|c t] eqn:E.
  - apply (f_equal (@length ascii)) in E. rewrite length_drop in E. simpl in E. lia.
  - cbn [app L list_ascii_of_string Py.startswith].
    rewrite List.Forall_forall in Hw. destruct (Hw c (in_drop w j c t E)) as [Hc _].
    destruct (Py.ascii_eqb "#" c) eqn:Ec; [| reflexivity].
    apply Ascii.eqb_eq in Ec. congruence.
Qed.

(** The pattern matches nowhere in the sub-section of another word. *)
Lemma dead_other_block p prev rest :
  plain_part p -> fst p <> tw -> dead_run DOTALL pat prev (sub_block p) rest.
Proof.
  intros (Hw & Hne & Hl) Hp.
  set (t := L (fst p) ++ [nl; nl] ++ Text.join [nl] (snd p)).
  assert (Ht : Forall text_char t).
  { apply Forall_app. split; [now apply word_text |].
    apply Forall_app. split; [repeat constructor; discriminate | now apply lines_text]. }
  change (sub_block p) with (["#"%char] ++ ["#"%char] ++ ["#"%char] ++ [" "%char] ++ t).
  apply dead_run_app.
  { intros j pos Hj. simpl in Hj. assert (j = 0) as -> by lia.
    cbn [take drop prev_after fold_left]. unfold t. rewrite <- !app_assoc.
    apply (rejects prev pos (fst p) ([nl; nl] ++ Text.join [nl] (snd p) ++ rest) Hw Hp). }
  apply dead_run_app.
  { intros j pos Hj. simpl in Hj. assert (j = 0) as -> by lia.
    apply needs_hashes. reflexivity. }
  apply dead_run_app.
  { intros j pos Hj. simpl in Hj. assert (j = 0) as -> by lia.
    apply needs_hashes. reflexivity. }
  apply dead_text. constructor; [split; discriminate | exact Ht].
Qed.

Lemma sub_blocks_start p ps :
  exists t, Text.join [nl; nl] (map sub_block (p :: ps)) = L "### " ++ t.
Proof.
  destruct ps as [|q ps].
  - eexists. cbn [map Text.join]. unfold sub_block. reflexivity.
  - eexists. cbn [map]. rewrite join_cons. unfold sub_block at 1.
    rewrite <- !app_assoc. reflexivity.
Qed.

Lemma pat_at_end p q : match_at DOTALL pat (MState p q [] []) = None.
Proof. apply needs_hashes. reflexivity. Qed.

(** Where the word has no sub-section, the pattern is not found. *)
Lemma search_parts_none : forall ps prev pos,
    Forall plain_part ps -> Forall (fun p => fst p <> tw) ps ->
    search_from DOTALL pat prev pos (Text.join [nl; nl] (map sub_block ps)) = None.
Proof.
  intros ps prev pos Hpl Hno. apply search_from_dead_end; [| apply pat_at_end].
  revert prev. induction ps as [|p ps IH]; intros prev; [apply dead_run_nil |].
  inversion Hpl as [|p0 l0 Hp Hps]; subst. inversion Hno as [|p1 l1 Hn Hns]; subst.
  destruct ps as [|q ps].
  - cbn [map Text.join]. now apply dead_other_block.
  - cbn [map]. rewrite join_cons. apply dead_run_app; [now apply dead_other_block |].
    apply dead_run_app.
    + apply dead_text. repeat constructor; discriminate.
    + now apply IH.
Qed.

(** Where the word has a sub-section, the pattern is found there, with
    the lines of the sub-section. *)
Lemma search_parts_found : forall pre prev pos lines_ post,
    Forall plain_part (pre ++ (tw, lines_) :: post) ->
    Forall (fun p => fst p <> tw) pre ->
    exists m e,
      search_from DOTALL pat prev pos
                  (Text.join [nl; nl] (map sub_block (pre ++ (tw, lines_) :: post)))
      = Some m
      /\ group_str m 1 = Text.join [nl] lines_ ++ e
      /\ (e = [] \/ e = [nl]).
Proof.
  induction pre as [|p pre IH]; intros prev pos lines_ post Hpl Hno.
  - cbn [app] in *. inversion Hpl as [|p0 l0 (_ & Hne & Hl) Hps]; subst.
    cbn [snd] in *. destruct post as [|q post].
    + destruct (accepts prev pos lines_ [] [] Hl Hne) as (x & Hx & Hg); [now left |].
      exists (ReMatch pos x), []. split; [| split; [exact Hg | now left]].
      apply search_from_here. rewrite match_at_first. cbn [m_pos map Text.join].
      assert (E : first_match DOTALL pat (MState prev pos (sub_block (tw, lines_)) [])
                  = Some x).
      { rewrite <- Hx. do 2 f_equal. unfold sub_block. rewrite !app_nil_r. reflexivity. }
      now rewrite E.
    + destruct (sub_blocks_start q post) as (t & Et).
      destruct (accepts prev pos lines_ [nl] (nl :: L "### " ++ t) Hl Hne) as (x & Hx & Hg).
      { right. split; [reflexivity | now exists t]. }
      exists (ReMatch pos x), [nl]. split; [| split; [exact Hg | now right]].
      apply search_from_here. rewrite match_at_first. cbn [m_pos map].
      rewrite join_cons. cbn [map] in Et. rewrite Et.
      assert (E : first_match DOTALL pat
                              (MState prev pos
                                      (sub_block (tw, lines_) ++ [nl; nl] ++ L "### " ++ t) [])
                  = Some x).
      { rewrite <- Hx. do 2 f_equal. unfold sub_block. cbn [fst snd].
        rewrite <- !app_assoc. reflexivity. }
      now rewrite E.
  - inversion Hpl as [|p0 l0 Hp Hps]; subst. inversion Hno as [|p1 l1 Hn Hns]; subst.
    destruct (IH (prev_after (prev_after prev (sub_block p)) [nl; nl])
                 (pos + length (sub_block p) + 2) lines_ post Hps Hns)
      as (m & e & Hm & Hg & He).
    exists m, e. split; [| split; [exact Hg | exact He]].
    change ((p :: pre) ++ (tw, lines_) :: post) with (p :: (pre ++ (tw, lines_) :: post)).
    destruct (pre ++ (tw, lines_) :: post) as [|q qs] eqn:E.
    { destruct pre; discriminate. }
    cbn [map]. rewrite join_cons. cbn [map] in Hm.
    rewrite search_from_dead by now apply dead_other_block.
    rewrite search_from_dead by (apply dead_text; repeat constructor; discriminate).
    cbn [length]. exact Hm.
Qed.

End SearchParts.

(** ** The patterns of the sub-sections *)

Section SubsectionPatterns.
Import Re ReNotions ReFacts ReMore ReCalc.

Lemma first_heading_next H hs x :
  reads_hashes H hs -> heading_next hs (m_rest x) = true ->
  exists y,
    first_match DOTALL (Seq Pat.newline (Seq H Pat.sp_plus)) x = Some y
    /\ m_caps y = m_caps x.
Proof.
  intros HH Hn. unfold heading_next in Hn.
  destruct (m_rest x) as [|c r] eqn:Hr; [discriminate |].
  apply andb_true_iff in Hn as [Hn Hd]. apply andb_true_iff in Hn as [Hc Hs].
  apply Ascii.eqb_eq in Hc. subst c.
  destruct (drop (length hs) r) as [|d r'] eqn:Ed; [discriminate |].
  destruct (space_run r') as (w & tail & Er & Hw & Ht).
  set (x1 := advance nl r x).
  set (x2 := gone_over x1 hs (d :: r')).
  exists (gone_over x2 (d :: w) tail). split; [| reflexivity].
  apply (first_seq _ _ _ _ x1).
  - unfold Pat.newline, Pat.ch. rewrite first_chr, Hr. reflexivity.
  - apply (first_seq _ _ _ _ x2).
    + unfold first_match. rewrite HH. cbn [x1 advance m_rest]. rewrite Hs, Ed. reflexivity.
    + apply (first_plus_run DOTALL (One ASpace) d w x2 tail).
      * cbn [x2 gone_over m_rest]. now rewrite Er.
      * constructor; [exact Hd | exact Hw].
      * destruct tail; [exact I | exact Ht].
Qed.

Lemma first_heading_none H hs x :
  reads_hashes H hs -> heading_next hs (m_rest x) = false ->
  first_match DOTALL (Seq Pat.newline (Seq H Pat.sp_plus)) x = None.
Proof.
  intros HH Hn. unfold first_match, Pat.newline.
  rewrite rmatch_seq, rmatch_ch by reflexivity.
  destruct (m_rest x) as [|c r] eqn:Hr; [reflexivity |].
  unfold heading_next in Hn.
  destruct (Py.ascii_eqb nl c); [| reflexivity]. cbn [andb] in Hn.
  cbn [flat_map]. rewrite app_nil_r, rmatch_seq, HH. cbn [advance m_rest].
  destruct (Py.startswith hs r); [| reflexivity]. cbn [andb] in Hn.
  cbn [flat_map]. rewrite app_nil_r, sp_plus_none; [reflexivity |].
  cbn [gone_over m_rest]. destruct (drop (length hs) r); [exact I | exact Hn].
Qed.

(** The look-ahead of the checklist: the next sub-section, the next
    item, or the end of the text. *)
Lemma checklist_ahead_end x :
  m_rest x = [] ->
  rmatch DOTALL (Look true (Alt (Seq Pat.newline (Seq (Str "###") Pat.sp_plus))
                                (Alt (Seq Pat.newline (Seq (Str "##") Pat.sp_plus)) EndZ))) x
  = [x].
Proof.
  intros Hr. rewrite rmatch_look, !first_alt.
  rewrite (first_heading_none (Str "###") (L "###")), (first_heading_none (Str "##") (L "##"));
    try apply str_reads_hashes; try (rewrite Hr; reflexivity).
  unfold first_match. cbn [rmatch]. rewrite Hr. cbn [Py.is_empty head].
  now rewrite with_caps_same.
Qed.

Lemma checklist_ahead_next x :
  heading_next (L "###") (m_rest x) = true ->
  rmatch DOTALL (Look true (Alt (Seq Pat.newline (Seq (Str "###") Pat.sp_plus))
                                (Alt (Seq Pat.newline (Seq (Str "##") Pat.sp_plus)) EndZ))) x
  = [x].
Proof.
  intros Hn. rewrite rmatch_look, first_alt.
  destruct (first_heading_next (Str "###") (L "###") x (str_reads_hashes "###") Hn)
    as (y & -> & Hc).
  rewrite Hc. now rewrite with_caps_same.
Qed.

Lemma checklist_ahead_clear x :
  m_rest x <> [] ->
  heading_next (L "###") (m_rest x) = false -> heading_next (L "##") (m_rest x) = false ->
  rmatch DOTALL (Look true (Alt (Seq Pat.newline (Seq (Str "###") Pat.sp_plus))
                                (Alt (Seq Pat.newline (Seq (Str "##") Pat.sp_plus)) EndZ))) x
  = [].
Proof.
  intros Hne H3 H2. rewrite rmatch_look, !first_alt.
  rewrite (first_heading_none (Str "###") (L "###")), (first_heading_none (Str "##") (L "##"));
    try apply str_reads_hashes; try assumption.
  unfold first_match. cbn [rmatch]. destruct (m_rest x); [congruence | reflexivity].
Qed.

(** A text without a hash holds no heading. *)
Lemma none_ahead_text hs w T :
  Forall text_char w ->
  heading_next ("#"%char :: hs) (nl :: T) = false ->
  none_ahead ("#"%char :: hs) w T.
Proof.
  intros Hw HT. apply none_ahead_plain; [| exact HT].
  eapply List.Forall_impl; [| exact Hw]. intros c [H _]. exact H.
Qed.

(** What follows the lines of a sub-section: nothing, or the newline
    before the next heading. *)
Lemma after_lines_next (T : str) :
  T = [] \/ (exists t, T = nl :: L "### " ++ t) ->
  (T = [] \/ heading_next (L "###") T = true)
  /\ heading_next (L "###") (nl :: T) = false
  /\ heading_next (L "##") (nl :: T) = false.
Proof.
  intros [-> | (t & ->)].
  - split; [now left |]. split; reflexivity.
  - split; [right; reflexivity |]. split; reflexivity.
Qed.

Lemma subsection_body n st w T :
  m_rest st = w ++ T -> Forall text_char w ->
  T = [] \/ (exists t, T = nl :: L "### " ++ t) ->
  exists x,
    first_match DOTALL (Seq (Group n (Star false Pat.dot)) (heading_ahead (Str "###"))) st
    = Some x
    /\ cap_lookup n (m_caps x) = Some (m_pos st, w).
Proof.
  intros Hr Hw HT. destruct (after_lines_next T HT) as (H1 & H2 & _).
  eexists. split.
  - apply (first_body (Str "###") (L "###") n st w T (str_reads_hashes "###") Hr).
    + now apply (none_ahead_text ["#"%char; "#"%char]).
    + exact H1.
  - cbn [m_caps cap_lookup]. now rewrite Nat.eqb_refl.
Qed.

Lemma checklist_body n st w T :
  m_rest st = w ++ T -> Forall text_char w ->
  T = [] \/ (exists t, T = nl :: L "### " ++ t) ->
  exists x,
    first_match DOTALL
                (Seq (Group n (Star false Pat.dot))
                     (Look true (Alt (Seq Pat.newline (Seq (Str "###") Pat.sp_plus))
                                     (Alt (Seq Pat.newline (Seq (Str "##") Pat.sp_plus))
                                          EndZ)))) st
    = Some x
    /\ cap_lookup n (m_caps x) = Some (m_pos st, w).
Proof.
  intros Hr Hw HT. destruct (after_lines_next T HT) as (H1 & H2 & H3).
  eexists. split.
  - unfold Pat.dot. eapply (first_lazy_group DOTALL n (One AAny) _ st w T).
    + exact Hr.
    + apply Forall_forall. intros c _. reflexivity.
    + intros x j Hj Hx. apply checklist_ahead_clear.
      * rewrite Hx. intros E. apply (f_equal (@length ascii)) in E.
        rewrite length_app, length_drop in E. simpl in E. lia.
      * rewrite Hx. apply none_ahead_drop; [| exact Hj].
        now apply (none_ahead_text ["#"%char; "#"%char]).
      * rewrite Hx. apply none_ahead_drop; [| exact Hj].
        now apply (none_ahead_text ["#"%char]).
    + unfold first_match. destruct H1 as [-> | H1].
      * now rewrite checklist_ahead_end.
      * now rewrite checklist_ahead_next.
  - cbn [m_caps cap_lookup]. now rewrite Nat.eqb_refl.
Qed.

Lemma rmatch_sp_plus_one fl st c t :
  m_rest st = " "%char :: c :: t -> Py.isspace c = false ->
  rmatch fl Pat.sp_plus st = [advance " " (c :: t) st].
Proof.
  intros Hr Hc. unfold Pat.sp_plus, Plus, Pat.sp. rewrite rmatch_seq.
  change (rmatch fl (Chr (One ASpace)) st)
    with (match m_rest st with
          | c :: rest => if cmatch fl (One ASpace) c then [advance c rest st] else []
          | [] => []
          end).
  rewrite Hr. cbn [cmatch amatch flat_map]. replace (Py.isspace " ") with true by reflexivity.
  cbn [flat_map]. rewrite app_nil_r. apply star_chr_stop. cbn [advance m_rest]. exact Hc.
Qed.

(** A pattern of a sub-section does not match at the heading of another
    word. *)
Lemma heading3_rejects name REST (w : string) c ws t prev pos :
  L w = c :: ws -> Py.isspace c = false ->
  (forall st, m_rest st = L w ++ t -> rmatch DOTALL (Pat.label name) st = []) ->
  match_at DOTALL (Seq (Str "###") (Seq Pat.sp_plus (Seq (Pat.label name) REST)))
           (MState prev pos (L "### " ++ L w ++ t) []) = None.
Proof.
  intros Hw Hc Hl. unfold match_at. rewrite rmatch_seq, rmatch_str by reflexivity.
  cbn [m_rest L list_ascii_of_string Py.startswith app].
  replace (Py.ascii_eqb "#" "#") with true by reflexivity. cbn [andb flat_map].
  rewrite app_nil_r. cbn [length drop].
  set (st1 := gone_over _ _ _).
  assert (Hsp : rmatch DOTALL Pat.sp_plus st1 = [advance " " (c :: ws ++ t) st1]).
  { apply rmatch_sp_plus_one; [| exact Hc]. cbn [st1 gone_over m_rest]. now rewrite Hw. }
  rewrite (rmatch_seq_one _ _ _ _ _ Hsp).
  rewrite rmatch_seq_none; [reflexivity |]. apply Hl. cbn [advance m_rest]. now rewrite Hw.
Qed.

Lemma label_fails name st c t :
  m_rest st = c :: t -> c <> "["%char ->
  rmatch DOTALL name st = [] ->
  rmatch DOTALL (Pat.label name) st = [].
Proof.
  intros Hr Hc Hn. unfold Pat.label.
  change (rmatch DOTALL (Alt ?a ?b) st) with (rmatch DOTALL a st ++ rmatch DOTALL b st).
  rewrite Hn, app_nil_r. cbn [Seqs]. apply rmatch_seq_none.
  rewrite rmatch_ch by reflexivity. rewrite Hr.
  destruct (Py.ascii_eqb "[" c) eqn:E; [| reflexivity].
  apply Ascii.eqb_eq in E. congruence.
Qed.

Lemma plural_fails (stem : string) st :
  Py.startswith (L stem) (m_rest st) = false ->
  rmatch DOTALL (Pat.plural stem) st = [].
Proof.
  intros H. unfold Pat.plural. apply rmatch_seq_none.
  rewrite rmatch_str by reflexivity. now rewrite H.
Qed.

Lemma str_fails (w : string) st :
  Py.startswith (L w) (m_rest st) = false -> rmatch DOTALL (Str w) st = [].
Proof. intros H. rewrite rmatch_str by reflexivity. now rewrite H. Qed.

(** The label of a plural word, bare, is read with its final s. *)
Lemma first_label_plural (stem : string) c0 ws st tail :
  L stem = c0 :: ws -> c0 <> "["%char ->
  m_rest st = L stem ++ "s"%char :: tail ->
  exists y,
    first_match DOTALL (Pat.label (Pat.plural stem)) st = Some y
    /\ m_rest y = tail /\ m_pos y = m_pos st + length (L stem) + 1.
Proof.
  intros Hw Hc Hr. unfold Pat.label. rewrite first_alt. cbn [Seqs].
  rewrite first_seq_none.
  2:{ unfold Pat.ch. rewrite first_chr, Hr, Hw. cbn [app cmatch amatch ignorecase DOTALL].
      destruct (Py.ascii_eqb "[" c0) eqn:E; [| reflexivity].
      apply Ascii.eqb_eq in E. congruence. }
  eexists. split.
  - unfold Pat.plural. eapply first_seq.
    + unfold first_match. rewrite rmatch_str by reflexivity.
      rewrite Hr, startswith_app, drop_app_length. reflexivity.
    + rewrite first_opt. unfold Pat.ch. rewrite first_chr. cbn [gone_over m_rest].
      reflexivity.
  - split; [reflexivity |]. cbn [m_pos advance gone_over]. lia.
Qed.

End SubsectionPatterns.

Section SubsectionsRead.
Import Re ReNotions ReFacts ReMore ReCalc.

Lemma heading3_needs_hashes K prev pos rest :
  Py.startswith (L "###") rest = false ->
  match_at DOTALL (Seq (Str "###") K) (MState prev pos rest []) = None.
Proof.
  intros H. rewrite match_at_first, first_seq_none; [reflexivity |].
  unfold first_match. rewrite rmatch_str by reflexivity. cbn [m_rest]. now rewrite H.
Qed.

Lemma lines_start (ls : list str) (e : str) :
  ls <> [] -> Forall plain_line ls ->
  exists c t, Text.join [nl] ls ++ e = c :: t /\ Py.isspace c = false.
Proof.
  intros Hne Hall. destruct ls as [|l ls]; [congruence |].
  inversion Hall as [|l0 ls0 (Hl & Hs & _) _]; subst.
  destruct (stripped_ends l Hs Hl) as ((c & t & -> & Hc) & _).
  destruct ls as [|l2 ls].
  - exists c, (t ++ e). split; [reflexivity | exact Hc].
  - rewrite join_cons. exists c, ((t ++ [nl] ++ Text.join [nl] (l2 :: ls)) ++ e).
    split; [reflexivity | exact Hc].
Qed.

Lemma lines_text_end (ls : list str) (e : str) :
  Forall plain_line ls -> e = [] \/ e = [nl] -> Forall text_char (Text.join [nl] ls ++ e).
Proof.
  intros Hall He. apply Forall_app. split; [now apply lines_text |].
  destruct He as [-> | ->]; repeat constructor; discriminate.
Qed.

(** A pattern made of three hashes, a label and a lazy group takes, at
    the heading of its word, the lines up to the next heading. *)
Lemma heading3_accepts name KK (tw : string) c0 ws :
  L tw = c0 :: ws -> Py.isspace c0 = false ->
  (forall st tail,
      m_rest st = L tw ++ tail ->
      exists y, first_match DOTALL (Pat.label name) st = Some y /\ m_rest y = tail) ->
  (forall st w T,
      m_rest st = w ++ T -> Forall text_char w ->
      T = [] \/ (exists t, T = nl :: L "### " ++ t) ->
      exists x, first_match DOTALL KK st = Some x
                /\ cap_lookup 1 (m_caps x) = Some (m_pos st, w)) ->
  forall prev pos lines_ e T,
    Forall plain_line lines_ -> lines_ <> [] ->
    (e = [] /\ T = []) \/ (e = [nl] /\ exists t, T = nl :: L "### " ++ t) ->
    exists x,
      first_match DOTALL
                  (Seq (Str "###")
                       (Seq Pat.sp_plus
                            (Seq (Pat.label name) (Seq Pat.sp_star (Seq Pat.newline KK)))))
                  (MState prev pos
                          (L "### " ++ L tw ++ [nl; nl] ++ (Text.join [nl] lines_ ++ e) ++ T) [])
      = Some x
      /\ group_str (ReMatch pos x) 1 = Text.join [nl] lines_ ++ e.
Proof.
  intros Htw Hc0 Hlabel HKK prev pos lines_ e T Hl Hne HeT.
  assert (He : e = [] \/ e = [nl]) by (destruct HeT as [[-> _] | [-> _]]; auto).
  assert (HT : T = [] \/ exists t, T = nl :: L "### " ++ t)
    by (destruct HeT as [[_ ->] | [_ H]]; auto).
  destruct (lines_start lines_ e Hne Hl) as (c & t & Eb & Hc).
  pose proof (lines_text_end lines_ e Hl He) as Htext.
  set (body := Text.join [nl] lines_ ++ e) in *.
  set (st0 := MState prev pos (L "### " ++ L tw ++ [nl; nl] ++ body ++ T) []).
  set (st1 := gone_over st0 (L "###") (" "%char :: L tw ++ [nl; nl] ++ body ++ T)).
  set (st2 := gone_over st1 [" "%char] (L tw ++ [nl; nl] ++ body ++ T)).
  destruct (Hlabel st2 ([nl; nl] ++ body ++ T) eq_refl) as (y & Hy & Hry).
  destruct (HKK (gone_over y [nl; nl] (c :: t ++ T)) body T) as (x & Hx & Hcap);
    [cbn [gone_over m_rest]; now rewrite Eb | exact Htext | exact HT |].
  exists x. split.
  - apply (first_seq _ _ _ _ st1).
    { unfold first_match. rewrite rmatch_str by reflexivity. reflexivity. }
    apply (first_seq _ _ _ _ st2).
    { apply first_sp_plus_space; [reflexivity |]. rewrite Htw. exact Hc0. }
    apply (first_seq _ _ _ _ y); [exact Hy |].
    apply (first_blank_line _ y c (t ++ T) x).
    + rewrite Hry, Eb. reflexivity.
    + exact Hc.
    + exact Hx.
  - unfold group_str, group. cbn [mt_final]. now rewrite Hcap.
Qed.

Lemma plural_label (stem tw : string) c0 ws :
  L stem = c0 :: ws -> c0 <> "["%char -> L tw = L stem ++ ["s"%char] ->
  forall st tail,
    m_rest st = L tw ++ tail ->
    exists y, first_match DOTALL (Pat.label (Pat.plural stem)) st = Some y /\ m_rest y = tail.
Proof.
  intros Hs Hc Htw st tail Hr.
  destruct (first_label_plural stem c0 ws st tail Hs Hc) as (y & Hy & Hry & _).
  - rewrite Hr, Htw, <- app_assoc. reflexivity.
  - now exists y.
Qed.

Lemma plural_rejects (stem : string) c0 ws REST prev pos (w : string) d ds t :
  L stem = c0 :: ws -> L w = d :: ds ->
  Py.isspace d = false -> d <> "["%char -> d <> c0 ->
  match_at DOTALL (Seq (Str "###")
                       (Seq Pat.sp_plus (Seq (Pat.label (Pat.plural stem)) REST)))
           (MState prev pos (L "### " ++ L w ++ t) []) = None.
Proof.
  intros Hs Hw Hd Hb Hne. apply (heading3_rejects _ _ w d ds t prev pos Hw Hd).
  intros st Hst. apply (label_fails _ st d (ds ++ t)); [now rewrite Hst, Hw | exact Hb |].
  apply plural_fails. rewrite Hst, Hw, Hs. cbn [app Py.startswith].
  destruct (Py.ascii_eqb c0 d) eqn:E; [| reflexivity].
  apply Ascii.eqb_eq in E. congruence.
Qed.

(** The sub-section of a plural word in the content of a written
    operation. *)
Lemma plural_found (stem tw : string) c0 ws pre lines_ post :
  L stem = c0 :: ws -> c0 <> "["%char -> Py.isspace c0 = false ->
  L tw = L stem ++ ["s"%char] ->
  Forall (fun w => w = tw \/ exists d ds, L w = d :: ds /\ Py.isspace d = false
                                          /\ d <> "["%char /\ d <> c0)
         ["Inputs"; "Outputs"; "Steps"; "Checklist"]%string ->
  Forall plain_part (pre ++ (tw, lines_) :: post) ->
  Forall (fun p => fst p <> tw) pre ->
  exists m e,
    re_search DOTALL (Pat.subsection (Pat.plural stem))
              (Text.join [nl; nl] (map sub_block (pre ++ (tw, lines_) :: post)))
    = Some m
    /\ group_str m 1 = Text.join [nl] lines_ ++ e
    /\ (e = [] \/ e = [nl]).
Proof.
  intros Hs Hc Hsp Htw Hwords Hpl Hno. unfold re_search.
  apply (search_parts_found (Pat.subsection (Pat.plural stem)) tw); try assumption.
  - intros prev pos rest H. unfold Pat.subsection. cbn [Seqs].
    now apply heading3_needs_hashes.
  - intros prev pos w t Hin Hw. rewrite List.Forall_forall in Hwords.
    destruct (Hwords w Hin) as [-> | (d & ds & Ed & H1 & H2 & H3)]; [congruence |].
    unfold Pat.subsection. cbn [Seqs].
    now apply (plural_rejects stem c0 ws _ prev pos w d ds t).
  - unfold Pat.subsection. cbn [Seqs].
    change (Look true (Alt (Seq Pat.newline (Seq (Str "###") Pat.sp_plus)) EndZ))
      with (heading_ahead (Str "###")).
    apply (heading3_accepts (Pat.plural stem) _ tw c0 (ws ++ ["s"%char])).
    + rewrite Htw, Hs. reflexivity.
    + exact Hsp.
    + now apply (plural_label stem tw c0 ws).
    + intros st w T. apply subsection_body.
Qed.

Lemma plural_absent (stem tw : string) c0 ws ps :
  L stem = c0 :: ws ->
  Forall (fun w => w = tw \/ exists d ds, L w = d :: ds /\ Py.isspace d = false
                                          /\ d <> "["%char /\ d <> c0)
         ["Inputs"; "Outputs"; "Steps"; "Checklist"]%string ->
  Forall plain_part ps -> Forall (fun p => fst p <> tw) ps ->
  re_search DOTALL (Pat.subsection (Pat.plural stem))
            (Text.join [nl; nl] (map sub_block ps)) = None.
Proof.
  intros Hs Hwords Hpl Hno. unfold re_search.
  apply (search_parts_none (Pat.subsection (Pat.plural stem)) tw); try assumption.
  - intros prev pos rest H. unfold Pat.subsection. cbn [Seqs].
    now apply heading3_needs_hashes.
  - intros prev pos w t Hin Hw. rewrite List.Forall_forall in Hwords.
    destruct (Hwords w Hin) as [-> | (d & ds & Ed & H1 & H2 & H3)]; [congruence |].
    unfold Pat.subsection. cbn [Seqs].
    now apply (plural_rejects stem c0 ws _ prev pos w d ds t).
Qed.

Lemma other_words_inputs :
  Forall (fun w => w = "Inputs"%string
                   \/ exists d ds, L w = d :: ds /\ Py.isspace d = false
                                   /\ d <> "["%char /\ d <> "I"%char)
         ["Inputs"; "Outputs"; "Steps"; "Checklist"]%string.
Proof.
  constructor; [now left |].
  constructor;
    [right; eexists; eexists; split; [reflexivity | repeat split; discriminate] |].
  constructor;
    [right; eexists; eexists; split; [reflexivity | repeat split; discriminate] |].
  constructor;
    [right; eexists; eexists; split; [reflexivity | repeat split; discriminate] |].
  constructor.
Qed.

Lemma other_words_outputs :
  Forall (fun w => w = "Outputs"%string
                   \/ exists d ds, L w = d :: ds /\ Py.isspace d = false
                                   /\ d <> "["%char /\ d <> "O"%char)
         ["Inputs"; "Outputs"; "Steps"; "Checklist"]%string.
Proof.
  constructor;
    [right; eexists; eexists; split; [reflexivity | repeat split; discriminate] |].
  constructor; [now left |].
  constructor;
    [right; eexists; eexists; split; [reflexivity | repeat split; discriminate] |].
  constructor;
    [right; eexists; eexists; split; [reflexivity | repeat split; discriminate] |].
  constructor.
Qed.

Lemma other_words_steps :
  Forall (fun w => w = "Steps"%string
                   \/ exists d ds, L w = d :: ds /\ Py.isspace d = false
                                   /\ d <> "["%char /\ d <> "S"%char)
         ["Inputs"; "Outputs"; "Steps"; "Checklist"]%string.
Proof.
  constructor;
    [right; eexists; eexists; split; [reflexivity | repeat split; discriminate] |].
  constructor;
    [right; eexists; eexists; split; [reflexivity | repeat split; discriminate] |].
  constructor; [now left |].
  constructor;
    [right; eexists; eexists; split; [reflexivity | repeat split; discriminate] |].
  constructor.
Qed.

End SubsectionsRead.

(** ** The steps of a written operation *)

Section StepsRead.
Import Re ReNotions ReFacts ReMore ReCalc.

Lemma star_stop fl g r st : rmatch fl r st = [] -> rmatch fl (Star g r) st = [st].
Proof.
  intros H. rewrite rmatch_star. destruct (length (m_rest st)); cbn [star_loop];
    [reflexivity |].
  rewrite H. cbn [List.filter flat_map app]. destruct g; reflexivity.
Qed.

Lemma rmatch_look_not fl r st :
  rmatch fl (Look false r) st =
  match first_match fl r st with
  | Some _ => []
  | None => [st]
  end.
Proof. unfold first_match. cbn [rmatch]. destruct (rmatch fl r st); reflexivity. Qed.

Lemma digit_class (ds : str) :
  Forall (fun c => Py.isdigit c = true) ds ->
  Forall (fun c => cmatch no_flags (One ADigit) c = true) ds.
Proof. apply List.Forall_impl. intros c H. exact H. Qed.

(** After a step, the instruction does not go on to the next line. *)
Lemma step_goes_no_further T st :
  after_step T -> m_rest st = T ->
  rmatch no_flags (Seq Pat.newline
                       (Seq (Look false (Seq (Plus true Pat.digit) (Pat.ch ".")))
                            (Plus true Pat.not_nl))) st = [].
Proof.
  intros HT Hr. rewrite rmatch_seq. unfold Pat.newline. rewrite rmatch_ch by reflexivity.
  rewrite Hr. destruct HT as [-> | [-> | (d & ds & t & -> & Hd)]]; [reflexivity | |].
  - replace (Py.ascii_eqb nl nl) with true by reflexivity. cbn [flat_map].
    rewrite app_nil_r, rmatch_seq, rmatch_look_not.
    rewrite first_seq_none.
    + cbn [flat_map]. rewrite app_nil_r. unfold Plus. apply rmatch_seq_none. reflexivity.
    + unfold Plus. apply first_seq_none. unfold Pat.digit. rewrite first_chr. reflexivity.
  - replace (Py.ascii_eqb nl nl) with true by reflexivity. cbn [flat_map].
    rewrite app_nil_r, rmatch_seq, rmatch_look_not.
    set (st1 := advance nl ((d :: ds) ++ "."%char :: t) st).
    rewrite (first_seq _ _ _ _ (gone_over st1 (d :: ds) ("."%char :: t))
                       (advance "." t (gone_over st1 (d :: ds) ("."%char :: t)))).
    + reflexivity.
    + unfold Pat.digit.
      apply (first_plus_run no_flags (One ADigit) d ds st1 ("."%char :: t)).
      * reflexivity.
      * now apply digit_class.
      * reflexivity.
    + unfold Pat.ch. rewrite first_chr. reflexivity.
Qed.

(** A written step is read with its number and its instruction. *)
Lemma step_first prev pos s T :
  writable_Step s -> after_step T ->
  exists x,
    first_match no_flags Pat.step_pat (MState prev pos (Writer.step_line s ++ T) []) = Some x
    /\ m_rest x = T
    /\ m_pos x = pos + length (Writer.step_line s)
    /\ group_str (ReMatch pos x) 1 = Py.str_of_nat (step_number s)
    /\ group_str (ReMatch pos x) 2 = instruction s.
Proof.
  intros (Hn & (Hne & Hs & Hc) & Hrefs) HT.
  destruct (int_of_str (step_number s)) as (_ & Hd & Hdn).
  destruct (Py.str_of_nat (step_number s)) as [|d ds] eqn:Ed; [congruence |].
  destruct (stripped_ends _ Hs Hne) as ((c & t & Ei & Hci) & _).
  assert (Hnl : ~ In nl (instruction s)).
  { intros Hin. rewrite List.Forall_forall in Hc. destruct (Hc nl Hin) as (H & _).
    congruence. }
  unfold Writer.step_line. rewrite Ed, Ei in *.
  replace (((d :: ds) ++ L ". " ++ c :: t) ++ T)
    with ((d :: ds) ++ "."%char :: " "%char :: (c :: t) ++ T)
    by (rewrite <- !app_assoc; reflexivity).
  set (st0 := MState prev pos ((d :: ds) ++ "."%char :: " "%char :: (c :: t) ++ T) []).
  set (st1 := MState (prev_after prev (d :: ds)) (pos + length (d :: ds))
                     ("."%char :: " "%char :: (c :: t) ++ T)
                     [(1, (pos, d :: ds))]).
  set (st2 := advance "." (" "%char :: (c :: t) ++ T) st1).
  set (st3 := gone_over st2 [" "%char] ((c :: t) ++ T)).
  set (st4 := gone_over st3 (c :: t) T).
  exists (set_cap 2 st3 st4). split; [| split; [| split; [| split]]].
  - unfold Pat.step_pat. cbn [Seqs].
    apply (first_seq _ _ _ _ st1).
    { unfold Pat.digit.
      apply (first_group_plus_run no_flags 1 (One ADigit) d ds st0
                                  ("."%char :: " "%char :: (c :: t) ++ T)).
      - reflexivity.
      - now apply digit_class.
      - reflexivity. }
    apply (first_seq _ _ _ _ st2).
    { unfold Pat.ch. rewrite first_chr. reflexivity. }
    apply (first_seq _ _ _ _ st3).
    { apply first_sp_plus_space; [reflexivity | exact Hci]. }
    rewrite first_group.
    rewrite (first_seq _ _ _ _ st4 st4); [reflexivity | |].
    + unfold Pat.not_nl.
      apply (first_plus_run no_flags (NoneOf [AChar nl]) c t st3 T).
      * reflexivity.
      * now apply not_nl_class.
      * destruct HT as [-> | [-> | (d' & ds' & t' & -> & _)]]; reflexivity.
    + unfold first_match. rewrite star_stop; [reflexivity |].
      now apply (step_goes_no_further T).
  - reflexivity.
  - cbn [set_cap m_pos st4 st3 st2 st1 gone_over advance]. rewrite !length_app.
    cbn [length L list_ascii_of_string]. lia.
  - unfold group_str, group. cbn [mt_final]. unfold st4.
    rewrite set_cap_gone_over by reflexivity. reflexivity.
  - unfold group_str, group. cbn [mt_final]. unfold st4.
    rewrite set_cap_gone_over by reflexivity. reflexivity.
Qed.

Lemma step_read lib text0 s m :
  writable_Step s ->
  group_str m 1 = Py.str_of_nat (step_number s) -> group_str m 2 = instruction s ->
  parse_step lib text0 m = Ok s.
Proof.
  intros (Hn & (Hne & Hs & Hc) & Hrefs) H1 H2. unfold parse_step. cbv zeta.
  rewrite H1, H2.
  destruct (int_of_str (step_number s)) as (-> & _ & _). rewrite Hs.
  assert (E : match map (fun rm => group_str rm 1)
                        (finditer no_flags Pat.bracket_ref (instruction s)) with
              | [] => None
              | _ :: _ => Some (map (fun rm => group_str rm 1)
                                    (finditer no_flags Pat.bracket_ref (instruction s)))
              end = operation_references s).
  { rewrite Hrefs. unfold step_references.
    destruct (map _ (finditer no_flags Pat.bracket_ref (instruction s))); reflexivity. }
  rewrite E. unfold new_Step.
  replace (1 <=? step_number s) with true by (symmetry; now apply Nat.leb_le).
  unfold min_length_1. rewrite (is_empty_false _ Hne). destruct s. reflexivity.
Qed.

Lemma step_at_end p q : match_at no_flags Pat.step_pat (MState p q [] []) = None.
Proof. apply step_needs_digit. exact I. Qed.

Lemma step_line_starts s :
  writable_Step s ->
  exists d ds t, Writer.step_line s = (d :: ds) ++ "."%char :: t
                 /\ Forall (fun c => Py.isdigit c = true) (d :: ds).
Proof.
  intros _. unfold Writer.step_line.
  destruct (int_of_str (step_number s)) as (_ & Hd & Hdn).
  destruct (Py.str_of_nat (step_number s)) as [|d ds] eqn:Ed; [congruence |].
  exists d, ds, (" "%char :: instruction s). split; [reflexivity | exact Hd].
Qed.

(** The steps that are written, one to the line, are read back. *)
Lemma steps_found lib text0 : forall steps e prev pos,
    Forall writable_Step steps -> e = [] \/ e = [nl] ->
    mapM (parse_step lib text0)
         (finditer_at no_flags Pat.step_pat prev pos
                      (Text.join [nl] (map Writer.step_line steps) ++ e))
    = Ok steps.
Proof.
  assert (Hend : forall e prev pos,
             e = [] \/ e = [nl] -> finditer_at no_flags Pat.step_pat prev pos e = []).
  { intros e prev pos He. apply finditer_at_dead_end; [| apply step_at_end].
    apply (dead_run_first _ _ _ _ _ _ step_needs_digit).
    destruct He as [-> | ->]; repeat constructor. discriminate. }
  induction steps as [|s steps IH]; intros e prev pos Hall He.
  - cbn [map Text.join app]. now rewrite Hend.
  - inversion Hall as [|s0 l0 Hs Hsteps]; subst s0 l0.
    destruct steps as [|s' steps].
    + cbn [map Text.join].
      destruct (step_first prev pos s e Hs) as (x & Hx & Hr & Hp & H1 & H2).
      { destruct He as [-> | ->]; [now left | right; now left]. }
      rewrite finditer_at_unfold.
      rewrite (search_from_here _ _ _ _ _ (ReMatch pos x))
        by (rewrite match_at_first; cbn [m_pos]; now rewrite Hx).
      cbv zeta. cbn [mt_start mt_final].
      replace (pos <? m_pos x) with true.
      2:{ symmetry. apply Nat.ltb_lt. rewrite Hp.
          destruct (step_line_starts s Hs) as (d & ds & t & -> & _). simpl. lia. }
      rewrite Hr, (Hend e _ _ He). cbn [mapM].
      rewrite (step_read lib text0 s _ Hs H1 H2). reflexivity.
    + cbn [map]. rewrite join_cons. cbn [map] in IH.
      set (J := Text.join [nl] (Writer.step_line s' :: map Writer.step_line steps)) in *.
      assert (Hafter : after_step (nl :: J ++ e)).
      { right. right. inversion Hsteps as [|s0 l0 Hs' _]; subst.
        destruct (step_line_starts s' Hs') as (d & ds & t & E & Hd).
        unfold J. destruct steps as [|s2 steps].
        - cbn [map Text.join]. rewrite E. exists d, ds, (t ++ e).
          split; [now rewrite <- app_assoc | exact Hd].
        - cbn [map]. rewrite join_cons, E. eexists d, ds, _.
          split; [| exact Hd]. rewrite <- !app_assoc. reflexivity. }
      replace ((Writer.step_line s ++ [nl] ++ J) ++ e)
        with (Writer.step_line s ++ nl :: J ++ e)
        by (rewrite <- !app_assoc; reflexivity).
      destruct (step_first prev pos s (nl :: J ++ e) Hs Hafter)
        as (x & Hx & Hr & Hp & H1 & H2).
      rewrite finditer_at_unfold.
      rewrite (search_from_here _ _ _ _ _ (ReMatch pos x))
        by (rewrite match_at_first; cbn [m_pos]; now rewrite Hx).
      cbv zeta. cbn [mt_start mt_final].
      replace (pos <? m_pos x) with true.
      2:{ symmetry. apply Nat.ltb_lt. rewrite Hp.
          destruct (step_line_starts s Hs) as (d & ds & t & -> & _). simpl. lia. }
      rewrite Hr.
      rewrite finditer_at_skip by (apply step_needs_digit; discriminate).
      cbn [mapM]. rewrite (step_read lib text0 s _ Hs H1 H2). cbn [bind].
      rewrite (IH e (Some nl) (S (m_pos x)) Hsteps He). reflexivity.
Qed.

End StepsRead.

(** ** The checklist of a written operation *)

Section ChecklistRead.
Import Re ReNotions ReFacts ReMore ReCalc.

Lemma checklist_rejects REST prev pos (w : string) d ds t :
  L w = d :: ds -> Py.isspace d = false -> d <> "["%char -> d <> "C"%char ->
  match_at DOTALL (Seq (Str "###")
                       (Seq Pat.sp_plus (Seq (Pat.label (Str "Checklist")) REST)))
           (MState prev pos (L "### " ++ L w ++ t) []) = None.
Proof.
  intros Hw Hd Hb Hne. apply (heading3_rejects _ _ w d ds t prev pos Hw Hd).
  intros st Hst. apply (label_fails _ st d (ds ++ t)); [now rewrite Hst, Hw | exact Hb |].
  apply str_fails. rewrite Hst, Hw. cbn [app L list_ascii_of_string Py.startswith].
  destruct (Py.ascii_eqb "C" d) eqn:E; [| reflexivity].
  apply Ascii.eqb_eq in E. congruence.
Qed.

Lemma other_words_checklist :
  Forall (fun w => w = "Checklist"%string
                   \/ exists d ds, L w = d :: ds /\ Py.isspace d = false
                                   /\ d <> "["%char /\ d <> "C"%char)
         ["Inputs"; "Outputs"; "Steps"; "Checklist"]%string.
Proof.
  constructor;
    [right; eexists; eexists; split; [reflexivity | repeat split; discriminate] |].
  constructor;
    [right; eexists; eexists; split; [reflexivity | repeat split; discriminate] |].
  constructor;
    [right; eexists; eexists; split; [reflexivity | repeat split; discriminate] |].
  constructor; [now left |].
  constructor.
Qed.

Lemma checklist_label st tail :
  m_rest st = L "Checklist" ++ tail ->
  exists y, first_match DOTALL (Pat.label (Str "Checklist")) st = Some y /\ m_rest y = tail.
Proof.
  intros Hr. eexists. split.
  - apply (first_label_bare "Checklist" "C"%char (L "hecklist") st tail);
      [reflexivity | discriminate | exact Hr].
  - reflexivity.
Qed.

Lemma checklist_found pre lines_ post :
  Forall plain_part (pre ++ ("Checklist"%string, lines_) :: post) ->
  Forall (fun p => fst p <> "Checklist"%string) pre ->
  exists m e,
    re_search DOTALL Pat.checklist_section
              (Text.join [nl; nl] (map sub_block (pre ++ ("Checklist"%string, lines_) :: post)))
    = Some m
    /\ group_str m 1 = Text.join [nl] lines_ ++ e
    /\ (e = [] \/ e = [nl]).
Proof.
  intros Hpl Hno. unfold re_search.
  apply (search_parts_found Pat.checklist_section "Checklist"); try assumption.
  - intros prev pos rest H. unfold Pat.checklist_section. cbn [Seqs].
    now apply heading3_needs_hashes.
  - intros prev pos w t Hin Hw. pose proof other_words_checklist as Hwords.
    rewrite List.Forall_forall in Hwords.
    destruct (Hwords w Hin) as [-> | (d & ds & Ed & H1 & H2 & H3)]; [congruence |].
    unfold Pat.checklist_section. cbn [Seqs].
    now apply (checklist_rejects _ prev pos w d ds t).
  - unfold Pat.checklist_section. cbn [Seqs].
    apply (heading3_accepts (Str "Checklist") _ "Checklist" "C"%char (L "hecklist")).
    + reflexivity.
    + reflexivity.
    + apply checklist_label.
    + intros st w T. apply checklist_body.
Qed.

Lemma checklist_absent ps :
  Forall plain_part ps -> Forall (fun p => fst p <> "Checklist"%string) ps ->
  re_search DOTALL Pat.checklist_section (Text.join [nl; nl] (map sub_block ps)) = None.
Proof.
  intros Hpl Hno. unfold re_search.
  apply (search_parts_none Pat.checklist_section "Checklist"); try assumption.
  - intros prev pos rest H. unfold Pat.checklist_section. cbn [Seqs].
    now apply heading3_needs_hashes.
  - intros prev pos w t Hin Hw. pose proof other_words_checklist as Hwords.
    rewrite List.Forall_forall in Hwords.
    destruct (Hwords w Hin) as [-> | (d & ds & Ed & H1 & H2 & H3)]; [congruence |].
    unfold Pat.checklist_section. cbn [Seqs].
    now apply (checklist_rejects _ prev pos w d ds t).
Qed.

End ChecklistRead.

(** ** The sub-sections of a written operation, each read back *)

Section PartsRead.
Import Re ReNotions ReFacts ReMore ReCalc.

Ltac words_differ :=
  repeat match goal with
         | |- context [match ?x with _ => _ end] => destruct x
         end;
  cbn [app]; repeat constructor; cbn [fst]; discriminate.

Ltac part_at :=
  first [ exists []; eexists; split; [reflexivity | constructor]
        | eexists [_]; eexists; split;
          [reflexivity | repeat constructor; cbn [fst]; discriminate]
        | eexists [_; _]; eexists; split;
          [reflexivity | repeat constructor; cbn [fst]; discriminate]
        | eexists [_; _; _]; eexists; split;
          [reflexivity | repeat constructor; cbn [fst]; discriminate] ].

Lemma inputs_part o :
  match op_inputs o with
  | [] => Forall (fun p => fst p <> "Inputs"%string) (operation_parts o)
  | l => exists pre post,
      operation_parts o = pre ++ ("Inputs"%string, map bullet_line l) :: post
      /\ Forall (fun p => fst p <> "Inputs"%string) pre
  end.
Proof.
  unfold operation_parts.
  destruct (op_inputs o), (op_outputs o), (op_steps o), (op_checklist o) as [[[|? ?]]|];
    cbn [app items]; first [part_at | words_differ | constructor].
Qed.

Lemma outputs_part o :
  match op_outputs o with
  | [] => Forall (fun p => fst p <> "Outputs"%string) (operation_parts o)
  | l => exists pre post,
      operation_parts o = pre ++ ("Outputs"%string, map bullet_line l) :: post
      /\ Forall (fun p => fst p <> "Outputs"%string) pre
  end.
Proof.
  unfold operation_parts.
  destruct (op_inputs o), (op_outputs o), (op_steps o), (op_checklist o) as [[[|? ?]]|];
    cbn [app items]; first [part_at | words_differ | constructor].
Qed.

Lemma steps_part o :
  match op_steps o with
  | [] => Forall (fun p => fst p <> "Steps"%string) (operation_parts o)
  | l => exists pre post,
      operation_parts o = pre ++ ("Steps"%string, map Writer.step_line l) :: post
      /\ Forall (fun p => fst p <> "Steps"%string) pre
  end.
Proof.
  unfold operation_parts.
  destruct (op_inputs o), (op_outputs o), (op_steps o), (op_checklist o) as [[[|? ?]]|];
    cbn [app items]; first [part_at | words_differ | constructor].
Qed.

Lemma checklist_part o :
  match op_checklist o with
  | Some {| items := i :: l |} =>
      exists pre post,
      operation_parts o = pre ++ ("Checklist"%string, map bullet_line (i :: l)) :: post
      /\ Forall (fun p => fst p <> "Checklist"%string) pre
  | _ => Forall (fun p => fst p <> "Checklist"%string) (operation_parts o)
  end.
Proof.
  unfold operation_parts.
  destruct (op_inputs o), (op_outputs o), (op_steps o), (op_checklist o) as [[[|? ?]]|];
    cbn [app items]; first [part_at | words_differ | constructor].
Qed.

Lemma bullet_lines_flat (entries : list str) :
  Forall plain_line entries ->
  flat_map (fun line => if is_bullet (Py.strip line)
                        then [Py.strip (Py.lstrip_chars (L "-*") (Py.strip line))]
                        else [])
           (map bullet_line entries)
  = entries.
Proof.
  induction 1 as [|i l (_ & Hs & _) _ IH]; [reflexivity |].
  cbn [map flat_map]. destruct (item_line_read "-" i (or_introl eq_refl) Hs) as [Hb Hi].
  change (bullet_line i) with ("-"%char :: " "%char :: i).
  rewrite Hb, Hi. cbn [app]. now rewrite IH.
Qed.

Lemma bullet_lines_no_nl (entries : list str) :
  Forall plain_line entries -> Forall (fun l => ~ In nl l) (map bullet_line entries).
Proof.
  intros Hall. apply Forall_map. eapply List.Forall_impl; [| exact Hall].
  intros i Hi. apply plain_line_no_nl. now apply bullet_line_plain.
Qed.

(** The items that are written one to the line are read back, also
    when a newline follows the last line. *)
Lemma bullet_lines_read (entries : list str) (e : str) :
  entries <> [] -> Forall plain_line entries -> e = [] \/ e = [nl] ->
  bullet_items (Text.join [nl] (map bullet_line entries) ++ e) = entries.
Proof.
  intros Hne Hall He. pose proof (bullet_lines_no_nl entries Hall) as Hnl.
  destruct entries as [|i l]; [congruence |]. destruct He as [-> | ->].
  - rewrite app_nil_r, bullet_items_lines; [| discriminate | exact Hnl].
    now apply bullet_lines_flat.
  - cbn [map]. rewrite <- join_snoc_empty.
    change (bullet_line i :: map bullet_line l ++ [[]])
      with (map bullet_line (i :: l) ++ [[]]).
    rewrite bullet_items_lines.
    + rewrite flat_map_app, bullet_lines_flat by exact Hall.
      apply (app_nil_r (i :: l)).
    + discriminate.
    + apply Forall_app. split; [exact Hnl | repeat constructor; intros []].
Qed.

Lemma inputs_read o :
  writable_Operation o ->
  subsection_items (Pat.plural "Input") (operation_content o) = op_inputs o.
Proof.
  intros Ho. pose proof (operation_parts_plain o Ho) as Hp.
  destruct Ho as (_ & _ & Hi & _). pose proof (inputs_part o) as Hpart.
  unfold subsection_items, operation_content.
  destruct (op_inputs o) as [|i l].
  - rewrite (plural_absent "Input" "Inputs" "I"%char (L "nput") (operation_parts o));
      [reflexivity | reflexivity | exact other_words_inputs | exact Hp | exact Hpart].
  - destruct Hpart as (pre & post & E & Hpre). rewrite E in *.
    destruct (plural_found "Input" "Inputs" "I"%char (L "nput") pre
                           (map bullet_line (i :: l)) post)
      as (m & e & -> & Hg & He);
      [reflexivity | discriminate | reflexivity | reflexivity
       | exact other_words_inputs | exact Hp | exact Hpre |].
    rewrite Hg. apply bullet_lines_read; [discriminate | exact Hi | exact He].
Qed.

Lemma outputs_read o :
  writable_Operation o ->
  subsection_items (Pat.plural "Output") (operation_content o) = op_outputs o.
Proof.
  intros Ho. pose proof (operation_parts_plain o Ho) as Hp.
  destruct Ho as (_ & _ & _ & Hi & _). pose proof (outputs_part o) as Hpart.
  unfold subsection_items, operation_content.
  destruct (op_outputs o) as [|i l].
  - rewrite (plural_absent "Output" "Outputs" "O"%char (L "utput") (operation_parts o));
      [reflexivity | reflexivity | exact other_words_outputs | exact Hp | exact Hpart].
  - destruct Hpart as (pre & post & E & Hpre). rewrite E in *.
    destruct (plural_found "Output" "Outputs" "O"%char (L "utput") pre
                           (map bullet_line (i :: l)) post)
      as (m & e & -> & Hg & He);
      [reflexivity | discriminate | reflexivity | reflexivity
       | exact other_words_outputs | exact Hp | exact Hpre |].
    rewrite Hg. apply bullet_lines_read; [discriminate | exact Hi | exact He].
Qed.

Lemma steps_read lib o :
  writable_Operation o ->
  parse_steps lib (operation_content o) = Ok (op_steps o).
Proof.
  intros Ho. pose proof (operation_parts_plain o Ho) as Hp.
  destruct Ho as (_ & _ & _ & _ & Hi & _). pose proof (steps_part o) as Hpart.
  unfold parse_steps, operation_content.
  destruct (op_steps o) as [|i l].
  - rewrite (plural_absent "Step" "Steps" "S"%char (L "tep") (operation_parts o));
      [reflexivity | reflexivity | exact other_words_steps | exact Hp | exact Hpart].
  - destruct Hpart as (pre & post & E & Hpre). rewrite E in *.
    destruct (plural_found "Step" "Steps" "S"%char (L "tep") pre
                           (map Writer.step_line (i :: l)) post)
      as (m & e & -> & Hg & He);
      [reflexivity | discriminate | reflexivity | reflexivity
       | exact other_words_steps | exact Hp | exact Hpre |].
    cbv zeta. rewrite Hg, finditer_is_at. now apply steps_found.
Qed.

Lemma checklist_read o :
  writable_Operation o ->
  parse_checklist (operation_content o) = op_checklist o.
Proof.
  intros Ho. pose proof (operation_parts_plain o Ho) as Hp.
  destruct Ho as (_ & _ & _ & _ & _ & Hi). pose proof (checklist_part o) as Hpart.
  unfold parse_checklist, operation_content.
  destruct (op_checklist o) as [[[|i l]] |].
  - cbn [items] in Hi. destruct Hi as [Hi _]. congruence.
  - destruct Hpart as (pre & post & E & Hpre). rewrite E in *.
    destruct (checklist_found pre (map bullet_line (i :: l)) post Hp Hpre)
      as (m & e & -> & Hg & He).
    cbn [items] in Hi. destruct Hi as [Hne Hi].
    rewrite Hg, (bullet_lines_read (i :: l) e Hne Hi He). reflexivity.
  - now rewrite (checklist_absent (operation_parts o) Hp Hpart).
Qed.

End PartsRead.

(** ** The written operations, read back *)

Section OperationsRead.
Import Re ReNotions ReFacts ReMore ReCalc.

Lemma plain_line_end l :
  plain_line l -> exists b c, l = b ++ [c] /\ Py.isspace c = false.
Proof.
  intros (Hne & Hs & _). destruct (stripped_ends l Hs Hne) as (_ & (c & t & E & Hc)).
  exists (rev t), c. split; [| exact Hc].
  rewrite <- (rev_involutive l), E. reflexivity.
Qed.

Lemma lines_end : forall ls,
    ls <> [] -> Forall plain_line ls ->
    exists b c, Text.join [nl] ls = b ++ [c] /\ Py.isspace c = false.
Proof.
  induction ls as [|l ls IH]; [congruence |]. intros _ Hall.
  inversion Hall as [|l0 ls0 Hl Hls]; subst. destruct ls as [|l2 ls].
  - now apply plain_line_end.
  - destruct (IH ltac:(discriminate) Hls) as (b & c & E & Hc).
    rewrite join_cons, E. exists (l ++ [nl] ++ b), c. split; [| exact Hc].
    now rewrite <- !app_assoc.
Qed.

Lemma parts_end : forall ps,
    ps <> [] -> Forall plain_part ps ->
    exists b c, Text.join [nl; nl] (map sub_block ps) = b ++ [c] /\ Py.isspace c = false.
Proof.
  induction ps as [|p ps IH]; [congruence |]. intros _ Hall.
  inversion Hall as [|p0 ps0 Hp Hps]; subst. destruct ps as [|q ps].
  - destruct Hp as (_ & Hne & Hl). destruct (lines_end (snd p) Hne Hl) as (b & c & E & Hc).
    cbn [map Text.join]. unfold sub_block. rewrite E.
    exists (L "### " ++ L (fst p) ++ [nl; nl] ++ b), c. split; [| exact Hc].
    now rewrite <- !app_assoc.
  - destruct (IH ltac:(discriminate) Hps) as (b & c & E & Hc).
    cbn [map]. rewrite join_cons. cbn [map] in E. rewrite E.
    exists (sub_block p ++ [nl; nl] ++ b), c. split; [| exact Hc].
    now rewrite <- !app_assoc.
Qed.

(** The content of a written operation has no white space around it. *)
Lemma content_stripped ps :
  ps <> [] -> Forall plain_part ps ->
  Py.strip (Text.join [nl; nl] (map sub_block ps)) = Text.join [nl; nl] (map sub_block ps)
  /\ Text.join [nl; nl] (map sub_block ps) <> [].
Proof.
  intros Hne Hall. destruct (parts_end ps Hne Hall) as (b & c & E & Hc).
  destruct ps as [|p ps]; [congruence |].
  destruct (sub_blocks_start p ps) as (t & Et). split.
  - apply strip_keep.
    + rewrite Et. reflexivity.
    + rewrite E, rev_app_distr. exact Hc.
  - rewrite Et. discriminate.
Qed.

(** The line of the heading of a written operation. *)
Lemma heading_line_first n T :
  plain_line n ->
  exists x,
    first_match no_flags Pat.item_heading_line (MState None 0 (L "## " ++ n ++ nl :: T) [])
    = Some x
    /\ m_pos x = 4 + length n.
Proof.
  intros Hn. pose proof (plain_line_no_nl n Hn) as Hnl.
  destruct Hn as (Hne & Hs & _).
  destruct (stripped_ends n Hs Hne) as ((c & t & -> & Hc) & _).
  set (st := MState None 0 (L "## " ++ (c :: t) ++ nl :: T) []).
  unfold Pat.item_heading_line. cbn [Seqs]. eexists. split.
  - eapply first_seq; [reflexivity |].
    eapply first_seq.
    { unfold first_match. rewrite rmatch_str by reflexivity. reflexivity. }
    eapply first_seq; [apply first_sp_plus_space; [reflexivity | exact Hc] |].
    eapply first_seq.
    { unfold Pat.not_nl.
      apply (first_plus_run no_flags (NoneOf [AChar nl]) c t _ (nl :: T)).
      - reflexivity.
      - now apply not_nl_class.
      - reflexivity. }
    unfold Pat.newline, Pat.ch. rewrite first_chr. reflexivity.
  - cbn [m_pos st gone_over advance length L list_ascii_of_string]. lia.
Qed.

(** The slice of a written operation gives, without the line of its
    heading and stripped, the content of the operation. *)
Lemma content_read o e :
  writable_Operation o -> e = [] \/ e = [nl] ->
  item_content (operation_text o ++ e) = operation_content o.
Proof.
  intros Ho He. pose proof (operation_parts_plain o Ho) as Hp.
  rewrite item_content_unfold. unfold operation_text, operation_tail.
  set (t := match operation_parts o with
            | [] => []
            | _ :: _ => nl :: operation_content o ++ [nl]
            end ++ e).
  replace ((L "## " ++ op_name o ++ [nl] ++ match operation_parts o with
                                            | [] => []
                                            | _ :: _ => nl :: operation_content o ++ [nl]
                                            end) ++ e)
    with (L "## " ++ op_name o ++ nl :: t)
    by (unfold t; rewrite <- !app_assoc; reflexivity).
  destruct (heading_line_first (op_name o) t (proj1 Ho)) as (x & Hx & Hpos).
  unfold re_search.
  rewrite (search_from_here _ _ _ _ _ (ReMatch 0 x))
    by (rewrite match_at_first; cbn [m_pos]; now rewrite Hx).
  unfold mt_end. cbn [mt_start mt_final]. rewrite Hpos.
  replace (Py.slice (L "## " ++ op_name o ++ nl :: t) 0 0) with (@nil ascii) by reflexivity.
  replace (drop (4 + length (op_name o)) (L "## " ++ op_name o ++ nl :: t)) with t.
  2:{ replace (L "## " ++ op_name o ++ nl :: t) with ((L "## " ++ op_name o ++ [nl]) ++ t)
        by (rewrite <- !app_assoc; reflexivity).
      replace (4 + length (op_name o)) with (length (L "## " ++ op_name o ++ [nl]))
        by (rewrite !length_app; simpl; lia).
      now rewrite drop_app_length. }
  cbn [app]. unfold t, operation_content in *.
  destruct (operation_parts o) as [|p ps] eqn:Ep.
  - destruct He as [-> | ->]; reflexivity.
  - destruct (content_stripped (p :: ps) ltac:(discriminate) Hp) as (Hs & Hne).
    set (C := Text.join [nl; nl] (map sub_block (p :: ps))) in *.
    replace ((nl :: C ++ [nl]) ++ e) with ([nl] ++ C ++ ([nl] ++ e))
      by (cbn [app]; rewrite <- !app_assoc; reflexivity).
    apply strip_padded; [exact Hs | exact Hne | repeat constructor |].
    destruct He as [-> | ->]; repeat constructor.
Qed.

(** A name that is plain and does not start with a bracket is kept as
    it is. *)
Lemma names_kept : forall ops pos,
    Forall writable_Operation ops ->
    map (fun p => (fst p, unbracket (Py.strip (snd p)))) (op_starts pos ops)
    = op_starts pos ops.
Proof.
  induction ops as [|o ops IH]; intros pos Hall; [reflexivity |].
  inversion Hall as [|o0 l0 ((_ & Hs & _) & Hb & _) Hops]; subst.
  cbn [op_starts map fst snd]. rewrite Hs, (unbracket_plain _ Hb). f_equal.
  now apply IH.
Qed.

(** The boundaries of the items in the written operations: where each
    operation starts, with its name. *)
Lemma boundaries_found o ops :
  Forall writable_Operation (o :: ops) ->
  item_boundaries (Text.join [nl] (map operation_text (o :: ops))) = op_starts 0 (o :: ops).
Proof.
  intros Hall. rewrite item_boundaries_filter, (no_fences (o :: ops) Hall).
  assert (Hf : forall l : list rematch,
             List.filter (fun hm => negb (_is_position_in_code_fence (mt_start hm) [])) l = l).
  { induction l as [|a l IH]; [reflexivity |]. cbn [List.filter].
    change (negb (_is_position_in_code_fence (mt_start a) [])) with true. cbv iota.
    now rewrite IH. }
  rewrite Hf, finditer_is_at.
  rewrite <- (names_kept (o :: ops) 0 Hall).
  rewrite <- (headings_found ops o None 0 eq_refl Hall).
  rewrite map_map. reflexivity.
Qed.

(** An operation is read from its slice. *)
Lemma operation_read lib o e section a b :
  writable_Operation o -> e = [] \/ e = [nl] ->
  item_slice section a b = operation_text o ++ e ->
  parse_operation lib section (a, b, op_name o) = Ok o.
Proof.
  intros Ho He Hslice. unfold parse_operation. cbv zeta. rewrite Hslice.
  rewrite (content_read o e Ho He), (inputs_read o Ho), (outputs_read o Ho).
  rewrite (steps_read lib o Ho). cbn [bind]. rewrite (checklist_read o Ho).
  unfold new_Operation, validated, min_length_1.
  rewrite (is_empty_false _ (proj1 (proj1 Ho))). destruct o. reflexivity.
Qed.

Lemma item_spans_next n a name b name' rest :
  item_spans n ((a, name) :: (b, name') :: rest)
  = (a, b, name) :: item_spans n ((b, name') :: rest).
Proof. reflexivity. Qed.

(** The operations are read one after the other from their slices. *)
Lemma operations_read lib : forall ops o P,
    Forall writable_Operation (o :: ops) ->
    mapM (parse_operation lib (P ++ Text.join [nl] (map operation_text (o :: ops))))
         (item_spans (length (P ++ Text.join [nl] (map operation_text (o :: ops))))
                     (op_starts (length P) (o :: ops)))
    = Ok (o :: ops).
Proof.
  induction ops as [|o' ops IH]; intros o P Hall;
    inversion Hall as [|o0 l0 Ho Hops]; subst o0 l0.
  - cbn [map Text.join op_starts item_spans mapM].
    rewrite (operation_read lib o [] _ _ _ Ho (or_introl eq_refl)); [reflexivity |].
    unfold item_slice. rewrite slice_to_end, drop_app_length. now rewrite app_nil_r.
  - cbn [map]. rewrite join_cons.
    set (J := Text.join [nl] (operation_text o' :: map operation_text ops)) in *.
    change (op_starts (length P) (o :: o' :: ops))
      with ((length P, op_name o)
              :: (length P + length (operation_text o) + 1, op_name o')
              :: op_starts (length P + length (operation_text o) + 1
                            + length (operation_text o') + 1) ops).
    rewrite item_spans_next. cbn [mapM].
    rewrite (operation_read lib o [nl] _ _ _ Ho (or_intror eq_refl)).
    2:{ unfold item_slice.
        replace (P ++ operation_text o ++ [nl] ++ J)
          with (P ++ (operation_text o ++ [nl]) ++ J)
          by (rewrite <- !app_assoc; reflexivity).
        replace (length P + length (operation_text o) + 1)
          with (length P + length (operation_text o ++ [nl]))
          by (rewrite length_app; simpl; lia).
        apply slice_middle. }
    cbn [bind].
    specialize (IH o' (P ++ operation_text o ++ [nl]) Hops). cbn [map] in IH.
    fold J in IH.
    replace ((P ++ operation_text o ++ [nl]) ++ J) with (P ++ operation_text o ++ [nl] ++ J)
      in IH by (rewrite <- !app_assoc; reflexivity).
    replace (length (P ++ operation_text o ++ [nl]))
      with (length P + length (operation_text o) + 1) in IH
      by (rewrite !length_app; simpl; lia).
    cbn [op_starts] in IH. rewrite IH. reflexivity.
Qed.

(** What the writer writes for operations that it can write. *)
Lemma serialize_operations_text o ops :
  Forall writable_Operation (o :: ops) ->
  Writer._serialize_operations (o :: ops)
  = L "# Operations" ++ [nl; nl] ++ Text.join [nl] (map operation_text (o :: ops)).
Proof.
  intros Hall. unfold Writer._serialize_operations.
  assert (E : map Writer._serialize_operation (o :: ops) = map operation_text (o :: ops)).
  { apply map_ext_in. intros x Hx. apply serialize_operation_text.
    rewrite List.Forall_forall in Hall. destruct (Hall x Hx) as (_ & _ & _ & _ & _ & Hc).
    destruct (op_checklist x); [exact (proj1 Hc) | exact I]. }
  rewrite E. cbn [map]. rewrite join_cons. now rewrite <- !app_assoc.
Qed.

(** The section of the written operations is found, and its text is the
    operations. *)
Lemma operations_section_found o ops :
  Forall writable_Operation (o :: ops) ->
  exists m,
    re_search DOTALL Pat.operations_section (Writer._serialize_operations (o :: ops))
    = Some m
    /\ group_str m 1 = Text.join [nl] (map operation_text (o :: ops)).
Proof.
  intros Hall. rewrite (serialize_operations_text o ops Hall).
  set (J := Text.join [nl] (map operation_text (o :: ops))).
  assert (EJ : exists t, J = "#"%char :: t).
  { unfold J. destruct ops as [|o' ops]; cbn [map].
    - eexists. reflexivity.
    - rewrite join_cons. eexists. reflexivity. }
  destruct EJ as (t & Et).
  assert (Hfirst : exists x,
             first_match DOTALL Pat.operations_section
                         (MState None 0 (L "# Operations" ++ [nl; nl] ++ J) [])
             = Some x /\ group_str (ReMatch 0 x) 1 = J).
  { unfold Pat.operations_section. cbn [Seqs]. eexists. split.
    - eapply first_seq; [unfold Pat.ch; rewrite first_chr; reflexivity |].
      eapply first_seq; [apply first_sp_plus_space; [reflexivity | reflexivity] |].
      eapply first_seq.
      { apply (first_label_bare "Operations" "O"%char (L "perations"));
          [reflexivity | discriminate | reflexivity]. }
      apply (first_blank_line _ _ "#"%char t).
      + cbn [gone_over m_rest app]. rewrite Et. reflexivity.
      + reflexivity.
      + eapply first_seq.
        * rewrite first_group. unfold Pat.dot.
          rewrite (first_star_run DOTALL (One AAny) J _ []).
          -- reflexivity.
          -- cbn [gone_over m_rest]. now rewrite app_nil_r, Et.
          -- apply Forall_forall. intros c _. reflexivity.
          -- exact I.
        * reflexivity.
    - unfold group_str, group. cbn [mt_final].
      rewrite set_cap_gone_over by (cbn [gone_over m_rest]; now rewrite app_nil_r, Et).
      cbn [m_caps cap_lookup Nat.eqb]. reflexivity. }
  destruct Hfirst as (x & Hx & Hg). exists (ReMatch 0 x). split; [| exact Hg].
  unfold re_search. apply search_from_here. rewrite match_at_first. cbn [m_pos].
  now rewrite Hx.
Qed.

Lemma serialized_operations_read lib ops :
  Forall writable_Operation ops ->
  _parse_operations lib (Writer._serialize_operations ops) = Ok ops.
Proof.
  intros Hall. destruct ops as [|o ops]; [reflexivity |].
  destruct (operations_section_found o ops Hall) as (m & Hm & Hg).
  unfold _parse_operations. rewrite Hm. cbv zeta. rewrite Hg.
  rewrite (boundaries_found o ops Hall).
  exact (operations_read lib ops o [] Hall).
Qed.

End OperationsRead.

(** X21.  The operations survive being written and read back:
    [_parse_operations] returns, from what [_serialize_operations] wrote,
    the operations that were written, in their order, each with its
    inputs, outputs, steps and checklist.  This holds for operations
    whose name, inputs, outputs, instructions and checklist items are
    each on one line, not empty, neither start nor end with white space
    and hold neither a hash nor a backtick; whose name does not start
    with a bracket; whose steps have a number of at least 1 and carry
    the operation references that their instruction names in brackets
    (none when it names none); and whose checklist, if there is one, is
    not empty. *)
Theorem operations_round_trip lib ops :
  Forall writable_Operation ops ->
  _parse_operations lib (Writer._serialize_operations ops) = Ok ops.
Proof. apply serialized_operations_read. Qed.

Lemma operations_round_trip_witness :
  Writer._serialize_operations
    [{| op_name := L "DailyReview";
        op_inputs := [L "inbox"; L "calendar"];
        op_outputs := [L "summary"];
        op_steps := [{| step_number := 1; instruction := L "Read the inbox";
                        operation_references := None |};
                     {| step_number := 2; instruction := L "Run [Summarize] on it";
                        operation_references := Some [L "Summarize"] |}];
        op_checklist := Some {| items := [L "Summary sent"] |} |};
     {| op_name := L "Summarize"; op_inputs := []; op_outputs := [];
        op_steps := []; op_checklist := None |}]
  = lines_open ["# Operations"; ""; "## DailyReview"; ""; "### Inputs"; "";
                "- inbox"; "- calendar"; ""; "### Outputs"; ""; "- summary"; "";
                "### Steps"; ""; "1. Read the inbox"; "2. Run [Summarize] on it"; "";
                "### Checklist"; ""; "- Summary sent"; ""; "## Summarize"; ""]
  /\ _parse_operations Fixture.lib
       (Writer._serialize_operations
          [{| op_name := L "DailyReview";
              op_inputs := [L "inbox"; L "calendar"];
              op_outputs := [L "summary"];
              op_steps := [{| step_number := 1; instruction := L "Read the inbox";
                              operation_references := None |};
                           {| step_number := 2; instruction := L "Run [Summarize] on it";
                              operation_references := Some [L "Summarize"] |}];
              op_checklist := Some {| items := [L "Summary sent"] |} |};
           {| op_name := L "Summarize"; op_inputs := []; op_outputs := [];
              op_steps := []; op_checklist := None |}])
     = Ok [{| op_name := L "DailyReview";
              op_inputs := [L "inbox"; L "calendar"];
              op_outputs := [L "summary"];
              op_steps := [{| step_number := 1; instruction := L "Read the inbox";
                              operation_references := None |};
                           {| step_number := 2; instruction := L "Run [Summarize] on it";
                              operation_references := Some [L "Summarize"] |}];
              op_checklist := Some {| items := [L "Summary sent"] |} |};
           {| op_name := L "Summarize"; op_inputs := []; op_outputs := [];
              op_steps := []; op_checklist := None |}].
Proof.
  split; [reflexivity |].
  apply operations_round_trip.
  repeat constructor; try discriminate; try reflexivity;
    cbn; try lia; try (intuition discriminate); repeat constructor; discriminate.
Defined.
(** * The items of a Tool document, read as tools and as operations *)

Section ToolsAndOperations.
Import Re ReNotions ReFacts ReMore ReCalc.

Lemma always_plural_drop (pre u : str) :
  always_plural (pre ++ u) = true -> always_plural u = true.
Proof.
  induction pre as [|c pre IH]; [trivial |]. cbn [app always_plural].
  intros H. apply andb_true_iff in H as [_ H]. now apply IH.
Qed.

Lemma always_plural_here (u : str) :
  always_plural u = true ->
  Py.startswith (L "Operation") u = true -> Py.startswith (L "Operations") u = true.
Proof.
  destruct u as [|c u]; [discriminate |]. cbn [always_plural].
  intros H Hs. apply andb_true_iff in H as [H _]. rewrite Hs in H. exact H.
Qed.

Lemma always_plural_extends st st' :
  extends st st' -> always_plural (m_rest st) = true -> always_plural (m_rest st') = true.
Proof. intros (w & Hr & _). rewrite Hr. apply always_plural_drop. Qed.

Lemma rmatch_seq_ext fl a K K' st :
  (forall mid, In mid (rmatch fl a st) -> rmatch fl K mid = rmatch fl K' mid) ->
  rmatch fl (Seq a K) st = rmatch fl (Seq a K') st.
Proof.
  intros H. rewrite !rmatch_seq.
  induction (rmatch fl a st) as [|x l IH]; [reflexivity |].
  cbn [flat_map]. rewrite (H x) by now left. f_equal.
  apply IH. intros mid Hmid. apply H. now right.
Qed.

(** Where the word is always in the plural, the pattern "Operations?"
    matches as the pattern "Operations" does, before anything that an s
    cannot start. *)
Lemma plural_as_word K st :
  always_plural (m_rest st) = true ->
  (forall y t, m_rest y = "s"%char :: t -> rmatch DOTALL K y = []) ->
  rmatch DOTALL (Seq (Pat.plural "Operation") K) st
  = rmatch DOTALL (Seq (Str "Operations") K) st.
Proof.
  intros Hp HK. unfold Pat.plural. rewrite !rmatch_seq, !rmatch_str by reflexivity.
  destruct (Py.startswith (L "Operation") (m_rest st)) eqn:E1.
  - rewrite (always_plural_here _ Hp E1).
    pose proof (always_plural_here _ Hp E1) as E2.
    apply startswith_prefix in E2 as (t & Et). rewrite Et.
    change (drop (length (L "Operation")) (L "Operations" ++ t)) with ("s"%char :: t).
    rewrite drop_app_length. cbn [flat_map]. rewrite !app_nil_r.
    unfold Opt. cbn [rmatch]. unfold Pat.ch.
    change (rmatch DOTALL (Chr (One (AChar "s"))) (gone_over st (L "Operation") ("s"%char :: t)))
      with [advance "s" t (gone_over st (L "Operation") ("s"%char :: t))].
    cbn [app flat_map].
    rewrite (HK (gone_over st (L "Operation") ("s"%char :: t)) t eq_refl), app_nil_r.
    f_equal. unfold advance, gone_over. cbn [m_prev m_pos m_rest m_caps]. f_equal.
    cbn [length L list_ascii_of_string]. lia.
  - destruct (Py.startswith (L "Operations") (m_rest st)) eqn:E2; [| reflexivity].
    apply startswith_prefix in E2 as (t & Et). rewrite Et in E1. discriminate.
Qed.

Lemma section_tail_needs_space K y t :
  m_rest y = "s"%char :: t ->
  rmatch DOTALL (Seq Pat.sp_star (Seq Pat.newline K)) y = [].
Proof.
  intros Hr. unfold Pat.sp_star.
  rewrite (rmatch_seq_one _ _ _ _ y) by (apply star_chr_stop; now rewrite Hr).
  apply rmatch_seq_none. unfold Pat.newline. rewrite rmatch_ch by reflexivity.
  now rewrite Hr.
Qed.

Lemma bracket_needs_bracket y t :
  m_rest y = "s"%char :: t -> rmatch DOTALL (Pat.ch "]") y = [].
Proof. intros Hr. rewrite rmatch_ch by reflexivity. now rewrite Hr. Qed.

(** Where the word is always in the plural, the pattern of the tools
    section matches as the pattern of the operations section does. *)
Lemma tools_section_as_operations st :
  always_plural (m_rest st) = true ->
  rmatch DOTALL Pat.tools_section st = rmatch DOTALL Pat.operations_section st.
Proof.
  intros Hp. unfold Pat.tools_section, Pat.operations_section. cbn [Seqs].
  apply rmatch_seq_ext. intros s1 H1.
  pose proof (always_plural_extends _ _ (rmatch_extends _ _ _ _ H1) Hp) as Hp1.
  apply rmatch_seq_ext. intros s2 H2.
  pose proof (always_plural_extends _ _ (rmatch_extends _ _ _ _ H2) Hp1) as Hp2.
  unfold Pat.label. cbn [Seqs]. rewrite !rmatch_seq.
  change (rmatch DOTALL (Alt ?a ?b) s2) with (rmatch DOTALL a s2 ++ rmatch DOTALL b s2).
  rewrite !flat_map_app. f_equal.
  - f_equal. apply rmatch_seq_ext. intros s3 H3.
    pose proof (always_plural_extends _ _ (rmatch_extends _ _ _ _ H3) Hp2) as Hp3.
    apply plural_as_word; [exact Hp3 | apply bracket_needs_bracket].
  - rewrite <- !rmatch_seq. apply plural_as_word; [exact Hp2 |].
    intros y t. apply section_tail_needs_space.
Qed.

Lemma tools_search_as_operations : forall rest prev pos,
    always_plural rest = true ->
    search_from DOTALL Pat.tools_section prev pos rest
    = search_from DOTALL Pat.operations_section prev pos rest.
Proof.
  induction rest as [|c rest IH]; intros prev pos Hp.
  - cbn [search_from]. unfold match_at.
    now rewrite (tools_section_as_operations (MState prev pos [] []) Hp).
  - cbn [search_from]. unfold match_at.
    rewrite (tools_section_as_operations (MState prev pos (c :: rest) []) Hp).
    destruct (rmatch DOTALL Pat.operations_section _); [| reflexivity].
    apply IH. cbn [always_plural] in Hp. now apply andb_true_iff in Hp as [_ Hp].
Qed.

(** Each item gives a tool and an operation of the same name, inputs and
    outputs. *)
Lemma item_tool_operation lib section item t o :
  parse_tool lib section item = Ok t -> parse_operation lib section item = Ok o ->
  tool_name t = op_name o /\ tool_inputs t = op_inputs o /\ tool_outputs t = op_outputs o.
Proof.
  destruct item as [[a b] name]. unfold parse_tool, parse_operation.
  destruct (Py.is_empty _); [discriminate |].
  intros Ht. apply validated_ok in Ht as ->.
  destruct (parse_steps lib _) as [steps |]; [| discriminate]. cbn [bind].
  intros Ho. apply validated_ok in Ho as ->. repeat split.
Qed.

Lemma mapM_both {A B C D} (f : A -> result B) (g : A -> result C)
      (F : B -> D) (G : C -> D) (l : list A) :
  (forall a b c, f a = Ok b -> g a = Ok c -> F b = G c) ->
  forall bs cs, mapM f l = Ok bs -> mapM g l = Ok cs -> map F bs = map G cs.
Proof.
  intros H. induction l as [|a l IH]; intros bs cs; cbn [mapM].
  - intros [= <-] [= <-]. reflexivity.
  - destruct (f a) as [b |] eqn:Ef; [| discriminate].
    destruct (mapM f l) as [bs' |]; [| discriminate].
    destruct (g a) as [c |] eqn:Eg; [| discriminate].
    destruct (mapM g l) as [cs' |]; [| discriminate].
    cbn [bind]. intros [= <-] [= <-]. cbn [map]. f_equal.
    + now apply (H a).
    + now apply IH.
Qed.

(** The tools and the operations of a body in which the word is always
    in the plural are the same items. *)
Lemma tools_as_operations lib body tools ops :
  always_plural body = true ->
  _parse_tools_section lib body = Ok tools -> _parse_operations lib body = Ok ops ->
  map (fun t => (tool_name t, tool_inputs t, tool_outputs t)) tools
  = map (fun o => (op_name o, op_inputs o, op_outputs o)) ops.
Proof.
  intros Hp. unfold _parse_tools_section, _parse_operations, re_search.
  rewrite (tools_search_as_operations body None 0 Hp).
  destruct (search_from DOTALL Pat.operations_section None 0 body) as [m |].
  - cbv zeta. apply mapM_both. intros item t o Ht Ho.
    destruct (item_tool_operation lib _ item t o Ht Ho) as (-> & -> & ->). reflexivity.
  - intros [= <-] [= <-]. reflexivity.
Qed.

Lemma tool_document_parts lib content meta body data fields tools :
  _extract_metadata lib content = Ok (meta, body, data) ->
  parse_document lib content = Ok (ToolDocument fields tools) ->
  _parse_tools_section lib body = Ok tools
  /\ _parse_operations lib body = Ok (operations fields).
Proof.
  intros Hmeta H. apply parse_document_ok in H. revert H.
  unfold parse_document_body, bind. rewrite Hmeta, parse_imports_total.
  destruct (_parse_local_definitions lib body) as [defs |]; [| discriminate].
  destruct (_parse_operations lib body) as [ops |]; [| discriminate].
  destruct (Py.str_eqb (md_type meta) tool_tag).
  - destruct (_parse_tools_section lib body) as [[|t ts] |]; try discriminate.
    intros [= <- <-]. split; reflexivity.
  - destruct (_parse_frontmatter_triggers lib data meta); [| discriminate].
    destruct (_parse_triggers lib body); discriminate.
Qed.

End ToolsAndOperations.

(** X22.  In a Tool document every item is read twice, as a tool and as
    an operation.  [_parse_tools_section] looks for its section under the
    heading [Operation] or [Operations] and [_parse_operations] under the
    heading [Operations]; so when the word "Operation" stands in the body
    only as part of "Operations", both find the same section and cut the
    same items out of it, and the tools of the document that
    [parse_document] returns are, one by one and in the same order, its
    operations: same name, same inputs, same outputs. *)
Theorem tools_are_operations lib content meta body data fields tools :
  _extract_metadata lib content = Ok (meta, body, data) ->
  always_plural body = true ->
  parse_document lib content = Ok (ToolDocument fields tools) ->
  map (fun t => (tool_name t, tool_inputs t, tool_outputs t)) tools
  = map (fun o => (op_name o, op_inputs o, op_outputs o)) (operations fields).
Proof.
  intros Hmeta Hp Hdoc.
  destruct (tool_document_parts lib content meta body data fields tools Hmeta Hdoc)
    as [Ht Ho].
  exact (tools_as_operations lib body tools (operations fields) Hp Ht Ho).
Qed.

Lemma tools_are_operations_witness :
  exists fields tools,
    parse_document Fixture.lib Fixture.tool_doc_operations_heading
    = Ok (ToolDocument fields tools)
    /\ map (fun t => (tool_name t, tool_inputs t, tool_outputs t)) tools
       = [(L "send_email", [L "to: recipient"], [])]
    /\ map (fun t => (tool_name t, tool_inputs t, tool_outputs t)) tools
       = map (fun o => (op_name o, op_inputs o, op_outputs o)) (operations fields).
Proof.
  eexists. eexists. split; [vm_compute; reflexivity |].
  split; [vm_compute; reflexivity |].
  eapply (tools_are_operations Fixture.lib Fixture.tool_doc_operations_heading).
  - vm_compute. reflexivity.
  - vm_compute. reflexivity.
  - vm_compute. reflexivity.
Defined.

(** * The sections that run to the end of the document *)

Section SectionsToEnd.
Import Re ReNotions ReFacts ReMore ReCalc.

Lemma search_from_at fl r : forall rest prev pos m,
    search_from fl r prev pos rest = Some m ->
    exists pre rest' prev',
      rest = pre ++ rest'
      /\ match_at fl r (MState prev' (pos + length pre) rest' []) = Some m.
Proof.
  induction rest as [|c rest IH]; intros prev pos m; cbn [search_from].
  - destruct (match_at fl r (MState prev pos [] [])) as [m' |] eqn:E; [| discriminate].
    intros [= <-]. exists [], [], prev. split; [reflexivity |].
    cbn [length]. now rewrite Nat.add_0_r.
  - destruct (match_at fl r (MState prev pos (c :: rest) [])) as [m' |] eqn:E.
    + intros [= <-]. exists [], (c :: rest), prev. split; [reflexivity |].
      cbn [length]. now rewrite Nat.add_0_r.
    + intros H. destruct (IH _ _ _ H) as (pre & rest' & prev' & -> & Hm).
      exists (c :: pre), rest', prev'. split; [reflexivity |].
      cbn [length]. replace (pos + S (length pre)) with (S pos + length pre) by lia.
      exact Hm.
Qed.

(** The first way a sequence matches goes through one of the ways its
    first part matches. *)
Lemma first_seq_inv fl a K st x :
  first_match fl (Seq a K) st = Some x ->
  exists y, In y (rmatch fl a st) /\ first_match fl K y = Some x.
Proof.
  unfold first_match. rewrite rmatch_seq.
  induction (rmatch fl a st) as [|y l IH]; cbn [flat_map]; [discriminate |].
  destruct (rmatch fl K y) as [|x' l'] eqn:E.
  - cbn [app]. intros H. destruct (IH H) as (y' & Hy & Hx). exists y'. split; [now right | exact Hx].
  - cbn [app head]. intros [= <-]. exists y. split; [now left |]. now rewrite E.
Qed.

(** A greedy group of any characters takes, first, the whole text that
    is left, when what follows the group matches at the end of the
    text. *)
Lemma rest_to_end E y x :
  (forall z, m_rest z = [] -> first_match DOTALL E z = Some z) ->
  first_match DOTALL (Seq (Group 1 (Star true Pat.dot)) E) y = Some x ->
  cap_lookup 1 (m_caps x) = Some (m_pos y, m_rest y).
Proof.
  intros HE Hx.
  assert (H : first_match DOTALL (Seq (Group 1 (Star true Pat.dot)) E) y
              = Some (MState (prev_after (m_prev y) (m_rest y))
                             (m_pos y + length (m_rest y)) []
                             ((1, (m_pos y, m_rest y)) :: m_caps y))).
  { eapply first_seq.
    - rewrite first_group. unfold Pat.dot.
      rewrite (first_star_run DOTALL (One AAny) (m_rest y) y []).
      + cbn [option_map]. rewrite set_cap_gone_over by now rewrite app_nil_r.
        reflexivity.
      + now rewrite app_nil_r.
      + apply Forall_forall. intros c _. reflexivity.
      + exact I.
    - apply HE. reflexivity. }
  rewrite H in Hx. injection Hx as <-. cbn [m_caps cap_lookup Nat.eqb]. reflexivity.
Qed.

Lemma eol_at_end z : m_rest z = [] -> first_match DOTALL Eol z = Some z.
Proof. intros Hr. unfold first_match. cbn [rmatch]. unfold at_eol. now rewrite Hr. Qed.

Lemma next_heading_or_end z :
  m_rest z = [] ->
  first_match DOTALL
              (Look true (Alt (Seqs [Pat.newline; Pat.ch "#"; Pat.sp_plus;
                                     Plus true Pat.not_nl; Pat.newline]) EndZ)) z
  = Some z.
Proof.
  intros Hr. unfold first_match at 1. rewrite rmatch_look, first_alt. cbn [Seqs].
  rewrite first_seq_none.
  - unfold first_match. cbn [rmatch]. rewrite Hr. cbn [Py.is_empty head].
    now rewrite with_caps_same.
  - unfold Pat.newline, Pat.ch. rewrite first_chr. now rewrite Hr.
Qed.

(** A pattern of a heading line followed by a greedy group takes, as the
    text of the group, what is left of the text after the heading
    line. *)
Lemma section_to_end a b c d e E st m :
  (forall z, m_rest z = [] -> first_match DOTALL E z = Some z) ->
  match_at DOTALL (Seqs [a; b; c; d; e; Group 1 (Star true Pat.dot); E]) st = Some m ->
  exists w, m_rest st = w ++ group_str m 1.
Proof.
  intros HE. rewrite match_at_first. cbn [Seqs].
  destruct (first_match DOTALL _ st) as [x |] eqn:Hx; [| discriminate].
  intros [= <-].
  apply first_seq_inv in Hx as (s1 & H1 & Hx). apply rmatch_extends in H1.
  apply first_seq_inv in Hx as (s2 & H2 & Hx). apply rmatch_extends in H2.
  apply first_seq_inv in Hx as (s3 & H3 & Hx). apply rmatch_extends in H3.
  apply first_seq_inv in Hx as (s4 & H4 & Hx). apply rmatch_extends in H4.
  apply first_seq_inv in Hx as (s5 & H5 & Hx). apply rmatch_extends in H5.
  pose proof (rest_to_end E s5 x HE Hx) as Hcap.
  destruct (extends_trans _ _ _ H1 (extends_trans _ _ _ H2
             (extends_trans _ _ _ H3 (extends_trans _ _ _ H4 H5)))) as (w & Hw & _).
  exists w. unfold group_str, group. cbn [mt_final]. now rewrite Hcap.
Qed.

Lemma section_suffix pat body m :
  In pat [Pat.operations_section; Pat.tools_section; Pat.triggers_section] ->
  re_search DOTALL pat body = Some m ->
  exists pre, body = pre ++ group_str m 1.
Proof.
  intros Hpat Hm. unfold re_search in Hm.
  apply search_from_at in Hm as (pre & rest' & prev' & -> & Hm).
  assert (H : exists w, rest' = w ++ group_str m 1).
  { destruct Hpat as [<- | [<- | [<- | []]]].
    - exact (section_to_end _ _ _ _ _ _ _ m eol_at_end Hm).
    - exact (section_to_end _ _ _ _ _ _ _ m eol_at_end Hm).
    - exact (section_to_end _ _ _ _ _ _ _ m next_heading_or_end Hm). }
  destruct H as (w & ->). exists (pre ++ w). now rewrite <- app_assoc.
Qed.

Lemma mapM_refused {A B} (f : A -> result B) (l : list A) a e :
  In a l -> f a = Raise e -> exists e', mapM f l = Raise e'.
Proof.
  induction l as [|x l IH]; [intros [] |]. intros [-> | Hin] Ha; cbn [mapM].
  - rewrite Ha. now exists e.
  - destruct (f x) as [b | e0]; [| now exists e0]. cbn [bind].
    destruct (IH Hin Ha) as (e' & ->). now exists e'.
Qed.

End SectionsToEnd.

(** X23.  The Operations section, the tools section and the Triggers
    section run to the end of the document: the text that their pattern
    takes for the section is all that is left of the body after the line
    of the heading, whatever headings follow.  So a later section is part
    of the Triggers section, and a list item of it that is no trigger
    declaration makes [_parse_triggers] raise. *)
Theorem sections_run_to_end lib body pat m :
  In pat [Pat.operations_section; Pat.tools_section; Pat.triggers_section] ->
  Re.re_search Re.DOTALL pat body = Some m ->
  (exists pre, body = pre ++ Re.group_str m 1)
  /\ (pat = Pat.triggers_section ->
      forall line e,
        In line (Py.split Re.nl (Re.group_str m 1)) ->
        parse_trigger_line lib line = Raise e ->
        exists e', _parse_triggers lib body = Raise e').
Proof.
  intros Hpat Hm. split; [exact (section_suffix pat body m Hpat Hm) |].
  intros -> line e Hin Hline. unfold _parse_triggers. rewrite Hm. cbv zeta.
  destruct (mapM_refused (parse_trigger_line lib) _ line e Hin Hline) as (e' & ->).
  now exists e'.
Qed.

Lemma sections_run_to_end_witness :
  exists m,
    Re.re_search Re.DOTALL Pat.triggers_section triggers_before_notes = Some m
    /\ Re.group_str m 1
       = lines ["- When mail.received, run Reply"; "# Notes"; "- see the manual"]
    /\ (exists pre, triggers_before_notes = pre ++ Re.group_str m 1)
    /\ exists e', _parse_triggers Fixture.lib triggers_before_notes = Raise e'.
Proof.
  eexists. split; [vm_compute; reflexivity |].
  match goal with
  | |- Re.group_str ?M 1 = _ /\ _ =>
      destruct (sections_run_to_end Fixture.lib triggers_before_notes
                                    Pat.triggers_section M) as [H1 H2];
        [right; right; left; reflexivity | vm_compute; reflexivity |]
  end.
  split; [vm_compute; reflexivity |]. split; [exact H1 |].
  apply (H2 eq_refl (L "- see the manual")
            (BusyValidationError
               (L "Invalid trigger declaration 'see the manual': "
                  ++ unrecognized_trigger))).
  - vm_compute. repeat (first [left; reflexivity | right]).
  - vm_compute. reflexivity.
Defined.
(** * The written document, read back *)

(** ** The patterns of the section headings *)

Section HeadingPatterns.
Import Re ReNotions ReFacts ReMore ReCalc.

Lemma flat_map_nil {A B} (f : A -> list B) (l : list A) :
  (forall a, In a l -> f a = []) -> flat_map f l = [].
Proof.
  induction l as [|a l IH]; intros H; [reflexivity |]. cbn [flat_map].
  rewrite (H a) by now left. apply IH. intros b Hb. apply H. now right.
Qed.

Lemma rmatch_nil fl r st : (forall x, ~ In x (rmatch fl r st)) -> rmatch fl r st = [].
Proof.
  intros H. destruct (rmatch fl r st) as [|x l]; [reflexivity |].
  exfalso. apply (H x). now left.
Qed.

(** After a word that is not the whole name of the heading, the line
    does not end. *)
Lemma line_goes_on K y (u : str) c T :
  m_rest y = u ++ c :: nl :: T -> ~ In nl u -> Py.isspace c = false ->
  rmatch DOTALL (Seq Pat.sp_star (Seq Pat.newline K)) y = [].
Proof.
  intros Hr Hnl Hc. apply rmatch_nil. intros x Hx.
  apply in_seq in Hx as (s1 & H1 & Hx). apply in_seq in Hx as (s2 & H2 & _).
  apply in_star_chr in H1 as (w & Hw & _ & Hall & _).
  apply in_newline in H2 as (R2 & _); [| reflexivity].
  rewrite Hr, R2 in Hw.
  change (u ++ c :: nl :: T) with (u ++ [c] ++ nl :: T) in Hw.
  rewrite app_assoc in Hw.
  apply app_eq_app in Hw as (l & [[E1 E2] | [E1 E2]]).
  - destruct l as [|d l].
    + rewrite app_nil_r in E1. rewrite <- E1 in Hall.
      apply Forall_app in Hall as [_ Hall]. inversion Hall as [|? ? Hd _]; subst.
      cbn [cmatch amatch] in Hd. congruence.
    + injection E2 as <- _. apply (f_equal (fun l => In nl l)) in E1.
      assert (Hin : In nl (w ++ nl :: l)) by (apply in_or_app; right; now left).
      rewrite <- E1 in Hin. apply in_app_or in Hin as [Hin | [Hin | []]].
      * contradiction.
      * subst c. discriminate.
  - rewrite E1 in Hall. apply Forall_app in Hall as [Hall _].
    apply Forall_app in Hall as [_ Hall]. inversion Hall as [|? ? Hd _]; subst.
    cbn [cmatch amatch] in Hd. congruence.
Qed.


(** The name of a heading pattern reads one of the words in [words]. *)
Variables (N K : regex) (words : list str).

Hypothesis N_words :
  forall st y, In y (rmatch DOTALL N st) -> exists w, In w words /\ m_rest st = w ++ m_rest y.

Hypothesis words_lines : Forall (fun w => ~ In nl w) words.

Hypothesis words_sections : forall w, In w words -> In w section_words.

(** The label does not read a name that is none of the words. *)
Lemma label_rejects st name T :
  heading_name name -> ~ In name words -> m_rest st = name ++ nl :: T ->
  rmatch DOTALL (Seq (Pat.label N) (Seq Pat.sp_star (Seq Pat.newline K))) st = [].
Proof.
  intros (Hne & Hs & Hnl & _ & Hb) Hw Hr. rewrite rmatch_seq. apply flat_map_nil.
  intros y Hy. unfold Pat.label in Hy. apply in_alt in Hy as [Hy | Hy].
  - exfalso. cbn [Seqs] in Hy. apply in_seq in Hy as (s1 & H1 & _).
    apply in_chr in H1 as (c & r & Hc & Hm & _). rewrite Hr in Hc.
    destruct name as [|n0 name]; [congruence |]. cbn [app] in Hc. injection Hc as -> _.
    cbn [cmatch amatch ignorecase DOTALL] in Hm.
    cbn [L list_ascii_of_string Py.startswith] in Hb.
    rewrite andb_true_r in Hb. congruence.
  - destruct (N_words st y Hy) as (w & Hin & Hst). rewrite Hr in Hst.
    apply app_eq_app in Hst as (l & [[E1 E2] | [E1 E2]]).
    + destruct (stripped_ends name Hs Hne) as (_ & (c & t & Erev & Hc)).
      destruct l as [|d l]; [rewrite app_nil_r in E1; congruence |].
      assert (El : exists u, d :: l = u ++ [c] /\ ~ In nl u).
      { rewrite E1, rev_app_distr in Erev.
        destruct (rev (d :: l)) as [|c' t'] eqn:Erl.
        - apply (f_equal (@length ascii)) in Erl. rewrite length_rev in Erl. discriminate.
        - cbn [app] in Erev. injection Erev as -> _. exists (rev t'). split.
          + rewrite <- (rev_involutive (d :: l)), Erl. reflexivity.
          + intros Hin'. apply Hnl. rewrite E1. apply in_or_app. right.
            rewrite <- (rev_involutive (d :: l)), Erl. cbn [rev]. apply in_or_app. now left. }
      destruct El as (u & Eu & Hu). rewrite Eu in E2.
      apply (line_goes_on K y u c T); [| exact Hu | exact Hc].
      rewrite E2, <- app_assoc. reflexivity.
    + exfalso. destruct l as [|d l].
      * rewrite app_nil_r in E1. subst w. contradiction.
      * injection E2 as <- _. rewrite List.Forall_forall in words_lines.
        apply (words_lines w Hin). rewrite E1. apply in_or_app. right. now left.
Qed.

Lemma pat_needs_hash : needs_first DOTALL (heading_pat N K) (fun c => c = "#"%char).
Proof.
  intros prev pos rest H. rewrite match_at_first. unfold heading_pat.
  rewrite first_seq_none; [reflexivity |].
  unfold Pat.ch. rewrite first_chr. cbn [m_rest].
  destruct rest as [|c rest]; [reflexivity |]. cbn [cmatch amatch ignorecase DOTALL].
  destruct (Py.ascii_eqb "#" c) eqn:E; [| reflexivity].
  apply Ascii.eqb_eq in E. congruence.
Qed.

Lemma pat_needs_space prev pos rest :
  match rest with [] => True | c :: _ => Py.isspace c = false end ->
  match_at DOTALL (heading_pat N K) (MState prev pos ("#"%char :: rest) []) = None.
Proof.
  intros H. unfold match_at, heading_pat. rewrite rmatch_seq, rmatch_ch by reflexivity.
  cbn [m_rest]. replace (Py.ascii_eqb "#" "#") with true by reflexivity.
  cbn [flat_map]. rewrite app_nil_r, rmatch_seq_none; [reflexivity |].
  apply sp_plus_none. exact H.
Qed.

Lemma heading_dead prev pos name T :
  heading_name name -> ~ In name words ->
  match_at DOTALL (heading_pat N K) (MState prev pos (L "# " ++ name ++ nl :: T) []) = None.
Proof.
  intros Hn Hw. pose proof Hn as (Hne & Hs & _).
  destruct (stripped_ends name Hs Hne) as ((c & t & E & Hc) & _).
  assert (Hrej : forall st, m_rest st = name ++ nl :: T ->
                            rmatch DOTALL (Seq (Pat.label N)
                                               (Seq Pat.sp_star (Seq Pat.newline K))) st = [])
    by (intros st Hst; now apply (label_rejects st name T)).
  clear Hn Hw Hne Hs. subst name.
  unfold match_at, heading_pat. rewrite rmatch_seq, rmatch_ch by reflexivity.
  cbn [m_rest L list_ascii_of_string app].
  replace (Py.ascii_eqb "#" "#") with true by reflexivity.
  cbn [flat_map]. rewrite app_nil_r.
  set (st1 := advance "#" _ _).
  assert (Hsp : rmatch DOTALL Pat.sp_plus st1 = [advance " " ((c :: t) ++ nl :: T) st1]).
  { apply rmatch_sp_plus_one; [| exact Hc]. reflexivity. }
  rewrite (rmatch_seq_one _ _ _ _ _ Hsp).
  rewrite Hrej; reflexivity.
Qed.

Lemma dead_hashless prev w rest : no_hash w -> dead_run DOTALL (heading_pat N K) prev w rest.
Proof. intros H. now apply (dead_run_first _ _ _ _ _ _ pat_needs_hash). Qed.

(** The pattern matches nowhere in the line of a heading of any level
    whose name is none of the words. *)
Lemma dead_heading_line name : forall n prev rest,
    heading_name name -> ~ In name words ->
    dead_run DOTALL (heading_pat N K) prev (repeat "#"%char n ++ L "# " ++ name ++ [nl]) rest.
Proof.
  intros n prev rest Hn Hw. revert prev. induction n as [|n IH]; intros prev.
  - cbn [repeat app]. change (L "# " ++ name ++ [nl]) with (["#"%char] ++ " "%char :: name ++ [nl]).
    apply dead_run_app.
    + intros j pos Hj. cbn [length] in Hj. assert (j = 0) as -> by lia.
      cbn [take drop app prev_after fold_left]. rewrite <- app_assoc.
      exact (heading_dead prev pos name rest Hn Hw).
    + apply dead_hashless. destruct Hn as (_ & _ & _ & Hh & _).
      constructor; [discriminate |]. apply Forall_app. split; [exact Hh |].
      repeat constructor. discriminate.
  - cbn [repeat app].
    change ("#"%char :: repeat "#"%char n ++ L "# " ++ name ++ [nl])
      with (["#"%char] ++ (repeat "#"%char n ++ L "# " ++ name ++ [nl])).
    apply dead_run_app; [| apply IH].
    intros j pos Hj. cbn [length] in Hj. assert (j = 0) as -> by lia.
    cbn [take drop app prev_after fold_left]. apply pat_needs_space.
    destruct n; reflexivity.
Qed.

Lemma section_words_not (name : str) : ~ In name section_words -> ~ In name words.
Proof. intros H Hin. apply H. now apply words_sections. Qed.

End HeadingPatterns.

(** ** Sections in which a heading pattern matches nowhere *)

Section DeadSections.
Import Re ReNotions ReFacts ReMore ReCalc.

Variables (N K : regex) (words : list str).

Hypothesis N_words :
  forall st y, In y (rmatch DOTALL N st) -> exists w, In w words /\ m_rest st = w ++ m_rest y.

Hypothesis words_lines : Forall (fun w => ~ In nl w) words.

Hypothesis words_sections : forall w, In w words -> In w section_words.

Lemma dead_plain prev w rest : no_hash w -> dead_run DOTALL (heading_pat N K) prev w rest.
Proof. apply dead_hashless. Qed.

Lemma dead_line (hashes : nat) name prev rest :
  heading_name name -> ~ In name words ->
  dead_run DOTALL (heading_pat N K) prev (repeat "#"%char hashes ++ L "# " ++ name ++ [nl]) rest.
Proof. intros Hn Hw. now apply (dead_heading_line N K words N_words words_lines). Qed.

Lemma dead_join sep (ls : list str) :
  no_hash sep ->
  Forall (fun l => forall prev rest, dead_run DOTALL (heading_pat N K) prev l rest) ls ->
  forall prev rest, dead_run DOTALL (heading_pat N K) prev (Text.join sep ls) rest.
Proof.
  intros Hsep. induction 1 as [|l ls Hl Hls IH]; intros prev rest; [apply dead_run_nil |].
  destruct ls as [|l2 ls]; [apply Hl |].
  change (Text.join sep (l :: l2 :: ls)) with (l ++ sep ++ Text.join sep (l2 :: ls)).
  apply dead_run_app; [apply Hl |]. apply dead_run_app; [now apply dead_plain | apply IH].
Qed.

Lemma heading_names_fixed :
  Forall heading_name
         [L "Local Definitions"; L "Setup"; L "Operations";
          L "Inputs"; L "Outputs"; L "Steps"; L "Checklist"].
Proof.
  repeat constructor; try discriminate; try reflexivity;
    try (cbn; intuition discriminate).
Qed.

Lemma sub_words_free (w : string) :
  In w ["Inputs"; "Outputs"; "Steps"; "Checklist"]%string ->
  heading_name (L w) /\ ~ In (L w) section_words.
Proof.
  pose proof heading_names_fixed as H.
  inversion H as [|? ? _ H1]; subst. inversion H1 as [|? ? _ H2]; subst.
  inversion H2 as [|? ? _ H3]; subst. inversion H3 as [|? ? Hi H4]; subst.
  inversion H4 as [|? ? Ho H5]; subst. inversion H5 as [|? ? Hs H6]; subst.
  inversion H6 as [|? ? Hc _]; subst.
  intros [<- | [<- | [<- | [<- | []]]]]; (split; [assumption |]);
    cbn; intuition discriminate.
Qed.

(** The imports. *)
Lemma dead_import_line i prev rest :
  plain_Import i -> dead_run DOTALL (heading_pat N K) prev (Writer.import_line i) rest.
Proof.
  intros ((_ & _ & _ & Hp & Ha) & Hn & Hah). unfold Writer.import_line, has_anchor.
  assert (Hfront : no_hash (L "[" ++ concept_name i ++ L "]: " ++ path i)).
  { apply Forall_app. split; [repeat constructor; discriminate |].
    apply Forall_app. split; [exact Hn |].
    apply Forall_app. split; [repeat constructor; discriminate |].
    eapply List.Forall_impl; [| exact Hp]. intros c [_ H]. exact H. }
  destruct (anchor i) as [a |]; [| now apply dead_plain].
  destruct Ha as [Hne Hsp]. destruct a as [|a0 a]; [congruence |]. cbn [Py.is_empty].
  replace (L "[" ++ concept_name i ++ L "]: " ++ path i ++ L "#" ++ a0 :: a)
    with ((L "[" ++ concept_name i ++ L "]: " ++ path i) ++ ["#"%char] ++ a0 :: a)
    by (rewrite <- !app_assoc; reflexivity).
  apply dead_run_app; [now apply dead_plain |].
  apply dead_run_app; [| now apply dead_plain].
  intros j pos Hj. cbn [length] in Hj. assert (j = 0) as -> by lia.
  cbn [take drop app]. apply pat_needs_space.
  inversion Hsp as [|? ? H0 _]; subst. exact H0.
Qed.

Lemma dead_imports imps prev rest :
  Forall plain_Import imps ->
  dead_run DOTALL (heading_pat N K) prev (Writer._serialize_imports imps) rest.
Proof.
  intros Hall. unfold Writer._serialize_imports. destruct imps as [|i imps];
    [apply dead_run_nil |].
  apply dead_run_app; [| apply dead_plain; repeat constructor; discriminate].
  apply dead_join; [repeat constructor; discriminate |].
  apply Forall_map. eapply List.Forall_impl; [| exact Hall].
  intros x Hx p q. now apply dead_import_line.
Qed.

(** The local definitions. *)
Lemma definition_heading_name d :
  plain_LocalDefinition d -> heading_name (ld_name d) /\ ~ In (ld_name d) words.
Proof.
  intros ((Hne & Hs & Hnl & Hb & _) & Hh & Hw & _). split.
  - repeat split; assumption.
  - intros Hin. apply Hw. now apply words_sections.
Qed.

Lemma dead_definition_block d prev rest :
  plain_LocalDefinition d ->
  dead_run DOTALL (heading_pat N K) prev (definition_block d) rest.
Proof.
  intros Hd. destruct (definition_heading_name d Hd) as [Hn Hw].
  destruct Hd as ((_ & _ & _ & _ & _ & Hc) & _). unfold definition_block.
  replace (L "## " ++ ld_name d ++ [nl; nl] ++ ld_content d ++ [nl])
    with ((repeat "#"%char 1 ++ L "# " ++ ld_name d ++ [nl]) ++ [nl] ++ ld_content d ++ [nl])
    by (cbn [repeat app L list_ascii_of_string]; rewrite <- !app_assoc; reflexivity).
  apply dead_run_app; [now apply dead_line |]. apply dead_plain.
  constructor; [discriminate |]. apply Forall_app. split; [exact Hc |].
  repeat constructor. discriminate.
Qed.

Lemma dead_definitions ds prev rest :
  Forall plain_LocalDefinition ds -> ~ In (L "Local Definitions") words ->
  dead_run DOTALL (heading_pat N K) prev (Writer._serialize_local_definitions ds) rest.
Proof.
  intros Hall Hw. destruct ds as [|d ds]; [apply dead_run_nil |].
  rewrite serialized_definitions_text.
  replace (L "# Local Definitions" ++ [nl; nl]
             ++ Text.join [nl] (map definition_block (d :: ds)))
    with ((repeat "#"%char 0 ++ L "# " ++ L "Local Definitions" ++ [nl])
            ++ [nl] ++ Text.join [nl] (map definition_block (d :: ds)))
    by reflexivity.
  pose proof heading_names_fixed as Hfix. inversion Hfix as [|? ? Hld _]; subst.
  apply dead_run_app; [now apply dead_line |].
  apply dead_run_app; [apply dead_plain; repeat constructor; discriminate |].
  apply dead_join; [repeat constructor; discriminate |].
  apply Forall_map. eapply List.Forall_impl; [| exact Hall].
  intros x Hx p q. now apply dead_definition_block.
Qed.

(** The setup. *)
Lemma dead_setup t prev rest :
  plain_setup (Some t) -> ~ In (L "Setup") words ->
  dead_run DOTALL (heading_pat N K) prev (Writer._serialize_setup (Some t)) rest.
Proof.
  intros (Hne & _ & Hh & _) Hw. unfold Writer._serialize_setup.
  rewrite (is_empty_false _ Hne).
  replace (L "# Setup" ++ [nl; nl] ++ t ++ [nl])
    with ((repeat "#"%char 0 ++ L "# " ++ L "Setup" ++ [nl]) ++ [nl] ++ t ++ [nl])
    by reflexivity.
  pose proof heading_names_fixed as Hfix. inversion Hfix as [|? ? _ Hfix']; subst.
  inversion Hfix' as [|? ? Hsu _]; subst.
  apply dead_run_app; [now apply dead_line |]. apply dead_plain.
  constructor; [discriminate |]. apply Forall_app. split; [exact Hh |].
  repeat constructor. discriminate.
Qed.

(** The operations. *)
Lemma dead_sub_section p prev rest :
  plain_part p -> dead_run DOTALL (heading_pat N K) prev (sub_block p) rest.
Proof.
  intros (Hin & _ & Hl). destruct (sub_words_free (fst p) Hin) as [Hn Hw].
  unfold sub_block.
  replace (L "### " ++ L (fst p) ++ [nl; nl] ++ Text.join [nl] (snd p))
    with ((repeat "#"%char 2 ++ L "# " ++ L (fst p) ++ [nl])
            ++ [nl] ++ Text.join [nl] (snd p))
    by (cbn [repeat app L list_ascii_of_string]; rewrite <- !app_assoc; reflexivity).
  apply dead_run_app; [apply dead_line; [exact Hn | now apply (section_words_not words)] |].
  apply dead_plain. constructor; [discriminate |].
  apply text_char_no_hash. now apply lines_text.
Qed.

Lemma dead_operation o prev rest :
  plain_Operation o -> dead_run DOTALL (heading_pat N K) prev (operation_text o) rest.
Proof.
  intros (Ho & Hw & _). pose proof (operation_parts_plain o Ho) as Hp.
  destruct Ho as ((Hne & Hs & Hc) & Hb & _).
  assert (Hn : heading_name (op_name o)).
  { repeat split; try assumption.
    - intros Hin. rewrite List.Forall_forall in Hc. destruct (Hc nl Hin) as [H _]. congruence.
    - eapply List.Forall_impl; [| exact Hc]. intros c (_ & H & _). exact H. }
  unfold operation_text, operation_tail.
  replace (L "## " ++ op_name o ++ [nl] ++ match operation_parts o with
                                           | [] => []
                                           | _ :: _ => nl :: operation_content o ++ [nl]
                                           end)
    with ((repeat "#"%char 1 ++ L "# " ++ op_name o ++ [nl])
            ++ match operation_parts o with
               | [] => []
               | _ :: _ => nl :: operation_content o ++ [nl]
               end)
    by (cbn [repeat app L list_ascii_of_string]; rewrite <- !app_assoc; reflexivity).
  apply dead_run_app; [apply dead_line; [exact Hn | now apply (section_words_not words)] |].
  unfold operation_content. destruct (operation_parts o) as [|p ps]; [apply dead_run_nil |].
  change (nl :: Text.join [nl; nl] (map sub_block (p :: ps)) ++ [nl])
    with ([nl] ++ Text.join [nl; nl] (map sub_block (p :: ps)) ++ [nl]).
  apply dead_run_app; [apply dead_plain; repeat constructor; discriminate |].
  apply dead_run_app; [| apply dead_plain; repeat constructor; discriminate].
  apply dead_join; [repeat constructor; discriminate |].
  apply Forall_map. eapply List.Forall_impl; [| exact Hp].
  intros q Hq p' q'. now apply dead_sub_section.
Qed.

Lemma plain_operations_writable ops :
  Forall plain_Operation ops -> Forall writable_Operation ops.
Proof. apply List.Forall_impl. intros o [H _]. exact H. Qed.

Lemma dead_operations ops prev rest :
  Forall plain_Operation ops -> ~ In (L "Operations") words ->
  dead_run DOTALL (heading_pat N K) prev (Writer._serialize_operations ops) rest.
Proof.
  intros Hall Hw. destruct ops as [|o ops]; [apply dead_run_nil |].
  rewrite (serialize_operations_text o ops (plain_operations_writable _ Hall)).
  replace (L "# Operations" ++ [nl; nl] ++ Text.join [nl] (map operation_text (o :: ops)))
    with ((repeat "#"%char 0 ++ L "# " ++ L "Operations" ++ [nl])
            ++ [nl] ++ Text.join [nl] (map operation_text (o :: ops)))
    by reflexivity.
  pose proof heading_names_fixed as Hfix. inversion Hfix as [|? ? _ Hfix']; subst.
  inversion Hfix' as [|? ? _ Hfix'']; subst. inversion Hfix'' as [|? ? Hop _]; subst.
  apply dead_run_app; [now apply dead_line |].
  apply dead_run_app; [apply dead_plain; repeat constructor; discriminate |].
  apply dead_join; [repeat constructor; discriminate |].
  apply Forall_map. eapply List.Forall_impl; [| exact Hall].
  intros x Hx p q. now apply dead_operation.
Qed.

End DeadSections.

(** ** The patterns of the four sections *)

Section SectionPatterns.
Import Re ReNotions ReFacts ReMore ReCalc.

Lemma str_reads_word (word : string) st y :
  In y (rmatch DOTALL (Str word) st) ->
  exists w, In w [L word] /\ m_rest st = w ++ m_rest y.
Proof.
  intros H. apply in_str in H as [Hr _]; [| reflexivity].
  exists (L word). split; [now left | exact Hr].
Qed.

Lemma plural_reads_words (stem : string) st y :
  In y (rmatch DOTALL (Pat.plural stem) st) ->
  exists w, In w [L stem; L stem ++ ["s"%char]] /\ m_rest st = w ++ m_rest y.
Proof.
  unfold Pat.plural. intros H. apply in_seq in H as (s1 & H1 & H).
  apply in_str in H1 as [Hr _]; [| reflexivity].
  apply in_opt in H as [H | ->].
  - apply in_chr in H as (c & r & Hc & Hm & ->).
    cbn [cmatch amatch ignorecase DOTALL] in Hm. apply Ascii.eqb_eq in Hm. subst c.
    exists (L stem ++ ["s"%char]). split; [right; now left |].
    rewrite Hr, Hc, <- app_assoc. reflexivity.
  - exists (L stem). split; [now left | exact Hr].
Qed.

Lemma definitions_pat :
  Pat.local_definitions
  = heading_pat (Str "Local Definitions")
                (Seq (Group 1 (Star false Pat.dot)) (heading_ahead (Pat.ch "#"))).
Proof. reflexivity. Qed.

Lemma setup_pat :
  Pat.setup_section
  = heading_pat (Str "Setup")
                (Seq (Group 1 (Star false Pat.dot)) (heading_ahead (Pat.ch "#"))).
Proof. reflexivity. Qed.

Lemma operations_pat :
  Pat.operations_section
  = heading_pat (Str "Operations") (Seq (Group 1 (Star true Pat.dot)) Eol).
Proof. reflexivity. Qed.

Lemma triggers_pat :
  Pat.triggers_section
  = heading_pat (Pat.plural "Trigger")
                (Seq (Group 1 (Star true Pat.dot))
                     (Look true (Alt (Seqs [Pat.newline; Pat.ch "#"; Pat.sp_plus;
                                            Plus true Pat.not_nl; Pat.newline]) EndZ))).
Proof. reflexivity. Qed.

Lemma words_on_a_line :
  Forall (fun w => ~ In nl w)
         [L "Local Definitions"; L "Setup"; L "Operations"; L "Trigger";
          L "Trigger" ++ ["s"%char]].
Proof. repeat constructor; cbn; intuition discriminate. Qed.

End SectionPatterns.

(** ** The parts of the body in which a heading pattern matches nowhere *)

Section DeadParts.
Import Re ReNotions ReFacts ReMore ReCalc.

Variables (N K : regex) (words : list str).

Hypothesis N_words :
  forall st y, In y (rmatch DOTALL N st) -> exists w, In w words /\ m_rest st = w ++ m_rest y.

Hypothesis words_lines : Forall (fun w => ~ In nl w) words.

Hypothesis words_sections : forall w, In w words -> In w section_words.

Lemma dead_imports_part doc :
  Forall plain_Import (imports doc) ->
  Forall (fun s => forall prev rest, dead_run DOTALL (heading_pat N K) prev s rest)
         (imports_part doc).
Proof using All.
  intros H. unfold imports_part. destruct (imports doc) as [|i l] eqn:E; constructor;
    [| constructor].
  intros prev rest. now apply dead_imports.
Qed.

Lemma dead_definitions_part doc :
  Forall plain_LocalDefinition (definitions doc) -> ~ In (L "Local Definitions") words ->
  Forall (fun s => forall prev rest, dead_run DOTALL (heading_pat N K) prev s rest)
         (definitions_part doc).
Proof using All.
  intros H Hw. unfold definitions_part. destruct (definitions doc) as [|d l] eqn:E;
    constructor; [| constructor].
  intros prev rest. now apply (dead_definitions N K words).
Qed.

Lemma dead_setup_part doc :
  plain_setup (setup doc) -> ~ In (L "Setup") words ->
  Forall (fun s => forall prev rest, dead_run DOTALL (heading_pat N K) prev s rest)
         (setup_part doc).
Proof using All.
  intros H Hw. unfold setup_part. destruct (setup doc) as [t |] eqn:E; [| constructor].
  destruct (Py.is_empty t); constructor; [| constructor].
  intros prev rest. now apply (dead_setup N K words).
Qed.

Lemma dead_operations_part doc :
  Forall plain_Operation (operations doc) -> ~ In (L "Operations") words ->
  Forall (fun s => forall prev rest, dead_run DOTALL (heading_pat N K) prev s rest)
         (operations_part doc).
Proof using All.
  intros H Hw. unfold operations_part. destruct (operations doc) as [|o l] eqn:E;
    constructor; [| constructor].
  intros prev rest. now apply (dead_operations N K words).
Qed.

End DeadParts.

(** ** Looking for a section in the sections joined by newlines *)

Section JoinedSections.
Import Re ReNotions ReFacts ReMore ReCalc.

Lemma join_split sep : forall (A : list str) x B,
    Text.join sep (A ++ x :: B)
    = concat (map (fun a => a ++ sep) A) ++ x ++ concat (map (fun b => sep ++ b) B).
Proof.
  assert (HB : forall B x, Text.join sep (x :: B) = x ++ concat (map (fun b => sep ++ b) B)).
  { induction B as [|b B IH]; intros x.
    - cbn [Text.join map concat]. now rewrite app_nil_r.
    - change (Text.join sep (x :: b :: B)) with (x ++ sep ++ Text.join sep (b :: B)).
      rewrite IH. cbn [map concat]. now rewrite <- !app_assoc. }
  induction A as [|a A IH]; intros x B.
  - cbn [app map concat]. apply HB.
  - cbn [app map concat]. destruct (A ++ x :: B) as [|y l] eqn:E.
    + destruct A; discriminate.
    + change (Text.join sep (a :: y :: l)) with (a ++ sep ++ Text.join sep (y :: l)).
      rewrite <- E, IH. now rewrite <- !app_assoc.
Qed.

Variable pat : regex.

Hypothesis pat_hash : needs_first DOTALL pat (fun c => c = "#"%char).

Lemma dead_before : forall A prev rest,
    Forall (fun s => forall prev rest, dead_run DOTALL pat prev s rest) A ->
    dead_run DOTALL pat prev (concat (map (fun a => a ++ [nl]) A)) rest.
Proof.
  induction A as [|a A IH]; intros prev rest Hall; [apply dead_run_nil |].
  inversion Hall as [|? ? Ha HA]; subst. cbn [map concat]. rewrite <- app_assoc.
  apply dead_run_app; [apply Ha |]. apply dead_run_app; [| now apply IH].
  apply (dead_run_first _ _ _ _ _ _ pat_hash). repeat constructor. discriminate.
Qed.

Lemma dead_joined : forall A prev rest,
    Forall (fun s => forall prev rest, dead_run DOTALL pat prev s rest) A ->
    dead_run DOTALL pat prev (Text.join [nl] A) rest.
Proof.
  induction A as [|a A IH]; intros prev rest Hall; [apply dead_run_nil |].
  inversion Hall as [|? ? Ha HA]; subst. destruct A as [|b A]; [apply Ha |].
  change (Text.join [nl] (a :: b :: A)) with (a ++ [nl] ++ Text.join [nl] (b :: A)).
  apply dead_run_app; [apply Ha |]. apply dead_run_app; [| now apply IH].
  apply (dead_run_first _ _ _ _ _ _ pat_hash). repeat constructor. discriminate.
Qed.

(** No section is found where the pattern matches in none of the
    sections. *)
Lemma search_joined_none A :
  Forall (fun s => forall prev rest, dead_run DOTALL pat prev s rest) A ->
  re_search DOTALL pat (Text.join [nl] A) = None.
Proof.
  intros Hall. unfold re_search. apply search_from_dead_end; [now apply dead_joined |].
  intros p q. apply pat_hash. exact I.
Qed.

(** The section is found after the sections in which the pattern matches
    nowhere. *)
Lemma search_joined A x B g :
  Forall (fun s => forall prev rest, dead_run DOTALL pat prev s rest) A ->
  (forall prev pos,
      exists m, match_at DOTALL pat
                         (MState prev pos (x ++ concat (map (fun b => [nl] ++ b) B)) [])
                = Some m
                /\ group_str m 1 = g) ->
  exists m, re_search DOTALL pat (Text.join [nl] (A ++ x :: B)) = Some m
            /\ group_str m 1 = g.
Proof.
  intros Hall Hx. rewrite join_split. unfold re_search.
  rewrite search_from_dead by now apply dead_before.
  destruct (Hx (prev_after None (concat (map (fun a => a ++ [nl]) A)))
               (0 + length (concat (map (fun a => a ++ [nl]) A)))) as (m & Hm & Hg).
  exists m. split; [| exact Hg]. now apply search_from_here.
Qed.

(** What follows a section: nothing, or the newline before the heading
    of the next section. *)
Lemma later_sections_start (B : list str) :
  Forall (fun b => exists t, b = "#"%char :: " "%char :: t) B ->
  concat (map (fun b => [nl] ++ b) B) = []
  \/ exists t, concat (map (fun b => [nl] ++ b) B) = nl :: "#"%char :: " "%char :: t.
Proof.
  intros H. destruct H as [|b B (t & ->) _]; [now left |]. right.
  cbn [map concat app]. eexists. reflexivity.
Qed.

End JoinedSections.

(** ** The sections found where other sections follow *)

Section SectionsFound.
Import Re ReNotions ReFacts ReMore ReCalc.

Lemma definition_block_clear_in d T :
  writable_LocalDefinition d -> heading_next (L "#") (nl :: T) = false ->
  none_ahead (L "#") (definition_block d) T.
Proof.
  intros (Hne & Hs & Hnl & Hb & Hcs & Hch) HT. unfold definition_block.
  rewrite app_assoc. apply none_ahead_app.
  - apply none_ahead_line. intros Hin. apply in_app_or in Hin as [Hin | Hin].
    + cbn in Hin. intuition discriminate.
    + contradiction.
  - apply (none_ahead_plain []).
    + apply Forall_app. split; [repeat constructor; discriminate |].
      apply Forall_app. split; [exact Hch | repeat constructor; discriminate].
    + exact HT.
Qed.

Lemma definition_blocks_clear_in : forall ds d T,
    Forall writable_LocalDefinition (d :: ds) ->
    heading_next (L "#") (nl :: T) = false ->
    none_ahead (L "#") (Text.join [nl] (map definition_block (d :: ds))) T.
Proof.
  induction ds as [|d' ds IH]; intros d T Hall HT;
    inversion Hall as [|d0 ds0 Hd Hds]; subst.
  - cbn [map Text.join]. now apply definition_block_clear_in.
  - cbn [map]. rewrite join_cons.
    destruct (definition_blocks_start d' ds) as (rest & Er). cbn [map] in Er.
    apply none_ahead_app; [| apply (none_ahead_app _ [nl])].
    + apply definition_block_clear_in; [exact Hd |]. reflexivity.
    + cbn [none_ahead]. split; [| exact I]. rewrite Er. reflexivity.
    + apply IH; assumption.
Qed.

(** What follows a section: nothing, or the heading of a section after
    a newline. *)
Lemma after_section T :
  T = [] \/ (exists t, T = nl :: "#"%char :: " "%char :: t) ->
  (T = [] \/ heading_next (L "#") T = true) /\ heading_next (L "#") (nl :: T) = false.
Proof. intros [-> | (t & ->)]; split; auto. Qed.

Lemma definitions_found_in prev pos d ds T :
  Forall writable_LocalDefinition (d :: ds) ->
  T = [] \/ (exists t, T = nl :: "#"%char :: " "%char :: t) ->
  exists m,
    match_at DOTALL Pat.local_definitions
             (MState prev pos (Writer._serialize_local_definitions (d :: ds) ++ T) [])
    = Some m
    /\ group_str m 1 = Text.join [nl] (map definition_block (d :: ds)).
Proof.
  intros Hall HT. destruct (after_section T HT) as [HT1 HT2].
  rewrite serialized_definitions_text.
  pose proof (definition_blocks_clear_in ds d T Hall HT2) as Hclear.
  destruct (definition_blocks_start d ds) as (rest & Er).
  set (J := Text.join [nl] (map definition_block (d :: ds))) in *.
  assert (Hfirst : exists x,
             first_match DOTALL Pat.local_definitions
                         (MState prev pos ((L "# Local Definitions" ++ [nl; nl] ++ J) ++ T) [])
             = Some x /\ group_str (ReMatch pos x) 1 = J).
  { unfold Pat.local_definitions. cbn [Seqs].
    change (Look true (Alt (Seq Pat.newline (Seq (Pat.ch "#") Pat.sp_plus)) EndZ))
      with (heading_ahead (Pat.ch "#")).
    rewrite <- !app_assoc. eexists. split.
    - eapply first_seq; [unfold Pat.ch; rewrite first_chr; reflexivity |].
      eapply first_seq; [apply first_sp_plus_space; [reflexivity | reflexivity] |].
      eapply first_seq.
      { apply (first_label_bare "Local Definitions" "L"%char (L "ocal Definitions"));
          [reflexivity | discriminate | reflexivity]. }
      apply (first_blank_line _ _ "#"%char ("#"%char :: " "%char :: rest ++ T)).
      + cbn [gone_over m_rest app]. rewrite Er. reflexivity.
      + reflexivity.
      + replace ("#"%char :: "#"%char :: " "%char :: rest ++ T) with (J ++ T)
          by (rewrite Er; reflexivity).
        apply (first_body (Pat.ch "#") (L "#") 1 _ J T).
        * apply ch_reads_hashes.
        * reflexivity.
        * exact Hclear.
        * exact HT1.
    - reflexivity. }
  destruct Hfirst as (x & Hx & Hg). exists (ReMatch pos x). split; [| exact Hg].
  rewrite match_at_first. cbn [m_pos]. now rewrite Hx.
Qed.

Lemma setup_found_in prev pos s T :
  s <> [] -> Py.strip s = s -> no_hash s ->
  T = [] \/ (exists t, T = nl :: "#"%char :: " "%char :: t) ->
  exists m,
    match_at DOTALL Pat.setup_section
             (MState prev pos (Writer._serialize_setup (Some s) ++ T) [])
    = Some m
    /\ group_str m 1 = s ++ [nl].
Proof.
  intros Hne Hs Hno HT. destruct (after_section T HT) as [HT1 HT2].
  unfold Writer._serialize_setup. rewrite (is_empty_false s Hne).
  destruct (stripped_ends s Hs Hne) as ((c & t & E1 & Hc) & _). subst s.
  assert (Hfirst : exists x,
             first_match DOTALL Pat.setup_section
                         (MState prev pos
                                 ((L "# Setup" ++ [nl; nl] ++ (c :: t) ++ [nl]) ++ T) [])
             = Some x /\ group_str (ReMatch pos x) 1 = (c :: t) ++ [nl]).
  { unfold Pat.setup_section. cbn [Seqs].
    change (Look true (Alt (Seq Pat.newline (Seq (Pat.ch "#") Pat.sp_plus)) EndZ))
      with (heading_ahead (Pat.ch "#")).
    rewrite <- !app_assoc. eexists. split.
    - eapply first_seq; [unfold Pat.ch; rewrite first_chr; reflexivity |].
      eapply first_seq; [apply first_sp_plus_space; [reflexivity | reflexivity] |].
      eapply first_seq.
      { apply (first_label_bare "Setup" "S"%char (L "etup"));
          [reflexivity | discriminate | reflexivity]. }
      apply (first_blank_line _ _ c (t ++ [nl] ++ T)).
      + cbn [gone_over m_rest app]. reflexivity.
      + exact Hc.
      + replace (c :: t ++ [nl] ++ T) with (((c :: t) ++ [nl]) ++ T)
          by (rewrite <- !app_assoc; reflexivity).
        apply (first_body (Pat.ch "#") (L "#") 1 _ ((c :: t) ++ [nl]) T).
        * apply ch_reads_hashes.
        * reflexivity.
        * apply (none_ahead_plain []); [| exact HT2].
          apply Forall_app. split; [exact Hno | repeat constructor; discriminate].
        * exact HT1.
    - reflexivity. }
  destruct Hfirst as (x & Hx & Hg). exists (ReMatch pos x). split; [| exact Hg].
  rewrite match_at_first. cbn [m_pos]. now rewrite Hx.
Qed.

Lemma operations_found_in prev pos o ops :
  Forall writable_Operation (o :: ops) ->
  exists m,
    match_at DOTALL Pat.operations_section
             (MState prev pos (Writer._serialize_operations (o :: ops) ++ []) [])
    = Some m
    /\ group_str m 1 = Text.join [nl] (map operation_text (o :: ops)).
Proof.
  intros Hall. rewrite app_nil_r, (serialize_operations_text o ops Hall).
  set (J := Text.join [nl] (map operation_text (o :: ops))).
  assert (EJ : exists t, J = "#"%char :: t).
  { unfold J. destruct ops as [|o' ops]; cbn [map].
    - eexists. reflexivity.
    - rewrite join_cons. eexists. reflexivity. }
  destruct EJ as (t & Et).
  assert (Hfirst : exists x,
             first_match DOTALL Pat.operations_section
                         (MState prev pos (L "# Operations" ++ [nl; nl] ++ J) [])
             = Some x /\ group_str (ReMatch pos x) 1 = J).
  { unfold Pat.operations_section. cbn [Seqs]. eexists. split.
    - eapply first_seq; [unfold Pat.ch; rewrite first_chr; reflexivity |].
      eapply first_seq; [apply first_sp_plus_space; [reflexivity | reflexivity] |].
      eapply first_seq.
      { apply (first_label_bare "Operations" "O"%char (L "perations"));
          [reflexivity | discriminate | reflexivity]. }
      apply (first_blank_line _ _ "#"%char t).
      + cbn [gone_over m_rest app]. rewrite Et. reflexivity.
      + reflexivity.
      + eapply first_seq.
        * rewrite first_group. unfold Pat.dot.
          rewrite (first_star_run DOTALL (One AAny) J _ []).
          -- reflexivity.
          -- cbn [gone_over m_rest]. now rewrite app_nil_r, Et.
          -- apply Forall_forall. intros c _. reflexivity.
          -- exact I.
        * reflexivity.
    - unfold group_str, group. cbn [mt_final].
      rewrite set_cap_gone_over by (cbn [gone_over m_rest]; now rewrite app_nil_r, Et).
      cbn [m_caps cap_lookup Nat.eqb]. reflexivity. }
  destruct Hfirst as (x & Hx & Hg). exists (ReMatch pos x). split; [| exact Hg].
  rewrite match_at_first. cbn [m_pos]. now rewrite Hx.
Qed.

End SectionsFound.

(** ** Texts without a reference link *)

Section NoLinks.
Import Re ReNotions ReFacts ReMore ReCalc.

Lemma no_link_app : forall a b,
    no_link a = true -> no_link b = true ->
    List.last a " "%char <> "]"%char \/ List.hd " "%char b <> ":"%char ->
    no_link (a ++ b) = true.
Proof.
  induction a as [|c a IH]; intros b Ha Hb Hab; [exact Hb |].
  cbn [no_link] in Ha. apply andb_true_iff in Ha as [Hc Ha].
  cbn [app no_link]. apply andb_true_iff. split.
  - destruct a as [|d a]; [| exact Hc]. cbn [app].
    destruct (Py.ascii_eqb c "]") eqn:Ec; [| reflexivity].
    apply Ascii.eqb_eq in Ec. subst c. cbn [List.last] in Hab.
    destruct Hab as [Hab | Hab]; [congruence |].
    destruct b as [|d b]; [reflexivity |]. cbn [List.hd] in Hab. cbn [andb negb].
    destruct (Py.ascii_eqb d ":") eqn:Ed; [| reflexivity].
    apply Ascii.eqb_eq in Ed. congruence.
  - apply IH; [exact Ha | exact Hb |]. destruct a as [|d a]; [| exact Hab].
    cbn [List.last] in Hab |- *. destruct Hab as [Hab | Hab]; [| now right].
    left. discriminate.
Qed.

Lemma no_link_false : forall u v, no_link (u ++ "]"%char :: ":"%char :: v) = false.
Proof.
  induction u as [|c u IH]; intros v; [reflexivity |].
  cbn [app no_link]. rewrite IH. apply andb_false_r.
Qed.

Lemma no_link_drop : forall w j, no_link w = true -> no_link (drop j w) = true.
Proof.
  induction w as [|c w IH]; intros j H; [now destruct j |].
  destruct j as [|j]; [exact H |]. cbn [drop]. apply IH.
  cbn [no_link] in H. now apply andb_true_iff in H as [_ H].
Qed.

Lemma no_bracket_no_link (w : str) :
  Forall (fun c => c <> "]"%char) w -> no_link w = true.
Proof.
  induction 1 as [|c w Hc _ IH]; [reflexivity |]. cbn [no_link]. rewrite IH, andb_true_r.
  destruct (Py.ascii_eqb c "]") eqn:E; [| reflexivity].
  apply Ascii.eqb_eq in E. congruence.
Qed.

Lemma hd_app (d : ascii) (a b : str) : a <> [] -> List.hd d (a ++ b) = List.hd d a.
Proof. destruct a; [congruence | reflexivity]. Qed.

Lemma no_link_join sep (ls : list str) :
  sep <> [] -> no_link sep = true ->
  List.hd " "%char sep <> ":"%char -> List.last sep " "%char <> "]"%char ->
  Forall (fun l => no_link l = true) ls ->
  no_link (Text.join sep ls) = true.
Proof.
  intros Hne Hs Hh Hl. induction 1 as [|l ls Hl1 Hls IH]; [reflexivity |].
  destruct ls as [|l2 ls]; [exact Hl1 |].
  change (Text.join sep (l :: l2 :: ls)) with (l ++ sep ++ Text.join sep (l2 :: ls)).
  apply no_link_app; [exact Hl1 | |].
  - apply no_link_app; [exact Hs | exact IH | now left].
  - right. now rewrite hd_app.
Qed.

(** A reference link holds a closing bracket that a colon follows. *)
Lemma link_needs_colon st x :
  In x (rmatch no_flags Pat.import_link st) -> no_link (m_rest st) = false.
Proof.
  unfold Pat.import_link. cbn [Seqs]. intros H.
  apply in_seq in H as (s1 & H1 & H). apply in_chr in H1 as (c1 & r1 & R1 & _ & ->).
  apply in_seq in H as (s2 & H2 & H). apply rmatch_extends in H2 as (w & R2 & _).
  apply in_seq in H as (s3 & H3 & H). apply in_chr in H3 as (c3 & r3 & R3 & M3 & ->).
  apply in_seq in H as (s4 & H4 & _). apply in_chr in H4 as (c4 & r4 & R4 & M4 & _).
  cbn [cmatch amatch ignorecase no_flags] in M3, M4.
  apply Ascii.eqb_eq in M3, M4. subst c3 c4.
  cbn [advance m_rest] in R2, R4. rewrite R1, R2, R3, R4.
  change (c1 :: w ++ "]"%char :: ":"%char :: r4)
    with ((c1 :: w) ++ "]"%char :: ":"%char :: r4).
  apply no_link_false.
Qed.

Lemma dead_links R prev :
  no_link R = true -> dead_run no_flags Pat.import_link prev R [].
Proof.
  intros HR j pos Hj. unfold match_at.
  destruct (rmatch no_flags Pat.import_link _) as [|x l] eqn:E; [reflexivity |].
  exfalso. assert (Hin : In x (x :: l)) by now left. rewrite <- E in Hin.
  apply link_needs_colon in Hin. cbn [m_rest] in Hin. rewrite app_nil_r in Hin.
  rewrite (no_link_drop R j HR) in Hin. discriminate.
Qed.

Lemma no_links_found R prev pos :
  no_link R = true -> finditer_at no_flags Pat.import_link prev pos R = [].
Proof.
  intros HR. apply finditer_at_dead_end; [now apply dead_links |].
  intros p q. now apply import_link_needs_bracket.
Qed.

(** The links of the imports are read back, and nothing else, where a
    text without reference link follows them. *)
Lemma import_lines_found_in R imps : forall prev pos,
    no_link R = true -> Forall writable_Import imps ->
    map import_entry
        (finditer_at no_flags Pat.import_link prev pos
                     (concat (map (fun l => l ++ [nl]) (map Writer.import_line imps)) ++ R))
    = imps.
Proof.
  induction imps as [|i imps IH]; intros prev pos HR Hall.
  - cbn [map concat app]. now rewrite no_links_found.
  - inversion Hall as [|i' imps' Hi Himps]; subst.
    cbn [map concat]. rewrite <- !app_assoc.
    set (T := [nl] ++ concat (map (fun l => l ++ [nl]) (map Writer.import_line imps)) ++ R).
    destruct (import_link_first prev pos i T Hi) as (x & Hx & Hr & Hp & He);
      [reflexivity |].
    rewrite finditer_at_unfold.
    rewrite (search_from_here _ _ _ _ _ (ReMatch pos x)).
    2:{ rewrite match_at_first. cbn [m_pos]. now rewrite Hx. }
    cbv zeta. cbn [mt_start mt_final].
    replace (pos <? m_pos x) with true
      by (symmetry; apply Nat.ltb_lt; pose proof (import_line_not_empty i); lia).
    cbn [map]. rewrite He. f_equal. rewrite Hr. unfold T. cbn [app].
    rewrite finditer_at_skip by (apply import_link_needs_bracket; discriminate).
    now apply IH.
Qed.

End NoLinks.

(** ** The written sections hold no reference link *)

Section SectionLinks.
Import Re ReNotions ReFacts ReMore ReCalc.

Ltac nolink :=
  repeat first
    [ assumption
    | reflexivity
    | apply no_link_app;
      [ | | first [left; cbn; discriminate | right; cbn; discriminate] ] ].

Lemma block_no_link d :
  plain_LocalDefinition d -> no_link (definition_block d) = true.
Proof. intros (_ & _ & _ & Hn & Hc). unfold definition_block. nolink. Qed.

Lemma definitions_no_link ds :
  Forall plain_LocalDefinition ds ->
  no_link (Writer._serialize_local_definitions ds) = true.
Proof.
  intros Hall. destruct ds as [|d ds]; [reflexivity |].
  rewrite serialized_definitions_text.
  assert (HJ : no_link (Text.join [nl] (map definition_block (d :: ds))) = true).
  { apply no_link_join; [discriminate | reflexivity | discriminate | discriminate |].
    apply Forall_map. eapply List.Forall_impl; [| exact Hall]. apply block_no_link. }
  nolink.
Qed.

Lemma setup_no_link t :
  plain_setup (Some t) -> no_link (Writer._serialize_setup (Some t)) = true.
Proof.
  intros (Hne & _ & _ & Hl). unfold Writer._serialize_setup.
  rewrite (is_empty_false _ Hne). nolink.
Qed.

Lemma bullet_lines_no_link (l : list str) :
  Forall (fun t => no_link t = true) l ->
  Forall (fun t => no_link t = true) (map bullet_line l).
Proof.
  intros H. apply Forall_map. eapply List.Forall_impl; [| exact H].
  intros t Ht. unfold bullet_line. nolink.
Qed.

Lemma digits_no_link (n : nat) : no_link (Py.str_of_nat n) = true.
Proof.
  apply no_bracket_no_link. destruct (int_of_str n) as (_ & Hd & _).
  eapply List.Forall_impl; [| exact Hd]. intros c Hc ->. discriminate.
Qed.

Lemma step_lines_no_link (l : list Step) :
  Forall (fun t => no_link t = true) (map instruction l) ->
  Forall (fun t => no_link t = true) (map Writer.step_line l).
Proof.
  intros H. apply Forall_map. apply Forall_map in H.
  eapply List.Forall_impl; [| exact H].
  intros s Hs. unfold Writer.step_line. pose proof (digits_no_link (step_number s)).
  nolink.
Qed.

Lemma parts_no_link o :
  Forall (fun t => no_link t = true) (operation_texts o) ->
  Forall (fun p => Forall (fun t => no_link t = true) (snd p)) (operation_parts o).
Proof.
  unfold operation_texts. intros H. inversion H as [|? ? _ H']; subst.
  apply Forall_app in H' as [Hi H']. apply Forall_app in H' as [Ho H'].
  apply Forall_app in H' as [Hs Hc]. unfold operation_parts.
  apply Forall_app. split.
  { destruct (op_inputs o) as [|i l]; constructor; [| constructor].
    cbn [snd]. now apply bullet_lines_no_link. }
  apply Forall_app. split.
  { destruct (op_outputs o) as [|i l]; constructor; [| constructor].
    cbn [snd]. now apply bullet_lines_no_link. }
  apply Forall_app. split.
  { destruct (op_steps o) as [|i l]; constructor; [| constructor].
    cbn [snd]. now apply step_lines_no_link. }
  destruct (op_checklist o) as [c |]; [| constructor].
  destruct (items c) as [|i l]; constructor; [| constructor].
  cbn [snd]. now apply bullet_lines_no_link.
Qed.

Lemma sub_block_no_link p :
  plain_part p -> Forall (fun t => no_link t = true) (snd p) ->
  no_link (sub_block p) = true.
Proof.
  intros (Hw & _ & _) Hl. unfold sub_block.
  assert (HW : no_link (L (fst p)) = true)
    by (destruct Hw as [<- | [<- | [<- | [<- | []]]]]; reflexivity).
  assert (HJ : no_link (Text.join [nl] (snd p)) = true)
    by (apply no_link_join; [discriminate | reflexivity | discriminate | discriminate
                             | exact Hl]).
  nolink.
Qed.

Lemma operation_no_link o :
  plain_Operation o -> no_link (operation_text o) = true.
Proof.
  intros (Ho & _ & Hl). pose proof (operation_parts_plain o Ho) as Hp.
  pose proof (parts_no_link o Hl) as Hpl.
  assert (Hn : no_link (op_name o) = true) by (inversion Hl; assumption).
  unfold operation_text, operation_tail, operation_content.
  assert (HC : no_link (Text.join [nl; nl] (map sub_block (operation_parts o))) = true).
  { apply no_link_join; [discriminate | reflexivity | discriminate | discriminate |].
    apply Forall_map. rewrite List.Forall_forall in Hp, Hpl. apply List.Forall_forall.
    intros p Hin. apply sub_block_no_link; [now apply Hp | now apply Hpl]. }
  destruct (operation_parts o) as [|p ps].
  - nolink.
  - change (nl :: Text.join [nl; nl] (map sub_block (p :: ps)) ++ [nl])
      with ([nl] ++ Text.join [nl; nl] (map sub_block (p :: ps)) ++ [nl]).
    nolink.
Qed.

Lemma operations_no_link ops :
  Forall plain_Operation ops -> no_link (Writer._serialize_operations ops) = true.
Proof.
  intros Hall. destruct ops as [|o ops]; [reflexivity |].
  rewrite (serialize_operations_text o ops (plain_operations_writable _ Hall)).
  assert (HJ : no_link (Text.join [nl] (map operation_text (o :: ops))) = true).
  { apply no_link_join; [discriminate | reflexivity | discriminate | discriminate |].
    apply Forall_map. eapply List.Forall_impl; [| exact Hall]. apply operation_no_link. }
  nolink.
Qed.

(** The sections after the imports. *)
Lemma later_parts_no_link doc :
  plain_document doc ->
  Forall (fun s => no_link s = true)
         (definitions_part doc ++ setup_part doc ++ operations_part doc).
Proof.
  intros (_ & _ & Hd & Hs & Ho & _).
  apply Forall_app. split; [| apply Forall_app; split].
  - unfold definitions_part. destruct (definitions doc) as [|d l] eqn:E; constructor;
      [| constructor]. now apply definitions_no_link.
  - unfold setup_part. destruct (setup doc) as [t |]; [| constructor].
    destruct (Py.is_empty t); constructor; [| constructor]. now apply setup_no_link.
  - unfold operations_part. destruct (operations doc) as [|o l] eqn:E; constructor;
      [| constructor]. now apply operations_no_link.
Qed.

Lemma no_link_after (B : list str) :
  Forall (fun s => no_link s = true) B ->
  no_link (concat (map (fun b => [nl] ++ b) B)) = true.
Proof.
  induction 1 as [|b B Hb _ IH]; [reflexivity |]. cbn [map concat].
  rewrite <- app_assoc. apply no_link_app; [reflexivity | | left; discriminate].
  apply no_link_app; [exact Hb | exact IH |]. right.
  destruct B as [|b' B]; cbn; discriminate.
Qed.

End SectionLinks.

(** ** The body of the written document, read section by section *)

Section BodyRead.
Import Re ReNotions ReFacts ReMore ReCalc.

Lemma definitions_words :
  (forall st y, In y (rmatch DOTALL (Str "Local Definitions") st) ->
                exists w, In w [L "Local Definitions"] /\ m_rest st = w ++ m_rest y)
  /\ Forall (fun w => ~ In nl w) [L "Local Definitions"]
  /\ (forall w, In w [L "Local Definitions"] -> In w section_words).
Proof.
  split; [apply str_reads_word |]. split.
  - repeat constructor; cbn; intuition discriminate.
  - intros w [<- | []]; cbn; tauto.
Qed.

Lemma setup_words :
  (forall st y, In y (rmatch DOTALL (Str "Setup") st) ->
                exists w, In w [L "Setup"] /\ m_rest st = w ++ m_rest y)
  /\ Forall (fun w => ~ In nl w) [L "Setup"]
  /\ (forall w, In w [L "Setup"] -> In w section_words).
Proof.
  split; [apply str_reads_word |]. split.
  - repeat constructor; cbn; intuition discriminate.
  - intros w [<- | []]; cbn; tauto.
Qed.

Lemma operations_words :
  (forall st y, In y (rmatch DOTALL (Str "Operations") st) ->
                exists w, In w [L "Operations"] /\ m_rest st = w ++ m_rest y)
  /\ Forall (fun w => ~ In nl w) [L "Operations"]
  /\ (forall w, In w [L "Operations"] -> In w section_words).
Proof.
  split; [apply str_reads_word |]. split.
  - repeat constructor; cbn; intuition discriminate.
  - intros w [<- | []]; cbn; tauto.
Qed.

Lemma triggers_words :
  (forall st y, In y (rmatch DOTALL (Pat.plural "Trigger") st) ->
                exists w, In w [L "Trigger"; L "Trigger" ++ ["s"%char]]
                          /\ m_rest st = w ++ m_rest y)
  /\ Forall (fun w => ~ In nl w) [L "Trigger"; L "Trigger" ++ ["s"%char]]
  /\ (forall w, In w [L "Trigger"; L "Trigger" ++ ["s"%char]] -> In w section_words).
Proof.
  split; [apply plural_reads_words |]. split.
  - repeat constructor; cbn; intuition discriminate.
  - intros w [<- | [<- | []]]; cbn; tauto.
Qed.

Lemma plain_imports_writable imps :
  Forall plain_Import imps -> Forall writable_Import imps.
Proof. apply List.Forall_impl. intros i [H _]. exact H. Qed.

Lemma plain_definitions_writable ds :
  Forall plain_LocalDefinition ds -> Forall writable_LocalDefinition ds.
Proof. apply List.Forall_impl. intros d [H _]. exact H. Qed.

Lemma setup_part_starts doc :
  plain_setup (setup doc) ->
  Forall (fun b => exists t, b = "#"%char :: " "%char :: t) (setup_part doc).
Proof.
  intros H. unfold setup_part. destruct (setup doc) as [t |]; [| constructor].
  destruct H as (Hne & _). rewrite (is_empty_false _ Hne). constructor; [| constructor].
  unfold Writer._serialize_setup. rewrite (is_empty_false _ Hne). eexists. reflexivity.
Qed.

Lemma operations_part_starts doc :
  Forall (fun b => exists t, b = "#"%char :: " "%char :: t) (operations_part doc).
Proof.
  unfold operations_part. destruct (operations doc) as [|o l]; constructor; [| constructor].
  unfold Writer._serialize_operations. cbn [map]. rewrite join_cons. eexists. reflexivity.
Qed.

(** The imports. *)
Lemma body_imports lib doc :
  plain_document doc ->
  _parse_imports lib (Text.join [nl] (body_sections doc)) = Ok (imports doc).
Proof.
  intros Hdoc. pose proof (later_parts_no_link doc Hdoc) as HB.
  destruct Hdoc as (_ & Hi & _).
  rewrite parse_imports_total, finditer_is_at. f_equal.
  unfold body_sections, imports_part.
  set (B := definitions_part doc ++ setup_part doc ++ operations_part doc) in *.
  destruct (imports doc) as [|i l].
  - cbn [app]. rewrite no_links_found; [reflexivity |].
    now apply no_link_join; [discriminate | reflexivity | discriminate | discriminate |].
  - change ([Writer._serialize_imports (i :: l)] ++ B)
      with ([] ++ Writer._serialize_imports (i :: l) :: B).
    rewrite join_split. cbn [map concat app].
    unfold Writer._serialize_imports. rewrite join_lines by discriminate.
    apply import_lines_found_in; [now apply no_link_after |].
    now apply plain_imports_writable.
Qed.

(** The local definitions. *)
Lemma body_definitions lib doc :
  plain_document doc ->
  _parse_local_definitions lib (Text.join [nl] (body_sections doc)) = Ok (definitions doc).
Proof.
  intros (_ & Hi & Hd & Hs & Ho & _).
  destruct definitions_words as (W1 & W2 & W3).
  pose proof (pat_needs_hash (Str "Local Definitions")
                (Seq (Group 1 (Star false Pat.dot)) (heading_ahead (Pat.ch "#")))) as Hhash.
  pose proof (dead_imports_part _ (Seq (Group 1 (Star false Pat.dot))
                                       (heading_ahead (Pat.ch "#"))) _ W1 W2 W3 doc Hi) as DI.
  pose proof (dead_setup_part _ (Seq (Group 1 (Star false Pat.dot))
                                     (heading_ahead (Pat.ch "#"))) _ W1 W2 W3 doc Hs) as DS.
  pose proof (dead_operations_part _ (Seq (Group 1 (Star false Pat.dot))
                                          (heading_ahead (Pat.ch "#"))) _ W1 W2 W3 doc Ho)
    as DO.
  rewrite <- definitions_pat in Hhash, DI, DS, DO.
  unfold _parse_local_definitions, body_sections.
  unfold definitions_part at 1. destruct (definitions doc) as [|d ds] eqn:E.
  - cbn [app]. rewrite (search_joined_none _ Hhash); [reflexivity |].
    apply Forall_app. split; [exact DI |]. apply Forall_app. split.
    + apply DS. cbn. intuition discriminate.
    + apply DO. cbn. intuition discriminate.
  - change (imports_part doc
              ++ [Writer._serialize_local_definitions (d :: ds)]
              ++ setup_part doc ++ operations_part doc)
      with (imports_part doc
              ++ Writer._serialize_local_definitions (d :: ds)
              :: (setup_part doc ++ operations_part doc)).
    destruct (search_joined _ Hhash (imports_part doc)
                            (Writer._serialize_local_definitions (d :: ds))
                            (setup_part doc ++ operations_part doc)
                            (Text.join [nl] (map definition_block (d :: ds))) DI)
      as (m & -> & Hg).
    { intros prev pos. apply definitions_found_in; [now apply plain_definitions_writable |].
      destruct (later_sections_start (setup_part doc ++ operations_part doc)) as [-> | H];
        [| now left | now right].
      apply Forall_app. split; [now apply setup_part_starts | apply operations_part_starts]. }
    rewrite Hg, finditer_is_at.
    apply definition_blocks_found. now apply plain_definitions_writable.
Qed.

(** The setup. *)
Lemma body_setup doc :
  plain_document doc ->
  _parse_setup (Text.join [nl] (body_sections doc)) = setup doc.
Proof.
  intros (_ & Hi & Hd & Hs & Ho & _).
  destruct setup_words as (W1 & W2 & W3).
  pose proof (pat_needs_hash (Str "Setup")
                (Seq (Group 1 (Star false Pat.dot)) (heading_ahead (Pat.ch "#")))) as Hhash.
  pose proof (dead_imports_part _ (Seq (Group 1 (Star false Pat.dot))
                                       (heading_ahead (Pat.ch "#"))) _ W1 W2 W3 doc Hi) as DI.
  pose proof (dead_definitions_part _ (Seq (Group 1 (Star false Pat.dot))
                                           (heading_ahead (Pat.ch "#"))) _ W1 W2 W3 doc Hd)
    as DD.
  pose proof (dead_operations_part _ (Seq (Group 1 (Star false Pat.dot))
                                          (heading_ahead (Pat.ch "#"))) _ W1 W2 W3 doc Ho)
    as DO.
  rewrite <- setup_pat in Hhash, DI, DD, DO.
  assert (HA : Forall (fun s => forall prev rest,
                           dead_run DOTALL Pat.setup_section prev s rest)
                      (imports_part doc ++ definitions_part doc)).
  { apply Forall_app. split; [exact DI |]. apply DD. cbn. intuition discriminate. }
  unfold _parse_setup, body_sections. rewrite (app_assoc (imports_part doc)).
  unfold setup_part at 1. destruct (setup doc) as [t |] eqn:E.
  - destruct Hs as (Hne & Hst & Hh & _). rewrite (is_empty_false _ Hne).
    change ((imports_part doc ++ definitions_part doc)
              ++ [Writer._serialize_setup (Some t)] ++ operations_part doc)
      with ((imports_part doc ++ definitions_part doc)
              ++ Writer._serialize_setup (Some t) :: operations_part doc).
    destruct (search_joined _ Hhash (imports_part doc ++ definitions_part doc)
                            (Writer._serialize_setup (Some t)) (operations_part doc)
                            (t ++ [nl]) HA)
      as (m & -> & Hg).
    { intros prev pos. apply setup_found_in; try assumption.
      destruct (later_sections_start (operations_part doc)) as [-> | H];
        [apply operations_part_starts | now left | now right]. }
    rewrite Hg. f_equal. apply (strip_padded [] t [nl]); auto.
  - cbn [app]. rewrite (search_joined_none _ Hhash); [reflexivity |].
    apply Forall_app. split; [exact HA |]. apply DO. cbn. intuition discriminate.
Qed.

(** The operations. *)
Lemma body_operations lib doc :
  plain_document doc ->
  _parse_operations lib (Text.join [nl] (body_sections doc)) = Ok (operations doc).
Proof.
  intros (_ & Hi & Hd & Hs & Ho & _).
  destruct operations_words as (W1 & W2 & W3).
  pose proof (pat_needs_hash (Str "Operations")
                (Seq (Group 1 (Star true Pat.dot)) Eol)) as Hhash.
  pose proof (dead_imports_part _ (Seq (Group 1 (Star true Pat.dot)) Eol) _
                                W1 W2 W3 doc Hi) as DI.
  pose proof (dead_definitions_part _ (Seq (Group 1 (Star true Pat.dot)) Eol) _
                                    W1 W2 W3 doc Hd) as DD.
  pose proof (dead_setup_part _ (Seq (Group 1 (Star true Pat.dot)) Eol) _
                              W1 W2 W3 doc Hs) as DS.
  rewrite <- operations_pat in Hhash, DI, DD, DS.
  assert (HA : Forall (fun s => forall prev rest,
                           dead_run DOTALL Pat.operations_section prev s rest)
                      (imports_part doc ++ definitions_part doc ++ setup_part doc)).
  { apply Forall_app. split; [exact DI |]. apply Forall_app. split.
    - apply DD. cbn. intuition discriminate.
    - apply DS. cbn. intuition discriminate. }
  unfold _parse_operations, body_sections.
  rewrite (app_assoc (definitions_part doc)), (app_assoc (imports_part doc)).
  unfold operations_part. destruct (operations doc) as [|o ops] eqn:E.
  - rewrite app_nil_r. rewrite (search_joined_none _ Hhash); [reflexivity | exact HA].
  - pose proof (plain_operations_writable _ Ho) as Hw.
    destruct (search_joined _ Hhash
                            (imports_part doc ++ definitions_part doc ++ setup_part doc)
                            (Writer._serialize_operations (o :: ops)) []
                            (Text.join [nl] (map operation_text (o :: ops))) HA)
      as (m & -> & Hg).
    { intros prev pos. cbn [map concat]. now apply operations_found_in. }
    cbv zeta. rewrite Hg, (boundaries_found o ops Hw).
    exact (operations_read lib ops o [] Hw).
Qed.

(** No Triggers section. *)
Lemma body_triggers lib doc :
  plain_document doc ->
  _parse_triggers lib (Text.join [nl] (body_sections doc)) = Ok [].
Proof.
  intros (_ & Hi & Hd & Hs & Ho & _).
  destruct triggers_words as (W1 & W2 & W3).
  set (K := Seq (Group 1 (Star true Pat.dot))
                (Look true (Alt (Seqs [Pat.newline; Pat.ch "#"; Pat.sp_plus;
                                       Plus true Pat.not_nl; Pat.newline]) EndZ))).
  pose proof (pat_needs_hash (Pat.plural "Trigger") K) as Hhash.
  pose proof (dead_imports_part _ K _ W1 W2 W3 doc Hi) as DI.
  pose proof (dead_definitions_part _ K _ W1 W2 W3 doc Hd) as DD.
  pose proof (dead_setup_part _ K _ W1 W2 W3 doc Hs) as DS.
  pose proof (dead_operations_part _ K _ W1 W2 W3 doc Ho) as DO.
  unfold K in *. rewrite <- triggers_pat in Hhash, DI, DD, DS, DO.
  unfold _parse_triggers, body_sections.
  rewrite (search_joined_none _ Hhash); [reflexivity |].
  apply Forall_app. split; [exact DI |]. apply Forall_app. split.
  - apply DD. cbn. intuition discriminate.
  - apply Forall_app. split.
    + apply DS. cbn. intuition discriminate.
    + apply DO. cbn. intuition discriminate.
Qed.

End BodyRead.

(** ** The frontmatter of the written document *)

Section FrontmatterRead.
Import Re ReNotions ReFacts ReMore ReCalc.

(** The end of a line that no white space follows. *)
Lemma rmatch_line_end K st T :
  m_rest st = nl :: T ->
  match T with [] => True | c :: _ => Py.isspace c = false end ->
  rmatch DOTALL (Seq Pat.sp_star (Seq Pat.newline K)) st = rmatch DOTALL K (advance nl T st).
Proof.
  intros Hr HT. rewrite rmatch_seq.
  change (rmatch DOTALL Pat.sp_star st) with (rmatch DOTALL (Star true (Chr (One ASpace))) st).
  rewrite (greedy_gives_back DOTALL (One ASpace) (rmatch DOTALL (Seq Pat.newline K)) T [nl] st).
  - apply rmatch_seq_one. unfold Pat.newline. rewrite rmatch_ch by reflexivity.
    now rewrite Hr.
  - exact Hr.
  - repeat constructor.
  - exact HT.
  - intros x j Hj Hx. cbn [length] in Hj. assert (j = 1) as -> by lia. cbn in Hx.
    apply rmatch_seq_none. unfold Pat.newline. rewrite rmatch_ch by reflexivity.
    rewrite Hx. destruct T as [|c T]; [reflexivity |].
    destruct (Py.ascii_eqb nl c) eqn:E; [| reflexivity].
    apply Ascii.eqb_eq in E. subst c. discriminate.
Qed.

Lemma contains_drop (p : str) : forall w j,
    Py.contains p w = false -> Py.startswith p (drop j w) = false.
Proof.
  induction w as [|c w IH]; intros j H.
  - destruct j; cbn [drop]; cbn [Py.contains] in H; apply orb_false_iff in H as [H _];
      exact H.
  - cbn [Py.contains] in H. apply orb_false_iff in H as [H1 H2].
    destruct j as [|j]; [exact H1 |]. cbn [drop]. now apply IH.
Qed.

(** A text without a line of three dashes, before a line of three
    dashes: that line starts nowhere inside the text. *)
Lemma fence_not_inside (w : str) j rest :
  Py.contains (nl :: L "---") w = false -> j < length w ->
  Py.startswith (nl :: L "---") (drop j w ++ nl :: rest) = false.
Proof.
  intros Hc Hj. pose proof (contains_drop _ w j Hc) as Hu.
  assert (Hne : drop j w <> []).
  { intros E. apply (f_equal (@length ascii)) in E. rewrite length_drop in E.
    simpl in E. lia. }
  destruct (drop j w) as [|a [|b [|c [|d u]]]]; [congruence | | | |];
    cbn [app L list_ascii_of_string Py.startswith] in *.
  - replace (Py.ascii_eqb "-" nl) with false by reflexivity. cbn [andb].
    now rewrite andb_false_r.
  - replace (Py.ascii_eqb "-" nl) with false by reflexivity. cbn [andb].
    now rewrite !andb_false_r.
  - replace (Py.ascii_eqb "-" nl) with false by reflexivity. cbn [andb].
    now rewrite !andb_false_r.
  - exact Hu.
Qed.

Lemma closing_fence_needed st :
  Py.startswith (nl :: L "---") (m_rest st) = false ->
  forall K, rmatch DOTALL (Seq Pat.newline (Seq (Str "---") K)) st = [].
Proof.
  intros H K. rewrite rmatch_seq. unfold Pat.newline. rewrite rmatch_ch by reflexivity.
  destruct (m_rest st) as [|c r] eqn:Hr; [reflexivity |].
  cbn [Py.startswith] in H. destruct (Py.ascii_eqb nl c); [| reflexivity].
  cbn [andb] in H. cbn [flat_map]. rewrite app_nil_r.
  apply rmatch_seq_none. rewrite rmatch_str by reflexivity. cbn [advance m_rest].
  now rewrite H.
Qed.

(** The rest of the text, taken by a greedy group before the end. *)
Lemma rest_to_eol n y :
  first_match DOTALL (Seq (Group n (Star true Pat.dot)) Eol) y
  = Some (MState (prev_after (m_prev y) (m_rest y)) (m_pos y + length (m_rest y)) []
                 ((n, (m_pos y, m_rest y)) :: m_caps y)).
Proof.
  eapply first_seq.
  - rewrite first_group. unfold Pat.dot.
    rewrite (first_star_run DOTALL (One AAny) (m_rest y) y []).
    + cbn [option_map]. rewrite set_cap_gone_over by now rewrite app_nil_r.
      reflexivity.
    + now rewrite app_nil_r.
    + apply Forall_forall. intros a _. reflexivity.
    + exact I.
  - reflexivity.
Qed.

(** The end of the line of the closing fence: the body starts after it,
    or after the newline that separates the body from the frontmatter. *)
Lemma fence_line_end K st R :
  m_rest st = nl :: R ->
  match R with
  | [] => True
  | a :: b => a = nl /\ match b with [] => False | d :: _ => Py.isspace d = false end
  end ->
  exists y,
    m_rest y = match R with [] => [] | _ :: b => b end
    /\ m_caps y = m_caps st
    /\ forall z, first_match DOTALL K y = Some z ->
                 first_match DOTALL (Seq Pat.sp_star (Seq Pat.newline K)) st = Some z.
Proof.
  intros Hr HR. destruct R as [|a b].
  - exists (advance nl [] st). split; [reflexivity |]. split; [reflexivity |].
    intros z Hz. unfold first_match. rewrite (rmatch_line_end K st []); [exact Hz | exact Hr |].
    exact I.
  - destruct HR as [-> Hb]. destruct b as [|d b]; [contradiction |].
    exists (gone_over st [nl; nl] (d :: b)). split; [reflexivity |]. split; [reflexivity |].
    intros z Hz. now apply (first_blank_line K st d b).
Qed.

(** The frontmatter of a written document is found, with the dumped
    metadata and the body. *)
Lemma frontmatter_found c t R :
  Py.isspace c = false -> Py.contains (nl :: L "---") (c :: t) = false ->
  match R with
  | [] => True
  | a :: b => a = nl /\ match b with [] => False | d :: _ => Py.isspace d = false end
  end ->
  exists m,
    re_match DOTALL Pat.frontmatter
             (L "---" ++ [nl] ++ ((c :: t) ++ [nl]) ++ L "---" ++ [nl] ++ R)
    = Some m
    /\ group_str m 1 = c :: t
    /\ group_str m 2 = match R with [] => [] | _ :: b => b end.
Proof.
  intros Hc Hno HR.
  set (tail := nl :: L "---" ++ nl :: R).
  set (text := L "---" ++ [nl] ++ ((c :: t) ++ [nl]) ++ L "---" ++ [nl] ++ R).
  assert (Etext : text = L "---" ++ nl :: (c :: t) ++ tail).
  { unfold text, tail. rewrite <- !app_assoc. reflexivity. }
  set (st0 := MState None 0 text []).
  set (st1 := gone_over st0 (L "---") (nl :: (c :: t) ++ tail)).
  set (st2 := advance nl ((c :: t) ++ tail) st1).
  set (st3 := MState (prev_after (m_prev st2) (c :: t)) (m_pos st2 + length (c :: t)) tail
                     ((1, (m_pos st2, c :: t)) :: m_caps st2)).
  set (st4 := advance nl (L "---" ++ nl :: R) st3).
  set (st5 := gone_over st4 (L "---") (nl :: R)).
  set (K3 := Seq (Group 2 (Star true Pat.dot)) Eol).
  destruct (fence_line_end K3 st5 R eq_refl HR) as (st6 & Hr6 & Hc6 & H56).
  set (st7 := MState (prev_after (m_prev st6) (m_rest st6)) (m_pos st6 + length (m_rest st6))
                     [] ((2, (m_pos st6, m_rest st6)) :: m_caps st6)).
  assert (H5 : first_match DOTALL (Seq Pat.sp_star (Seq Pat.newline K3)) st5 = Some st7)
    by (apply H56, rest_to_eol).
  assert (H3 : first_match DOTALL
                           (Seq Pat.newline
                                (Seq (Str "---") (Seq Pat.sp_star (Seq Pat.newline K3))))
                           st3 = Some st7).
  { eapply first_seq.
    - unfold Pat.newline, Pat.ch. rewrite first_chr. reflexivity.
    - eapply first_seq; [| exact H5].
      unfold first_match. rewrite rmatch_str by reflexivity. reflexivity. }
  assert (H2 : first_match DOTALL
                           (Seq (Group 1 (Star false Pat.dot))
                                (Seq Pat.newline
                                     (Seq (Str "---")
                                          (Seq Pat.sp_star (Seq Pat.newline K3)))))
                           st2 = Some st7).
  { unfold Pat.dot. apply (first_lazy_group DOTALL 1 (One AAny) _ st2 (c :: t) tail).
    - reflexivity.
    - apply Forall_forall. intros a _. reflexivity.
    - intros x j Hj Hx. apply closing_fence_needed. rewrite Hx.
      now apply fence_not_inside.
    - exact H3. }
  assert (H0 : first_match DOTALL Pat.frontmatter st0 = Some st7).
  { unfold Pat.frontmatter. cbn [Seqs].
    eapply first_seq; [reflexivity |].
    eapply first_seq.
    { unfold first_match. rewrite rmatch_str by reflexivity. cbn [st0 m_rest].
      rewrite Etext, startswith_app, drop_app_length. reflexivity. }
    unfold first_match. rewrite (rmatch_line_end _ _ ((c :: t) ++ tail));
      [exact H2 | reflexivity | exact Hc]. }
  exists (ReMatch 0 st7). split; [| split].
  - unfold re_match. rewrite match_at_first. fold text. fold st0. now rewrite H0.
  - unfold group_str, group. cbn [mt_final st7 m_caps cap_lookup Nat.eqb]. rewrite Hc6.
    reflexivity.
  - unfold group_str, group. cbn [mt_final st7 m_caps cap_lookup Nat.eqb]. exact Hr6.
Qed.

End FrontmatterRead.

(** ** A written document, read back *)

Section DocumentRead.
Import Re.

(** Every section of the body starts with a character that is not white
    space. *)
Lemma part_starts doc :
  plain_document doc ->
  Forall (fun b => exists d t, b = d :: t /\ Py.isspace d = false) (body_sections doc).
Proof.
  intros (_ & _ & _ & Hs & _).
  assert (Hash : forall l : list str,
             Forall (fun b => exists t, b = "#"%char :: " "%char :: t) l ->
             Forall (fun b => exists d t, b = d :: t /\ Py.isspace d = false) l).
  { apply List.Forall_impl. intros b [t ->]. now exists "#"%char, (" "%char :: t). }
  unfold body_sections. repeat (apply Forall_app; split).
  - unfold imports_part. destruct (imports doc) as [|i l]; constructor; [| constructor].
    unfold Writer._serialize_imports. cbn [map].
    exists "["%char. unfold Writer.import_line at 1.
    destruct (map Writer.import_line l), (has_anchor i); cbn [Text.join];
      eexists; (split; [reflexivity | reflexivity]).
  - unfold definitions_part. destruct (definitions doc) as [|d l]; constructor; [| constructor].
    unfold Writer._serialize_local_definitions. cbn [flat_map app]. rewrite join_cons.
    exists "#"%char. eexists. split; reflexivity.
  - now apply Hash, setup_part_starts.
  - apply Hash, operations_part_starts.
Qed.

Lemma join_starts (bs : list str) :
  bs <> [] ->
  Forall (fun b => exists d t, b = d :: t /\ Py.isspace d = false) bs ->
  exists d t, Text.join [nl] bs = d :: t /\ Py.isspace d = false.
Proof.
  intros Hne H. destruct bs as [|b bs]; [congruence |].
  apply Forall_cons in H as [(d & t & -> & Hd) _].
  exists d. destruct bs; cbn [Text.join app]; eexists; (split; [reflexivity | exact Hd]).
Qed.

(** The text of a document: the frontmatter, then the sections of the
    body. *)
Lemma document_text host doc :
  Text.join [nl] (Writer.document_sections host doc)
  = Writer._serialize_metadata host (metadata doc)
      ++ match body_sections doc with
         | [] => []
         | _ :: _ => nl :: Text.join [nl] (body_sections doc)
         end.
Proof.
  change (Writer.document_sections host doc)
    with (Writer._serialize_metadata host (metadata doc) :: body_sections doc).
  destruct (body_sections doc); cbn [Text.join]; [now rewrite app_nil_r | reflexivity].
Qed.

(** What the frontmatter alone gives, the frontmatter gives with a body
    after it. *)
Lemma extract_with_body lib host meta data R :
  plain_dump (yaml_safe_dump host
                [(L "Name", VStr (md_name meta)); (L "Type", VStr (md_type meta));
                 (L "Description", VStr (md_description meta))]) ->
  match R with
  | [] => True
  | a :: b => a = nl /\ match b with [] => False | d :: _ => Py.isspace d = false end
  end ->
  _extract_metadata lib (Writer._serialize_metadata host meta) = Ok (meta, [], data) ->
  _extract_metadata lib (Writer._serialize_metadata host meta ++ R)
  = Ok (meta, match R with [] => [] | _ :: b => b end, data).
Proof.
  intros (c & t & Hy & Hc & Hno) HR.
  unfold _extract_metadata, Writer._serialize_metadata. cbv zeta. rewrite Hy.
  destruct (frontmatter_found c t [] Hc Hno I) as (m0 & E0 & G01 & G02).
  destruct (frontmatter_found c t R Hc Hno HR) as (m & E & G1 & G2).
  assert (T0 : L "---" ++ [nl] ++ ((c :: t) ++ [nl]) ++ L "---" ++ [nl]
               = L "---" ++ [nl] ++ ((c :: t) ++ [nl]) ++ L "---" ++ [nl] ++ []) by reflexivity.
  assert (T : (L "---" ++ [nl] ++ ((c :: t) ++ [nl]) ++ L "---" ++ [nl]) ++ R
              = L "---" ++ [nl] ++ ((c :: t) ++ [nl]) ++ L "---" ++ [nl] ++ R)
    by now rewrite <- !app_assoc.
  rewrite T, E. rewrite T0, E0. rewrite G01, G02, G1, G2.
  destruct (yaml_safe_load lib (c :: t)) as [v | e | e]; [| discriminate | discriminate].
  destruct v as [| | | | | l]; try discriminate.
  destruct (missing_field l "Name"); [| discriminate].
  destruct (missing_field l "Type"); [| discriminate].
  destruct (missing_field l "Description"); [| discriminate].
  cbn [bind]. destruct (new_Metadata _ _ _ _ _); [| discriminate].
  intros [= -> ->]. reflexivity.
Qed.

(** The frontmatter of a written document. *)
Lemma written_metadata_read lib host doc data :
  plain_document doc ->
  plain_dump (yaml_safe_dump host
                [(L "Name", VStr (md_name (metadata doc)));
                 (L "Type", VStr (md_type (metadata doc)));
                 (L "Description", VStr (md_description (metadata doc)))]) ->
  _extract_metadata lib (Writer._serialize_metadata host (metadata doc))
  = Ok (metadata doc, [], data) ->
  _extract_metadata lib (Text.join [nl] (Writer.document_sections host doc))
  = Ok (metadata doc, Text.join [nl] (body_sections doc), data).
Proof.
  intros Hdoc Hy Hm. rewrite document_text.
  destruct (body_sections doc) as [|b bs] eqn:Eb.
  - now apply (extract_with_body lib host (metadata doc) data []).
  - destruct (join_starts (b :: bs)) as (d & t & Ej & Hd); [discriminate | |].
    { rewrite <- Eb. now apply part_starts. }
    rewrite Ej.
    now apply (extract_with_body lib host (metadata doc) data (nl :: d :: t)).
Qed.

(** The document that the writer writes for a plain document is read
    back as that document. *)
Lemma document_read_back lib host doc data :
  plain_document doc ->
  plain_dump (yaml_safe_dump host
                [(L "Name", VStr (md_name (metadata doc)));
                 (L "Type", VStr (md_type (metadata doc)));
                 (L "Description", VStr (md_description (metadata doc)))]) ->
  _extract_metadata lib (Writer._serialize_metadata host (metadata doc))
  = Ok (metadata doc, [], data) ->
  truthy (get_or_none "Triggers" data) = false ->
  parse_document lib (Text.join [nl] (Writer.document_sections host doc)) = Ok (Plain doc).
Proof.
  intros Hdoc Hy Hm Htr.
  unfold parse_document, parse_document_body.
  rewrite (written_metadata_read lib host doc data Hdoc Hy Hm). cbn [bind].
  rewrite (body_imports lib doc Hdoc). cbn [bind].
  rewrite (body_definitions lib doc Hdoc). cbn [bind].
  rewrite (body_setup doc Hdoc).
  rewrite (body_operations lib doc Hdoc). cbn [bind].
  rewrite (body_triggers lib doc Hdoc).
  destruct Hdoc as (Hty & _ & _ & _ & _ & Ht).
  rewrite (str_eqb_neq _ _ Hty).
  unfold _parse_frontmatter_triggers. cbv zeta. rewrite Htr. cbn [negb bind app].
  destruct doc. cbn in Ht |- *. now rewrite Ht.
Qed.

End DocumentRead.

(** X24.  What [write_busy_document] writes for a plain document,
    [parse_document] reads back as the same document: a document that is
    not a Tool document and has no triggers, whose imports, definitions,
    setup and operations are plain texts that are not taken for headings,
    sections or reference links, and whose frontmatter alone the YAML
    library dumps and loads back as its metadata, without a [Triggers]
    key. *)
Theorem written_document_read_back lib host doc data path ws p content :
  plain_document doc ->
  plain_dump (yaml_safe_dump host
                [(L "Name", VStr (md_name (metadata doc)));
                 (L "Type", VStr (md_type (metadata doc)));
                 (L "Description", VStr (md_description (metadata doc)))]) ->
  _extract_metadata lib (Writer._serialize_metadata host (metadata doc))
  = Ok (metadata doc, [], data) ->
  truthy (get_or_none "Triggers" data) = false ->
  Writer.write_busy_document host (Plain doc) path ws = Ok (p, content) ->
  parse_document lib content = Ok (Plain doc).
Proof.
  intros Hdoc Hy Hm Htr Hw. unfold Writer.write_busy_document in Hw.
  destruct (match ws with Some w => Some w | None => get_current_workspace host end);
    [| discriminate].
  cbn [doc_fields] in Hw.
  destruct (Py.is_empty (md_name (metadata doc))); [discriminate |].
  destruct (Py.is_empty (md_type (metadata doc))); [discriminate |].
  destruct (Py.is_empty (md_description (metadata doc))); [discriminate |].
  injection Hw as _ <-. now apply (document_read_back lib host doc data).
Qed.

Lemma written_document_read_back_witness :
  Writer.write_busy_document FixtureHost.host (Plain review_document)
                             (L "/srv/workspace/review.busy.md") None
  = Ok (L "review.busy.md", review_text)
  /\ parse_document FixtureYaml.lib review_text = Ok (Plain review_document).
Proof.
  split; [reflexivity |].
  apply (written_document_read_back
           FixtureYaml.lib FixtureHost.host review_document
           [(L "Name", VStr (L "Review")); (L "Type", VStr (L "[Operation]"));
            (L "Description", VStr (L "Daily review"))]
           (L "/srv/workspace/review.busy.md") None (L "review.busy.md")).
  - unfold plain_document, review_document.
    cbn [metadata md_type imports definitions setup operations triggers].
    repeat split; try discriminate; try reflexivity;
      repeat constructor; try discriminate; try reflexivity;
      cbn; try lia; intuition discriminate.
  - exists "N"%char, (L "ame: Review" ++ [Re.nl] ++ L "Type: '[Operation]'" ++ [Re.nl]
                        ++ L "Description: Daily review").
    repeat split; reflexivity.
  - reflexivity.
  - reflexivity.
  - reflexivity.
Defined.
